(* ===== verification/_CoqProject ===== *)
-Q . S2P
Prelude.v
RustStd.v
Json.v
Common.v
Bpf.v
PathDeny.v
LsmHook.v
DenyRefine.v
EnvCapture.v
IdentityAllow.v
Attestation.v
SideTable.v
CgroupPath.v
PodWatch.v
TeardownWatch.v
Correlator.v
CorrelatorSteps.v
CorrelatorTasks.v
PolicySync.v
PolicySteps.v
ExecMapper.v
Detection.v
PinAbi.v
BtfOffsets.v
LsmPin.v
Metrics.v
Integrity.v
System.v
Startup.v
Ingestion.v
Protobuf.v
Monitors.v
SysExec.v
NetworkFilter.v
Forwarder.v
Datadog.v
Splunk.v
Documents.v
Loader.v
MetricEvents.v
SinkBodies.v
AlertStream.v
Endpoints.v
WasmPolicy.v
Build.v
TestKit.v
ConfPolicy.v
ConfExec.v
ConfCorrelator.v
ConfPin.v
ConfOps.v
