(* ===== verification/Prelude.v ===== *)
(** * Neuromesh eBPF sensor: a verification library

    Neuromesh enforces, on each Kubernetes node, that nothing is executed from
    denied directories. The part verified here is the node agent,
    [apps/agent-ebpf-sensor], with the contract package [packages/neuromesh-common]
    it shares with its kernel programs, and the two services that read its alerts
    from Kafka, [apps/datadog-forwarder] and [apps/splunk-hec-forwarder]; also the
    metric events of [packages/telemetry].

    ** The program and its parts

    - The LSM program ([ebpf/src/main.rs]) runs on every [execve]: it reads the
      path, compares it with the deny list in the BPF arrays [PATH_DENY_LIST] and
      [PATH_DENY_COUNT], lets a task of an allowed cgroup run below [/tmp/] while
      the exceptions are marked valid, and reports a denial in a ring buffer.
    - User space fills those maps: [path_deny.rs] writes the deny list,
      [identity_allow.rs] the exceptions and their validity flag.
    - [policy_sync.rs] fetches a signed policy bundle, verifies it and applies both
      halves; [bytecode_attestation.rs] verifies the embedded kernel objects with
      the same signature primitives; [pin_abi.rs] migrates maps pinned by an older
      release before the program is loaded.
    - [identity_correlator/] decides which cgroups are exceptions: it follows pods,
      resolves their cgroup directories, keeps a side table of what it seeded and
      takes exceptions back when a pod, a directory or an allowlist entry goes.
    - Two C programs make the rest visible: [bpf/sys_exec.bpf.c] captures each
      [execve] and [execveat] below a rate limit, with arguments and the allowlisted
      environment, and [bpf/network_filter.bpf.c] each outgoing TCP connection.
    - Records of the kernel programs come back through [monitoring/] into the
      detection pipeline ([rules.rs], [normalizer.rs], [pipeline.rs]) and leave as
      alerts ([event_loop.rs], [telemetry_stream.rs]); the monitors also feed the
      bounded channel of [ingestion/], which a publisher task drains into Kafka.
    - [startup.rs] and [main.rs] put these together in an order that fails closed:
      attestation, pin migration, load, deny list, attachment. [lsm_pin.rs] hands
      the enforcing link over from the previous run, [btf_offsets.rs] finds the
      kernel-structure offsets the programs read at, [integrity.rs], [metrics.rs]
      and [health.rs] watch the running agent.
    - Each forwarder consumes the alert topic into a bounded queue, from which a
      worker posts one alert at a time with retries; the code they share is in
      both their source trees.

    ** Files

    - [Prelude]: bytes and machine integers, the error type, the [result] and state
      monads, loops that stop at the first error, the triples and frame rules used
      to reason about them, the hint database [neuro].
    - [RustStd]: the standard-library string, parsing, formatting and UTF-8
      functions the sources call.
    - [Json]: JSON texts, their reader and writer, and what derived readers do with
      the members of an object: the instance of [serde_json] the documents use.
    - [Common]: [neuromesh-common/src/lib.rs]: constants, [ExecEvent] and its packed
      layout, [SecurityTelemetryEvent], deny entries, the pinned-map table.
    - [Bpf]: the interface the agent has to its BPF maps, as type classes with laws
      (array, hash, ring buffer), and instances: one that injects failures from a
      schedule and one that never fails.
    - [PathDeny]: [path_deny.rs], [lsm_decision.rs]: deny-list writer, bootstrap
      list, user-space matcher, freshness state.
    - [LsmHook]: [ebpf/src/main.rs]: the whole hook [nm_lsm_bprm] over a record of
      kernel-helper answers, the exec record it writes.
    - [DenyRefine]: the deny-list writer against the hook: what the kernel enforces
      after a call and between any two of its writes.
    - [EnvCapture]: [env_capture.rs]: capture of allowlisted environment variables
      into slots and their redaction.
    - [IdentityAllow]: [identity_allow.rs]: bundle parsing, validity of the identity
      section, the exception maps.
    - [Attestation]: [bytecode_attestation.rs].
    - [SideTable]: [identity_correlator/side_table.rs], [allowlist.rs],
      [invalidate.rs]: the three indexes and the plans computed from them.
    - [CgroupPath]: [path_parse.rs], [spiffe.rs], [container_match.rs],
      [cgroup_resolve.rs].
    - [PodWatch]: [pod_watch.rs]: the API client's configuration, pod views, the
      chunked JSON-lines reader and the watch loop.
    - [TeardownWatch]: [teardown_watch.rs]: the inotify watch tables.
    - [Correlator]: [mod.rs], [reconcile.rs]: the correlator as a state machine over
      its events, with the side table, the kernel maps and the allowlist.
    - [CorrelatorTasks]: the tasks of [mod.rs] (inotify worker, loop, pod watch) over
      their channels, interleaved with the policy task.
    - [PolicySync]: [policy_sync.rs]: one synchronisation, one turn of the loop.
    - [ExecMapper]: [monitoring/exec_mapper.rs], [event.rs], [ringbuf_decode.rs],
      [network_event.rs], [correlation.rs].
    - [Detection]: [rules.rs], [normalizer.rs], [pipeline.rs],
      [telemetry_stream.rs], the ring-buffer arm of [event_loop.rs].
    - [PinAbi]: [pin_abi.rs]: classification and crash-safe migration of pins.
    - [BtfOffsets]: [btf_offsets.rs]: the BTF parser and the offsets it resolves.
    - [LsmPin]: [lsm_pin.rs], [bpf_pin.rs]: the pin directory, the seed plan for the
      deny list, the handoff of the enforcing link.
    - [Metrics]: [observability/metrics.rs], [health.rs]: counters, health ticks.
    - [Integrity]: [integrity.rs], [healthz.rs], [prometheus.rs]: the periodic
      checks and the health verdict.
    - [Startup]: [main.rs], [startup.rs], [startup_sequence.rs], [visibility.rs].
    - [Ingestion]: [ingestion/]: the bounded channel and the Kafka publisher.
    - [Protobuf]: [ingestion/encoder.rs], [network_event.proto]: the correlation
      records on the wire.
    - [Monitors]: [process_monitor.rs], [network_monitor.rs], [event_loop.rs]: the
      tasks of the running agent.
    - [SysExec]: [bpf/sys_exec.bpf.c], [exec_event.h]: the tracepoints of [execve] and
      [execveat] over a record of kernel-helper answers, their token bucket and the
      captures.
    - [NetworkFilter]: [bpf/network_filter.bpf.c]: the [tcp_connect] probe, and how a
      connection is attributed to the process captured before it.
    - [Forwarder]: what the two forwarders share, over the class [Sink].
    - [Datadog], [Splunk]: the configuration, the body and the [Sink] of each.
    - [Documents]: the policy bundle, the bytecode manifest, the API server's
      replies, the alerts and their envelope as JSON texts.
    - [SinkBodies]: the requests the forwarders make, the health report, their [main].
    - [System]: the policy loop, the correlator and the LSM program of one node over
      the maps they share, against the policy in force.
    - [Loader]: the attachment in [monitoring/] and [bin/verify_ebpf.rs].
    - [MetricEvents]: [packages/telemetry/src/lib.rs].
    - [AlertStream]: the tasks of [telemetry_stream.rs], and the topic they fill as the
      forwarders consume it.
    - [Endpoints]: the metric registries of the agent and the forwarders, [/metrics],
      [/healthz] and their servers, over an interface of the prometheus crate.
    - [WasmPolicy]: [wasm_policy.rs] and the doubles of [mocks/].
    - [Build]: [build.rs] of the agent.
    - [TestKit], [ConfPolicy], [ConfExec], [ConfCorrelator], [ConfPin], [ConfOps]: the
      unit tests of the sources, each a boolean of the same name that evaluates to
      [true] on the definitions.

    Definitions keep the names of the source. A struct is a record, an enum an
    inductive type, a function that returns [Result] one into [result], a method
    that also mutates one into [stm], which returns the state it leaves on either
    outcome. A clock reading, an environment variable, the contents of a file or
    the answer of a kernel helper is an argument, one per reading.

    ** What the theorems show

    - Enforcement ([LsmHook], [DenyRefine]): the hook allows an execution exactly
      in the documented cases, denies on every read failure, agrees with the
      user-space matcher, leaves one record or one counted loss per denial. After
      a successful write of a deny list the kernel denies exactly its prefixes;
      between two writes it never has an empty list, and a path both lists deny
      stays denied where the new list names it no later than the old one (an
      example shows the window that opens otherwise).
    - Policy ([IdentityAllow], [PolicySync], [Attestation]): only a fetched,
      signed, well-formed bundle within its validity window changes any state;
      after a successful synchronisation the kernel enforces the bundle; after
      every turn of the loop exceptions are in force only before their expiry;
      attestation succeeds exactly on the attested objects.
    - Identity exceptions ([SideTable], [CgroupPath], [PodWatch], [TeardownWatch],
      [Correlator]): the indexes of the side table agree, every exception in the
      kernel is tracked, a revoked or vanished workload has none, directory names
      round-trip, the pod watch delivers the server's events whatever the chunking.
      Under every interleaving ([CorrelatorTasks]) the tasks refine the handlers, a
      directory whose removal the worker reads loses its exception, and without a
      logged-only failure no tracked directory is left unwatched.
    - Migration and start-up ([PinAbi], [LsmPin], [BtfOffsets], [Startup]): a legacy
      deny list survives a crash at any operation; at every point of the handoff
      some link enforces; wherever start-up stops, only attested objects were
      loaded and a link that was pinned before has not been lost; a start-up that
      completes enforces a deny list that is not empty, the bootstrap list on a
      cold start. Offset resolution agrees with a
      relational reading of the type section, on every blob, in bounded steps.
    - Running agent ([Metrics], [Integrity], [Ingestion], [Monitors]): one
      integrity tick changes exactly the counters and flags of the failed checks;
      under every interleaving of producers, publisher and event loop each event
      is queued, published, failed or counted as dropped, exactly once; the
      publisher drains the channel; the agent's loop is a refinement of the
      single-producer channel.
    - Kernel visibility ([SysExec], [NetworkFilter]): on each CPU the token bucket
      admits no more than its burst and its rate; an admitted execution is delivered
      as a record that decodes to what the kernel answered, or counted as lost; only
      allowlisted variables are captured; a connection carries the name of the last
      captured execution of its process.
    - Forwarders ([Forwarder], [Datadog], [Splunk]): proved once against the
      interface of a sink that both services implement: a send makes one to four
      requests with a determined result, every accepted record is queued, being
      sent, forwarded or counted as failed or dropped.
    - Delivery and endpoints ([AlertStream], [Endpoints]): from the pipeline to the
      collector each alert is counted once, whatever the interleaving of the agent's and
      a forwarder's tasks, and none is refused as malformed; a scrape shows exactly what
      was counted, and a forwarder's scrape agrees with its account.
    - Node ([System]): over every interleaving of synchronisations, follow-ups,
      correlator handlers and executions the verdict of the LSM program is the one
      the policy in force prescribes, exceptions belong to workloads that policy
      names, and none is honoured later than a fixed bound after its expiry.
    - Wire formats ([Json], [Documents], [SinkBodies], [Protobuf], [MetricEvents]):
      what is written is read back; an alert the pipeline raises arrives at both
      collectors with its own fields; every record acknowledged on the correlation
      topic is read back as the message of an event that was submitted.
    - Telemetry ([EnvCapture], [ExecMapper], [Detection]): the record decoder
      inverts the packed layout, only redacted environment text leaves the agent,
      burst alerts are exact, a denied execution raises its alert.
    - Some theorems state a behaviour of the code that its comments do not
      promise: failed deletions and races that leave an exception behind, a
      back-off that outlives the exceptions' lifetime, a failed synchronisation
      that has applied one half, logged addresses in reverse byte order, stale
      staging that displaces the current deny list, a stale temporary link whose
      removal leaves nothing attached, an ingestion channel whose threshold rounds
      to zero, a health interval of zero, an upper-case digest that never matches,
      a missing offset that is delivered again, two forwarders in one group, an
      overflow or a read error after which a removed directory keeps its exception,
      a queue capacity of zero that is accepted and then panics, a score that is not
      finite and makes a metric line unreadable; in the kernel programs, a ceiling that
      holds per CPU, a captured variable in a slot above their number that is not
      exported, bytes of another entry left after a slot's text, a thread id in place of
      the process id, a port read from the socket's hash, a full ring that is not counted.

    ** Bounds and fuel

    Loops over arrays run over their constant capacity (64 deny slots, 8 argument
    and environment slots, 32 prefix bytes). UTF-8 decoding and trimming use the
    length of the text as fuel, which every step shortens. Decimal printing uses 20
    digits, enough for 64 bits. The directory walk recurses on the tree. The search
    for a staging name uses 1025 turns, the bound in the source, and its theorem
    covers the exhausted case. The walk over the BTF type section has the section's
    length as fuel, and each record takes twelve bytes or more; the retry loop of a
    forwarder has its four attempts. The JSON and protobuf readers have the length
    of the text as fuel, and each turn takes a byte or more. No other definition has
    fuel.

    ** What is not modelled

    The kernel, aya, tokio, the HTTP and Kafka clients, the PEM parser and the
    cryptographic primitives are parameters or the laws of [Bpf]; so are the JSON,
    protobuf and RFC 3339 parsers in the components, with the instances named above, and
    the prometheus crate.
    The decimal text of a double stays a parameter.
    Logging is left out, except where the log line is the result; so are the texts of
    errors. Tasks are modelled as sequences of their atomic steps; where a race matters
    (revocation against reconciliation) the interleaving is explicit. The HTTP listeners
    answer one request at a time, and the text format of Prometheus is a parameter with
    an instance. Not covered: the protobuf code generator, the benchmarks, the tests that
    need sockets, timers or the BTF file of a real kernel, and the integration tests under
    [tests/]. The services in other languages are outside the library. *)

From stdpp Require Export base tactics option list numbers gmap strings.
From Stdlib Require Export Ascii.

Open Scope Z_scope.

(** ** Bytes and machine integers

    A Rust [u8] is a [Z] in [0, 256); a [&[u8]], a [[u8; N]], a [&str] or a
    [String] is the list of its bytes (a Rust string is its UTF-8 encoding).
    A [u16], [u32], [u64] or [usize] is a [Z] kept in range by the operations. *)
Abbreviation bytes := (list Z).

Definition is_byte (b : Z) : Prop := 0 ≤ b < 256.

#[export] Instance is_byte_dec b : Decision (is_byte b).
Proof. unfold is_byte; apply _. Defined.

Definition u8_max : Z := 2 ^ 8 - 1.
Definition u16_max : Z := 2 ^ 16 - 1.
Definition u32_max : Z := 2 ^ 32 - 1.
Definition u64_max : Z := 2 ^ 64 - 1.

(** [x as uN]: truncating conversion to N bits. *)
Definition as_uint (n : Z) (x : Z) : Z := x mod 2 ^ n.
(** [x.wrapping_add(y)] at width [n]. *)
Definition wrapping_add (n x y : Z) : Z := (x + y) mod 2 ^ n.
(** [x.saturating_add(y)] at width [n]. *)
Definition saturating_add (n x y : Z) : Z := Z.min (x + y) (2 ^ n - 1).
Definition saturating_mul (n x y : Z) : Z := Z.min (x * y) (2 ^ n - 1).
(** [x.checked_add(y)] at width [n]. *)
Definition checked_add (n x y : Z) : option Z :=
  if bool_decide (x + y < 2 ^ n) then Some (x + y) else None.

Abbreviation uint n x := (0 ≤ x < 2 ^ n).

Lemma as_uint_range n x : 0 ≤ n → uint n (as_uint n x).
Proof. intros; apply Z.mod_pos_bound; lia. Qed.
Lemma as_uint_small n x : uint n x → as_uint n x = x.
Proof. apply Z.mod_small. Qed.
Lemma wrapping_add_range n x y : 0 ≤ n → uint n (wrapping_add n x y).
Proof. intros; apply Z.mod_pos_bound; lia. Qed.
Lemma saturating_add_range n x y :
  0 ≤ n → uint n x → uint n y → uint n (saturating_add n x y).
Proof. unfold saturating_add; lia. Qed.

(** The bytes of a string literal. *)
Definition lit (s : string) : bytes :=
  map (λ c, Z.of_N (Ascii.N_of_ascii c)) (String.list_ascii_of_string s).

Lemma lit_is_byte s : Forall is_byte (lit s).
Proof.
  unfold lit, is_byte. apply Forall_forall. intros x Hx.
  apply list_elem_of_In, in_map_iff in Hx as (c & <- & _).
  pose proof (Ascii.N_ascii_bounded c). lia.
Qed.

(** ** Errors

    [anyhow::Error]: a message, a message wrapped in a context, or a value of
    a typed error that a caller can recover with [downcast_ref] (the only such
    type in the program is [RateLimitedError]). *)
Inductive error : Type :=
| EMsg (msg : string)
| EContext (context : string) (source : error)
| ERateLimited (url : bytes) (retry_after : option Z).

#[export] Instance error_eq_dec : EqDecision error.
Proof. solve_decision. Defined.

Inductive result (A : Type) : Type :=
| Ok (a : A)
| Err (e : error).
Arguments Ok {A} a.
Arguments Err {A} e.

#[export] Instance result_eq_dec `{EqDecision A} : EqDecision (result A).
Proof. solve_decision. Defined.

#[export] Instance result_ret : MRet result := λ A a, Ok a.
#[export] Instance result_bind : MBind result := λ A B f r,
  match r with Ok a => f a | Err e => Err e end.
#[export] Instance result_fmap : FMap result := λ A B f r,
  match r with Ok a => Ok (f a) | Err e => Err e end.

Definition is_ok {A} (r : result A) : bool :=
  match r with Ok _ => true | Err _ => false end.

(** [.context(c)] / [.with_context(|| c)] on a [Result] and on an [Option]. *)
Definition with_context {A} (c : string) (r : result A) : result A :=
  match r with Ok a => Ok a | Err e => Err (EContext c e) end.
Definition ok_or {A} (e : error) (o : option A) : result A :=
  match o with Some a => Ok a | None => Err e end.

(** [error.downcast_ref::<RateLimitedError>()]: looks through contexts. *)
Fixpoint downcast_rate_limited (e : error) : option (bytes * option Z) :=
  match e with
  | EMsg _ => None
  | EContext _ e => downcast_rate_limited e
  | ERateLimited url ra => Some (url, ra)
  end.

(** [iter.collect::<Result<Vec<_>>>()], or a [for] loop that pushes [f x?]. *)
Fixpoint try_map {A B} (f : A → result B) (l : list A) : result (list B) :=
  match l with
  | [] => Ok []
  | x :: l => y ← f x; ys ← try_map f l; Ok (y :: ys)
  end.

Lemma bind_Ok {A B} (f : A → result B) (r : result A) b :
  r ≫= f = Ok b ↔ ∃ a, r = Ok a ∧ f a = Ok b.
Proof. destruct r; simpl; naive_solver. Qed.

Lemma bind_Err {A B} (f : A → result B) (r : result A) e :
  r ≫= f = Err e ↔ r = Err e ∨ ∃ a, r = Ok a ∧ f a = Err e.
Proof. destruct r; simpl; naive_solver. Qed.

Lemma with_context_Ok {A} c (r : result A) a : with_context c r = Ok a ↔ r = Ok a.
Proof. destruct r; simpl; naive_solver. Qed.

Lemma ok_or_Ok {A} e (o : option A) a : ok_or e o = Ok a ↔ o = Some a.
Proof. destruct o; simpl; naive_solver. Qed.

Lemma try_map_Ok {A B} (f : A → result B) l ys :
  try_map f l = Ok ys ↔ Forall2 (λ x y, f x = Ok y) l ys.
Proof.
  revert ys. induction l as [|x l IH]; intros ys; simpl.
  - split; [intros [= <-]; constructor | by inversion 1].
  - rewrite bind_Ok. setoid_rewrite bind_Ok. setoid_rewrite IH. split.
    + intros (y & Hy & ys' & Hys & [= <-]). by constructor.
    + inversion 1; subst; eauto.
Qed.

(** ** State and errors

    Code that mutates state and may fail part-way returns the state it leaves
    behind on either outcome: a fallible write sequence that stops in the middle
    keeps the writes already made. *)
Definition stm (S A : Type) : Type := S → S * result A.

#[export] Instance stm_ret {S} : MRet (stm S) := λ A a s, (s, Ok a).
#[export] Instance stm_bind {S} : MBind (stm S) := λ A B f m s,
  match m s with
  | (s', Ok a) => f a s'
  | (s', Err e) => (s', Err e)
  end.

Definition st_get {S} : stm S S := λ s, (s, Ok s).
Definition st_put {S} (s : S) : stm S unit := λ _, (s, Ok ()).
Definition st_fail {S A} (e : error) : stm S A := λ s, (s, Err e).
Definition st_of_result {S A} (r : result A) : stm S A := λ s, (s, r).
Definition st_context {S A} (c : string) (m : stm S A) : stm S A := λ s,
  let '(s', r) := m s in (s', with_context c r).

(** A [for] loop over a list whose body may return early with an error. *)
Fixpoint for_each {S A} (f : A → stm S unit) (l : list A) : stm S unit :=
  match l with
  | [] => mret ()
  | x :: l => f x ≫= λ _, for_each f l
  end.

(** A computation on one part of a larger state. *)
Definition zoom {S T A} (get : S → T) (set : T → S → S) (m : stm T A) : stm S A := λ s,
  let '(t, r) := m (get s) in (set t s, r).

Lemma stm_bind_run {S A B} (m : stm S A) (f : A → stm S B) s :
  (m ≫= f) s =
  match m s with (s', Ok a) => f a s' | (s', Err e) => (s', Err e) end.
Proof. done. Qed.

(** An invariant every body step keeps, on success and on failure, is kept by
    the loop however it ends. *)
Lemma for_each_inv {S A} (I : S → Prop) (f : A → stm S unit) l s :
  (∀ x s, x ∈ l → I s → I (f x s).1) → I s → I (for_each f l s).1.
Proof.
  revert s. induction l as [|x l IH]; intros s Hf Hs; simpl; [done|].
  rewrite stm_bind_run. pose proof (Hf x s (list_elem_of_here _ _) Hs) as Hx.
  destruct (f x s) as [s' [a|e]]; simpl in *; [|done].
  apply IH; [|done]. intros; apply Hf; [by constructor|done].
Qed.

(** ** Proof automation *)
Create HintDb neuro.
#[export] Hint Resolve as_uint_range wrapping_add_range lit_is_byte : neuro.
#[export] Hint Extern 1 (uint _ _) => lia : neuro.

(** Splits the boolean tests of the code into the propositions they decide. *)
Ltac bool_split :=
  repeat match goal with
  | H : _ && _ = true |- _ => apply andb_true_iff in H as [? ?]
  | H : _ || _ = false |- _ => apply orb_false_iff in H as [? ?]
  | H : negb _ = true |- _ => apply negb_true_iff in H
  | H : negb _ = false |- _ => apply negb_false_iff in H
  | H : bool_decide _ = true |- _ => apply bool_decide_eq_true in H
  | H : bool_decide _ = false |- _ => apply bool_decide_eq_false in H
  end.

(** Evaluates a [result] computation that is known to end in [Ok]. *)
Ltac ok_inv H :=
  repeat match type of H with
  | _ ≫= _ = Ok _ => apply bind_Ok in H as (? & ? & H)
  | with_context _ _ = Ok _ => apply with_context_Ok in H
  | ok_or _ _ = Ok _ => apply ok_or_Ok in H
  end.

(** ** Generic lemmas on lists *)
Section lists.
Context {A : Type}.
Implicit Types (l k : list A).

Lemma take_lookup_prefix (p l : list A) :
  p `prefix_of` l ↔ take (length p) l = p.
Proof.
  split.
  - intros [k ->]. apply take_app_length.
  - intros H. exists (drop (length p) l).
    rewrite <- (take_drop (length p) l) at 1. by rewrite H.
Qed.

Lemma lookup_replicate_lt n (x : A) i :
  (i < n)%nat → replicate n x !! i = Some x.
Proof. intros. by apply lookup_replicate_2. Qed.

Lemma existsb_exists_elem (f : A → bool) l :
  existsb f l = true ↔ ∃ x, x ∈ l ∧ f x = true.
Proof.
  rewrite existsb_exists. by setoid_rewrite <- list_elem_of_In.
Qed.

Lemma existsb_ext_elem (f g : A → bool) l :
  (∀ x, x ∈ l → f x = g x) → existsb f l = existsb g l.
Proof.
  induction l as [|x l IH]; intros H; simpl; [done|].
  rewrite H, IH; [done| |]; set_solver.
Qed.

Lemma existsb_false_elem (f : A → bool) l :
  existsb f l = false ↔ ∀ x, x ∈ l → f x = false.
Proof.
  rewrite <- not_true_iff_false, existsb_exists_elem. split.
  - intros H x Hx. destruct (f x) eqn:E; [|done]. exfalso; eauto.
  - intros H (x & Hx & Hf). by rewrite H in Hf.
Qed.
End lists.

(** Every element of a loop that ended well was run, from some state, and succeeded. *)
Lemma for_each_Ok_elem {S A} (f : A → stm S unit) l s s' x :
  for_each f l s = (s', Ok ()) → x ∈ l → ∃ s1 s2, f x s1 = (s2, Ok ()).
Proof.
  revert s. induction l as [|y l IH]; intros s; simpl.
  - intros _ Hx. by apply not_elem_of_nil in Hx.
  - rewrite stm_bind_run. destruct (f y s) as [s1 [[]|e]] eqn:E; [|done].
    intros Hl Hx. apply elem_of_cons in Hx as [->|Hx]; [by eauto|]. by eapply IH.
Qed.

(** A loop whose body never fails ends well. *)
Lemma for_each_total {S A} (f : A → stm S unit) l s :
  (∀ x s, x ∈ l → (f x s).2 = Ok ()) → ∃ s', for_each f l s = (s', Ok ()).
Proof.
  revert s. induction l as [|x l IH]; intros s Hf; simpl; [by eexists|].
  rewrite stm_bind_run. pose proof (Hf x s (list_elem_of_here _ _)) as Hx.
  destruct (f x s) as [s1 r]. simpl in Hx. subst r.
  apply IH. intros y s2 Hy. apply Hf. by constructor.
Qed.

(** Reads the final state off a run whose result is known. *)
Lemma run_result {S A} (p : S * result A) r : p.2 = r → p = (p.1, r).
Proof. by destruct p; simpl; intros ->. Qed.

(** ** A Hoare logic for state and errors

    [hoare E P m Q]: from a state in [P], [m] ends with a value and state in [Q] or
    with an error in a state in [E]. *)
Definition hoare {S A} (E P : S → Prop) (m : stm S A) (Q : A → S → Prop) : Prop :=
  ∀ s, P s → match m s with (s', Ok a) => Q a s' | (s', Err _) => E s' end.

Section hoare.
Context {S : Type}.
Implicit Types (E P : S → Prop).

Lemma hoare_bind {A B} E P (m : stm S A) (f : A → stm S B) Q R :
  hoare E P m Q → (∀ a, hoare E (Q a) (f a) R) → hoare E P (m ≫= f) R.
Proof.
  intros Hm Hf s Hs. rewrite stm_bind_run. specialize (Hm s Hs).
  destruct (m s) as [s' [a|e]]; [by apply Hf|done].
Qed.

Lemma hoare_ret {A} E P (a : A) (Q : A → S → Prop) : (∀ s, P s → Q a s) → hoare E P (mret a) Q.
Proof. intros H s Hs. by apply H. Qed.

Lemma hoare_fail {A} E P e (Q : A → S → Prop) : (∀ s, P s → E s) → hoare E P (st_fail e) Q.
Proof. intros H s Hs. by apply H. Qed.

Lemma hoare_of_result {A} E P (r : result A) (Q : A → S → Prop) :
  (∀ s, P s → E s) → (∀ a s, r = Ok a → P s → Q a s) → hoare E P (st_of_result r) Q.
Proof. intros HE HQ s Hs. unfold st_of_result. destruct r; auto. Qed.

Lemma hoare_context {A} E P c (m : stm S A) Q : hoare E P m Q → hoare E P (st_context c m) Q.
Proof.
  intros Hm s Hs. unfold st_context. specialize (Hm s Hs). by destruct (m s) as [s' [a|e]].
Qed.

Lemma hoare_weaken {A} E P P' (m : stm S A) (Q Q' : A → S → Prop) :
  hoare E P m Q → (∀ s, P' s → P s) → (∀ a s, Q a s → Q' a s) → hoare E P' m Q'.
Proof. intros Hm HP HQ s Hs. specialize (Hm s (HP s Hs)). destruct (m s) as [s' [a|e]]; auto. Qed.

Lemma hoare_zoom {T A} (get : S → T) (set : T → S → S) E P (m : stm T A) (Q : A → S → Prop) :
  (∀ s, P s → match m (get s) with (t, Ok a) => Q a (set t s) | (t, Err _) => E (set t s) end) →
  hoare E P (zoom get set m) Q.
Proof. intros H s Hs. unfold zoom. specialize (H s Hs). by destruct (m (get s)) as [t [a|e]]. Qed.

(** Reads a pure fact of the precondition. *)
Lemma hoare_pure {A} E P (φ : Prop) (m : stm S A) Q :
  (φ → hoare E P m Q) → hoare E (λ s, φ ∧ P s) m Q.
Proof. intros H s [Hφ Hs]. by apply H. Qed.
End hoare.

(** ** Runs that end well *)
Lemma stm_bind_Ok {S A B} (m : stm S A) (f : A → stm S B) s s' b :
  (m ≫= f) s = (s', Ok b) ↔ ∃ s1 a, m s = (s1, Ok a) ∧ f a s1 = (s', Ok b).
Proof. rewrite stm_bind_run. destruct (m s) as [s1 [a|e]]; naive_solver. Qed.

Lemma stm_context_Ok {S A} c (m : stm S A) s s' a :
  st_context c m s = (s', Ok a) ↔ m s = (s', Ok a).
Proof. unfold st_context. destruct (m s) as [s1 [b|e]]; naive_solver. Qed.

Lemma st_of_result_Ok {S A} (r : result A) (s s' : S) a :
  st_of_result r s = (s', Ok a) ↔ s' = s ∧ r = Ok a.
Proof. unfold st_of_result. naive_solver. Qed.

Lemma zoom_Ok {S T A} (get : S → T) set (m : stm T A) s s' a :
  zoom get set m s = (s', Ok a) ↔ ∃ t, m (get s) = (t, Ok a) ∧ s' = set t s.
Proof. unfold zoom. destruct (m (get s)) as [t [b|e]]; naive_solver. Qed.

(** Steps that leave a view of the state alone, however they end. *)
Definition frames {S A V} (view : S → V) (m : stm S A) : Prop := ∀ s, view (m s).1 = view s.

Section frames.
Context {S V : Type} (view : S → V).

Lemma frames_ret {A} (a : A) : frames view (mret a).
Proof. done. Qed.
Lemma frames_fail {A} e : frames view (st_fail (A:=A) e).
Proof. done. Qed.
Lemma frames_of_result {A} (r : result A) : frames view (st_of_result r).
Proof. done. Qed.
Lemma frames_get : frames view st_get.
Proof. done. Qed.
Lemma frames_context {A} c (m : stm S A) : frames view m → frames view (st_context c m).
Proof. intros Hm s. unfold st_context. specialize (Hm s). by destruct (m s). Qed.
Lemma frames_bind {A B} (m : stm S A) (f : A → stm S B) :
  frames view m → (∀ a, frames view (f a)) → frames view (m ≫= f).
Proof.
  intros Hm Hf s. rewrite stm_bind_run. specialize (Hm s). destruct (m s) as [s1 [a|e]]; [|done].
  by rewrite (Hf a s1).
Qed.
Lemma frames_for_each {A} (f : A → stm S unit) l : (∀ x, frames view (f x)) → frames view (for_each f l).
Proof. intros Hf. induction l as [|x l IH]; cbn; [apply frames_ret|]. by apply frames_bind. Qed.
Lemma frames_zoom {T A} (get : S → T) set (m : stm T A) :
  (∀ t s, view (set t s) = view s) → frames view (zoom get set m).
Proof. intros Hv s. unfold zoom. destruct (m (get s)). apply Hv. Qed.
End frames.
#[export] Hint Resolve frames_ret frames_fail frames_of_result frames_get frames_context frames_bind frames_for_each : neuro.

Lemma hoare_frames {S V A} (view : S → V) (m : stm S A) (E : S → Prop) (φ : V → Prop) :
  frames view m → (∀ s, φ (view s) → E s) → hoare E (λ s, φ (view s)) m (λ _ s, φ (view s)).
Proof.
  intros Hm HE s Hs. specialize (Hm s). destruct (m s) as [s' [a|e]]; cbn in Hm.
  - by rewrite Hm.
  - apply HE. by rewrite Hm.
Qed.
