(* ===== verification/RustStd.v ===== *)
(** * The parts of the Rust standard library the sensor uses

    Executable definitions of the string, slice and number operations the
    source calls: prefix and suffix tests, [find], [split], [split_once],
    [replace], [trim], ASCII case, [str::parse], [CStr], [from_utf8],
    [from_utf8_lossy] and decimal or hexadecimal formatting. Strings are byte
    lists (Prelude). The UTF-8 decoder follows [core::str::lossy]. *)

From S2P Require Import Prelude.

(** ** Prefixes, suffixes, search *)

(** [s.starts_with(p)]. *)
Fixpoint starts_with (s p : bytes) {struct p} : bool :=
  match p, s with
  | [], _ => true
  | b :: p, c :: s => bool_decide (c = b) && starts_with s p
  | _ :: _, [] => false
  end.

(** [s.ends_with(p)]. *)
Definition ends_with (s p : bytes) : bool := starts_with (reverse s) (reverse p).

(** [s.strip_prefix(p)] and [s.strip_suffix(p)]. *)
Definition strip_prefix (s p : bytes) : option bytes :=
  if starts_with s p then Some (drop (length p) s) else None.
Definition strip_suffix (s p : bytes) : option bytes :=
  if ends_with s p then Some (take (length s - length p) s) else None.

(** [s.find(p)]: byte index of the first occurrence. *)
Fixpoint find_sub (s p : bytes) : option nat :=
  if starts_with s p then Some 0%nat
  else match s with
       | [] => None
       | _ :: s => S <$> find_sub s p
       end.

(** [s.contains(p)]. *)
Definition contains_sub (s p : bytes) : bool :=
  match find_sub s p with Some _ => true | None => false end.

(** [s.split_once(p)]. *)
Definition split_once (s p : bytes) : option (bytes * bytes) :=
  i ← find_sub s p; Some (take i s, drop (i + length p) s).

(** [s.split(c)] on a one-byte separator: always at least one piece. *)
Fixpoint split_byte (c : Z) (s : bytes) : list bytes :=
  match s with
  | [] => [[]]
  | b :: s =>
      if bool_decide (b = c) then [] :: split_byte c s
      else match split_byte c s with
           | [] => [[b]]
           | w :: ws => (b :: w) :: ws
           end
  end.

(** [s.replace(a, b)] on one-byte patterns. *)
Definition replace_byte (a b : Z) (s : bytes) : bytes :=
  map (λ c, if bool_decide (c = a) then b else c) s.

(** [slice.iter().position(|&b| b == c).unwrap_or(slice.len())]. *)
Fixpoint position_or_len (c : Z) (s : bytes) : nat :=
  match s with
  | [] => 0
  | b :: s => if bool_decide (b = c) then 0 else S (position_or_len c s)
  end.

(** ** ASCII case *)
Definition to_ascii_lowercase_byte (b : Z) : Z :=
  if bool_decide (65 ≤ b ≤ 90) then b + 32 else b.
Definition to_ascii_lowercase (s : bytes) : bytes := map to_ascii_lowercase_byte s.
Definition eq_ignore_ascii_case (s t : bytes) : bool :=
  bool_decide (to_ascii_lowercase s = to_ascii_lowercase t).

(** ** [str::trim]

    The UTF-8 encodings of the characters with the Unicode property
    White_Space. UTF-8 is self-synchronising, so a string ends with such a
    character exactly when its bytes end with the encoding. *)
Definition white_space : list bytes :=
  [[9]; [10]; [11]; [12]; [13]; [32]; [194; 133]; [194; 160]; [225; 154; 128];
   [226; 128; 128]; [226; 128; 129]; [226; 128; 130]; [226; 128; 131];
   [226; 128; 132]; [226; 128; 133]; [226; 128; 134]; [226; 128; 135];
   [226; 128; 136]; [226; 128; 137]; [226; 128; 138]; [226; 128; 168];
   [226; 128; 169]; [226; 128; 175]; [226; 129; 159]; [227; 128; 128]].

(** Drops the members of [ws] from the front while one of them matches. *)
Fixpoint trim_front (ws : list bytes) (fuel : nat) (s : bytes) : bytes :=
  match fuel with
  | O => s
  | S fuel =>
      match list_find (λ w, starts_with s w = true) ws with
      | Some (_, w) => trim_front ws fuel (drop (length w) s)
      | None => s
      end
  end.

Definition trim_start (s : bytes) : bytes := trim_front white_space (length s) s.
Definition trim_end (s : bytes) : bytes :=
  reverse (trim_front (map reverse white_space) (length s) (reverse s)).
Definition trim (s : bytes) : bytes := trim_end (trim_start s).

(** [s.trim_end_matches(c)] on a one-byte pattern. *)
Definition trim_end_matches (c : Z) (s : bytes) : bytes :=
  reverse (trim_front [[c]] (length s) (reverse s)).

Definition is_empty (s : bytes) : bool := bool_decide (s = []).

(** [str] slicing panics off a character boundary. *)
Definition is_char_boundary (s : bytes) (i : nat) : bool :=
  match s !! i with
  | None => bool_decide (i = length s)
  | Some b => negb (bool_decide (128 ≤ b < 192))
  end.

(** The code points of a valid UTF-8 string. *)
Fixpoint chars (fuel : nat) (s : bytes) : list Z :=
  match fuel, s with
  | S fuel, b :: s =>
      if bool_decide (b < 128) then b :: chars fuel s
      else
        let n := if bool_decide (b < 224) then 1%nat else if bool_decide (b < 240) then 2%nat else 3%nat in
        let lead := b mod (if bool_decide (b < 224) then 32 else if bool_decide (b < 240) then 16 else 8) in
        foldl (λ acc c, acc * 64 + c mod 64) lead (take n s) :: chars fuel (drop n s)
  | _, _ => []
  end.
Definition str_chars (s : bytes) : list Z := chars (length s) s.

(** ** [str::parse::<uN>]

    An optional [+], then at least one ASCII digit, and no overflow. *)
Definition digit (b : Z) : option Z :=
  if bool_decide (48 ≤ b ≤ 57) then Some (b - 48) else None.

Fixpoint parse_digits (max acc : Z) (s : bytes) : option Z :=
  match s with
  | [] => Some acc
  | b :: s =>
      d ← digit b;
      let acc := acc * 10 + d in
      if bool_decide (acc ≤ max) then parse_digits max acc s else None
  end.

Definition parse_uint (max : Z) (s : bytes) : option Z :=
  match s with
  | [] => None
  | 43 :: s => match s with [] => None | _ => parse_digits max 0 s end
  | _ => parse_digits max 0 s
  end.

Definition parse_u64 : bytes → option Z := parse_uint u64_max.

(** ** Formatting *)

(** [n.to_string()] for an unsigned integer: decimal, no leading zeros. *)
Fixpoint dec_digits (fuel : nat) (n : Z) (acc : bytes) : bytes :=
  match fuel with
  | O => acc
  | S fuel =>
      let acc := (48 + n mod 10) :: acc in
      if bool_decide (n / 10 = 0) then acc else dec_digits fuel (n / 10) acc
  end.
(** 20 digits hold every [u64]. *)
Definition to_dec (n : Z) : bytes := dec_digits 20 n [].
(** [n.to_string()] for a signed integer. *)
Definition to_dec_signed (n : Z) : bytes := if bool_decide (n < 0) then 45 :: to_dec (- n) else to_dec n.

Definition hex_digit (n : Z) : Z := if bool_decide (n < 10) then 48 + n else 87 + n.

(** [format!("{:0wx}", n)] for a value of at most [w] hexadecimal digits. *)
Fixpoint to_hex (w : nat) (n : Z) : bytes :=
  match w with
  | O => []
  | S w => to_hex w (n / 16) ++ [hex_digit (n mod 16)]
  end.

(** ** UTF-8 *)

Definition cont (b : option Z) : bool :=
  match b with Some b => bool_decide (128 ≤ b ≤ 191) | None => false end.
Definition in_range (lo hi : Z) (b : option Z) : bool :=
  match b with Some b => bool_decide (lo ≤ b ≤ hi) | None => false end.

(** Second bytes allowed after a three- or four-byte lead. *)
Definition second_ok3 (b : Z) (c : option Z) : bool :=
  if bool_decide (b = 224) then in_range 160 191 c
  else if bool_decide (b = 237) then in_range 128 159 c
  else in_range 128 191 c.
Definition second_ok4 (b : Z) (c : option Z) : bool :=
  if bool_decide (b = 240) then in_range 144 191 c
  else if bool_decide (b = 244) then in_range 128 143 c
  else in_range 128 191 c.

(** Decodes the head of a non-empty slice: whether a whole character is there,
    and how many bytes it (or the maximal invalid subpart) takes. *)
Definition utf8_step (b : Z) (s : bytes) : bool * nat :=
  if bool_decide (b < 128) then (true, 1%nat)
  else if bool_decide (194 ≤ b ≤ 223) then
    if cont (s !! 0%nat) then (true, 2%nat) else (false, 1%nat)
  else if bool_decide (224 ≤ b ≤ 239) then
    if second_ok3 b (s !! 0%nat) then
      if cont (s !! 1%nat) then (true, 3%nat) else (false, 2%nat)
    else (false, 1%nat)
  else if bool_decide (240 ≤ b ≤ 244) then
    if second_ok4 b (s !! 0%nat) then
      if cont (s !! 1%nat) then
        if cont (s !! 2%nat) then (true, 4%nat) else (false, 3%nat)
      else (false, 2%nat)
    else (false, 1%nat)
  else (false, 1%nat).

(** The UTF-8 encoding of U+FFFD. *)
Definition replacement : bytes := [239; 191; 189].

Fixpoint utf8_valid_go (fuel : nat) (s : bytes) : bool :=
  match fuel, s with
  | _, [] => true
  | O, _ :: _ => false
  | S fuel, b :: s' =>
      let '(ok, n) := utf8_step b s' in
      ok && utf8_valid_go fuel (drop n s)
  end.
(** [core::str::from_utf8(s).is_ok()]. *)
Definition utf8_valid (s : bytes) : bool := utf8_valid_go (length s) s.

Fixpoint lossy_go (fuel : nat) (s : bytes) : bytes :=
  match fuel, s with
  | _, [] => []
  | O, _ :: _ => []
  | S fuel, b :: s' =>
      let '(ok, n) := utf8_step b s' in
      (if ok then take n s else replacement) ++ lossy_go fuel (drop n s)
  end.
(** [String::from_utf8_lossy(s)]. *)
Definition from_utf8_lossy (s : bytes) : bytes := lossy_go (length s) s.

(** [CStr::from_bytes_until_nul(s)]: the bytes before the first NUL. *)
Fixpoint cstr_until_nul (s : bytes) : option bytes :=
  match s with
  | [] => None
  | b :: s => if bool_decide (b = 0) then Some [] else cons b <$> cstr_until_nul s
  end.

(** ** Lemmas *)

Lemma is_empty_false s : is_empty s = false ↔ s ≠ [].
Proof. unfold is_empty. apply bool_decide_eq_false. Qed.
Lemma is_empty_true s : is_empty s = true ↔ s = [].
Proof. unfold is_empty. apply bool_decide_eq_true. Qed.

Lemma starts_with_prefix s p : starts_with s p = true ↔ p `prefix_of` s.
Proof.
  revert s. induction p as [|b p IH]; intros [|c s]; simpl.
  - split; [intros; apply prefix_nil|done].
  - split; [intros; apply prefix_nil|done].
  - split; [done|]. intros H. by apply prefix_nil_not in H.
  - rewrite andb_true_iff, bool_decide_eq_true, IH. split.
    + intros [-> ?]. by apply prefix_cons.
    + intros H. split; [symmetry; by eapply prefix_cons_inv_1|by eapply prefix_cons_inv_2].
Qed.

Lemma starts_with_nil s : starts_with s [] = true.
Proof. by destruct s. Qed.

Lemma starts_with_app p s : starts_with (p ++ s) p = true.
Proof. apply starts_with_prefix. by apply prefix_app_r. Qed.

Lemma starts_with_take s p n :
  (length p ≤ n)%nat → starts_with (take n s) p = starts_with s p.
Proof.
  revert s n. induction p as [|b p IH]; intros [|c s] [|n] Hn; simpl in *; try done; try lia.
  by rewrite IH by lia.
Qed.

Lemma position_or_len_le c s : (position_or_len c s ≤ length s)%nat.
Proof. induction s; simpl; [lia|]. case_bool_decide; lia. Qed.

Lemma position_or_len_before c s i :
  (i < position_or_len c s)%nat → s !! i ≠ Some c.
Proof.
  revert i. induction s as [|b s IH]; intros i; simpl; [lia|].
  case_bool_decide; [lia|]. destruct i; simpl; [congruence|]. intros; apply IH; lia.
Qed.

Lemma position_or_len_cstr s :
  cstr_until_nul s =
  if bool_decide (0 ∈ s) then Some (take (position_or_len 0 s) s) else None.
Proof.
  induction s as [|b s IH]; simpl; [done|].
  rewrite IH. repeat case_bool_decide; simpl; subst; try done; exfalso; set_solver.
Qed.

Lemma find_sub_Some s p i :
  find_sub s p = Some i → starts_with (drop i s) p = true.
Proof.
  revert i. induction s as [|b s IH]; intros i; simpl.
  - destruct p; simpl; [by intros [= <-]|done].
  - case_match eqn:E; [by intros [= <-]|].
    destruct (find_sub s p) as [j|] eqn:F; simpl; [|done].
    intros [= <-]. simpl. by apply IH.
Qed.

Lemma find_sub_bound s p i : find_sub s p = Some i → (i + length p ≤ length s)%nat.
Proof.
  intros H. pose proof (find_sub_Some _ _ _ H) as Hp.
  apply starts_with_prefix, prefix_length in Hp. rewrite length_drop in Hp.
  assert (i ≤ length s)%nat; [|lia].
  clear Hp. revert i H. induction s as [|b s IH]; intros i; simpl.
  - destruct p; simpl; [intros [= <-]; lia|done].
  - case_match; [intros [= <-]; lia|].
    destruct (find_sub s p) as [j|]; simpl; [|done]. intros [= <-].
    specialize (IH j eq_refl). lia.
Qed.

(** A split gives back the string. *)
Lemma split_once_app s p a b : split_once s p = Some (a, b) → s = a ++ p ++ b.
Proof.
  unfold split_once. destruct (find_sub s p) as [i|] eqn:F; simpl; [|done].
  intros [= <- <-]. pose proof (find_sub_Some _ _ _ F) as Hp.
  apply starts_with_prefix in Hp as [k Hk].
  rewrite <- (take_drop i s) at 1. f_equal. rewrite Hk. f_equal.
  rewrite <- drop_drop, Hk. by rewrite drop_app_length.
Qed.

Lemma split_once_none_byte s c :
  c ∉ s → split_once s [c] = None.
Proof.
  unfold split_once. intros H. assert (find_sub s [c] = None) as ->; [|done].
  induction s as [|b s IH]; simpl; [done|].
  case_bool_decide; [set_solver|]. simpl. rewrite IH by set_solver. done.
Qed.

Lemma split_once_byte a c b : c ∉ a → split_once (a ++ c :: b) [c] = Some (a, b).
Proof.
  unfold split_once. intros H.
  assert (find_sub (a ++ c :: b) [c] = Some (length a)) as ->.
  { induction a as [|d a IH]; simpl.
    - by rewrite bool_decide_eq_true_2.
    - rewrite bool_decide_eq_false_2 by set_solver. simpl. by rewrite IH by set_solver. }
  simpl. rewrite take_app_length. rewrite <- drop_drop, drop_app_length. done.
Qed.

(** The left part of a split on a byte does not contain it. *)
Lemma split_once_byte_fst s c a b : split_once s [c] = Some (a, b) → c ∉ a.
Proof.
  unfold split_once. destruct (find_sub s [c]) as [i|] eqn:F; simpl; [|done].
  intros [= <- <-]. revert i F. induction s as [|d s IH]; intros i; simpl; [done|].
  case_bool_decide; simpl.
  - intros [= <-]. apply not_elem_of_nil.
  - destruct (find_sub s [c]) as [j|]; simpl; [|done]. intros [= <-]. simpl.
    apply not_elem_of_cons. split; [done|]. by apply IH.
Qed.

Lemma position_or_len_notin c s : c ∉ take (position_or_len c s) s.
Proof.
  induction s as [|b s IH]; simpl; [apply not_elem_of_nil|].
  case_bool_decide; simpl; [apply not_elem_of_nil|]. apply not_elem_of_cons. by split.
Qed.

Lemma position_or_len_app c a s :
  c ∉ a → position_or_len c (a ++ s) = (length a + position_or_len c s)%nat.
Proof.
  induction a as [|b a IH]; simpl; [done|]. intros [? ?]%not_elem_of_cons.
  rewrite bool_decide_eq_false_2 by done. by rewrite IH.
Qed.

Lemma position_or_len_cons_eq c s : position_or_len c (c :: s) = 0%nat.
Proof. simpl. by rewrite bool_decide_eq_true_2. Qed.

Lemma replace_byte_length a b s : length (replace_byte a b s) = length s.
Proof. apply length_map. Qed.

Lemma replace_byte_id a b s : a ∉ s → replace_byte a b s = s.
Proof.
  induction s as [|c s IH]; simpl; [done|]. intros H.
  rewrite bool_decide_eq_false_2 by set_solver. f_equal. apply IH. set_solver.
Qed.

(** Replacing [a] by [b] and back is the identity on strings without [b]. *)
Lemma replace_byte_inv a b s : b ∉ s → replace_byte b a (replace_byte a b s) = s.
Proof.
  induction s as [|c s IH]; simpl; [done|]. intros H.
  f_equal; [|apply IH; set_solver].
  destruct (decide (c = a)) as [->|].
  - rewrite (bool_decide_eq_true_2 (a = a)) by done.
    by rewrite (bool_decide_eq_true_2 (b = b)).
  - rewrite (bool_decide_eq_false_2 (c = a)) by done.
    rewrite (bool_decide_eq_false_2 (c = b)); set_solver.
Qed.

Lemma starts_with_cons c s b p :
  starts_with (c :: s) (b :: p) = bool_decide (c = b) && starts_with s p.
Proof. done. Qed.
Lemma starts_with_nil_cons b p : starts_with [] (b :: p) = false.
Proof. done. Qed.

#[global] Arguments starts_with : simpl never.
#[global] Arguments lit : simpl never.
#[global] Arguments trim : simpl never.
(** ** Splitting and trimming *)
Lemma split_byte_notin c w : c ∉ w → split_byte c w = [w].
Proof.
  induction w as [|b w IH]; intros H; simpl; [done|].
  rewrite bool_decide_eq_false_2 by set_solver. by rewrite IH by set_solver.
Qed.

Lemma split_byte_app c a b : split_byte c (a ++ c :: b) = split_byte c a ++ split_byte c b.
Proof.
  induction a as [|x a IH]; simpl.
  - by rewrite bool_decide_eq_true_2.
  - case_bool_decide; simpl; [by rewrite IH|]. rewrite IH.
    destruct (split_byte c a) as [|w ws] eqn:E; [|done].
    destruct a; simpl in E; [done|]. case_bool_decide; [done|]. by destruct (split_byte c a).
Qed.

Lemma find_sub_first_notin s b p : b ∉ s → find_sub s (b :: p) = None.
Proof.
  induction s as [|x s IH]; intros H; [done|]. simpl.
  rewrite starts_with_cons, bool_decide_eq_false_2 by set_solver. simpl. by rewrite IH by set_solver.
Qed.

(** A string of printable ASCII characters is its own trim. *)
Lemma trim_front_ascii ws fuel s :
  Forall (λ w, match w with b :: _ => ¬ (33 ≤ b < 127) | [] => False end) ws →
  Forall (λ b, 33 ≤ b < 127) s → trim_front ws fuel s = s.
Proof.
  intros Hws Hs. destruct fuel as [|fuel]; simpl; [done|].
  destruct (list_find _ ws) as [[i w]|] eqn:E; [|done]. exfalso.
  apply list_find_Some in E as (Hi & Hw & _).
  eapply Forall_lookup_1 in Hi; [|done]. simpl in Hi. destruct w as [|b w]; [done|].
  destruct s as [|c s]; [done|]. apply Forall_cons in Hs as [Hc _]. rewrite starts_with_cons in Hw.
  apply andb_true_iff in Hw as [->%bool_decide_eq_true _]. done.
Qed.

Lemma trim_ascii s : Forall (λ b, 33 ≤ b < 127) s → trim s = s.
Proof.
  intros Hs. unfold trim, trim_start, trim_end.
  assert (Forall (λ w : bytes, match w with b :: _ => ¬ (33 ≤ b < 127) | [] => False end)
    white_space) as H1 by (repeat constructor; lia).
  assert (Forall (λ w : bytes, match w with b :: _ => ¬ (33 ≤ b < 127) | [] => False end)
    (map reverse white_space)) as H2.
  { cbn. repeat (apply Forall_cons; split; [lia|]). apply Forall_nil. done. }
  rewrite (trim_front_ascii white_space) by done.
  rewrite trim_front_ascii by (done || by apply Forall_reverse). apply reverse_involutive.
Qed.

#[global] Arguments from_utf8_lossy : simpl never.

(** ** Lossy decoding *)
Lemma utf8_step_pos b s : (1 ≤ (utf8_step b s).2)%nat.
Proof. unfold utf8_step. repeat case_match; simpl; lia. Qed.

Lemma lossy_go_cons fuel b s :
  lossy_go (S fuel) (b :: s) =
  (if (utf8_step b s).1 then take (utf8_step b s).2 (b :: s) else replacement)
  ++ lossy_go fuel (drop (utf8_step b s).2 (b :: s)).
Proof. cbn [lossy_go]. by destruct (utf8_step b s). Qed.

Lemma lossy_nonempty s : s ≠ [] → from_utf8_lossy s ≠ [].
Proof.
  destruct s as [|b s]; [done|]. intros _. unfold from_utf8_lossy. cbn [length].
  rewrite lossy_go_cons. pose proof (utf8_step_pos b s).
  destruct (utf8_step b s) as [[] [|n]]; simpl in *; [lia|done|lia|done].
Qed.

Lemma lossy_ascii b s : b < 128 → from_utf8_lossy (b :: s) = b :: from_utf8_lossy s.
Proof.
  intros Hb. unfold from_utf8_lossy. cbn [length]. rewrite lossy_go_cons.
  unfold utf8_step. rewrite bool_decide_eq_true_2 by done. cbn. by rewrite drop_0, take_0.
Qed.

(** A prefix of ASCII text survives the lossy decoding, and none appears. *)
Lemma lossy_starts_with s p :
  Forall (λ c, c < 128) p → starts_with (from_utf8_lossy s) p = starts_with s p.
Proof.
  intros Hp. revert s. induction Hp as [|c p Hc _ IH]; intros s; [by rewrite !starts_with_nil|].
  destruct s as [|b s]; [done|]. destruct (decide (b < 128)) as [Hb|Hb].
  { by rewrite lossy_ascii, !starts_with_cons, IH by done. }
  rewrite starts_with_cons, (bool_decide_eq_false_2 (b = c)) by lia. cbn [andb].
  unfold from_utf8_lossy. cbn [length]. rewrite lossy_go_cons.
  pose proof (utf8_step_pos b s) as Hn. destruct (utf8_step b s) as [[] [|n]]; cbn in Hn; try lia;
    cbn [fst snd take replacement app]; rewrite starts_with_cons, bool_decide_eq_false_2 by lia; done.
Qed.

(** A parsed number is in range. *)
Lemma parse_digits_range max acc s n :
  0 ≤ acc ≤ max → parse_digits max acc s = Some n → 0 ≤ n ≤ max.
Proof.
  revert acc. induction s as [|b s IH]; intros acc Hacc; simpl; [by intros [= <-]|].
  unfold digit. case_bool_decide; [|done]. cbn. case_bool_decide; [|done]. apply IH. lia.
Qed.

Lemma parse_uint_range max s n : 0 ≤ max → parse_uint max s = Some n → 0 ≤ n ≤ max.
Proof.
  intros Hm. unfold parse_uint. repeat case_match; try done; apply parse_digits_range; lia.
Qed.

(** Decimal text can be read back, and is all digits. *)
Definition dec_value (v : Z) (s : bytes) : Z := foldl (λ v b, v * 10 + (b - 48)) v s.

Lemma dec_digits_value fuel n acc :
  0 ≤ n < 10 ^ Z.of_nat fuel → dec_value 0 (dec_digits fuel n acc) = dec_value n acc.
Proof.
  revert n acc. induction fuel as [|fuel IH]; intros n acc Hn.
  { change (10 ^ Z.of_nat 0) with 1 in Hn. by assert (n = 0) as -> by lia. }
  cbn [dec_digits]. rewrite Nat2Z.inj_succ, Z.pow_succ_r in Hn by lia.
  pose proof (Z.div_mod n 10 ltac:(lia)) as Hdm. pose proof (Z.mod_pos_bound n 10 ltac:(lia)) as Hm.
  case_bool_decide as Hz.
  - unfold dec_value. cbn [foldl]. f_equal. lia.
  - rewrite IH; [unfold dec_value; cbn [foldl]; f_equal; lia|].
    split; [apply Z.div_pos; lia|apply Z.div_lt_upper_bound; lia].
Qed.

Lemma dec_digits_digits fuel n acc :
  0 ≤ n → Forall (λ b, 48 ≤ b ≤ 57) acc → Forall (λ b, 48 ≤ b ≤ 57) (dec_digits fuel n acc).
Proof.
  revert n acc. induction fuel as [|fuel IH]; intros n acc Hn Hacc; cbn [dec_digits]; [done|].
  pose proof (Z.mod_pos_bound n 10 ltac:(lia)).
  assert (Forall (λ b, 48 ≤ b ≤ 57) ((48 + n mod 10) :: acc)) by (constructor; [lia|done]).
  case_bool_decide; [done|]. apply IH; [apply Z.div_pos; lia|done].
Qed.

Lemma to_dec_inj n m : 0 ≤ n < 10 ^ 20 → 0 ≤ m < 10 ^ 20 → to_dec n = to_dec m → n = m.
Proof.
  intros Hn Hm Heq. unfold to_dec in Heq. apply (f_equal (dec_value 0)) in Heq.
  by rewrite !dec_digits_value in Heq by (simpl; lia).
Qed.

Lemma to_dec_digits n : 0 ≤ n → Forall (λ b, 48 ≤ b ≤ 57) (to_dec n).
Proof. intros. by apply dec_digits_digits. Qed.

Lemma dec_digits_nonempty fuel n acc : acc ≠ [] → dec_digits fuel n acc ≠ [].
Proof. revert n acc. induction fuel as [|fuel IH]; intros n acc Ha; cbn [dec_digits]; [done|]. case_bool_decide; [done|by apply IH]. Qed.

Lemma to_dec_nonempty n : to_dec n ≠ [].
Proof.
  unfold to_dec. change 20%nat with (S 19). generalize 19%nat. intros fuel. cbn [dec_digits].
  case_bool_decide; [done|by apply dec_digits_nonempty].
Qed.

Lemma dec_value_ge s acc : 0 ≤ acc → Forall (λ b, 48 ≤ b ≤ 57) s → acc ≤ dec_value acc s.
Proof.
  intros Ha Hs. revert acc Ha. induction Hs as [|b s Hb _ IH]; intros acc Ha; [done|].
  unfold dec_value in *. cbn [foldl]. specialize (IH (acc * 10 + (b - 48)) ltac:(lia)). lia.
Qed.

Lemma parse_digits_value max acc s :
  0 ≤ acc → Forall (λ b, 48 ≤ b ≤ 57) s → dec_value acc s ≤ max → parse_digits max acc s = Some (dec_value acc s).
Proof.
  intros Ha Hs. revert acc Ha. induction Hs as [|b s Hb Hs IH]; intros acc Ha Hm; [done|].
  unfold dec_value in *. cbn [parse_digits foldl] in *. unfold digit. rewrite bool_decide_eq_true_2 by done.
  cbn [mbind option_bind]. pose proof (dec_value_ge s (acc * 10 + (b - 48)) ltac:(lia) Hs) as Hge. unfold dec_value in Hge.
  rewrite bool_decide_eq_true_2 by lia. apply IH; lia.
Qed.

(** [str::parse] reads what [to_string] wrote. *)
Lemma parse_uint_to_dec max n : 0 ≤ n ≤ max → n < 10 ^ 20 → parse_uint max (to_dec n) = Some n.
Proof.
  intros Hn Hm. pose proof (to_dec_digits n ltac:(lia)) as Hd. pose proof (to_dec_nonempty n) as Hne.
  assert (dec_value 0 (to_dec n) = n) as Hv by (unfold to_dec; rewrite dec_digits_value by (simpl; lia); done).
  destruct (to_dec n) as [|b s]; [done|]. assert (b ≠ 43) as Hb by (apply Forall_cons in Hd as [? _]; lia).
  transitivity (parse_digits max 0 (b :: s)).
  - unfold parse_uint. repeat case_match; congruence.
  - rewrite parse_digits_value by (done || lia). by rewrite Hv.
Qed.

Lemma dec_digits_head fuel n acc :
  0 < n < 10 ^ Z.of_nat fuel → ∃ d l, dec_digits fuel n acc = d :: l ∧ 49 ≤ d ≤ 57.
Proof.
  revert n acc. induction fuel as [|fuel IH]; intros n acc Hn; [change (10 ^ Z.of_nat 0) with 1 in Hn; lia|].
  cbn [dec_digits]. rewrite Nat2Z.inj_succ, Z.pow_succ_r in Hn by lia.
  pose proof (Z.div_mod n 10 ltac:(lia)) as Hdm. pose proof (Z.mod_pos_bound n 10 ltac:(lia)) as Hmod.
  case_bool_decide as Hz; [do 2 eexists; split; [done|lia]|].
  apply IH. split; [pose proof (Z.div_pos n 10); lia|apply Z.div_lt_upper_bound; lia].
Qed.

(** ** Channels

    [tokio::sync::mpsc::channel(n)] panics on a capacity of zero or above
    [Semaphore::MAX_PERMITS], which is [usize::MAX >> 3]. *)
Definition MAX_PERMITS : Z := Z.shiftr u64_max 3.
Definition channel_opens (n : Z) : bool := bool_decide (0 < n ≤ MAX_PERMITS).
