(* ===== verification/Json.v ===== *)
(** * JSON text

    The values [serde_json] reads and writes, the accessors of [serde_json::Value], and
    what [#[derive(Deserialize)]] does with the members of an object. The texts of values
    are a parameter of the development, the class [SerdeJson]: a writer ([to_string],
    [to_vec]) and a reader ([from_str], [from_slice]) with the laws its clients rely on.
    The writer [json_show] and the reader [json_read], after RFC 8259, are an instance of
    it, with which texts can be evaluated.

    Shown: the instance keeps the laws; reading what was written gives the value back
    ([read_show]), whatever its strings hold, and writing puts everything on one line. *)

From Stdlib Require Import SpecFloat.
From S2P Require Import Prelude RustStd.

(** ** Values *)
(** A number keeps its text. *)
Inductive jv : Type :=
| VNull
| VBool (b : bool)
| VNum (text : bytes)
| VStr (s : bytes)
| VArr (items : list jv)
| VObj (fields : list (bytes * jv)).

Definition jdigit (b : Z) : bool := (48 <=? b) && (b <=? 57).

Fixpoint skip_while (p : Z → bool) (s : bytes) : bytes :=
  match s with
  | b :: r => if p b then skip_while p r else s
  | [] => []
  end.
Fixpoint take_while (p : Z → bool) (s : bytes) : bytes :=
  match s with
  | b :: r => if p b then b :: take_while p r else []
  | [] => []
  end.

(** The grammar of numbers: an optional sign, digits without a leading zero, an
    optional fraction and an optional exponent. *)
Definition jdigits (s : bytes) : option bytes :=
  match s with
  | d :: r => if jdigit d then Some (skip_while jdigit r) else None
  | [] => None
  end.
Definition jexponent (s : bytes) : bool :=
  match s with
  | [] => true
  | e :: r =>
      ((e =? 101) || (e =? 69)) &&
      match jdigits match r with c :: r' => if (c =? 43) || (c =? 45) then r' else r | [] => [] end with
      | Some r => is_empty r
      | None => false
      end
  end.
Definition jfraction (s : bytes) : bool :=
  match s with
  | d :: r =>
      if d =? 46 then match jdigits r with Some r => jexponent r | None => false end else jexponent s
  | [] => true
  end.
Definition json_unsigned (s : bytes) : bool :=
  match s with
  | d :: r => if d =? 48 then jfraction r else jdigit d && jfraction (skip_while jdigit r)
  | [] => false
  end.
Definition json_number (s : bytes) : bool :=
  match s with
  | c :: r => json_unsigned (if c =? 45 then r else s)
  | [] => false
  end.

(** ** Writing *)
Definition json_escape (b : Z) : bytes :=
  if bool_decide (b = 34) then [92; 34]
  else if bool_decide (b = 92) then [92; 92]
  else if bool_decide (b = 8) then [92; 98]
  else if bool_decide (b = 9) then [92; 116]
  else if bool_decide (b = 10) then [92; 110]
  else if bool_decide (b = 12) then [92; 102]
  else if bool_decide (b = 13) then [92; 114]
  else if bool_decide (b < 32) then lit "\u00" ++ to_hex 2 b
  else [b].

Definition json_string (s : bytes) : bytes := [34] ++ concat (map json_escape s) ++ [34].

Fixpoint join_comma (l : list bytes) : bytes :=
  match l with
  | [] => []
  | [x] => x
  | x :: l => x ++ [44] ++ join_comma l
  end.

Fixpoint json_show (j : jv) : bytes :=
  match j with
  | VNull => lit "null"
  | VBool b => if b then lit "true" else lit "false"
  | VNum text => text
  | VStr s => json_string s
  | VArr items => [91] ++ join_comma (map json_show items) ++ [93]
  | VObj fields => [123] ++ join_comma (map (λ '(k, v), json_string k ++ [58] ++ json_show v) fields) ++ [125]
  end.

(** ** Reading *)
Definition json_ws (b : Z) : bool := (b =? 32) || (b =? 9) || (b =? 10) || (b =? 13).
Definition skip_ws : bytes → bytes := skip_while json_ws.

Definition jhex (b : Z) : option Z :=
  if jdigit b then Some (b - 48)
  else if (97 <=? b) && (b <=? 102) then Some (b - 87)
  else if (65 <=? b) && (b <=? 70) then Some (b - 55)
  else None.
Definition jhex4 (a b c d : Z) : option Z :=
  a ← jhex a; b ← jhex b; c ← jhex c; d ← jhex d; Some (((a * 16 + b) * 16 + c) * 16 + d).

(** [char::encode_utf8]. *)
Definition utf8_encode (c : Z) : bytes :=
  if c <? 128 then [c]
  else if c <? 2048 then [192 + c / 64; 128 + c mod 64]
  else if c <? 65536 then [224 + c / 4096; 128 + (c / 64) mod 64; 128 + c mod 64]
  else [240 + c / 262144; 128 + (c / 4096) mod 64; 128 + (c / 64) mod 64; 128 + c mod 64].

(** A one-letter escape. *)
Definition json_unescape (c : Z) : option Z :=
  if (c =? 34) || (c =? 92) || (c =? 47) then Some c
  else if c =? 98 then Some 8
  else if c =? 116 then Some 9
  else if c =? 110 then Some 10
  else if c =? 102 then Some 12
  else if c =? 114 then Some 13
  else None.

Definition cons_fst (pre : bytes) (r : option (bytes * bytes)) : option (bytes * bytes) :=
  match r with Some (s, r) => Some (pre ++ s, r) | None => None end.

(** A string after its opening quote; two escapes make a character beyond the
    basic plane, and one of them alone is an error. *)
Fixpoint read_chars (s : bytes) : option (bytes * bytes) :=
  match s with
  | [] => None
  | b :: r =>
      if b =? 34 then Some ([], r)
      else if b <? 32 then None
      else if negb (b =? 92) then cons_fst [b] (read_chars r)
      else match r with
           | [] => None
           | c :: r =>
               match json_unescape c with
               | Some x => cons_fst [x] (read_chars r)
               | None =>
                   if negb (c =? 117) then None
                   else match r with
                        | h1 :: h2 :: h3 :: h4 :: r =>
                            match jhex4 h1 h2 h3 h4 with
                            | None => None
                            | Some u =>
                                if (u <? 55296) || (57343 <? u) then cons_fst (utf8_encode u) (read_chars r)
                                else if 56319 <? u then None
                                else match r with
                                     | e1 :: e2 :: l1 :: l2 :: l3 :: l4 :: r =>
                                         match jhex4 l1 l2 l3 l4 with
                                         | Some v =>
                                             if (e1 =? 92) && (e2 =? 117) && (56320 <=? v) && (v <=? 57343)
                                             then cons_fst (utf8_encode (65536 + (u - 55296) * 1024 + (v - 56320))) (read_chars r)
                                             else None
                                         | None => None
                                         end
                                     | _ => None
                                     end
                            end
                        | _ => None
                        end
               end
           end
  end.

Definition num_byte (b : Z) : bool :=
  jdigit b || (b =? 43) || (b =? 45) || (b =? 46) || (b =? 101) || (b =? 69).

(** A literal or a number. *)
Definition read_word (s : bytes) : option (jv * bytes) :=
  if starts_with s (lit "null") then Some (VNull, drop 4 s)
  else if starts_with s (lit "true") then Some (VBool true, drop 4 s)
  else if starts_with s (lit "false") then Some (VBool false, drop 5 s)
  else let t := take_while num_byte s in
       if json_number t then Some (VNum t, skip_while num_byte s) else None.

(** The recursion descends one byte at least at every call, so that the length of
    the text is fuel enough. *)
Fixpoint read_value (n : nat) (s : bytes) : option (jv * bytes) :=
  match n with
  | O => None
  | S n =>
      match skip_ws s with
      | [] => None
      | b :: r =>
          if b =? 34 then match read_chars r with Some (s, r) => Some (VStr s, r) | None => None end
          else if b =? 91 then
            match skip_ws r with
            | c :: r' =>
                if c =? 93 then Some (VArr [], r')
                else match read_items n (c :: r') with Some (l, r) => Some (VArr l, r) | None => None end
            | [] => None
            end
          else if b =? 123 then
            match skip_ws r with
            | c :: r' =>
                if c =? 125 then Some (VObj [], r')
                else match read_members n (c :: r') with Some (l, r) => Some (VObj l, r) | None => None end
            | [] => None
            end
          else read_word (b :: r)
      end
  end
with read_items (n : nat) (s : bytes) : option (list jv * bytes) :=
  match n with
  | O => None
  | S n =>
      match read_value n s with
      | None => None
      | Some (v, r) =>
          match skip_ws r with
          | c :: r =>
              if c =? 93 then Some ([v], r)
              else if c =? 44 then match read_items n r with Some (l, r) => Some (v :: l, r) | None => None end
              else None
          | [] => None
          end
      end
  end
with read_members (n : nat) (s : bytes) : option (list (bytes * jv) * bytes) :=
  match n with
  | O => None
  | S n =>
      match skip_ws s with
      | [] => None
      | q :: r =>
          if negb (q =? 34) then None
          else match read_chars r with
               | None => None
               | Some (k, r) =>
                   match skip_ws r with
                   | c :: r =>
                       if negb (c =? 58) then None
                       else match read_value n r with
                            | None => None
                            | Some (v, r) =>
                                match skip_ws r with
                                | c :: r =>
                                    if c =? 125 then Some ([(k, v)], r)
                                    else if c =? 44 then
                                      match read_members n r with Some (l, r) => Some ((k, v) :: l, r) | None => None end
                                    else None
                                | [] => None
                                end
                            end
                   | [] => None
                   end
               end
      end
  end.

Definition json_fuel (s : bytes) : nat := S (length s).

(** [from_str] and, of UTF-8 text, [from_slice]: one value and nothing after it. *)
Definition json_read (s : bytes) : option jv :=
  match read_value (json_fuel s) s with
  | Some (v, r) => if is_empty (skip_ws r) then Some v else None
  | None => None
  end.

(** ** [serde_json::Value] *)
Definition fields_named (k : bytes) (l : list (bytes * jv)) : list jv :=
  map snd (filter (λ p, p.1 = k) l).

(** Of two members with one name a [Value] keeps the second. *)
Definition value_get (j : jv) (k : bytes) : option jv :=
  match j with VObj l => last (fields_named k l) | _ => None end.
Definition value_as_str (j : jv) : option bytes := match j with VStr s => Some s | _ => None end.
Definition value_as_array (j : jv) : option (list jv) := match j with VArr l => Some l | _ => None end.

(** [Value::pointer]: a path of member names and indices. *)
Fixpoint replace_pair (a b c : Z) (s : bytes) : bytes :=
  match s with
  | x :: r =>
      match r with
      | y :: r' => if (x =? a) && (y =? b) then c :: replace_pair a b c r' else x :: replace_pair a b c r
      | [] => [x]
      end
  | [] => []
  end.
Definition pointer_unescape (t : bytes) : bytes := replace_pair 126 48 126 (replace_pair 126 49 47 t).
Definition pointer_index (t : bytes) : option Z :=
  if starts_with t (lit "+") || (starts_with t (lit "0") && negb (bool_decide (length t = 1%nat))) then None
  else parse_uint (2 ^ 64 - 1) t.
Definition pointer_step (j : jv) (t : bytes) : option jv :=
  match j with
  | VObj _ => value_get j (pointer_unescape t)
  | VArr l => i ← pointer_index (pointer_unescape t); l !! Z.to_nat i
  | _ => None
  end.
Definition value_pointer (j : jv) (path : bytes) : option jv :=
  if is_empty path then Some j
  else if negb (starts_with path (lit "/")) then None
  else foldl (λ o t, o ≫= λ j, pointer_step j t) (Some j) (tail (split_byte 47 path)).

(** ** [#[derive(Deserialize)]] *)
(** The members of a struct: of an object, or of an array in the order of the
    declaration, of which at least [min] must be there. *)
Definition struct_fields (names : list bytes) (min : nat) (j : jv) : option (list (bytes * jv)) :=
  match j with
  | VObj l => Some l
  | VArr items =>
      if bool_decide (min ≤ length items ≤ length names)%nat then Some (zip names items) else None
  | _ => None
  end.

(** A member that occurs twice is an error; one that does not occur is [None]. *)
Definition serde_field (k : bytes) (l : list (bytes * jv)) : option (option jv) :=
  match fields_named k l with
  | [] => Some None
  | [v] => Some (Some v)
  | _ => None
  end.
Definition serde_required {A} (dec : jv → option A) (k : bytes) (l : list (bytes * jv)) : option A :=
  o ← serde_field k l; v ← o; dec v.
Definition serde_default {A} (d : A) (dec : jv → option A) (k : bytes) (l : list (bytes * jv)) : option A :=
  o ← serde_field k l; match o with Some v => dec v | None => Some d end.
Definition serde_option {A} (dec : jv → option A) (j : jv) : option (option A) :=
  match j with VNull => Some None | _ => a ← dec j; Some (Some a) end.
Definition serde_string (j : jv) : option bytes := value_as_str j.
Definition serde_vec {A} (dec : jv → option A) (j : jv) : option (list A) :=
  match j with VArr l => mapM dec l | _ => None end.

(** Integers: digits only, in the range of the type; [-0] is not one. *)
Definition serde_uint (w : Z) (j : jv) : option Z :=
  match j with VNum t => parse_uint (2 ^ w - 1) t | _ => None end.
Definition serde_i64 (j : jv) : option Z :=
  match j with
  | VNum (45 :: t) => n ← parse_uint (2 ^ 63) t; if bool_decide (n = 0) then None else Some (- n)
  | VNum t => parse_uint (2 ^ 63 - 1) t
  | _ => None
  end.

Lemma fields_named_cons k k' v l :
  fields_named k ((k', v) :: l) = if bool_decide (k' = k) then v :: fields_named k l else fields_named k l.
Proof.
  unfold fields_named. rewrite filter_cons. cbn [fst]. destruct (decide (k' = k)); [by rewrite bool_decide_eq_true_2|by rewrite bool_decide_eq_false_2].
Qed.

(** Which members have the name, and their values. *)
Definition named (k : bytes) (l : list (bytes * jv)) : list bool := map (λ p, bool_decide (p.1 = k)) l.
Fixpoint pick (bs : list bool) (l : list (bytes * jv)) : list jv :=
  match bs, l with
  | b :: bs, (_, v) :: l => if b then v :: pick bs l else pick bs l
  | _, _ => []
  end.
Lemma fields_named_pick k l bs : named k l = bs → fields_named k l = pick bs l.
Proof.
  intros <-. induction l as [|[k' v] l IH]; [done|]. rewrite fields_named_cons, IH. done.
Qed.

(** Looks the members of a struct up, in an object whose names are literals. *)
Ltac lit_decide :=
  repeat match goal with
         | |- context [bool_decide (lit ?a = lit ?b)] =>
             let v := eval lazy in (bool_decide (lit a = lit b)) in
             change (bool_decide (lit a = lit b)) with v
         end; cbv iota.
Ltac serde_lookup :=
  unfold serde_required, serde_default, serde_field;
  repeat match goal with
         | |- context [fields_named ?k ?l] =>
             let bs := eval lazy in (named k l) in
             rewrite (fields_named_pick k l bs) by (lazy; reflexivity); cbn [pick]
         end; cbn [mbind option_bind].

(** ** Lemmas on the writer *)
(** Values a text can be given for. *)
Fixpoint jv_ok (j : jv) : Prop :=
  match j with
  | VNull | VBool _ => True
  | VNum text => json_number text = true
  | VStr s => Forall is_byte s
  | VArr items => (fix all (l : list jv) : Prop := match l with [] => True | v :: l => jv_ok v ∧ all l end) items
  | VObj fields =>
      (fix all (l : list (bytes * jv)) : Prop :=
         match l with [] => True | (k, v) :: l => Forall is_byte k ∧ jv_ok v ∧ all l end) fields
  end.

Lemma jv_ok_arr items : jv_ok (VArr items) ↔ Forall jv_ok items.
Proof. cbn. induction items as [|v l IH]; [done|]. rewrite Forall_cons. cbn in *. tauto. Qed.

Lemma jv_ok_obj fields : jv_ok (VObj fields) ↔ Forall (λ p, Forall is_byte p.1 ∧ jv_ok p.2) fields.
Proof. cbn. induction fields as [|[k v] l IH]; [done|]. rewrite Forall_cons. cbn in *. tauto. Qed.

(** Splits the condition on an object whose names are literals. *)
Ltac obj_ok :=
  apply jv_ok_obj;
  repeat (apply Forall_cons_2; [split; cbn [fst snd]; [apply lit_is_byte|]|]);
  lazymatch goal with |- Forall _ [] => apply Forall_nil_2 | _ => idtac end.

Lemma jv_nested_ind (P : jv → Prop) :
  P VNull → (∀ b, P (VBool b)) → (∀ t, P (VNum t)) → (∀ s, P (VStr s)) →
  (∀ items, Forall P items → P (VArr items)) → (∀ fields, Forall (λ p, P p.2) fields → P (VObj fields)) → ∀ j, P j.
Proof.
  intros H1 H2 H3 H4 H5 H6. fix IH 1.
  intros j. destruct j as [|b|t|s|items|fields]; [exact H1|apply H2|apply H3|apply H4|apply H5|apply H6].
  - induction items as [|v l IHl]; constructor; [apply IH|exact IHl].
  - induction fields as [|[k v] l IHl]; constructor; [apply IH|exact IHl].
Qed.

Lemma skip_while_id p s r : match s with b :: _ => p b = false | [] => False end → skip_while p (s ++ r) = s ++ r.
Proof. destruct s as [|b s]; [done|]. cbn. by intros ->. Qed.

Lemma Forall_skip_while (p q : Z → bool) s :
  (∀ b, p b = true → q b = true) → Forall (λ b, q b = true) (skip_while p s) → Forall (λ b, q b = true) s.
Proof.
  intros Hpq. induction s as [|b s IH]; [done|]. cbn. destruct (p b) eqn:Hp; [|done].
  intros Hs. constructor; [by apply Hpq|by apply IH].
Qed.

(** A text ends a number when it does not go on with one. *)
Definition ended (r : bytes) : Prop := match r with [] => True | b :: _ => num_byte b = false end.

Lemma while_app p s r :
  Forall (λ b, p b = true) s → match r with b :: _ => p b = false | [] => True end →
  take_while p (s ++ r) = s ∧ skip_while p (s ++ r) = r.
Proof.
  intros Hs Hr. induction Hs as [|b s Hb _ IH]; cbn.
  - destruct r as [|b r]; [done|]. cbn. by rewrite Hr.
  - rewrite Hb. destruct IH as [-> ->]. done.
Qed.

Lemma digit_num b : jdigit b = true → num_byte b = true.
Proof. unfold num_byte. by intros ->. Qed.

Lemma digits_num s r :
  jdigits s = Some r → Forall (λ b, num_byte b = true) r → Forall (λ b, num_byte b = true) s.
Proof.
  destruct s as [|d s]; [done|]. cbn. destruct (jdigit d) eqn:Hd; [|done]. intros [= <-] Hr.
  constructor; [by apply digit_num|]. eapply Forall_skip_while; [apply digit_num|done].
Qed.

Lemma exponent_num s : jexponent s = true → Forall (λ b, num_byte b = true) s.
Proof.
  destruct s as [|e s]; [done|]. cbn. rewrite andb_true_iff. intros [He Hs].
  constructor; [unfold num_byte; apply orb_true_iff in He as [-> | ->]; by rewrite ?orb_true_r|].
  destruct (jdigits _) as [[|? ?]|] eqn:Hd; try done. apply digits_num in Hd; [|constructor].
  destruct s as [|c s]; [constructor|]. destruct ((c =? 43) || (c =? 45)) eqn:Hc; [|done].
  constructor; [|done]. unfold num_byte. apply orb_true_iff in Hc as [-> | ->]; by rewrite ?orb_true_r.
Qed.

Lemma fraction_num s : jfraction s = true → Forall (λ b, num_byte b = true) s.
Proof.
  destruct s as [|d s]; [done|]. unfold jfraction. destruct (d =? 46) eqn:Hd; [|apply exponent_num].
  destruct (jdigits s) as [r|] eqn:Hr; [|done]. intros Hx%exponent_num. constructor.
  - unfold num_byte. by rewrite Hd, ?orb_true_r.
  - by eapply digits_num.
Qed.

Lemma number_bytes s :
  json_number s = true → Forall (λ b, num_byte b = true) s ∧ ∃ b l, s = b :: l ∧ jdigit b || (b =? 45) = true.
Proof.
  assert (∀ s, json_unsigned s = true → Forall (λ b, num_byte b = true) s ∧ ∃ b l, s = b :: l ∧ jdigit b = true) as Hpos.
  { intros [|d t]; [done|]. cbn [json_unsigned]. destruct (d =? 48) eqn:Hd; intros Ht.
    - apply Z.eqb_eq in Hd as ->. split; [constructor; [done|by apply fraction_num]|by do 2 eexists].
    - apply andb_true_iff in Ht as [Hdig Ht]. split; [|by do 2 eexists]. constructor; [by apply digit_num|].
      eapply Forall_skip_while; [apply digit_num|by apply fraction_num]. }
  unfold json_number. destruct s as [|c s]; [done|]. destruct (c =? 45) eqn:Hc; intros Hs%Hpos.
  - apply Z.eqb_eq in Hc as ->. destruct Hs as [Hs _]. split; [by constructor|by do 2 eexists].
  - destruct Hs as (Hs & b & l & [= -> ->] & Hb). split; [done|]. do 2 eexists. split; [done|]. by rewrite Hb.
Qed.

(** The first byte of a text. *)
Lemma show_first j :
  jv_ok j → ∃ b l, json_show j = b :: l ∧ json_ws b = false ∧ b ≠ 93 ∧ b ≠ 125.
Proof.
  destruct j as [|[]|t|s|items|fields]; intros Hok; try (do 2 eexists; by split_and!).
  destruct (number_bytes t Hok) as (_ & b & l & -> & Hb). exists b, l. split; [done|].
  unfold jdigit, json_ws in *. lia.
Qed.

Lemma join_comma_cons x l t :
  join_comma (x :: l) ++ t = x ++ match l with [] => t | _ => 44 :: join_comma l ++ t end.
Proof. destruct l; cbn; [done|]. by rewrite <- app_assoc. Qed.

Lemma join_comma_length x l :
  length (join_comma (x :: l)) = (length x + match l with [] => 0 | _ => 1 + length (join_comma l) end)%nat.
Proof. destruct l; cbn; [lia|]. rewrite length_app. cbn. done. Qed.

(** ** Reading back *)
Lemma read_chars_escape b t : is_byte b → read_chars (json_escape b ++ t) = cons_fst [b] (read_chars t).
Proof.
  intros Hb.
  assert (Forall (λ b, ∀ t, read_chars (json_escape b ++ t) = cons_fst [b] (read_chars t)) (seqZ 0 256)) as Hall.
  { vm_compute seqZ. repeat (constructor; [intros; reflexivity|]). constructor. }
  rewrite Forall_forall in Hall. apply Hall, elem_of_seqZ. unfold is_byte in Hb. lia.
Qed.

Lemma read_chars_string s r : Forall is_byte s → read_chars (concat (map json_escape s) ++ 34 :: r) = Some (s, r).
Proof.
  induction 1 as [|b s Hb _ IH]; [done|]. cbn [map concat]. rewrite <- app_assoc, read_chars_escape, IH by done. done.
Qed.

Lemma read_number t r : json_number t = true → ended r → read_word (t ++ r) = Some (VNum t, r).
Proof.
  intros Ht Hr. destruct (number_bytes t Ht) as (Hn & b & l & -> & Hb). unfold read_word.
  assert (∀ c w, c = 110 ∨ c = 116 ∨ c = 102 → starts_with ((b :: l) ++ r) (c :: w) = false) as Hw.
  { intros c w Hc. cbn [starts_with app]. apply andb_false_iff. left. apply bool_decide_eq_false_2.
    unfold jdigit in Hb. lia. }
  change (lit "null") with (110 :: lit "ull"). change (lit "true") with (116 :: lit "rue").
  change (lit "false") with (102 :: lit "alse"). rewrite !Hw by tauto.
  destruct (while_app num_byte (b :: l) r Hn Hr) as [-> ->]. by rewrite Ht.
Qed.

Definition reads (j : jv) : Prop :=
  ∀ n r, jv_ok j → ended r → (length (json_show j) ≤ n)%nat → read_value n (json_show j ++ r) = Some (j, r).

(** What follows an item or a member. *)
Lemma skip_ws_show j r : jv_ok j → skip_ws (json_show j ++ r) = json_show j ++ r.
Proof.
  intros Hok. destruct (show_first j Hok) as (b & l & -> & Hb & _). by apply skip_while_id.
Qed.

Lemma show_length j : jv_ok j → (1 ≤ length (json_show j))%nat.
Proof. intros Hok. destruct (show_first j Hok) as (b & l & -> & _). cbn. lia. Qed.

Lemma items_read items n r :
  Forall reads items → Forall jv_ok items → items ≠ [] → (length (join_comma (map json_show items)) < n)%nat →
  read_items n (join_comma (map json_show items) ++ 93 :: r) = Some (items, r).
Proof.
  intros Hr Hok. revert n. induction Hr as [|v l Hv Hr IH]; intros n Hne Hn; [done|].
  apply Forall_cons in Hok as [Hokv Hokl]. destruct n as [|n]; [lia|]. pose proof (show_length v Hokv) as Hlen.
  cbn [map] in *. rewrite join_comma_cons. rewrite join_comma_length in Hn. cbn [read_items].
  destruct l as [|w l].
  - rewrite Hv by (done || (cbn in Hn; lia)). done.
  - cbn [map] in *. rewrite Hv by (done || lia). cbn [skip_ws skip_while json_ws]. cbn -[read_items join_comma].
    rewrite IH by (done || lia). done.
Qed.

Definition member (p : bytes * jv) : bytes := json_string p.1 ++ [58] ++ json_show p.2.

Lemma show_obj fields : json_show (VObj fields) = [123] ++ join_comma (map member fields) ++ [125].
Proof. cbn. do 3 f_equal. induction fields as [|[k v] l IH]; [done|]. cbn. by rewrite IH. Qed.

Lemma read_member k v n t :
  Forall is_byte k → jv_ok v → reads v → ended t → (length (json_show v) ≤ n)%nat →
  read_members (S n) (member (k, v) ++ t) =
    match skip_ws t with
    | c :: r =>
        if c =? 125 then Some ([(k, v)], r)
        else if c =? 44 then match read_members n r with Some (l, r) => Some ((k, v) :: l, r) | None => None end
        else None
    | [] => None
    end.
Proof.
  intros Hk Hok Hv Ht Hn. unfold member, json_string. cbn [fst snd]. rewrite <- !app_assoc.
  cbn [read_members app skip_ws skip_while]. change (json_ws 34) with false. cbn [negb Z.eqb Pos.eqb].
  rewrite read_chars_string by done. cbn [app skip_ws skip_while]. change (json_ws 58) with false. cbn [negb Z.eqb Pos.eqb].
  by rewrite Hv.
Qed.

Lemma members_read fields n r :
  Forall (λ p, reads p.2) fields → Forall (λ p, Forall is_byte p.1 ∧ jv_ok p.2) fields → fields ≠ [] →
  (length (join_comma (map member fields)) < n)%nat →
  read_members n (join_comma (map member fields) ++ 125 :: r) = Some (fields, r).
Proof.
  intros Hr Hok. revert n. induction Hr as [|[k v] l Hv Hr IH]; intros n Hne Hn; [done|].
  apply Forall_cons in Hok as [[Hk Hokv] Hokl]. destruct n as [|n]; [lia|]. cbn [fst snd] in *.
  cbn [map] in *. rewrite join_comma_cons. rewrite join_comma_length in Hn.
  assert (length (json_show v) + 4 ≤ length (member (k, v)) + 1)%nat as Hlen
    by (unfold member, json_string; rewrite !length_app; cbn; lia).
  destruct l as [|w l].
  - rewrite read_member by (done || lia). done.
  - cbn [map] in *. rewrite read_member by (done || lia). cbn -[read_members join_comma].
    rewrite IH by (done || lia). done.
Qed.

Lemma value_reads j : reads j.
Proof.
  induction j as [|b|t|s|items IH|fields IH] using jv_nested_ind; intros n r Hok Hr Hn;
    (destruct n as [|n]; [pose proof (show_length _ Hok); lia|]).
  - done.
  - by destruct b.
  - cbn [read_value]. rewrite skip_ws_show by done. cbn [json_show].
    destruct (number_bytes t Hok) as (_ & b & l & Heq & Hb). pose proof (read_number t r Hok Hr) as Hw.
    rewrite Heq in *. cbn [app] in *. unfold jdigit in Hb.
    rewrite !(proj2 (Z.eqb_neq b _)) by lia. done.
  - cbn [read_value json_show]. unfold json_string. rewrite <- app_assoc. cbn [app skip_ws skip_while].
    change (json_ws 34) with false. cbn [Z.eqb Pos.eqb]. rewrite <- app_assoc. cbn [app]. by rewrite read_chars_string.
  - apply jv_ok_arr in Hok. cbn [read_value json_show] in *. rewrite !length_app in Hn. cbn [length] in Hn.
    rewrite <- !app_assoc. cbn [app skip_ws skip_while]. change (json_ws 91) with false. cbn [Z.eqb Pos.eqb].
    destruct items as [|v l]; [done|]. pose proof (items_read (v :: l) n r IH Hok ltac:(done) ltac:(lia)) as Hi.
    apply Forall_cons in Hok as [Hv _]. destruct (show_first v Hv) as (b & w & Hb & Hws & Hn93 & _).
    cbn [map] in *. rewrite join_comma_cons, Hb in *. cbn [app] in *.
    unfold skip_ws. cbn [skip_while]. rewrite Hws, (proj2 (Z.eqb_neq b 93)) by done. by rewrite Hi.
  - apply jv_ok_obj in Hok. rewrite show_obj in *. cbn [read_value]. rewrite !length_app in Hn. cbn [length] in Hn.
    rewrite <- !app_assoc. cbn [app skip_ws skip_while]. change (json_ws 123) with false. cbn [Z.eqb Pos.eqb].
    destruct fields as [|p l]; [done|]. pose proof (members_read (p :: l) n r IH Hok ltac:(done) ltac:(lia)) as Hm.
    cbn [map] in *. rewrite join_comma_cons in *. unfold member at 1, json_string. unfold member at 1, json_string in Hm.
    unfold skip_ws. cbn [app skip_while] in *. change (json_ws 34) with false. cbn [Z.eqb Pos.eqb]. by rewrite Hm.
Qed.

(** ** Properties *)

(** Reading what was written gives the value back, for every value whose numbers
    are JSON numbers and whose strings are bytes, whatever those hold: quotes,
    backslashes, control bytes, braces. *)
Theorem read_show j : jv_ok j → json_read (json_show j) = Some j.
Proof.
  intros Hok. unfold json_read. rewrite <- (app_nil_r (json_show j)) at 2.
  rewrite value_reads by (done || (unfold json_fuel; lia)). done.
Qed.

Lemma json_show_inj i j : jv_ok i → jv_ok j → json_show i = json_show j → i = j.
Proof. intros Hi Hj Heq. apply Some_inj. rewrite <- (read_show i Hi), <- (read_show j Hj). by rewrite Heq. Qed.

(** An absent value is [null], and so is a number that is not finite; [f64_text] is the
    shortest decimal text of a finite one. *)
Definition json_opt {A} (f : A → jv) (o : option A) : jv := match o with Some a => f a | None => VNull end.
Definition is_finite (x : spec_float) : bool :=
  match x with S754_zero _ | S754_finite _ _ _ => true | S754_infinity _ | S754_nan => false end.
Definition json_f64 (f64_text : spec_float → bytes) (x : spec_float) : jv :=
  if is_finite x then VNum (f64_text x) else VNull.

Lemma json_f64_ok f64_text x :
  (∀ x, is_finite x = true → json_number (f64_text x) = true) → jv_ok (json_f64 f64_text x).
Proof. intros Hf. unfold json_f64. destruct (is_finite x) eqn:Hx; [by apply Hf|done]. Qed.

(** ** Integers *)
Definition json_int (n : Z) : jv := VNum (to_dec_signed n).

Lemma digits_skip s : Forall (λ b, 48 ≤ b ≤ 57) s → skip_while jdigit s = [].
Proof.
  induction 1 as [|b s Hb _ IH]; [done|]. cbn. unfold jdigit at 1. rewrite (proj2 (Z.leb_le _ _)), (proj2 (Z.leb_le _ _)) by lia. done.
Qed.

Lemma to_dec_unsigned n : 0 ≤ n < 10 ^ 20 → json_unsigned (to_dec n) = true.
Proof.
  intros Hn. destruct (decide (n = 0)) as [-> |Hz]; [done|].
  pose proof (to_dec_digits n ltac:(lia)) as Hd. unfold to_dec in *.
  destruct (dec_digits_head 20 n [] ltac:(simpl; lia)) as (d & l & Heq & Hb). rewrite Heq in *.
  apply Forall_cons in Hd as [_ Hl]. cbn [json_unsigned]. rewrite (proj2 (Z.eqb_neq d 48)), digits_skip by (done || lia).
  unfold jdigit. rewrite andb_true_iff, andb_true_iff, !Z.leb_le. split; [lia|done].
Qed.

Lemma json_int_ok n : - 10 ^ 19 < n < 10 ^ 20 → jv_ok (json_int n).
Proof.
  intros Hn. cbn. unfold to_dec_signed. case_bool_decide.
  - cbn [json_number Z.eqb Pos.eqb]. apply to_dec_unsigned. lia.
  - pose proof (to_dec_unsigned n ltac:(lia)) as Hu. pose proof (to_dec_digits n ltac:(lia)) as Hd.
    destruct (to_dec n) as [|b s]; [done|]. apply Forall_cons in Hd as [Hb _].
    cbn [json_number]. by rewrite (proj2 (Z.eqb_neq b 45)) by lia.
Qed.

(** Integers of 64 bits, signed or not. *)
Definition int64 (n : Z) : Prop := - 2 ^ 63 ≤ n < 2 ^ 64.

Lemma json_int_inj n m : int64 n → int64 m → json_int n = json_int m → n = m.
Proof.
  unfold int64, json_int, to_dec_signed. intros Hn Hm [= Heq]. revert Heq.
  assert (∀ k k', 0 ≤ k' → 45 :: to_dec k ≠ to_dec k') as Hne.
  { intros k k' Hk Heq. pose proof (to_dec_digits k' Hk) as Hd. rewrite <- Heq in Hd.
    apply Forall_cons in Hd as [? _]. lia. }
  repeat case_bool_decide.
  - intros [= Heq]. apply to_dec_inj in Heq; lia.
  - intros Heq. exfalso. eapply Hne; [|exact Heq]. lia.
  - intros Heq. exfalso. eapply Hne; [|symmetry; exact Heq]. lia.
  - intros Heq. apply to_dec_inj in Heq; lia.
Qed.

Lemma serde_uint_int w n : 0 ≤ w ≤ 64 → 0 ≤ n < 2 ^ w → serde_uint w (json_int n) = Some n.
Proof.
  intros Hw Hn. cbn. unfold to_dec_signed. rewrite bool_decide_eq_false_2 by lia.
  pose proof (Z.pow_le_mono_r 2 w 64 ltac:(lia) ltac:(lia)). apply parse_uint_to_dec; lia.
Qed.

Lemma serde_i64_int n : - 2 ^ 63 ≤ n < 2 ^ 63 → serde_i64 (json_int n) = Some n.
Proof.
  intros Hn. unfold json_int, to_dec_signed. case_bool_decide.
  - cbn [serde_i64]. rewrite parse_uint_to_dec by lia. cbn. rewrite bool_decide_eq_false_2 by lia. f_equal. lia.
  - pose proof (to_dec_digits n ltac:(lia)) as Hd. pose proof (parse_uint_to_dec (2 ^ 63 - 1) n ltac:(lia) ltac:(lia)) as Hp.
    destruct (to_dec n) as [|b s]; [done|]. apply Forall_cons in Hd as [Hb _].
    transitivity (parse_uint (2 ^ 63 - 1) (b :: s)); [|done]. unfold serde_i64. repeat case_match; (congruence || lia).
Qed.

(** ** One line *)
Lemma escape_printable b : is_byte b → Forall (λ c, 32 ≤ c) (json_escape b).
Proof.
  intros Hb. assert (Forall (λ b, Forall (λ c, 32 ≤ c) (json_escape b)) (seqZ 0 256)) as Hall.
  { apply (bool_decide_eq_true_1 (Forall (λ b, Forall (λ c, 32 ≤ c) (json_escape b)) _)). vm_compute. reflexivity. }
  rewrite Forall_forall in Hall. apply Hall, elem_of_seqZ. unfold is_byte in Hb. lia.
Qed.

Lemma json_string_printable s : Forall is_byte s → Forall (λ c, 32 ≤ c) (json_string s).
Proof.
  intros Hs. unfold json_string. rewrite !Forall_app, !Forall_singleton. split_and!; [lia| |lia].
  induction Hs as [|b s Hb _ IH]; [constructor|]. cbn. rewrite Forall_app. split; [by apply escape_printable|done].
Qed.

Lemma join_printable l : Forall (Forall (λ c, 32 ≤ c)) l → Forall (λ c, 32 ≤ c) (join_comma l).
Proof.
  induction 1 as [|x l Hx Hl IH]; [constructor|]. destruct l; [done|].
  change (join_comma (x :: l :: l0)) with (x ++ [44] ++ join_comma (l :: l0)).
  rewrite !Forall_app. split_and!; [done|by repeat constructor|done].
Qed.

Lemma number_printable t : json_number t = true → Forall (λ c, 32 ≤ c) t.
Proof.
  intros [Ht _]%number_bytes. eapply Forall_impl; [exact Ht|]. intros b. unfold num_byte, jdigit. lia.
Qed.

(** A text has no control byte: a line break in a string cannot start another line. *)
Theorem json_show_one_line j : jv_ok j → Forall (λ c, 32 ≤ c) (json_show j).
Proof.
  induction j as [|b|t|s|items IH|fields IH] using jv_nested_ind; intros Hok.
  - by repeat constructor.
  - destruct b; by repeat constructor.
  - by apply number_printable.
  - by apply json_string_printable.
  - apply jv_ok_arr in Hok. cbn [json_show]. rewrite !Forall_app. split_and!; [by repeat constructor| |by repeat constructor].
    apply join_printable. induction IH as [|v l Hv _ IHl]; [constructor|].
    apply Forall_cons in Hok as [Hokv Hl]. cbn [map]. constructor; [by apply Hv|by apply IHl].
  - rewrite show_obj. apply jv_ok_obj in Hok. rewrite !Forall_app. split_and!; [by repeat constructor| |by repeat constructor].
    apply join_printable. induction IH as [|[k v] l Hv _ IHl]; [constructor|].
    apply Forall_cons in Hok as [[Hk Hok] Hl]. cbn [map]. constructor; [|by apply IHl].
    unfold member. cbn [fst snd] in *. rewrite !Forall_app. split_and!; [by apply json_string_printable|by repeat constructor|by apply Hv].
Qed.

(** ** [serde_json] as a parameter *)
(** The text of a value, and the value of a text, in which a number is still its literal;
    what a literal stands for is read separately ([serde_uint], [serde_i64]). *)
Class SerdeJson : Type := {
  json_to_text : jv → bytes;
  json_from_text : bytes → option jv
}.
(** What JSON promises: a value is read back from its text, and the text of a compact
    writer has no line break. *)
Class SerdeJsonLaws `{SerdeJson} : Prop := {
  json_round_trip j : jv_ok j → json_from_text (json_to_text j) = Some j;
  json_one_line j : jv_ok j → Forall (λ c, 32 ≤ c) (json_to_text j)
}.

#[export] Instance rfc8259_json : SerdeJson | 100 := { json_to_text := json_show; json_from_text := json_read }.
#[export] Instance rfc8259_laws : SerdeJsonLaws.
Proof. split; [exact read_show|exact json_show_one_line]. Qed.

Definition value_as_bool (j : jv) : option bool := match j with VBool b => Some b | _ => None end.
