(* ===== verification/Common.v ===== *)
(** * The contract shared by the kernel programs and user space

    [packages/neuromesh-common/src/lib.rs]: capacities and flag bits, the
    [ExecEvent] ring-buffer record and its packed layout, the canonical
    [SecurityTelemetryEvent], the deny-list entry with its matcher and the
    pre-#134 entry it migrates from, and the pinned-map ABI table.

    Shown here: the packed layout has the size the header constant claims, the
    deny entry built from a prefix matches exactly the paths that begin with the
    prefix, widening a legacy entry keeps its meaning, and the object names fit
    the kernel limit without collision. *)

From S2P Require Import Prelude RustStd.

(** ** Constants *)
Definition MAX_FILENAME_LEN : nat := 256.
Definition MAX_COMM_LEN : nat := 16.
Definition MAX_CONTAINER_ID_LEN : nat := 64.
Definition MAX_ARGS_CAPTURE : nat := 8.
Definition MAX_ARG_STR_LEN : nat := 32.
Definition MAX_ARGV_LEN : nat := MAX_ARGS_CAPTURE * MAX_ARG_STR_LEN.
Definition MAX_ENV_CAPTURE : nat := 8.
Definition MAX_ENV_STR_LEN : nat := 32.
Definition MAX_ENV_LEN : nat := MAX_ENV_CAPTURE * MAX_ENV_STR_LEN.
Definition MAX_ENV_SCAN : nat := 16.
Definition EXEC_EVENT_SCHEMA_VERSION : Z := 3.
Definition EXEC_EVENT_TYPE_EXECVE : Z := 1.
Definition EXEC_FLAG_SYSCALL_EXECVEAT : Z := Z.shiftl 1 0.
Definition EXEC_FLAG_PATH_FROM_FD : Z := Z.shiftl 1 1.
Definition EXEC_EVENT_STRUCT_SIZE : Z := 932.
Definition ENFORCEMENT_ALLOWED : Z := 0.
Definition ENFORCEMENT_BLOCKED : Z := 1.
Definition ENFORCEMENT_UNKNOWN : Z := 2.
Definition CAPTURE_PID : Z := Z.shiftl 1 0.
Definition CAPTURE_PPID : Z := Z.shiftl 1 1.
Definition CAPTURE_TGID : Z := Z.shiftl 1 2.
Definition CAPTURE_UID : Z := Z.shiftl 1 3.
Definition CAPTURE_EUID : Z := Z.shiftl 1 4.
Definition CAPTURE_GID : Z := Z.shiftl 1 5.
Definition CAPTURE_COMM : Z := Z.shiftl 1 6.
Definition CAPTURE_FILENAME : Z := Z.shiftl 1 7.
Definition CAPTURE_ARGS_COUNT : Z := Z.shiftl 1 8.
Definition CAPTURE_CONTAINER_ID : Z := Z.shiftl 1 9.
Definition CAPTURE_NAMESPACE_ID : Z := Z.shiftl 1 10.
Definition CAPTURE_TIMESTAMP : Z := Z.shiftl 1 11.
Definition CAPTURE_ARGV : Z := Z.shiftl 1 12.
Definition CAPTURE_ENV : Z := Z.shiftl 1 13.
Definition UNKNOWN_SENTINEL : bytes := lit "UNKNOWN".
Definition ARGV_FLAG_ARGC_TRUNCATED : Z := Z.shiftl 1 0.
Definition ARGV_FLAG_PROBE_FAULT : Z := Z.shiftl 1 1.
Definition ENV_FLAG_COUNT_TRUNCATED : Z := Z.shiftl 1 0.
Definition ENV_FLAG_PROBE_FAULT : Z := Z.shiftl 1 1.
Definition ENV_FLAG_SLOTS_FULL : Z := Z.shiftl 1 2.

Definition TELEMETRY_STATS_INDEX : Z := 0.
Definition PATH_DENY_MAX_ENTRIES : Z := 64.
Definition PATH_DENY_KEY_BYTES : nat := 32.
Definition PATH_DENY_KEY_BYTES_LEGACY : nat := 16.
Definition PATH_DENY_ENTRY_SIZE : nat := 4 + PATH_DENY_KEY_BYTES.
Definition PATH_DENY_ENTRY_SIZE_LEGACY : nat := 4 + PATH_DENY_KEY_BYTES_LEGACY.
Definition ENFORCEMENT_PIN_ABI_VERSION : Z := 2.
Definition BPF_MAP_TYPE_ARRAY : Z := 2.
Definition BPF_MAP_TYPE_PERCPU_ARRAY : Z := 6.
Definition BPF_MAP_TYPE_RINGBUF : Z := 27.
Definition BPF_OBJ_NAME_MAX : nat := 15.
Definition IDENTITY_ALLOW_CGROUPS_MAX_ENTRIES : Z := 16384.
Definition IDENTITY_ALLOW_VALUE : Z := 1.
Definition IDENTITY_EXCEPTIONS_VALID_FRESH : Z := 1.
Definition IDENTITY_EXCEPTIONS_VALID_STALE : Z := 0.
Definition BOOTSTRAP_PATH_DENY_PREFIXES : list bytes :=
  [lit "/tmp/"; lit "/dev/shm/"; lit "/var/tmp/"].
Definition IDENTITY_EXCEPTION_SCOPE_PREFIX : bytes := lit "/tmp/".

(** ** Slices *)

(** [dst[..src.len()].copy_from_slice(src)] on an array at least as long. *)
Definition copy_into (dst src : bytes) : bytes := src ++ drop (length src) dst.
(** [s[off..off + n]]. *)
Definition slice (off n : nat) (s : bytes) : bytes := take n (drop off s).
(** [[0u8; n]]. *)
Definition zeroed (n : nat) : bytes := replicate n 0.

Fixpoint le_encode (n : nat) (z : Z) : bytes :=
  match n with
  | O => []
  | S n => z mod 256 :: le_encode n (z / 256)
  end.
Fixpoint le_decode (s : bytes) : Z :=
  match s with
  | [] => 0
  | b :: s => b + 256 * le_decode s
  end.

(** ** [ExecEvent] *)
Record ExecEvent : Type := mkExecEvent {
  ee_schema_version : Z;
  ee_event_type : Z;
  ee_flags : Z;
  ee_struct_size : Z;
  ee_header_reserved : Z;
  ee_header_pad : bytes;
  ee_pid : Z;
  ee_ppid : Z;
  ee_tgid : Z;
  ee_uid : Z;
  ee_euid : Z;
  ee_gid : Z;
  ee_comm : bytes;
  ee_filename : bytes;
  ee_args_count : Z;
  ee_argv_len : Z;
  ee_argv_trunc_mask : Z;
  ee_argv_flags : Z;
  ee_argv : bytes;
  ee_env_len : Z;
  ee_env_trunc_mask : Z;
  ee_env_flags : Z;
  ee_env_ptr_count : Z;
  ee_env_header_pad : Z;
  ee_env : bytes;
  ee_container_id : bytes;
  ee_align_pad : bytes;
  ee_namespace_id : Z;
  ee_timestamp_ns : Z;
  ee_enforcement_action : Z;
  ee_capture_status : Z;
  ee_status_reserved : bytes
}.

Definition set_schema_version (v : Z) (e : ExecEvent) : ExecEvent :=
  mkExecEvent v (ee_event_type e) (ee_flags e) (ee_struct_size e) (ee_header_reserved e)
    (ee_header_pad e) (ee_pid e) (ee_ppid e) (ee_tgid e) (ee_uid e) (ee_euid e) (ee_gid e)
    (ee_comm e) (ee_filename e) (ee_args_count e) (ee_argv_len e) (ee_argv_trunc_mask e)
    (ee_argv_flags e) (ee_argv e) (ee_env_len e) (ee_env_trunc_mask e) (ee_env_flags e)
    (ee_env_ptr_count e) (ee_env_header_pad e) (ee_env e) (ee_container_id e) (ee_align_pad e)
    (ee_namespace_id e) (ee_timestamp_ns e) (ee_enforcement_action e) (ee_capture_status e)
    (ee_status_reserved e).
Definition set_pid (v : Z) (e : ExecEvent) : ExecEvent :=
  mkExecEvent (ee_schema_version e) (ee_event_type e) (ee_flags e) (ee_struct_size e)
    (ee_header_reserved e) (ee_header_pad e) v (ee_ppid e) (ee_tgid e) (ee_uid e) (ee_euid e)
    (ee_gid e) (ee_comm e) (ee_filename e) (ee_args_count e) (ee_argv_len e)
    (ee_argv_trunc_mask e) (ee_argv_flags e) (ee_argv e) (ee_env_len e) (ee_env_trunc_mask e)
    (ee_env_flags e) (ee_env_ptr_count e) (ee_env_header_pad e) (ee_env e) (ee_container_id e)
    (ee_align_pad e) (ee_namespace_id e) (ee_timestamp_ns e) (ee_enforcement_action e)
    (ee_capture_status e) (ee_status_reserved e).
Definition set_ppid (v : Z) (e : ExecEvent) : ExecEvent :=
  mkExecEvent (ee_schema_version e) (ee_event_type e) (ee_flags e) (ee_struct_size e)
    (ee_header_reserved e) (ee_header_pad e) (ee_pid e) v (ee_tgid e) (ee_uid e) (ee_euid e)
    (ee_gid e) (ee_comm e) (ee_filename e) (ee_args_count e) (ee_argv_len e)
    (ee_argv_trunc_mask e) (ee_argv_flags e) (ee_argv e) (ee_env_len e) (ee_env_trunc_mask e)
    (ee_env_flags e) (ee_env_ptr_count e) (ee_env_header_pad e) (ee_env e) (ee_container_id e)
    (ee_align_pad e) (ee_namespace_id e) (ee_timestamp_ns e) (ee_enforcement_action e)
    (ee_capture_status e) (ee_status_reserved e).
Definition set_tgid (v : Z) (e : ExecEvent) : ExecEvent :=
  mkExecEvent (ee_schema_version e) (ee_event_type e) (ee_flags e) (ee_struct_size e)
    (ee_header_reserved e) (ee_header_pad e) (ee_pid e) (ee_ppid e) v (ee_uid e) (ee_euid e)
    (ee_gid e) (ee_comm e) (ee_filename e) (ee_args_count e) (ee_argv_len e)
    (ee_argv_trunc_mask e) (ee_argv_flags e) (ee_argv e) (ee_env_len e) (ee_env_trunc_mask e)
    (ee_env_flags e) (ee_env_ptr_count e) (ee_env_header_pad e) (ee_env e) (ee_container_id e)
    (ee_align_pad e) (ee_namespace_id e) (ee_timestamp_ns e) (ee_enforcement_action e)
    (ee_capture_status e) (ee_status_reserved e).
Definition set_uid (v : Z) (e : ExecEvent) : ExecEvent :=
  mkExecEvent (ee_schema_version e) (ee_event_type e) (ee_flags e) (ee_struct_size e)
    (ee_header_reserved e) (ee_header_pad e) (ee_pid e) (ee_ppid e) (ee_tgid e) v (ee_euid e)
    (ee_gid e) (ee_comm e) (ee_filename e) (ee_args_count e) (ee_argv_len e)
    (ee_argv_trunc_mask e) (ee_argv_flags e) (ee_argv e) (ee_env_len e) (ee_env_trunc_mask e)
    (ee_env_flags e) (ee_env_ptr_count e) (ee_env_header_pad e) (ee_env e) (ee_container_id e)
    (ee_align_pad e) (ee_namespace_id e) (ee_timestamp_ns e) (ee_enforcement_action e)
    (ee_capture_status e) (ee_status_reserved e).
Definition set_euid (v : Z) (e : ExecEvent) : ExecEvent :=
  mkExecEvent (ee_schema_version e) (ee_event_type e) (ee_flags e) (ee_struct_size e)
    (ee_header_reserved e) (ee_header_pad e) (ee_pid e) (ee_ppid e) (ee_tgid e) (ee_uid e) v
    (ee_gid e) (ee_comm e) (ee_filename e) (ee_args_count e) (ee_argv_len e)
    (ee_argv_trunc_mask e) (ee_argv_flags e) (ee_argv e) (ee_env_len e) (ee_env_trunc_mask e)
    (ee_env_flags e) (ee_env_ptr_count e) (ee_env_header_pad e) (ee_env e) (ee_container_id e)
    (ee_align_pad e) (ee_namespace_id e) (ee_timestamp_ns e) (ee_enforcement_action e)
    (ee_capture_status e) (ee_status_reserved e).
Definition set_gid (v : Z) (e : ExecEvent) : ExecEvent :=
  mkExecEvent (ee_schema_version e) (ee_event_type e) (ee_flags e) (ee_struct_size e)
    (ee_header_reserved e) (ee_header_pad e) (ee_pid e) (ee_ppid e) (ee_tgid e) (ee_uid e)
    (ee_euid e) v (ee_comm e) (ee_filename e) (ee_args_count e) (ee_argv_len e)
    (ee_argv_trunc_mask e) (ee_argv_flags e) (ee_argv e) (ee_env_len e) (ee_env_trunc_mask e)
    (ee_env_flags e) (ee_env_ptr_count e) (ee_env_header_pad e) (ee_env e) (ee_container_id e)
    (ee_align_pad e) (ee_namespace_id e) (ee_timestamp_ns e) (ee_enforcement_action e)
    (ee_capture_status e) (ee_status_reserved e).
Definition set_comm (v : bytes) (e : ExecEvent) : ExecEvent :=
  mkExecEvent (ee_schema_version e) (ee_event_type e) (ee_flags e) (ee_struct_size e)
    (ee_header_reserved e) (ee_header_pad e) (ee_pid e) (ee_ppid e) (ee_tgid e) (ee_uid e)
    (ee_euid e) (ee_gid e) v (ee_filename e) (ee_args_count e) (ee_argv_len e)
    (ee_argv_trunc_mask e) (ee_argv_flags e) (ee_argv e) (ee_env_len e) (ee_env_trunc_mask e)
    (ee_env_flags e) (ee_env_ptr_count e) (ee_env_header_pad e) (ee_env e) (ee_container_id e)
    (ee_align_pad e) (ee_namespace_id e) (ee_timestamp_ns e) (ee_enforcement_action e)
    (ee_capture_status e) (ee_status_reserved e).
Definition set_filename (v : bytes) (e : ExecEvent) : ExecEvent :=
  mkExecEvent (ee_schema_version e) (ee_event_type e) (ee_flags e) (ee_struct_size e)
    (ee_header_reserved e) (ee_header_pad e) (ee_pid e) (ee_ppid e) (ee_tgid e) (ee_uid e)
    (ee_euid e) (ee_gid e) (ee_comm e) v (ee_args_count e) (ee_argv_len e)
    (ee_argv_trunc_mask e) (ee_argv_flags e) (ee_argv e) (ee_env_len e) (ee_env_trunc_mask e)
    (ee_env_flags e) (ee_env_ptr_count e) (ee_env_header_pad e) (ee_env e) (ee_container_id e)
    (ee_align_pad e) (ee_namespace_id e) (ee_timestamp_ns e) (ee_enforcement_action e)
    (ee_capture_status e) (ee_status_reserved e).
Definition set_container_id (v : bytes) (e : ExecEvent) : ExecEvent :=
  mkExecEvent (ee_schema_version e) (ee_event_type e) (ee_flags e) (ee_struct_size e)
    (ee_header_reserved e) (ee_header_pad e) (ee_pid e) (ee_ppid e) (ee_tgid e) (ee_uid e)
    (ee_euid e) (ee_gid e) (ee_comm e) (ee_filename e) (ee_args_count e) (ee_argv_len e)
    (ee_argv_trunc_mask e) (ee_argv_flags e) (ee_argv e) (ee_env_len e) (ee_env_trunc_mask e)
    (ee_env_flags e) (ee_env_ptr_count e) (ee_env_header_pad e) (ee_env e) v (ee_align_pad e)
    (ee_namespace_id e) (ee_timestamp_ns e) (ee_enforcement_action e) (ee_capture_status e)
    (ee_status_reserved e).
Definition set_namespace_id (v : Z) (e : ExecEvent) : ExecEvent :=
  mkExecEvent (ee_schema_version e) (ee_event_type e) (ee_flags e) (ee_struct_size e)
    (ee_header_reserved e) (ee_header_pad e) (ee_pid e) (ee_ppid e) (ee_tgid e) (ee_uid e)
    (ee_euid e) (ee_gid e) (ee_comm e) (ee_filename e) (ee_args_count e) (ee_argv_len e)
    (ee_argv_trunc_mask e) (ee_argv_flags e) (ee_argv e) (ee_env_len e) (ee_env_trunc_mask e)
    (ee_env_flags e) (ee_env_ptr_count e) (ee_env_header_pad e) (ee_env e) (ee_container_id e)
    (ee_align_pad e) v (ee_timestamp_ns e) (ee_enforcement_action e) (ee_capture_status e)
    (ee_status_reserved e).
Definition set_timestamp_ns (v : Z) (e : ExecEvent) : ExecEvent :=
  mkExecEvent (ee_schema_version e) (ee_event_type e) (ee_flags e) (ee_struct_size e)
    (ee_header_reserved e) (ee_header_pad e) (ee_pid e) (ee_ppid e) (ee_tgid e) (ee_uid e)
    (ee_euid e) (ee_gid e) (ee_comm e) (ee_filename e) (ee_args_count e) (ee_argv_len e)
    (ee_argv_trunc_mask e) (ee_argv_flags e) (ee_argv e) (ee_env_len e) (ee_env_trunc_mask e)
    (ee_env_flags e) (ee_env_ptr_count e) (ee_env_header_pad e) (ee_env e) (ee_container_id e)
    (ee_align_pad e) (ee_namespace_id e) v (ee_enforcement_action e) (ee_capture_status e)
    (ee_status_reserved e).
Definition set_capture_status (v : Z) (e : ExecEvent) : ExecEvent :=
  mkExecEvent (ee_schema_version e) (ee_event_type e) (ee_flags e) (ee_struct_size e)
    (ee_header_reserved e) (ee_header_pad e) (ee_pid e) (ee_ppid e) (ee_tgid e) (ee_uid e)
    (ee_euid e) (ee_gid e) (ee_comm e) (ee_filename e) (ee_args_count e) (ee_argv_len e)
    (ee_argv_trunc_mask e) (ee_argv_flags e) (ee_argv e) (ee_env_len e) (ee_env_trunc_mask e)
    (ee_env_flags e) (ee_env_ptr_count e) (ee_env_header_pad e) (ee_env e) (ee_container_id e)
    (ee_align_pad e) (ee_namespace_id e) (ee_timestamp_ns e) (ee_enforcement_action e) v
    (ee_status_reserved e).
Definition set_enforcement_action (v : Z) (e : ExecEvent) : ExecEvent :=
  mkExecEvent (ee_schema_version e) (ee_event_type e) (ee_flags e) (ee_struct_size e)
    (ee_header_reserved e) (ee_header_pad e) (ee_pid e) (ee_ppid e) (ee_tgid e) (ee_uid e)
    (ee_euid e) (ee_gid e) (ee_comm e) (ee_filename e) (ee_args_count e) (ee_argv_len e)
    (ee_argv_trunc_mask e) (ee_argv_flags e) (ee_argv e) (ee_env_len e) (ee_env_trunc_mask e)
    (ee_env_flags e) (ee_env_ptr_count e) (ee_env_header_pad e) (ee_env e) (ee_container_id e)
    (ee_align_pad e) (ee_namespace_id e) (ee_timestamp_ns e) v (ee_capture_status e)
    (ee_status_reserved e).

Definition ExecEvent_default : ExecEvent :=
  {| ee_schema_version := EXEC_EVENT_SCHEMA_VERSION;
     ee_event_type := EXEC_EVENT_TYPE_EXECVE;
     ee_flags := 0;
     ee_struct_size := EXEC_EVENT_STRUCT_SIZE;
     ee_header_reserved := 0;
     ee_header_pad := zeroed 8;
     ee_pid := 0;
     ee_ppid := 0;
     ee_tgid := 0;
     ee_uid := 0;
     ee_euid := 0;
     ee_gid := 0;
     ee_comm := zeroed MAX_COMM_LEN;
     ee_filename := zeroed MAX_FILENAME_LEN;
     ee_args_count := 0;
     ee_argv_len := 0;
     ee_argv_trunc_mask := 0;
     ee_argv_flags := 0;
     ee_argv := zeroed MAX_ARGV_LEN;
     ee_env_len := 0;
     ee_env_trunc_mask := 0;
     ee_env_flags := 0;
     ee_env_ptr_count := 0;
     ee_env_header_pad := 0;
     ee_env := zeroed MAX_ENV_LEN;
     ee_container_id := zeroed MAX_CONTAINER_ID_LEN;
     ee_align_pad := zeroed 4;
     ee_namespace_id := 0;
     ee_timestamp_ns := 0;
     ee_enforcement_action := ENFORCEMENT_ALLOWED;
     ee_capture_status := 0;
     ee_status_reserved := zeroed 5 |}.

(** ** The packed layout

    [#[repr(C, packed)]]: the fields in declaration order without padding,
    integers little-endian. *)
Inductive field : Type :=
| FInt (width : nat) (v : Z)
| FArr (len : nat) (a : bytes).

Definition field_size (f : field) : nat :=
  match f with FInt w _ => w | FArr n _ => n end.
Definition field_bytes (f : field) : bytes :=
  match f with FInt w v => le_encode w v | FArr _ a => a end.
(** A field holds a value of its Rust type. *)
Definition field_typed (f : field) : bool :=
  match f with
  | FInt w v => bool_decide (0 ≤ v < 2 ^ (8 * Z.of_nat w))
  | FArr n a => bool_decide (length a = n) && forallb (λ b, bool_decide (is_byte b)) a
  end.

Definition exec_event_fields (e : ExecEvent) : list field :=
  [FInt 2 (ee_schema_version e); FInt 1 (ee_event_type e); FInt 1 (ee_flags e);
   FInt 2 (ee_struct_size e); FInt 2 (ee_header_reserved e); FArr 8 (ee_header_pad e);
   FInt 4 (ee_pid e); FInt 4 (ee_ppid e); FInt 4 (ee_tgid e); FInt 4 (ee_uid e);
   FInt 4 (ee_euid e); FInt 4 (ee_gid e); FArr 16 (ee_comm e); FArr 256 (ee_filename e);
   FInt 4 (ee_args_count e); FInt 2 (ee_argv_len e); FInt 1 (ee_argv_trunc_mask e);
   FInt 1 (ee_argv_flags e); FArr 256 (ee_argv e); FInt 2 (ee_env_len e);
   FInt 1 (ee_env_trunc_mask e); FInt 1 (ee_env_flags e); FInt 2 (ee_env_ptr_count e);
   FInt 2 (ee_env_header_pad e); FArr 256 (ee_env e); FArr 64 (ee_container_id e);
   FArr 4 (ee_align_pad e); FInt 8 (ee_namespace_id e); FInt 8 (ee_timestamp_ns e);
   FInt 1 (ee_enforcement_action e); FInt 2 (ee_capture_status e);
   FArr 5 (ee_status_reserved e)].

Definition exec_event_bytes (e : ExecEvent) : bytes :=
  concat (map field_bytes (exec_event_fields e)).

Definition event_typed (e : ExecEvent) : Prop :=
  Forall (λ f, field_typed f = true) (exec_event_fields e).

#[export] Instance event_typed_dec e : Decision (event_typed e).
Proof. unfold event_typed; apply _. Defined.

(** [ExecEvent::is_valid]. *)
Definition is_valid (e : ExecEvent) : bool :=
  bool_decide (ee_schema_version e = EXEC_EVENT_SCHEMA_VERSION) &&
  bool_decide (ee_event_type e = EXEC_EVENT_TYPE_EXECVE) &&
  bool_decide (ee_struct_size e = EXEC_EVENT_STRUCT_SIZE).

(** [ExecEvent::field_unknown]. *)
Definition field_unknown (e : ExecEvent) (field : Z) : bool :=
  negb (bool_decide (Z.land (ee_capture_status e) field = 0)).

(** [ExecEvent::is_execveat]. *)
Definition is_execveat (e : ExecEvent) : bool :=
  negb (bool_decide (Z.land (ee_flags e) EXEC_FLAG_SYSCALL_EXECVEAT = 0)).

(** [ExecEvent::path_from_fd]. *)
Definition path_from_fd (e : ExecEvent) : bool :=
  negb (bool_decide (Z.land (ee_flags e) EXEC_FLAG_PATH_FROM_FD = 0)).

(** ** [SecurityTelemetryEvent] *)
Record SecurityTelemetryEvent : Type := mkSecurityTelemetryEvent {
  se_pid : Z;
  se_ppid : Z;
  se_ppid_unresolved : bool;
  se_uid : Z;
  se_euid : Z;
  se_comm : bytes;
  se_filename : bytes;
  se_argv_len : Z;
  se_argv_truncated : bool;
  se_argv_trunc_mask : Z;
  se_argv : bytes;
  se_env_len : Z;
  se_env_truncated : bool;
  se_env_trunc_mask : Z;
  se_env_redacted : bool;
  se_env : bytes
}.

Definition SecurityTelemetryEvent_default : SecurityTelemetryEvent :=
  {| se_pid := 0;
     se_ppid := 0;
     se_ppid_unresolved := false;
     se_uid := 0;
     se_euid := 0;
     se_comm := zeroed MAX_COMM_LEN;
     se_filename := zeroed MAX_FILENAME_LEN;
     se_argv_len := 0;
     se_argv_truncated := false;
     se_argv_trunc_mask := 0;
     se_argv := zeroed MAX_ARGV_LEN;
     se_env_len := 0;
     se_env_truncated := false;
     se_env_trunc_mask := 0;
     se_env_redacted := false;
     se_env := zeroed MAX_ENV_LEN |}.

(** ** Kernel health counters *)
Record TelemetryHealthStats : Type := mkTelemetryHealthStats {
  events_processed : Z;
  lost_events_count : Z
}.

(** ** Object names and the pinned-map ABI *)

(** [bpf_obj_name]: a compile-time assertion, so a too-long name has no value. *)
Definition bpf_obj_name (name : bytes) : option bytes :=
  if bool_decide (length name ≤ BPF_OBJ_NAME_MAX)%nat then Some name else None.

Definition PATH_DENY_LIST_MAP : bytes := lit "PATH_DENY_LIST".
Definition PATH_DENY_COUNT_MAP : bytes := lit "PATH_DENY_COUNT".
Definition PROCESS_EVENTS_MAP : bytes := lit "PROCESS_EVENTS".
Definition RATE_LIMIT_BUCKET_MAP : bytes := lit "RLIMIT_BUCKET".
Definition IDENTITY_ALLOW_CGROUPS_MAP : bytes := lit "ID_ALLOW_CGROUP".
Definition IDENTITY_EXCEPTIONS_VALID_MAP : bytes := lit "ID_EXCEPT_VALID".
Definition RATE_LIMIT_DROPS_MAP : bytes := lit "RLIMIT_DROPS".
Definition CAPTURE_FAILURES_MAP : bytes := lit "CAPTURE_FAILS".
Definition NETWORK_EVENTS_MAP : bytes := lit "NETWORK_EVENTS".
Definition DROPPED_EVENTS_MAP : bytes := lit "DROPPED_EVENTS".
Definition TELEMETRY_RINGBUF_MAP : bytes := lit "TELEM_RINGBUF".
Definition TELEMETRY_STATS_MAP : bytes := lit "TELEMETRY_STATS".
Definition LSM_EXEC_GUARD_PROG : bytes := lit "nm_lsm_bprm".
Definition PROCESS_EVENTS_PROG : bytes := lit "nm_proc_events".
Definition PROCESS_EVENTS_AT_PROG : bytes := lit "nm_execveat".
Definition TCP_CONNECT_PROG : bytes := lit "nm_tcp_connect".

Definition ALL_BPF_OBJECT_NAMES : list bytes :=
  [PATH_DENY_LIST_MAP; PATH_DENY_COUNT_MAP; IDENTITY_ALLOW_CGROUPS_MAP;
   IDENTITY_EXCEPTIONS_VALID_MAP; PROCESS_EVENTS_MAP; RATE_LIMIT_BUCKET_MAP;
   RATE_LIMIT_DROPS_MAP; CAPTURE_FAILURES_MAP; NETWORK_EVENTS_MAP;
   DROPPED_EVENTS_MAP; TELEMETRY_RINGBUF_MAP; TELEMETRY_STATS_MAP;
   LSM_EXEC_GUARD_PROG; PROCESS_EVENTS_PROG; PROCESS_EVENTS_AT_PROG;
   TCP_CONNECT_PROG].

Record PinnedMapAbi : Type := mkPinnedMapAbi {
  abi_name : bytes;
  abi_map_type : Z;
  abi_key_size : Z;
  abi_value_size : Z;
  abi_max_entries : Z
}.

#[export] Instance PinnedMapAbi_eq_dec : EqDecision PinnedMapAbi.
Proof. solve_decision. Defined.

Definition PINNED_MAP_ABI : list PinnedMapAbi :=
  [{| abi_name := PATH_DENY_LIST_MAP; abi_map_type := BPF_MAP_TYPE_ARRAY;
      abi_key_size := 4; abi_value_size := Z.of_nat PATH_DENY_ENTRY_SIZE;
      abi_max_entries := PATH_DENY_MAX_ENTRIES |};
   {| abi_name := PATH_DENY_COUNT_MAP; abi_map_type := BPF_MAP_TYPE_ARRAY;
      abi_key_size := 4; abi_value_size := 4; abi_max_entries := 1 |};
   {| abi_name := PROCESS_EVENTS_MAP; abi_map_type := BPF_MAP_TYPE_RINGBUF;
      abi_key_size := 0; abi_value_size := 0; abi_max_entries := 1024 * 1024 |};
   {| abi_name := RATE_LIMIT_BUCKET_MAP; abi_map_type := BPF_MAP_TYPE_PERCPU_ARRAY;
      abi_key_size := 4; abi_value_size := 16; abi_max_entries := 1 |}].

(** ** Deny-list entries *)
Record PathDenyEntry : Type := mkPathDenyEntry {
  pd_len : Z;
  pd_bytes : bytes
}.

#[export] Instance PathDenyEntry_eq_dec : EqDecision PathDenyEntry.
Proof. solve_decision. Defined.

Definition PathDenyEntry_default : PathDenyEntry :=
  {| pd_len := 0; pd_bytes := zeroed PATH_DENY_KEY_BYTES |}.

(** [PathDenyEntry::from_prefix]. *)
Definition from_prefix (prefix : bytes) : option PathDenyEntry :=
  if is_empty prefix || bool_decide (PATH_DENY_KEY_BYTES < length prefix)%nat then None
  else Some {| pd_len := Z.of_nat (length prefix);
               pd_bytes := copy_into (zeroed PATH_DENY_KEY_BYTES) prefix |}.

(** [PathDenyEntry::matches]. *)
Definition matches (e : PathDenyEntry) (path : bytes) : bool :=
  let len := Z.to_nat (pd_len e) in
  if bool_decide (len = 0%nat) || bool_decide (PATH_DENY_KEY_BYTES < len)%nat
     || bool_decide (length path < len)%nat then false
  else forallb (λ '(a, b), bool_decide (a = b))
         (zip (take len path) (take len (pd_bytes e))).

Record LegacyPathDenyEntry : Type := mkLegacyPathDenyEntry {
  lpd_len : Z;
  lpd_bytes : bytes
}.

(** [LegacyPathDenyEntry::widen]. *)
Definition widen (e : LegacyPathDenyEntry) : option PathDenyEntry :=
  let len := Z.to_nat (lpd_len e) in
  if bool_decide (len = 0%nat) || bool_decide (PATH_DENY_KEY_BYTES_LEGACY < len)%nat then None
  else from_prefix (take len (lpd_bytes e)).

(** ** Well-formedness: what the array types and the length field promise *)
Definition wf_entry (e : PathDenyEntry) : Prop :=
  1 ≤ pd_len e ≤ 32 ∧ length (pd_bytes e) = PATH_DENY_KEY_BYTES.
Definition wf_legacy (e : LegacyPathDenyEntry) : Prop :=
  1 ≤ lpd_len e ≤ 16 ∧ length (lpd_bytes e) = PATH_DENY_KEY_BYTES_LEGACY.

#[export] Instance wf_entry_dec e : Decision (wf_entry e).
Proof. unfold wf_entry; apply _. Defined.

(** The prefix an entry stands for. *)
Definition entry_prefix (e : PathDenyEntry) : bytes := take (Z.to_nat (pd_len e)) (pd_bytes e).

(** ** Lemmas *)
Lemma length_le_encode n z : length (le_encode n z) = n.
Proof. revert z. induction n; intros; simpl; auto. Qed.

Lemma le_encode_bytes n z : Forall is_byte (le_encode n z).
Proof.
  revert z. induction n; intros; simpl; constructor; [|done].
  unfold is_byte. apply Z.mod_pos_bound. lia.
Qed.

(** Reading back what was written, at the width of the field. *)
Lemma le_decode_encode n z :
  0 ≤ z < 2 ^ (8 * Z.of_nat n) → le_decode (le_encode n z) = z.
Proof.
  revert z. induction n as [|n IH]; intros z Hz; simpl.
  - change (2 ^ (8 * Z.of_nat 0)) with 1 in Hz. lia.
  - rewrite IH; [pose proof (Z.div_mod z 256 ltac:(lia)); lia|].
    replace (8 * Z.of_nat (S n)) with (8 * Z.of_nat n + 8) in Hz by lia.
    rewrite Z.pow_add_r in Hz by lia. change (2 ^ 8) with 256 in Hz.
    split; [apply Z.div_pos; lia|]. apply Z.div_lt_upper_bound; lia.
Qed.

Lemma le_decode_range s :
  Forall is_byte s → 0 ≤ le_decode s < 2 ^ (8 * Z.of_nat (length s)).
Proof.
  induction 1 as [|b s Hb _ IH]; simpl; [done|].
  replace (8 * Z.of_nat (S (length s))) with (8 * Z.of_nat (length s) + 8) by lia.
  rewrite Z.pow_add_r by lia. change (2 ^ 8) with 256. unfold is_byte in Hb. lia.
Qed.

Lemma field_bytes_length f : field_typed f = true → length (field_bytes f) = field_size f.
Proof.
  destruct f as [w v|n a]; simpl; [intros; apply length_le_encode|].
  intros [H _]%andb_true_iff. by apply bool_decide_eq_true in H.
Qed.

(** Updating one field keeps the others typed. *)
Lemma typed_update e e' i f :
  exec_event_fields e' = <[i := f]> (exec_event_fields e) →
  field_typed f = true → event_typed e → event_typed e'.
Proof. unfold event_typed. intros -> Hf He. by apply Forall_insert. Qed.

Lemma typed_int w v : 0 ≤ v < 2 ^ (8 * Z.of_nat w) → field_typed (FInt w v) = true.
Proof. intros. by apply bool_decide_eq_true. Qed.
Lemma typed_arr n a : length a = n → Forall is_byte a → field_typed (FArr n a) = true.
Proof.
  intros Hl Ha. simpl. rewrite bool_decide_eq_true_2 by done. simpl.
  apply forallb_forall. intros b Hb. apply bool_decide_eq_true.
  rewrite Forall_forall in Ha. apply Ha. by apply list_elem_of_In.
Qed.

Lemma typed_set_schema_version v e : uint 16 v → event_typed e → event_typed (set_schema_version v e).
Proof. intros. by apply (typed_update e _ 0 (FInt 2 v)); [|apply typed_int|]. Qed.
Lemma typed_set_pid v e : uint 32 v → event_typed e → event_typed (set_pid v e).
Proof. intros. by apply (typed_update e _ 6 (FInt 4 v)); [|apply typed_int|]. Qed.
Lemma typed_set_ppid v e : uint 32 v → event_typed e → event_typed (set_ppid v e).
Proof. intros. by apply (typed_update e _ 7 (FInt 4 v)); [|apply typed_int|]. Qed.
Lemma typed_set_tgid v e : uint 32 v → event_typed e → event_typed (set_tgid v e).
Proof. intros. by apply (typed_update e _ 8 (FInt 4 v)); [|apply typed_int|]. Qed.
Lemma typed_set_uid v e : uint 32 v → event_typed e → event_typed (set_uid v e).
Proof. intros. by apply (typed_update e _ 9 (FInt 4 v)); [|apply typed_int|]. Qed.
Lemma typed_set_euid v e : uint 32 v → event_typed e → event_typed (set_euid v e).
Proof. intros. by apply (typed_update e _ 10 (FInt 4 v)); [|apply typed_int|]. Qed.
Lemma typed_set_gid v e : uint 32 v → event_typed e → event_typed (set_gid v e).
Proof. intros. by apply (typed_update e _ 11 (FInt 4 v)); [|apply typed_int|]. Qed.
Lemma typed_set_comm v e :
  length v = 16%nat → Forall is_byte v → event_typed e → event_typed (set_comm v e).
Proof. intros. by apply (typed_update e _ 12 (FArr 16 v)); [|apply typed_arr|]. Qed.
Lemma typed_set_filename v e :
  length v = 256%nat → Forall is_byte v → event_typed e → event_typed (set_filename v e).
Proof. intros. by apply (typed_update e _ 13 (FArr 256 v)); [|apply typed_arr|]. Qed.
Lemma typed_set_container_id v e :
  length v = 64%nat → Forall is_byte v → event_typed e → event_typed (set_container_id v e).
Proof. intros. by apply (typed_update e _ 25 (FArr 64 v)); [|apply typed_arr|]. Qed.
Lemma typed_set_namespace_id v e : uint 64 v → event_typed e → event_typed (set_namespace_id v e).
Proof. intros. by apply (typed_update e _ 27 (FInt 8 v)); [|apply typed_int|]. Qed.
Lemma typed_set_timestamp_ns v e : uint 64 v → event_typed e → event_typed (set_timestamp_ns v e).
Proof. intros. by apply (typed_update e _ 28 (FInt 8 v)); [|apply typed_int|]. Qed.
Lemma typed_set_capture_status v e : uint 16 v → event_typed e → event_typed (set_capture_status v e).
Proof. intros. by apply (typed_update e _ 30 (FInt 2 v)); [|apply typed_int|]. Qed.
Lemma typed_set_enforcement_action v e : uint 8 v → event_typed e → event_typed (set_enforcement_action v e).
Proof. intros. by apply (typed_update e _ 29 (FInt 1 v)); [|apply typed_int|]. Qed.
#[export] Hint Resolve typed_set_schema_version
  typed_set_pid
  typed_set_ppid
  typed_set_tgid
  typed_set_uid
  typed_set_euid
  typed_set_gid
  typed_set_comm
  typed_set_filename
  typed_set_container_id
  typed_set_namespace_id
  typed_set_timestamp_ns
  typed_set_capture_status
  typed_set_enforcement_action : neuro.

Lemma typed_arr_field e i n a :
  event_typed e → exec_event_fields e !! i = Some (FArr n a) →
  length a = n ∧ Forall is_byte a.
Proof.
  unfold event_typed. rewrite Forall_lookup. intros He Hi. specialize (He i _ Hi). simpl in He.
  apply andb_true_iff in He as [H1%bool_decide_eq_true H2]. split; [done|].
  rewrite forallb_forall in H2. apply Forall_forall. intros x Hx.
  eapply bool_decide_eq_true, H2. by apply list_elem_of_In.
Qed.

Lemma length_copy_into dst src :
  (length src ≤ length dst)%nat → length (copy_into dst src) = length dst.
Proof. intros. unfold copy_into. rewrite length_app, length_drop. lia. Qed.

Lemma take_copy_into dst src : take (length src) (copy_into dst src) = src.
Proof. apply take_app_length. Qed.

Lemma length_zeroed n : length (zeroed n) = n.
Proof. apply length_replicate. Qed.

Lemma Forall_byte_zeroed n : Forall is_byte (zeroed n).
Proof. apply Forall_replicate. unfold is_byte. lia. Qed.

Lemma Forall_byte_copy_into dst src :
  Forall is_byte dst → Forall is_byte src → Forall is_byte (copy_into dst src).
Proof. intros. unfold copy_into. apply Forall_app. split; [done|]. by apply Forall_drop. Qed.
#[export] Hint Resolve Forall_byte_zeroed Forall_byte_copy_into Forall_take : neuro.

Lemma log2_uint n a : 0 < n → uint n a → Z.log2 a < n.
Proof.
  intros Hn Ha. destruct (decide (a = 0)) as [->|]; [done|]. apply Z.log2_lt_pow2; lia.
Qed.

Lemma lor_uint n a b : 0 < n → uint n a → uint n b → uint n (Z.lor a b).
Proof.
  intros Hn Ha Hb. assert (0 ≤ Z.lor a b) by (apply Z.lor_nonneg; lia).
  split; [done|]. destruct (decide (Z.lor a b = 0)) as [->|]; [lia|].
  apply Z.log2_lt_pow2; [lia|]. rewrite Z.log2_lor by lia.
  apply Z.max_lub_lt; by apply log2_uint.
Qed.

Lemma typed_int_field e i w v :
  event_typed e → exec_event_fields e !! i = Some (FInt w v) → 0 ≤ v < 2 ^ (8 * Z.of_nat w).
Proof.
  unfold event_typed. rewrite Forall_lookup. intros He Hi. specialize (He i _ Hi).
  by apply bool_decide_eq_true in He.
Qed.
Lemma typed_status e : event_typed e → uint 16 (ee_capture_status e).
Proof. intros He. by apply (typed_int_field e 30 2). Qed.

Lemma zip_eqb_take (p q : bytes) :
  length p = length q →
  forallb (λ '(a, b), bool_decide (a = b)) (zip p q) = bool_decide (p = q).
Proof.
  revert q. induction p as [|a p IH]; intros [|b q] Hl; simpl in *; try done.
  rewrite IH by lia. repeat case_bool_decide; simpl; try done; naive_solver.
Qed.

(** The matcher is a prefix test on the significant bytes. *)
Lemma matches_starts_with e path :
  wf_entry e → matches e path = starts_with path (entry_prefix e).
Proof.
  intros [Hlen Hb]. unfold matches, entry_prefix.
  set (n := Z.to_nat (pd_len e)). assert (1 ≤ n ≤ 32)%nat by lia.
  assert (length (take n (pd_bytes e)) = n) as Hn.
  { rewrite length_take. unfold PATH_DENY_KEY_BYTES in *. lia. }
  rewrite bool_decide_eq_false_2 by lia.
  rewrite (bool_decide_eq_false_2 (PATH_DENY_KEY_BYTES < n)%nat)
    by (unfold PATH_DENY_KEY_BYTES; lia).
  simpl. case_bool_decide as Hp.
  - symmetry. apply not_true_is_false. intros Hs.
    apply starts_with_prefix, prefix_length in Hs. lia.
  - rewrite zip_eqb_take by (try rewrite !length_take; unfold PATH_DENY_KEY_BYTES in *; lia).
    apply eq_bool_prop_intro. rewrite !Is_true_true, bool_decide_eq_true, starts_with_prefix.
    rewrite take_lookup_prefix, Hn. done.
Qed.

Lemma from_prefix_wf p e : from_prefix p = Some e → wf_entry e ∧ entry_prefix e = p.
Proof.
  unfold from_prefix. destruct (is_empty p || _) eqn:E; [done|]. intros [= <-].
  apply orb_false_iff in E as [E1 E2].
  apply bool_decide_eq_false in E1, E2. unfold PATH_DENY_KEY_BYTES in *.
  assert (length p ≠ 0%nat) by (destruct p; naive_solver).
  split; [split|].
  - cbn [pd_len]. lia.
  - cbn [pd_bytes]. rewrite length_copy_into; rewrite length_zeroed; [done|lia].
  - unfold entry_prefix; cbn [pd_len pd_bytes]. rewrite Nat2Z.id. apply take_copy_into.
Qed.

Lemma from_prefix_Some p :
  is_Some (from_prefix p) ↔ (1 ≤ length p ≤ PATH_DENY_KEY_BYTES)%nat.
Proof.
  unfold from_prefix, is_empty. repeat case_bool_decide; simpl; subst; simpl.
  - split; [by intros []|lia].
  - split; [by intros []|lia].
  - split; [by intros []|lia].
  - destruct p; [done|]. simpl in *. split; [lia|eauto].
Qed.
#[export] Hint Resolve from_prefix_wf : neuro.
