(* ===== verification/Bpf.v ===== *)
(** * BPF maps as seen from both sides

    The maps live in the kernel and are reached through aya from user space and
    through the eBPF helpers from the LSM program; neither is code of the
    repository. The components are written against the interfaces below. Each
    interface states the documented behaviour of the map type, with every call
    allowed to fail: a failed update leaves the contents as they were.

    [sim_array], [sim_hash] and [sim_ring] are executable instances with a
    fault schedule (one boolean per call, [true] makes the call fail); the
    witnesses run the components on them. *)

From S2P Require Import Prelude.

(** ** [BPF_MAP_TYPE_ARRAY] *)
Class ArrayMap (V M : Type) : Type := {
  am_get : M → Z → option V;
  am_set : M → Z → V → M * bool
}.

(** [cap] is [max_entries]: every index below it is present, none above. *)
Class ArrayMapLaws (V M : Type) `{ArrayMap V M} (cap : Z) : Prop := {
  am_get_range m i : is_Some (am_get m i) ↔ 0 ≤ i < cap;
  am_set_range m i v m' : am_set m i v = (m', true) → 0 ≤ i < cap;
  am_set_same m i v m' : am_set m i v = (m', true) → am_get m' i = Some v;
  am_set_other m i v m' j : am_set m i v = (m', true) → j ≠ i → am_get m' j = am_get m j;
  am_set_fail m i v m' j : am_set m i v = (m', false) → am_get m' j = am_get m j
}.

(** An array whose updates fail only out of range. *)
Class ArrayMapReliable (V M : Type) `{ArrayMap V M} (cap : Z) : Prop := {
  am_set_ok m i v : 0 ≤ i < cap → (am_set m i v).2 = true
}.

(** ** [BPF_MAP_TYPE_HASH] *)
Inductive remove_outcome : Type := Removed | KeyNotFound | RemoveError.

Class HashMap (V M : Type) : Type := {
  hm_get : M → Z → option V;
  hm_insert : M → Z → V → M * bool;
  hm_remove : M → Z → M * remove_outcome
}.

Class HashMapLaws (V M : Type) `{HashMap V M} : Prop := {
  hm_insert_same m k v m' : hm_insert m k v = (m', true) → hm_get m' k = Some v;
  hm_insert_other m k v m' j :
    hm_insert m k v = (m', true) → j ≠ k → hm_get m' j = hm_get m j;
  hm_insert_fail m k v m' j : hm_insert m k v = (m', false) → hm_get m' j = hm_get m j;
  hm_remove_same m k m' : hm_remove m k = (m', Removed) → hm_get m' k = None;
  hm_remove_other m k m' j :
    hm_remove m k = (m', Removed) → j ≠ k → hm_get m' j = hm_get m j;
  hm_remove_missing m k m' : hm_remove m k = (m', KeyNotFound) → hm_get m k = None;
  hm_remove_missing_same m k m' j :
    hm_remove m k = (m', KeyNotFound) → hm_get m' j = hm_get m j;
  hm_remove_error m k m' j : hm_remove m k = (m', RemoveError) → hm_get m' j = hm_get m j
}.

(** ** [BPF_MAP_TYPE_RINGBUF] *)
Class RingBuf (E R : Type) : Type := {
  rb_events : R → list E;
  rb_reserve : R → bool;
  rb_submit : R → E → R
}.

Class RingBufLaws (E R : Type) `{RingBuf E R} : Prop := {
  rb_submit_events r e : rb_events (rb_submit r e) = rb_events r ++ [e]
}.

(** ** Executable instances *)

(** Next scheduled outcome of a call; an exhausted schedule never fails. *)
Definition next_fault (faults : list bool) : bool * list bool :=
  match faults with
  | [] => (false, [])
  | b :: faults => (b, faults)
  end.

(** A zero-initialised array of [cap] slots: the slots written so far. *)
Record sim_array (V : Type) (cap : Z) : Type := mkSimArray {
  sa_zero : V;
  sa_written : gmap Z V;
  sa_faults : list bool
}.
Arguments mkSimArray {V cap}.
Arguments sa_zero {V cap}.
Arguments sa_written {V cap}.
Arguments sa_faults {V cap}.

#[export] Instance sim_array_map {V cap} : ArrayMap V (sim_array V cap) := {
  am_get a i :=
    if bool_decide (0 ≤ i < cap) then Some (default (sa_zero a) (sa_written a !! i)) else None;
  am_set a i v :=
    let '(fault, rest) := next_fault (sa_faults a) in
    if fault || negb (bool_decide (0 ≤ i < cap))
    then (mkSimArray (sa_zero a) (sa_written a) rest, false)
    else (mkSimArray (sa_zero a) (<[i := v]> (sa_written a)) rest, true)
}.

#[export] Instance sim_array_laws {V cap} : ArrayMapLaws V (sim_array V cap) cap.
Proof.
  split; intros m i; simpl.
  - case_bool_decide; split; try done; by intros [].
  - intros v m'. destruct (next_fault _) as [[] rest]; simpl; [done|].
    case_bool_decide; done.
  - intros v m'. destruct (next_fault _) as [[] rest]; simpl; [done|].
    case_bool_decide; simpl; [|done]. intros [= <-]; simpl. by rewrite lookup_insert_eq.
  - intros v m' j. destruct (next_fault _) as [[] rest]; simpl; [done|].
    case_bool_decide; simpl; [|done]. intros [= <-] ?; simpl. by rewrite lookup_insert_ne by done.
  - intros v m' j. destruct (next_fault _) as [[] rest]; simpl; [by intros [= <-]|].
    case_bool_decide; simpl; [done|]. by intros [= <-].
Qed.

(** The same array without faults. *)
Record rel_array (V : Type) (cap : Z) : Type := mkRelArray {
  ra_zero : V;
  ra_written : gmap Z V
}.
Arguments mkRelArray {V cap}.
Arguments ra_zero {V cap}.
Arguments ra_written {V cap}.

#[export] Instance rel_array_map {V cap} : ArrayMap V (rel_array V cap) := {
  am_get a i := if bool_decide (0 ≤ i < cap) then Some (default (ra_zero a) (ra_written a !! i)) else None;
  am_set a i v :=
    if bool_decide (0 ≤ i < cap) then (mkRelArray (ra_zero a) (<[i := v]> (ra_written a)), true) else (a, false)
}.

#[export] Instance rel_array_laws {V cap} : ArrayMapLaws V (rel_array V cap) cap.
Proof.
  split; intros m i; simpl.
  - case_bool_decide; split; try done; by intros [].
  - intros v m'. by case_bool_decide.
  - intros v m'. case_bool_decide; [|done]. intros [= <-]; simpl. by rewrite lookup_insert_eq.
  - intros v m' j. case_bool_decide; [|done]. intros [= <-] ?; simpl. by rewrite lookup_insert_ne by done.
  - intros v m' j. case_bool_decide; [done|]. by intros [= <-].
Qed.

#[export] Instance rel_array_reliable {V cap} : ArrayMapReliable V (rel_array V cap) cap.
Proof. split. intros m i v Hi. simpl. by rewrite bool_decide_eq_true_2. Qed.

(** A fresh array map with the fault schedule [faults]. *)
Definition sim_array_new {V} (cap : Z) (zero : V) (faults : list bool) : sim_array V cap :=
  mkSimArray zero ∅ faults.

Record sim_hash (V : Type) : Type := mkSimHash {
  sh_map : gmap Z V;
  sh_max : nat;
  sh_faults : list bool
}.
Arguments mkSimHash {V}.
Arguments sh_map {V}.
Arguments sh_max {V}.
Arguments sh_faults {V}.

Definition sim_full {V} (h : sim_hash V) (k : Z) : bool :=
  match sh_map h !! k with
  | Some _ => false
  | None => bool_decide (sh_max h ≤ size (sh_map h))%nat
  end.

#[export] Instance sim_hash_map {V} : HashMap V (sim_hash V) := {
  hm_get h k := sh_map h !! k;
  hm_insert h k v :=
    let '(fault, rest) := next_fault (sh_faults h) in
    if fault || sim_full h k then (mkSimHash (sh_map h) (sh_max h) rest, false)
    else (mkSimHash (<[k := v]> (sh_map h)) (sh_max h) rest, true);
  hm_remove h k :=
    let '(fault, rest) := next_fault (sh_faults h) in
    if fault then (mkSimHash (sh_map h) (sh_max h) rest, RemoveError)
    else match sh_map h !! k with
         | None => (mkSimHash (sh_map h) (sh_max h) rest, KeyNotFound)
         | Some _ => (mkSimHash (delete k (sh_map h)) (sh_max h) rest, Removed)
         end
}.

#[export] Instance sim_hash_laws {V} : HashMapLaws V (sim_hash V).
Proof.
  split; intros m k; simpl; intros *; destruct (next_fault (sh_faults m)) as [[] rest];
    simpl; repeat case_match; intros; simplify_map_eq/=; done.
Qed.

Definition sim_hash_new {V} (max : nat) (faults : list bool) : sim_hash V :=
  mkSimHash ∅ max faults.

(** The same map without faults: only an insert into a full map fails. *)
Record rel_hash (V : Type) : Type := mkRelHash {
  rh_map : gmap Z V;
  rh_max : nat
}.
Arguments mkRelHash {V}.
Arguments rh_map {V}.
Arguments rh_max {V}.

#[export] Instance rel_hash_map {V} : HashMap V (rel_hash V) := {
  hm_get h k := rh_map h !! k;
  hm_insert h k v :=
    if bool_decide (is_Some (rh_map h !! k)) || bool_decide (size (rh_map h) < rh_max h)%nat
    then (mkRelHash (<[k := v]> (rh_map h)) (rh_max h), true) else (h, false);
  hm_remove h k :=
    match rh_map h !! k with
    | None => (h, KeyNotFound)
    | Some _ => (mkRelHash (delete k (rh_map h)) (rh_max h), Removed)
    end
}.

#[export] Instance rel_hash_laws {V} : HashMapLaws V (rel_hash V).
Proof.
  split; intros m k; simpl; intros *; repeat case_match; intros; simplify_map_eq/=; done.
Qed.

(** A ring buffer of [sr_cap] records. *)
Record sim_ring (E : Type) : Type := mkSimRing {
  sr_events : list E;
  sr_cap : nat
}.
Arguments mkSimRing {E}.
Arguments sr_events {E}.
Arguments sr_cap {E}.

#[export] Instance sim_ring_buf {E} : RingBuf E (sim_ring E) := {
  rb_events r := sr_events r;
  rb_reserve r := bool_decide (length (sr_events r) < sr_cap r)%nat;
  rb_submit r e := mkSimRing (sr_events r ++ [e]) (sr_cap r)
}.

#[export] Instance sim_ring_laws {E} : RingBufLaws E (sim_ring E).
Proof. by split. Qed.
