(* ===== verification/PathDeny.v ===== *)
(** * The path-prefix deny list, user-space side

    [apps/agent-ebpf-sensor/src/path_deny.rs]: the staleness clock, the frozen
    hardcoded matcher and the map-backed one, the bootstrap set, and the writer
    of the two BPF arrays; and [lsm_decision.rs], the user-space statement of
    the LSM's fail-closed contract.

    The writer is a sequence of single-slot updates, each of which may fail and
    between any two of which the LSM program may run. [deny_ops] lists the
    updates in program order and [writer_step] takes one at a time; the lemmas
    below describe the maps at every point of that sequence. *)

From S2P Require Import Prelude RustStd Common Bpf.

(** ** Time: a [Duration] or an [Instant] in nanoseconds *)
Definition secs (n : Z) : Z := n * 1000000000.

Definition POLICY_STALE_AFTER : Z := secs (5 * 60).
Definition POLICY_SYNC_INTERVAL : Z := secs 30.

Record PolicySyncState : Type := mkPolicySyncState {
  ps_last_success : Z;
  ps_last_version : bytes;
  ps_stale : bool
}.

(** [PolicySyncState::fresh]. *)
Definition ps_fresh (now : Z) (version : bytes) : PolicySyncState :=
  {| ps_last_success := now; ps_last_version := version; ps_stale := false |}.

(** [PolicySyncState::mark_success]. *)
Definition mark_success (now : Z) (version : bytes) (s : PolicySyncState) : PolicySyncState :=
  {| ps_last_success := now; ps_last_version := version; ps_stale := false |}.

(** [Instant::elapsed] saturates at zero. *)
Definition elapsed (now since : Z) : Z := Z.max 0 (now - since).

(** [PolicySyncState::refresh_stale_flag]. *)
Definition refresh_stale_flag (now : Z) (s : PolicySyncState) : PolicySyncState :=
  {| ps_last_success := ps_last_success s; ps_last_version := ps_last_version s;
     ps_stale := bool_decide (POLICY_STALE_AFTER < elapsed now (ps_last_success s)) |}.

(** ** Matchers *)

(** The private [path_starts_with] of [path_deny.rs]. *)
Definition slice_starts_with (path prefix : bytes) : bool :=
  if bool_decide (length path < length prefix)%nat then false
  else forallb (λ '(a, b), bool_decide (a = b)) (zip path prefix).

Definition legacy_hardcoded_is_blacklisted (path : bytes) : bool :=
  slice_starts_with path (lit "/tmp/")
  || slice_starts_with path (lit "/dev/shm/")
  || slice_starts_with path (lit "/var/tmp/").

Definition map_backed_is_blacklisted (path : bytes) (entries : list PathDenyEntry) : bool :=
  existsb (λ e, matches e path) entries.

(** ** Bootstrap set *)
Definition bootstrap_entries : result (list PathDenyEntry) :=
  out ← try_map (λ p, ok_or (EMsg "bootstrap deny prefix is empty or too long") (from_prefix p))
          BOOTSTRAP_PATH_DENY_PREFIXES;
  if bool_decide (out = []) then Err (EMsg "bootstrap deny list must not be empty (fail-closed)")
  else if bool_decide (PATH_DENY_MAX_ENTRIES < as_uint 32 (Z.of_nat (length out)))
  then Err (EMsg "bootstrap deny list has too many entries")
  else Ok out.

(** ** The LSM contract of [lsm_decision.rs] *)
Definition LSM_ALLOW : Z := 0.
Definition LSM_DENY : Z := -1.

Inductive PathCapture : Type :=
| CaptureOk (prefix : bytes)
| FilenamePointerUnreadable
| PathBytesUnreadable.

Definition decision_from_path_capture (capture : PathCapture) (deny : list PathDenyEntry) : Z :=
  match capture with
  | FilenamePointerUnreadable | PathBytesUnreadable => LSM_DENY
  | CaptureOk prefix => if map_backed_is_blacklisted prefix deny then LSM_DENY else LSM_ALLOW
  end.

(** [lsm_hook_result]: a [Result<i32, i64>] is a sum. *)
Definition lsm_hook_result (try_path : Z + Z) : Z :=
  match try_path with inl ret => ret | inr _ => LSM_DENY end.

(** ** The writer *)
Record PathDenyMaps (ML MC : Type) : Type := mkPathDenyMaps {
  pdm_list : ML;
  pdm_count : MC
}.
Arguments mkPathDenyMaps {ML MC}.
Arguments pdm_list {ML MC}.
Arguments pdm_count {ML MC}.

Section writer.
Context {ML MC : Type} `{ArrayMap PathDenyEntry ML, ArrayMap Z MC}.
Abbreviation maps := (PathDenyMaps ML MC).

(** [maps.list.set(i, entry, 0)] and [maps.count.set(i, v, 0)]. *)
Definition list_set (i : Z) (e : PathDenyEntry) : stm maps unit := λ m,
  let '(l, ok) := am_set (pdm_list m) i e in
  (mkPathDenyMaps l (pdm_count m),
   if ok then Ok () else Err (EMsg "PATH_DENY_LIST: map update failed")).
Definition count_set (i c : Z) : stm maps unit := λ m,
  let '(k, ok) := am_set (pdm_count m) i c in
  (mkPathDenyMaps (pdm_list m) k,
   if ok then Ok () else Err (EMsg "PATH_DENY_COUNT: map update failed")).

(** One turn of the slot-writing loop. *)
Definition write_entry (ie : nat * PathDenyEntry) : stm maps unit :=
  let '(i, e) := ie in
  if bool_decide (pd_len e = 0) || bool_decide (Z.of_nat PATH_DENY_KEY_BYTES < pd_len e)
  then st_fail (EMsg "deny entry has invalid len")
  else st_context "failed to write PATH_DENY_LIST" (list_set (as_uint 32 (Z.of_nat i)) e).

(** [a..b] over [u32]. *)
Definition u32_range (a b : Z) : list Z :=
  map (λ k, a + Z.of_nat k) (seq 0 (Z.to_nat (b - a))).

(** [enumerate()]. *)
Definition enumerate {A} (l : list A) : list (nat * A) := zip (seq 0 (length l)) l.

(** [apply_deny_entries]. *)
Definition apply_deny_entries (entries : list PathDenyEntry) : stm maps unit :=
  if bool_decide (entries = []) then
    st_fail (EMsg "refusing to apply empty deny list (would fail-open)")
  else if bool_decide (PATH_DENY_MAX_ENTRIES < as_uint 32 (Z.of_nat (length entries))) then
    st_fail (EMsg "deny list has too many entries")
  else
    _ ← for_each write_entry (enumerate entries);
    let count := as_uint 32 (Z.of_nat (length entries)) in
    _ ← st_context "failed to write PATH_DENY_COUNT" (count_set 0 count);
    for_each (λ i, st_context "failed to clear PATH_DENY_LIST"
                     (list_set i PathDenyEntry_default))
      (u32_range count PATH_DENY_MAX_ENTRIES).

(** [bootstrap_deny_maps]; [now] is the clock reading of [PolicySyncState::fresh]. *)
Definition bootstrap_deny_maps (now : Z) : stm maps PolicySyncState :=
  entries ← st_of_result bootstrap_entries;
  _ ← apply_deny_entries entries;
  mret (ps_fresh now (lit "bootstrap")).

(** ** The writer one update at a time *)
Inductive write_op : Type :=
| WEntry (i : nat) (e : PathDenyEntry)
| WCount (c : Z)
| WClear (i : Z).

Definition run_op (op : write_op) : stm maps unit :=
  match op with
  | WEntry i e => write_entry (i, e)
  | WCount c => st_context "failed to write PATH_DENY_COUNT" (count_set 0 c)
  | WClear i => st_context "failed to clear PATH_DENY_LIST" (list_set i PathDenyEntry_default)
  end.

(** The updates of one [apply_deny_entries] call, in program order. *)
Definition deny_ops (entries : list PathDenyEntry) : list write_op :=
  map (λ '(i, e), WEntry i e) (enumerate entries)
  ++ [WCount (as_uint 32 (Z.of_nat (length entries)))]
  ++ map WClear (u32_range (as_uint 32 (Z.of_nat (length entries))) PATH_DENY_MAX_ENTRIES).

(** One update: the rest of the program and the maps afterwards. A failed
    update ends the call. *)
Inductive writer_step : list write_op * maps → list write_op * maps → Prop :=
| writer_ok op ops m m' :
    run_op op m = (m', Ok ()) → writer_step (op :: ops, m) (ops, m')
| writer_err op ops m m' e :
    run_op op m = (m', Err e) → writer_step (op :: ops, m) ([], m').

Lemma for_each_app {S A} (f : A → stm S unit) l k s :
  for_each f (l ++ k) s = (for_each f l ≫= λ _, for_each f k) s.
Proof.
  revert s. induction l as [|x l IH]; intros s; simpl; [done|].
  rewrite !stm_bind_run. destruct (f x s) as [s' []]; [|done]. by rewrite IH.
Qed.

Lemma for_each_map {S A B} (f : B → stm S unit) (g : A → B) l s :
  for_each f (map g l) s = for_each (λ x, f (g x)) l s.
Proof.
  revert s. induction l as [|x l IH]; intros s; simpl; [done|].
  rewrite !stm_bind_run. destruct (f (g x) s) as [s' []]; [|done]. by rewrite IH.
Qed.

Lemma for_each_ext {S A} (f g : A → stm S unit) l s :
  (∀ x s, f x s = g x s) → for_each f l s = for_each g l s.
Proof.
  intros Hfg. revert s. induction l as [|x l IH]; intros s; simpl; [done|].
  rewrite !stm_bind_run, Hfg. by destruct (g x s) as [s' []].
Qed.

Lemma write_entry_ops l m :
  for_each run_op (map (λ '(i, e), WEntry i e) l) m = for_each write_entry l m.
Proof. rewrite for_each_map. apply for_each_ext. by intros []. Qed.

(** After the two size guards, the call is the run of its updates. *)
Lemma apply_deny_entries_ops entries m :
  entries ≠ [] → as_uint 32 (Z.of_nat (length entries)) ≤ PATH_DENY_MAX_ENTRIES →
  apply_deny_entries entries m = for_each run_op (deny_ops entries) m.
Proof.
  intros Hne Hlen. unfold apply_deny_entries, deny_ops.
  rewrite bool_decide_eq_false_2 by done. rewrite bool_decide_eq_false_2 by lia.
  rewrite for_each_app, stm_bind_run, stm_bind_run, write_entry_ops.
  destruct (for_each write_entry _ m) as [m' []]; [|done].
  simpl. rewrite !stm_bind_run. simpl. unfold st_context at 1 3.
  destruct (count_set _ _ m') as [m'' [[]|]]; simpl; [|done]. by rewrite for_each_map.
Qed.

(** The call's outcome is reached by taking its updates one at a time. *)
Lemma run_ops_steps ops m :
  ∃ rest, rtc writer_step (ops, m) (rest, (for_each run_op ops m).1) ∧
    (is_ok (for_each run_op ops m).2 = true → rest = []).
Proof.
  revert m. induction ops as [|op ops IH]; intros m; simpl.
  - exists []. split; [apply rtc_refl|done].
  - rewrite stm_bind_run. destruct (run_op op m) as [m' [[]|e]] eqn:E.
    + destruct (IH m') as (rest & Hr & Hok). exists rest. split; [|done].
      eapply rtc_l; [by constructor|done].
    + exists []. split; [|done]. eapply rtc_once. by econstructor.
Qed.
End writer.
Arguments write_op : clear implicits.

(** ** Facts about the matchers and the bootstrap set *)
Lemma slice_starts_with_spec path prefix :
  slice_starts_with path prefix = starts_with path prefix.
Proof.
  unfold slice_starts_with. revert path.
  induction prefix as [|b prefix IH]; intros [|a path]; simpl; try done.
  rewrite starts_with_cons.
  specialize (IH path). destruct (decide (length path < length prefix)%nat).
  - rewrite bool_decide_eq_true_2 in IH by lia. rewrite bool_decide_eq_true_2 by lia.
    by rewrite <- IH, andb_false_r.
  - rewrite bool_decide_eq_false_2 in IH by lia. rewrite bool_decide_eq_false_2 by lia.
    by rewrite IH.
Qed.

(** The bootstrap list, computed. *)
Definition bootstrap_list : list PathDenyEntry :=
  match bootstrap_entries with Ok l => l | Err _ => [] end.

Lemma bootstrap_entries_ok : bootstrap_entries = Ok bootstrap_list.
Proof. by vm_compute. Qed.

Lemma try_map_from_prefix err ps es :
  try_map (λ p, ok_or err (from_prefix p)) ps = Ok es →
  Forall wf_entry es ∧
  ∀ path, map_backed_is_blacklisted path es = existsb (starts_with path) ps.
Proof.
  intros Hes%try_map_Ok. induction Hes as [|p e ps es Hp _ [IHw IHm]]; [done|].
  apply ok_or_Ok, from_prefix_wf in Hp as [Hw Hp]. split; [by constructor|].
  intros path. unfold map_backed_is_blacklisted in *. simpl.
  rewrite IHm, matches_starts_with by done. by rewrite Hp.
Qed.

Lemma bootstrap_map_backed path :
  map_backed_is_blacklisted path bootstrap_list =
  existsb (starts_with path) BOOTSTRAP_PATH_DENY_PREFIXES.
Proof.
  eapply (try_map_from_prefix (EMsg "bootstrap deny prefix is empty or too long")).
  by vm_compute.
Qed.

Lemma bootstrap_list_wf : Forall wf_entry bootstrap_list.
Proof.
  eapply (try_map_from_prefix (EMsg "bootstrap deny prefix is empty or too long")
            BOOTSTRAP_PATH_DENY_PREFIXES).
  by vm_compute.
Qed.
