(* ===== verification/LsmHook.v ===== *)
(** * The LSM program [nm_lsm_bprm]

    [apps/agent-ebpf-sensor/ebpf/src/main.rs]. The kernel side of the hook (its
    helpers, the pointers of [linux_binprm] and [task_struct], the current task)
    is the parameter [LsmEnv]; the maps are reached through the interfaces of
    [Bpf]. Every read through a kernel pointer may fail.

    Shown here: the exact condition under which an execution is allowed, that
    every failure to obtain the path denies, that only [/tmp/] is ever excepted
    and only while the validity flag is fresh, that a denial leaves one valid
    record or one counted loss, and, for the deny list, that the hook decides
    like the user-space matcher on the list last applied, also while the list
    is being rewritten. *)

From S2P Require Import Prelude RustStd Common Bpf PathDeny.

Definition PATH_PREFIX_LEN : nat := PATH_DENY_KEY_BYTES.

(** ** The kernel environment of one hook invocation

    A helper that returns [Result<A, i64>] gives a sum ([inl] is [Ok]). *)
Record LsmEnv : Type := mkLsmEnv {
  env_bprm : Z;
  probe_read_ptr : Z → Z + Z;
  probe_read_u32 : Z → Z + Z;
  probe_read_prefix : Z → bytes + Z;
  probe_read_str : Z → nat → bytes + Z;
  current_pid_tgid : Z;
  current_uid_gid : Z;
  current_task : Z;
  current_comm : bytes + Z;
  current_cgroup_id : Z;
  ktime_ns : Z
}.

(** The offsets injected from BTF before the program is loaded. *)
Record LsmOffsets : Type := mkLsmOffsets {
  BPRM_FILENAME_OFFSET : Z;
  TASK_REAL_PARENT_OFFSET : Z;
  TASK_TGID_OFFSET : Z
}.

(** [ptr.add(off)]. *)
Definition ptr_add (p off : Z) : Z := wrapping_add 64 p off.

Record LsmMaps (ML MC MH MV R : Type) : Type := mkLsmMaps {
  lm_deny : PathDenyMaps ML MC;
  lm_allow : MH;
  lm_valid : MV;
  lm_stats : list TelemetryHealthStats;
  lm_ring : R
}.
Arguments mkLsmMaps {ML MC MH MV R}.
Arguments lm_deny {ML MC MH MV R}.
Arguments lm_allow {ML MC MH MV R}.
Arguments lm_valid {ML MC MH MV R}.
Arguments lm_stats {ML MC MH MV R}.
Arguments lm_ring {ML MC MH MV R}.

(** ** Path comparison *)

(** The compare loop of [path_starts_with], [j] running up to 32. *)
Fixpoint cmp_loop (fuel : nat) (j : nat) (path prefix : bytes) (len : nat) : bool :=
  match fuel with
  | O => true
  | S fuel =>
      if bool_decide (len ≤ j)%nat then true
      else if negb (bool_decide (path !! j = prefix !! j)) then false
      else cmp_loop fuel (S j) path prefix len
  end.

Definition path_starts_with (path prefix : bytes) (len : nat) : bool :=
  if bool_decide (length path < len)%nat || bool_decide (len = 0%nat)
     || bool_decide (PATH_DENY_KEY_BYTES < len)%nat then false
  else cmp_loop PATH_DENY_KEY_BYTES 0 path prefix len.

(** ** Event construction *)
Definition init_exec_event (enforcement_action : Z) : ExecEvent :=
  set_schema_version 0 (set_enforcement_action enforcement_action ExecEvent_default).

(** [mark_unknown]: the buffer with the sentinel and the raised status bit. *)
Definition mark_unknown (buf : bytes) (status bit : Z) : bytes * Z :=
  let len := Nat.min (length UNKNOWN_SENTINEL) (length buf) in
  (copy_into buf (take len UNKNOWN_SENTINEL), Z.lor status bit).

Section event.
Context (env : LsmEnv) (off : LsmOffsets).

Definition raise_status (bit : Z) (e : ExecEvent) : ExecEvent :=
  set_capture_status (Z.lor (ee_capture_status e) bit) e.

(** [read_ppid_best_effort]: the parent id and the event with its status. *)
Definition read_ppid_best_effort (e : ExecEvent) : Z * ExecEvent :=
  if bool_decide (current_task env = 0) then (0, raise_status CAPTURE_PPID e)
  else
    match probe_read_ptr env (ptr_add (current_task env) (TASK_REAL_PARENT_OFFSET off)) with
    | inr _ => (0, raise_status CAPTURE_PPID e)
    | inl parent =>
        if bool_decide (parent = 0) then (0, raise_status CAPTURE_PPID e)
        else
          match probe_read_u32 env (ptr_add parent (TASK_TGID_OFFSET off)) with
          | inl ppid => (ppid, e)
          | inr _ => (0, raise_status CAPTURE_PPID e)
          end
    end.

(** The task and user ids at the head of [populate_lineage]. *)
Definition populate_ids (e : ExecEvent) : ExecEvent :=
  let pid_tgid := current_pid_tgid env in
  let e := set_pid (as_uint 32 (Z.shiftr pid_tgid 32)) e in
  let e := set_tgid (as_uint 32 pid_tgid) e in
  let uid_gid := current_uid_gid env in
  let e := set_uid (as_uint 32 uid_gid) e in
  let e := set_gid (as_uint 32 (Z.shiftr uid_gid 32)) e in
  let e := set_euid (as_uint 32 uid_gid) e in
  raise_status CAPTURE_EUID e.

Definition populate_lineage (e : ExecEvent) : ExecEvent :=
  let e := populate_ids e in
  let '(cid, status) :=
    mark_unknown (ee_container_id e) (ee_capture_status e) CAPTURE_CONTAINER_ID in
  let e := set_capture_status status (set_container_id cid e) in
  let '(ppid, e) := read_ppid_best_effort e in
  let e := set_ppid ppid e in
  match current_comm env with
  | inl comm =>
      let copy_len := Nat.min (length comm) MAX_COMM_LEN in
      set_comm (copy_into (ee_comm e) (take copy_len comm)) e
  | inr _ =>
      let '(comm, status) := mark_unknown (ee_comm e) (ee_capture_status e) CAPTURE_COMM in
      set_capture_status status (set_comm comm e)
  end.

(** [read_bprm_filename_ptr] and [read_bprm_path_prefix]. *)
Definition read_bprm_filename_ptr : Z + Z :=
  probe_read_ptr env (ptr_add (env_bprm env) (BPRM_FILENAME_OFFSET off)).

Definition read_bprm_path_prefix : bytes + Z :=
  match read_bprm_filename_ptr with
  | inr e => inr e
  | inl p => probe_read_prefix env p
  end.

Definition mark_filename_unknown (e : ExecEvent) : ExecEvent :=
  let '(name, status) :=
    mark_unknown (ee_filename e) (ee_capture_status e) CAPTURE_FILENAME in
  set_capture_status status (set_filename name e).

(** The record [emit_blocked_exec_event] writes into a reserved slot. *)
Definition blocked_exec_event : ExecEvent :=
  let e := init_exec_event ENFORCEMENT_BLOCKED in
  let e := populate_lineage e in
  let e := set_filename (zeroed MAX_FILENAME_LEN) e in
  let e :=
    match read_bprm_filename_ptr with
    | inl p =>
        match probe_read_str env p MAX_FILENAME_LEN with
        | inl s => set_filename (copy_into (ee_filename e) s) e
        | inr _ => mark_filename_unknown e
        end
    | inr _ => mark_filename_unknown e
    end in
  let e := set_namespace_id 0 e in
  let e := raise_status CAPTURE_NAMESPACE_ID e in
  let e := set_timestamp_ns (ktime_ns env) e in
  set_schema_version EXEC_EVENT_SCHEMA_VERSION e.
End event.

(** ** The hook *)
Section hook.
Context {ML MC MH MV R : Type}.
Context `{ArrayMap PathDenyEntry ML, ArrayMap Z MC, HashMap Z MH, ArrayMap Z MV}.
Context `{RingBuf ExecEvent R}.
Abbreviation maps := (LsmMaps ML MC MH MV R).

Definition set_stats (s : list TelemetryHealthStats) (m : maps) : maps :=
  mkLsmMaps (lm_deny m) (lm_allow m) (lm_valid m) s (lm_ring m).
Definition set_ring (r : R) (m : maps) : maps :=
  mkLsmMaps (lm_deny m) (lm_allow m) (lm_valid m) (lm_stats m) r.

Definition record_event_submitted (m : maps) : maps :=
  set_stats (alter (λ s, {| events_processed := saturating_add 64 (events_processed s) 1;
                            lost_events_count := lost_events_count s |})
               (Z.to_nat TELEMETRY_STATS_INDEX) (lm_stats m)) m.
Definition record_event_lost (m : maps) : maps :=
  set_stats (alter (λ s, {| events_processed := events_processed s;
                            lost_events_count := saturating_add 64 (lost_events_count s) 1 |})
               (Z.to_nat TELEMETRY_STATS_INDEX) (lm_stats m)) m.

Definition emit_blocked_exec_event (env : LsmEnv) (off : LsmOffsets) (m : maps) : maps :=
  if rb_reserve (lm_ring m) then
    record_event_submitted (set_ring (rb_submit (lm_ring m) (blocked_exec_event env off)) m)
  else record_event_lost m.

Definition identity_exception_allows (env : LsmEnv) (m : maps) : bool :=
  match am_get (lm_valid m) 0 with
  | None => false
  | Some valid =>
      if negb (bool_decide (valid = IDENTITY_EXCEPTIONS_VALID_FRESH)) then false
      else match hm_get (lm_allow m) (current_cgroup_id env) with
           | Some v => bool_decide (v = IDENTITY_ALLOW_VALUE)
           | None => false
           end
  end.

(** The active count, capped. *)
Definition deny_count (d : PathDenyMaps ML MC) : Z :=
  match am_get (pdm_count d) 0 with
  | Some c => if bool_decide (PATH_DENY_MAX_ENTRIES < c) then PATH_DENY_MAX_ENTRIES else c
  | None => 0
  end.

(** The bounded scan of [is_blacklisted_path]. *)
Fixpoint deny_scan (fuel : nat) (i count : Z) (d : PathDenyMaps ML MC) (path : bytes) : bool :=
  match fuel with
  | O => false
  | S fuel =>
      if bool_decide (count ≤ i) then false
      else
        match am_get (pdm_list d) i with
        | Some entry =>
            let len := Z.to_nat (pd_len entry) in
            if bool_decide (0 < len)%nat && bool_decide (len ≤ PATH_DENY_KEY_BYTES)%nat
               && path_starts_with path (pd_bytes entry) len
            then true
            else deny_scan fuel (i + 1) count d path
        | None => deny_scan fuel (i + 1) count d path
        end
  end.

Definition is_blacklisted_path (d : PathDenyMaps ML MC) (path : bytes) : bool :=
  deny_scan (Z.to_nat PATH_DENY_MAX_ENTRIES) 0 (deny_count d) d path.

Definition try_nm_lsm_bprm (env : LsmEnv) (off : LsmOffsets) (m : maps) : maps * (Z + Z) :=
  match read_bprm_path_prefix env off with
  | inr e => (m, inr e)
  | inl prefix =>
      if negb (is_blacklisted_path (lm_deny m) prefix) then (m, inl 0)
      else if path_starts_with prefix IDENTITY_EXCEPTION_SCOPE_PREFIX
                (length IDENTITY_EXCEPTION_SCOPE_PREFIX)
              && identity_exception_allows env m
      then (m, inl 0)
      else (emit_blocked_exec_event env off m, inl LSM_DENY)
  end.

Definition nm_lsm_bprm (env : LsmEnv) (off : LsmOffsets) (m : maps) : maps * Z :=
  match try_nm_lsm_bprm env off m with
  | (m', inl ret) => (m', ret)
  | (m', inr _) => (m', LSM_DENY)
  end.
End hook.

(** ** Comparison and scan *)
Lemma cmp_loop_spec fuel j path prefix len :
  (len ≤ j + fuel)%nat →
  cmp_loop fuel j path prefix len = true ↔
  ∀ i, (j ≤ i < len)%nat → path !! i = prefix !! i.
Proof.
  revert j. induction fuel as [|fuel IH]; intros j Hf; simpl.
  - split; [|done]. intros _ i Hi. lia.
  - case_bool_decide as Hj; [split; [|done]; intros _ i Hi; lia|].
    case_bool_decide as He; simpl.
    + rewrite IH by lia. split; intros Hall i Hi; [|apply Hall; lia].
      destruct (decide (i = j)) as [->|]; [done|]. apply Hall. lia.
    + split; [done|]. intros Hall. exfalso. apply He, Hall. lia.
Qed.

(** On the lengths the hook uses, the loop is a prefix test. *)
Lemma path_starts_with_spec path prefix len :
  (1 ≤ len ≤ PATH_DENY_KEY_BYTES)%nat → (len ≤ length prefix)%nat →
  path_starts_with path prefix len = starts_with path (take len prefix).
Proof.
  intros Hlen Hp. unfold path_starts_with.
  rewrite (bool_decide_eq_false_2 (len = 0%nat)) by lia.
  rewrite (bool_decide_eq_false_2 (PATH_DENY_KEY_BYTES < len)%nat) by lia.
  apply eq_bool_prop_intro. rewrite !Is_true_true, starts_with_prefix, take_lookup_prefix.
  rewrite length_take_le by lia. case_bool_decide as Hs; cbn [orb].
  - split; [done|]. intros E. apply (f_equal length) in E. rewrite !length_take in E. lia.
  - rewrite cmp_loop_spec by (unfold PATH_DENY_KEY_BYTES in *; lia). split.
    + intros Hall. apply list_eq. intros i. rewrite !lookup_take.
      case_decide; [|done]. apply Hall. lia.
    + intros E i Hi. apply (f_equal (.!! i)) in E. rewrite !lookup_take_lt in E by lia. done.
Qed.

(** What the scan tests on one slot, and that it is the entry's own matcher. *)
Definition slot_hit (e : PathDenyEntry) (path : bytes) : bool :=
  let len := Z.to_nat (pd_len e) in
  bool_decide (0 < len)%nat && bool_decide (len ≤ PATH_DENY_KEY_BYTES)%nat
  && path_starts_with path (pd_bytes e) len.

Lemma slot_hit_matches e path :
  length (pd_bytes e) = PATH_DENY_KEY_BYTES → slot_hit e path = matches e path.
Proof.
  intros Hb. unfold slot_hit.
  destruct (decide (1 ≤ pd_len e ≤ 32)) as [Hl|Hl].
  - rewrite (bool_decide_eq_true_2 (0 < _)%nat) by lia.
    rewrite bool_decide_eq_true_2 by (unfold PATH_DENY_KEY_BYTES; lia). simpl.
    rewrite path_starts_with_spec by (unfold PATH_DENY_KEY_BYTES in *; lia).
    symmetry. apply matches_starts_with. by split.
  - unfold matches. unfold PATH_DENY_KEY_BYTES in *.
    repeat case_bool_decide; simpl; try done; lia.
Qed.

Section proofs.
Context {ML MC MH MV R : Type}.
Context `{HL : ArrayMap PathDenyEntry ML, HC : ArrayMap Z MC, HH : HashMap Z MH, HV : ArrayMap Z MV}.
Context `{HR : RingBuf ExecEvent R}.
Context `{!ArrayMapLaws PathDenyEntry ML PATH_DENY_MAX_ENTRIES, !ArrayMapLaws Z MC 1}.
Context `{!RingBufLaws ExecEvent R}.
Abbreviation dmaps := (PathDenyMaps ML MC).
Implicit Types (d : PathDenyMaps ML MC) (m : LsmMaps ML MC MH MV R).

(** The list the hook scans: the slots below the capped count. *)
Definition active_entries d : list PathDenyEntry :=
  omap (λ k, am_get (pdm_list d) (Z.of_nat k)) (seq 0 (Z.to_nat (deny_count d))).

(** The scanned slots hold values of the array type [[u8; 32]]. *)
Definition array_typed (e : PathDenyEntry) : Prop := length (pd_bytes e) = PATH_DENY_KEY_BYTES.
Definition deny_typed d : Prop := Forall array_typed (active_entries d).

Lemma deny_count_le d : deny_count d ≤ PATH_DENY_MAX_ENTRIES.
Proof. unfold deny_count. case_match; [case_bool_decide; lia|done]. Qed.

Lemma deny_scan_spec fuel i count d path :
  deny_scan fuel i count d path = true ↔
  ∃ k e, i ≤ k < count ∧ k < i + Z.of_nat fuel ∧
    am_get (pdm_list d) k = Some e ∧ slot_hit e path = true.
Proof.
  revert i. induction fuel as [|fuel IH]; intros i; simpl.
  { split; [done|]. intros (k & e & ? & ? & _). lia. }
  case_bool_decide as Hc.
  { split; [done|]. intros (k & e & ? & ? & _). lia. }
  destruct (am_get (pdm_list d) i) as [e|] eqn:Hi.
  - change (bool_decide _ && bool_decide _ && path_starts_with _ _ _) with (slot_hit e path).
    destruct (slot_hit e path) eqn:He.
    + split; [|done]. intros _. exists i, e. repeat split; try done; lia.
    + rewrite IH. split; intros (k & e' & ? & ? & Hk & Hh); exists k, e';
        (split; [|split; [|done]]); try lia; assert (k ≠ i) by congruence; lia.
  - rewrite IH. split; intros (k & e' & ? & ? & Hk & Hh); exists k, e';
      (split; [|split; [|done]]); try lia; assert (k ≠ i) by congruence; lia.
Qed.

Lemma blacklisted_iff d path :
  is_blacklisted_path d path = true ↔
  ∃ k e, 0 ≤ k < deny_count d ∧ am_get (pdm_list d) k = Some e ∧ slot_hit e path = true.
Proof.
  unfold is_blacklisted_path. rewrite deny_scan_spec.
  pose proof (deny_count_le d). unfold PATH_DENY_MAX_ENTRIES in *.
  split; intros (k & e & ?); exists k, e; naive_solver lia.
Qed.

Lemma elem_of_active d e :
  e ∈ active_entries d ↔ ∃ k, 0 ≤ k < deny_count d ∧ am_get (pdm_list d) k = Some e.
Proof.
  unfold active_entries. rewrite list_elem_of_omap. split.
  - intros (k & Hk & He). apply elem_of_seq in Hk. exists (Z.of_nat k). split; [lia|done].
  - intros (k & Hk & He). exists (Z.to_nat k). rewrite elem_of_seq, Z2Nat.id by lia.
    split; [lia|done].
Qed.

(** The kernel scan and the user-space matcher agree on the active entries. *)
Lemma is_blacklisted_active d path :
  deny_typed d → is_blacklisted_path d path = map_backed_is_blacklisted path (active_entries d).
Proof.
  intros Ht. apply eq_bool_prop_intro. rewrite !Is_true_true.
  unfold map_backed_is_blacklisted. rewrite blacklisted_iff, existsb_exists_elem.
  unfold deny_typed in Ht. rewrite Forall_forall in Ht. split.
  - intros (k & e & Hk & He & Hh). exists e.
    assert (e ∈ active_entries d) as Ha by (apply elem_of_active; eauto).
    rewrite slot_hit_matches in Hh by (by apply Ht). eauto.
  - intros (e & Ha & Hh). pose proof (Ht _ Ha).
    apply elem_of_active in Ha as (k & Hk & He). exists k, e.
    rewrite slot_hit_matches by done. eauto.
Qed.

(** ** Decisions *)

Lemma scope_test prefix :
  path_starts_with prefix IDENTITY_EXCEPTION_SCOPE_PREFIX
    (length IDENTITY_EXCEPTION_SCOPE_PREFIX) =
  starts_with prefix IDENTITY_EXCEPTION_SCOPE_PREFIX.
Proof. rewrite path_starts_with_spec; [done|vm_compute; lia|done]. Qed.

Lemma identity_exception_iff env m :
  identity_exception_allows env m = true ↔
  am_get (lm_valid m) 0 = Some IDENTITY_EXCEPTIONS_VALID_FRESH ∧
  hm_get (lm_allow m) (current_cgroup_id env) = Some IDENTITY_ALLOW_VALUE.
Proof.
  unfold identity_exception_allows.
  destruct (am_get (lm_valid m) 0) as [v|]; [|naive_solver].
  case_bool_decide; simpl; [|naive_solver].
  destruct (hm_get _ _) as [a|]; [|naive_solver].
  rewrite bool_decide_eq_true. naive_solver.
Qed.

(** The three outcomes of the hook on a readable path. *)
Lemma hook_cases env off m :
  nm_lsm_bprm env off m =
  match read_bprm_path_prefix env off with
  | inr _ => (m, LSM_DENY)
  | inl prefix =>
      if negb (is_blacklisted_path (lm_deny m) prefix) then (m, LSM_ALLOW)
      else if starts_with prefix IDENTITY_EXCEPTION_SCOPE_PREFIX
              && identity_exception_allows env m
      then (m, LSM_ALLOW)
      else (emit_blocked_exec_event env off m, LSM_DENY)
  end.
Proof.
  unfold nm_lsm_bprm, try_nm_lsm_bprm.
  destruct (read_bprm_path_prefix env off) as [prefix|]; [|done].
  rewrite scope_test. repeat case_match; simplify_eq; done.
Qed.

(** C3: the LSM program allows an execution exactly when the path bytes were
    read and either no active deny entry matches, or the path lies under
    [/tmp/], the validity flag is fresh and the task's cgroup is allowed; in
    every other case it returns the denial code. *)
Theorem lsm_allow_iff env off m :
  ((nm_lsm_bprm env off m).2 = LSM_ALLOW ↔
   ∃ prefix, read_bprm_path_prefix env off = inl prefix ∧
     (is_blacklisted_path (lm_deny m) prefix = false ∨
      (starts_with prefix (lit "/tmp/") = true ∧
       am_get (lm_valid m) 0 = Some IDENTITY_EXCEPTIONS_VALID_FRESH ∧
       hm_get (lm_allow m) (current_cgroup_id env) = Some IDENTITY_ALLOW_VALUE))) ∧
  ((nm_lsm_bprm env off m).2 = LSM_ALLOW ∨ (nm_lsm_bprm env off m).2 = LSM_DENY).
Proof.
  rewrite hook_cases. setoid_rewrite <- identity_exception_iff.
  change (lit "/tmp/") with IDENTITY_EXCEPTION_SCOPE_PREFIX.
  destruct (read_bprm_path_prefix env off) as [prefix|e]; [|by naive_solver].
  destruct (is_blacklisted_path _ _) eqn:Hb; simpl; [|by naive_solver].
  destruct (_ && _) eqn:Hs; simpl.
  - apply andb_true_iff in Hs. naive_solver.
  - apply andb_false_iff in Hs. split; [|by right]. split; [done|].
    intros (p & [= <-] & [?|[? ?]]); naive_solver congruence.
Qed.

(** C23: whenever the helper that reads the filename pointer out of the [linux_binprm], or
    the one that reads the path bytes behind it, reports an error, the program denies, emits
    nothing and leaves every map as it was. *)
Theorem lsm_fail_closed env off m :
  let field := wrapping_add 64 (env_bprm env) (BPRM_FILENAME_OFFSET off) in
  (∃ e, probe_read_ptr env field = inr e) ∨
  (∃ p e, probe_read_ptr env field = inl p ∧ probe_read_prefix env p = inr e) →
  nm_lsm_bprm env off m = (m, LSM_DENY).
Proof.
  intros field He. rewrite hook_cases. unfold read_bprm_path_prefix, read_bprm_filename_ptr, ptr_add. fold field.
  destruct He as [[e ->]|(p & e & -> & ->)]; done.
Qed.

(** A blacklisted path outside [/tmp/] is denied whatever the validity flag
    and the cgroup allow map hold: identity exceptions never cover it. *)
Theorem lsm_exception_scope env off d prefix :
  read_bprm_path_prefix env off = inl prefix →
  is_blacklisted_path d prefix = true →
  starts_with prefix (lit "/tmp/") = false →
  ∀ (allow : MH) (valid : MV) stats (ring : R),
    (nm_lsm_bprm env off (mkLsmMaps d allow valid stats ring)).2 = LSM_DENY.
Proof.
  intros Hp Hb Hs allow valid stats ring. rewrite hook_cases, Hp. simpl. rewrite Hb. simpl.
  change (lit "/tmp/") with IDENTITY_EXCEPTION_SCOPE_PREFIX in Hs. by rewrite Hs.
Qed.

(** The result of the two probes as [lsm_decision.rs] names it. *)
Definition capture_of (env : LsmEnv) (off : LsmOffsets) : PathCapture :=
  match read_bprm_filename_ptr env off with
  | inr _ => FilenamePointerUnreadable
  | inl p => match probe_read_prefix env p with
             | inr _ => PathBytesUnreadable
             | inl prefix => CaptureOk prefix
             end
  end.

(** C24: without an identity exception the LSM program decides exactly as its
    user-space statement [decision_from_path_capture] does on the active deny
    entries, probe failures included. *)
Theorem lsm_matches_user_space_contract env off m :
  deny_typed (lm_deny m) → identity_exception_allows env m = false →
  (nm_lsm_bprm env off m).2 =
  decision_from_path_capture (capture_of env off) (active_entries (lm_deny m)).
Proof.
  intros Ht Hx. rewrite hook_cases. unfold capture_of, read_bprm_path_prefix.
  destruct (read_bprm_filename_ptr env off) as [p|]; [|done].
  destruct (probe_read_prefix env p) as [prefix|]; [|done]. simpl.
  rewrite Hx, andb_false_r, (is_blacklisted_active (lm_deny m)) by done.
  by destruct (map_backed_is_blacklisted _ _).
Qed.

(** ** Telemetry of a denial *)

Definition env_typed (env : LsmEnv) : Prop :=
  0 ≤ current_pid_tgid env ∧ 0 ≤ current_uid_gid env ∧ uint 64 (ktime_ns env) ∧
  (∀ p v, probe_read_u32 env p = inl v → uint 32 v) ∧
  (∀ c, current_comm env = inl c → length c = MAX_COMM_LEN ∧ Forall is_byte c) ∧
  (∀ p n s, probe_read_str env p n = inl s → (length s ≤ n)%nat ∧ Forall is_byte s).

(** What any branch of the event construction leaves in the header. *)
Lemma blocked_exec_event_header env off :
  is_valid (blocked_exec_event env off) = true ∧
  ee_enforcement_action (blocked_exec_event env off) = ENFORCEMENT_BLOCKED ∧
  ee_timestamp_ns (blocked_exec_event env off) = ktime_ns env.
Proof.
  unfold blocked_exec_event, populate_lineage, read_ppid_best_effort, mark_filename_unknown.
  repeat case_match; simplify_eq; by split_and!.
Qed.

(** C25: a denial changes no policy map. When the path was read it leaves exactly one
    trace: a reserved slot gets one more record and the processed counter goes up
    by one (saturating), or, when the ring buffer is full, the loss counter does; the
    record is one user space accepts and is marked as blocked. When the path could not be
    read it leaves no trace. *)
Theorem lsm_denial_recorded env off m :
  (nm_lsm_bprm env off m).2 = LSM_DENY →
  let m' := (nm_lsm_bprm env off m).1 in
  lm_deny m' = lm_deny m ∧ lm_allow m' = lm_allow m ∧ lm_valid m' = lm_valid m ∧
  is_valid (blocked_exec_event env off) = true ∧
  ee_enforcement_action (blocked_exec_event env off) = ENFORCEMENT_BLOCKED ∧
  match read_bprm_path_prefix env off with
  | inr _ => m' = m
  | inl _ =>
      if rb_reserve (lm_ring m) then
        rb_events (lm_ring m') = rb_events (lm_ring m) ++ [blocked_exec_event env off] ∧
        lm_stats m' !! 0%nat =
          (λ s, {| events_processed := saturating_add 64 (events_processed s) 1;
                   lost_events_count := lost_events_count s |}) <$> lm_stats m !! 0%nat
      else
        lm_ring m' = lm_ring m ∧
        lm_stats m' !! 0%nat =
          (λ s, {| events_processed := events_processed s;
                   lost_events_count := saturating_add 64 (lost_events_count s) 1 |})
            <$> lm_stats m !! 0%nat
  end.
Proof.
  intros Hd. rewrite hook_cases in Hd |- *.
  destruct (blocked_exec_event_header env off) as (Hv & Ha & _).
  destruct (read_bprm_path_prefix env off) as [prefix|e]; [|done].
  destruct (negb _); [done|]. destruct (_ && _); [done|]. simpl.
  unfold emit_blocked_exec_event. destruct (rb_reserve (lm_ring m)); simpl.
  - split_and!; try done; [apply rb_submit_events|by rewrite list_lookup_alter_eq].
  - split_and!; try done. by rewrite list_lookup_alter_eq.
Qed.
End proofs.

(** ** The record is well typed *)
Lemma typed_raise_status bit e : uint 16 bit → event_typed e → event_typed (raise_status bit e).
Proof.
  intros. apply typed_set_capture_status; [|done].
  apply lor_uint; [lia|by apply typed_status|done].
Qed.

(** The sentinel fits every buffer it is written to. *)
Lemma mark_unknown_spec buf status bit out status' n :
  mark_unknown buf status bit = (out, status') →
  length buf = n → (7 ≤ n)%nat → Forall is_byte buf → uint 16 status → uint 16 bit →
  length out = n ∧ Forall is_byte out ∧ uint 16 status'.
Proof.
  unfold mark_unknown. intros [= <- <-] <- Hn Hb Hs Hbit.
  assert (length UNKNOWN_SENTINEL = 7%nat) as H7 by done. split; [|split].
  - rewrite length_copy_into; [done|]. rewrite length_take. lia.
  - apply Forall_byte_copy_into; [done|]. apply Forall_take, lit_is_byte.
  - apply lor_uint; [lia|done..].
Qed.

Lemma typed_mark_field bit (get : ExecEvent → bytes) (set : bytes → ExecEvent → ExecEvent) e i n buf status :
  event_typed e → exec_event_fields e !! i = Some (FArr n (get e)) → (7 ≤ n)%nat →
  uint 16 bit →
  (∀ v, length v = n → Forall is_byte v → event_typed (set v e)) →
  mark_unknown (get e) (ee_capture_status e) bit = (buf, status) →
  event_typed (set_capture_status status (set buf e)).
Proof.
  intros He Hi Hn Hbit Hset Hm. destruct (typed_arr_field _ _ _ _ He Hi) as [Hl Hb].
  destruct (mark_unknown_spec _ _ _ _ _ n Hm) as (? & ? & ?); try done; [by apply typed_status|].
  apply typed_set_capture_status; [done|]. by apply Hset.
Qed.

Section typed.
Context (env : LsmEnv) (off : LsmOffsets) (Henv : env_typed env).

Lemma read_ppid_typed e :
  event_typed e →
  uint 32 (read_ppid_best_effort env off e).1 ∧ event_typed (read_ppid_best_effort env off e).2.
Proof.
  intros He. destruct Henv as (_ & _ & _ & Hu & _ & _).
  unfold read_ppid_best_effort. repeat case_match; simpl; split; try lia; try done;
    try (by eapply Hu); by apply typed_raise_status.
Qed.

Lemma populate_ids_typed e : event_typed e → event_typed (populate_ids env e).
Proof.
  intros He. apply typed_raise_status; [done|].
  apply typed_set_euid; [by apply as_uint_range|].
  apply typed_set_gid; [by apply as_uint_range|].
  apply typed_set_uid; [by apply as_uint_range|].
  apply typed_set_tgid; [by apply as_uint_range|].
  by apply typed_set_pid; [apply as_uint_range|].
Qed.

Lemma populate_lineage_typed e : event_typed e → event_typed (populate_lineage env off e).
Proof.
  intros He%populate_ids_typed. destruct Henv as (_ & _ & _ & _ & Hc & _).
  unfold populate_lineage. set (e0 := populate_ids env e) in *.
  destruct (mark_unknown _ _ _) as [cid status] eqn:Hm.
  assert (event_typed (set_capture_status status (set_container_id cid e0))) as He1.
  { eapply (typed_mark_field CAPTURE_CONTAINER_ID ee_container_id set_container_id _ 25 64);
      [done|done|lia|done| |exact Hm].
    intros v Hv Hb. by apply typed_set_container_id. }
  destruct (read_ppid_best_effort _ _ _) as [ppid e2] eqn:Hr.
  pose proof (read_ppid_typed _ He1) as [Hp32 He2]. rewrite Hr in Hp32, He2. simpl in *.
  assert (event_typed (set_ppid ppid e2)) as He3 by (by apply typed_set_ppid).
  destruct (current_comm env) as [c|] eqn:Hcomm.
  - destruct (Hc c eq_refl) as [Hl Hb].
    destruct (typed_arr_field _ 12 16 (ee_comm e2) He3 eq_refl) as [Hl3 Hb3].
    apply typed_set_comm; [| |done].
    + rewrite length_copy_into; [done|]. rewrite length_take. unfold MAX_COMM_LEN in *. lia.
    + apply Forall_byte_copy_into; [done|]. by apply Forall_take.
  - eapply (typed_mark_field CAPTURE_COMM ee_comm set_comm (set_ppid ppid e2) 12 16);
      [done|done|lia|done| |reflexivity].
    intros v Hv Hb. by apply typed_set_comm.
Qed.

Lemma mark_filename_typed e : event_typed e → event_typed (mark_filename_unknown e).
Proof.
  intros He. unfold mark_filename_unknown. destruct (mark_unknown _ _ _) as [n st] eqn:Hm.
  eapply (typed_mark_field CAPTURE_FILENAME ee_filename set_filename _ 13 256);
    [done|done|lia|done| |exact Hm].
  intros v Hv Hb. by apply typed_set_filename.
Qed.

Lemma blocked_exec_event_typed : event_typed (blocked_exec_event env off).
Proof.
  unfold blocked_exec_event. destruct Henv as (_ & _ & Ht & _ & _ & Hs).
  apply typed_set_schema_version; [done|]. apply typed_set_timestamp_ns; [done|].
  apply typed_raise_status; [done|]. apply typed_set_namespace_id; [done|].
  set (e := set_filename _ _).
  assert (event_typed e) as He.
  { apply typed_set_filename; [by rewrite length_zeroed|apply Forall_byte_zeroed|].
    apply populate_lineage_typed. by apply (bool_decide_eq_true_1 (event_typed _)). }
  destruct (read_bprm_filename_ptr env off) as [p|]; [|by apply mark_filename_typed].
  destruct (probe_read_str env p _) as [s|] eqn:Hp; [|by apply mark_filename_typed].
  destruct (Hs _ _ _ Hp) as [Hl Hb].
  apply typed_set_filename; [| |done].
  - assert (length (ee_filename e) = 256%nat) as Hn by done.
    rewrite length_copy_into; rewrite Hn; done.
  - apply Forall_byte_copy_into; [|done]. apply Forall_byte_zeroed.
Qed.
End typed.

(** ** Concrete invocations *)

(** The first 32 bytes of a filename followed by zeros. *)
Definition prefix_of_path (path : bytes) : bytes := take PATH_PREFIX_LEN (path ++ zeroed PATH_PREFIX_LEN).

(** A task of cgroup [cg] executing [path], with [linux_binprm] at 4096, its
    [filename] at offset 96, and a parent whose tgid is 77. *)
Definition demo_env (path : bytes) (cg : Z) : LsmEnv :=
  {| env_bprm := 4096;
     probe_read_ptr := λ a, if bool_decide (a = 4192) then inl 8192
                            else if bool_decide (a = 9008) then inl 16384 else inr (-14);
     probe_read_u32 := λ a, if bool_decide (a = 16400) then inl 77 else inr (-14);
     probe_read_prefix := λ a, if bool_decide (a = 8192) then inl (prefix_of_path path) else inr (-14);
     probe_read_str := λ a n, if bool_decide (a = 8192) then inl (take n (map (λ b, b mod 256) path)) else inr (-14);
     current_pid_tgid := Z.shiftl 4242 32 + 4243;
     current_uid_gid := Z.shiftl 1000 32 + 1000;
     current_task := 9000;
     current_comm := inl (copy_into (zeroed MAX_COMM_LEN) (lit "payload"));
     current_cgroup_id := cg;
     ktime_ns := 123456789 |}.
Definition demo_offsets : LsmOffsets :=
  {| BPRM_FILENAME_OFFSET := 96; TASK_REAL_PARENT_OFFSET := 8; TASK_TGID_OFFSET := 16 |}.

(** Maps after the bootstrap, with cgroup 42 allowed and the flag [valid]. *)
Definition demo_maps (valid : Z) :
  LsmMaps (sim_array PathDenyEntry 64) (sim_array Z 1) (sim_hash Z) (sim_array Z 1)
    (sim_ring ExecEvent) :=
  mkLsmMaps
    (bootstrap_deny_maps 0
       (mkPathDenyMaps (sim_array_new 64 PathDenyEntry_default []) (sim_array_new 1 0 []))).1
    (mkSimHash {[ 42 := IDENTITY_ALLOW_VALUE ]} 16384 [])
    (mkSimArray 0 {[ 0 := valid ]} [])
    [mkTelemetryHealthStats 0 0] (mkSimRing [] 16).

Lemma demo_deny_typed valid : deny_typed (lm_deny (demo_maps valid)).
Proof.
  unfold deny_typed. apply (Forall_impl wf_entry); [|by intros e [_ ?]].
  apply (bool_decide_eq_true_1 (Forall wf_entry _)). by vm_compute.
Qed.

Lemma lsm_fail_closed_witness :
  nm_lsm_bprm (demo_env (lit "/usr/bin/id") 1) (mkLsmOffsets 97 8 16) (demo_maps 1) =
  (demo_maps 1, LSM_DENY).
Proof. apply lsm_fail_closed. left. exists (-14). vm_compute. reflexivity. Defined.

Lemma lsm_exception_scope_witness :
  (nm_lsm_bprm (demo_env (lit "/dev/shm/x") 42) demo_offsets (demo_maps 1)).2 = LSM_DENY.
Proof.
  apply (lsm_exception_scope _ _ _ (prefix_of_path (lit "/dev/shm/x"))); vm_compute; reflexivity.
Defined.

Lemma lsm_matches_user_space_contract_witness :
  (nm_lsm_bprm (demo_env (lit "/tmp/x") 42) demo_offsets (demo_maps 0)).2 = LSM_DENY.
Proof.
  rewrite lsm_matches_user_space_contract.
  - vm_compute. reflexivity.
  - apply demo_deny_typed.
  - vm_compute. reflexivity.
Defined.

Lemma lsm_denial_recorded_witness :
  rb_events (lm_ring (nm_lsm_bprm (demo_env (lit "/tmp/x") 7) demo_offsets (demo_maps 1)).1) =
  [blocked_exec_event (demo_env (lit "/tmp/x") 7) demo_offsets].
Proof.
  destruct (lsm_denial_recorded (demo_env (lit "/tmp/x") 7) demo_offsets (demo_maps 1)) as (_ & _ & _ & _ & _ & H).
  - vm_compute. reflexivity.
  - apply H.
Defined.
