(* ===== verification/DenyRefine.v ===== *)
(** * The deny-list writer against the LSM reader

    [path_deny.rs::apply_deny_entries] rewrites the two arrays slot by slot
    while [nm_lsm_bprm] may run between any two updates. This file relates the
    two sides: what the hook scans after a successful call, and what it scans
    at every point in between, whichever update failed. *)

From S2P Require Import Prelude RustStd Common Bpf PathDeny LsmHook.

Section refine.
Context {ML MC : Type}.
Context `{HL : ArrayMap PathDenyEntry ML, HC : ArrayMap Z MC}.
Context `{!ArrayMapLaws PathDenyEntry ML PATH_DENY_MAX_ENTRIES, !ArrayMapLaws Z MC 1}.
Abbreviation dmaps := (PathDenyMaps ML MC).
Implicit Types (d m : PathDenyMaps ML MC) (es : list PathDenyEntry).

Abbreviation slot d i := (am_get (pdm_list d) i).
Abbreviation cnt d := (am_get (pdm_count d) 0).

(** ** Single updates *)
Lemma list_set_ok i e m m' :
  list_set i e m = (m', Ok ()) →
  0 ≤ i < PATH_DENY_MAX_ENTRIES ∧ slot m' i = Some e ∧
  (∀ j, j ≠ i → slot m' j = slot m j) ∧ cnt m' = cnt m.
Proof.
  unfold list_set. destruct (am_set (pdm_list m) i e) as [l []] eqn:E; [|done].
  intros [= <-]. simpl. split; [by eapply am_set_range|]. split_and!; try done.
  - by eapply am_set_same.
  - intros. by eapply am_set_other.
Qed.

Lemma list_set_err i e m m' err :
  list_set i e m = (m', Err err) → (∀ j, slot m' j = slot m j) ∧ cnt m' = cnt m.
Proof.
  unfold list_set. destruct (am_set (pdm_list m) i e) as [l []] eqn:E; [done|].
  intros [= <- _]. simpl. split; [|done]. intros. by eapply am_set_fail.
Qed.

Lemma count_set_ok c m m' :
  count_set 0 c m = (m', Ok ()) → (∀ j, slot m' j = slot m j) ∧ cnt m' = Some c.
Proof.
  unfold count_set. destruct (am_set (pdm_count m) 0 c) as [k []] eqn:E; [|done].
  intros [= <-]. simpl. split; [done|]. by eapply am_set_same.
Qed.

Lemma count_set_err c m m' err :
  count_set 0 c m = (m', Err err) → (∀ j, slot m' j = slot m j) ∧ cnt m' = cnt m.
Proof.
  unfold count_set. destruct (am_set (pdm_count m) 0 c) as [k []] eqn:E; [done|].
  intros [= <- _]. simpl. split; [done|]. by eapply am_set_fail.
Qed.

Lemma st_context_Ok {S A} c (f : stm S A) s s' a :
  st_context c f s = (s', Ok a) ↔ f s = (s', Ok a).
Proof. unfold st_context. destruct (f s) as [? []]; naive_solver. Qed.

Lemma st_context_Err {S A} c (f : stm S A) s s' e :
  st_context c f s = (s', Err e) → ∃ e', f s = (s', Err e').
Proof. unfold st_context. destruct (f s) as [? []]; naive_solver. Qed.

(** A failed update, of whatever kind, leaves both arrays as they were. *)
Lemma run_op_err op m m' e :
  run_op op m = (m', Err e) → (∀ j, slot m' j = slot m j) ∧ cnt m' = cnt m.
Proof.
  destruct op as [i en|c|i]; simpl.
  - case_match; [by intros [= <- _]|]. intros [e' Hx]%st_context_Err. by eapply list_set_err.
  - intros [e' Hx]%st_context_Err. by eapply count_set_err.
  - intros [e' Hx]%st_context_Err. by eapply list_set_err.
Qed.

(** ** Positions in the update sequence *)
Section one_call.
Context (es : list PathDenyEntry) (old : Z → option PathDenyEntry) (old_count : option Z).
Context (Hes : Z.of_nat (length es) ≤ PATH_DENY_MAX_ENTRIES).
Abbreviation n := (length es).

Lemma small_index i : (i ≤ n)%nat → as_uint 32 (Z.of_nat i) = Z.of_nat i.
Proof.
  intros. apply as_uint_small. unfold PATH_DENY_MAX_ENTRIES in Hes.
  change (2 ^ 32) with 4294967296. lia.
Qed.

(** The [k]-th update: the entries, the count, then the clears. *)
Lemma deny_ops_lookup k op :
  deny_ops es !! k = Some op →
  (∃ e, (k < n)%nat ∧ es !! k = Some e ∧ op = WEntry k e) ∨
  (k = n ∧ op = WCount (Z.of_nat n)) ∨
  ((n < k)%nat ∧ ∃ i, op = WClear i ∧ Z.of_nat n ≤ i < PATH_DENY_MAX_ENTRIES).
Proof.
  unfold deny_ops. rewrite small_index by lia. unfold enumerate.
  rewrite lookup_app_Some, lookup_app_Some, length_map, length_zip, length_seq.
  rewrite Nat.min_id. intros [Hk|[Hk [Hc|[Hk2 Hc]]]].
  - left. rewrite list_lookup_fmap in Hk. apply fmap_Some in Hk as ([i e] & Hz & ->).
    apply lookup_zip_Some in Hz as [Hs He]. apply lookup_seq in Hs as [-> Hlt].
    by exists e.
  - right; left. apply list_lookup_singleton_Some in Hc as [? <-]. split; [lia|done].
  - right; right. simpl in Hk2. split; [lia|].
    rewrite list_lookup_fmap in Hc. apply fmap_Some in Hc as (i & Hi & ->).
    exists i. split; [done|]. unfold u32_range in Hi.
    rewrite list_lookup_fmap in Hi. apply fmap_Some in Hi as (? & Hs & ->).
    apply lookup_seq in Hs. lia.
Qed.

(** What the arrays hold after [k] successful updates. *)
Definition written (k : nat) (m : dmaps) : Prop :=
  ((k ≤ n)%nat →
     (∀ j, 0 ≤ j < Z.of_nat k → slot m j = es !! Z.to_nat j) ∧
     (∀ j, Z.of_nat k ≤ j → slot m j = old j) ∧ cnt m = old_count) ∧
  ((n < k)%nat →
     (∀ j, 0 ≤ j < Z.of_nat n → slot m j = es !! Z.to_nat j) ∧ cnt m = Some (Z.of_nat n)).

Lemma written_ext k m m' :
  (∀ j, slot m' j = slot m j) → cnt m' = cnt m → written k m → written k m'.
Proof.
  intros Hs Hc [H1 H2]. split; intros Hk.
  - destruct (H1 Hk) as (? & ? & ?). split_and!; intros; rewrite ?Hs, ?Hc; auto.
  - destruct (H2 Hk) as (? & ?). split_and!; intros; rewrite ?Hs, ?Hc; auto.
Qed.

Lemma written_step k op m m' :
  deny_ops es !! k = Some op → run_op op m = (m', Ok ()) → written k m → written (S k) m'.
Proof.
  intros Hop Hrun [H1 H2].
  destruct (deny_ops_lookup _ _ Hop) as [(e & Hk & He & ->)|[(-> & ->)|(Hk & i & -> & Hi)]];
    simpl in Hrun.
  - destruct (H1 ltac:(lia)) as (Ha & Hb & Hc). case_match; [done|].
    apply st_context_Ok, list_set_ok in Hrun as (_ & Hs & Ho & Hcnt).
    rewrite small_index in Hs, Ho by lia.
    split; [|lia]. intros Hk'. split_and!; [..|congruence].
    + intros j Hj. destruct (decide (j = Z.of_nat k)) as [->|].
      * by rewrite Hs, Nat2Z.id.
      * rewrite Ho by done. apply Ha. lia.
    + intros j Hj. rewrite Ho by lia. apply Hb. lia.
  - destruct (H1 ltac:(lia)) as (Ha & Hb & Hc).
    apply st_context_Ok, count_set_ok in Hrun as [Hs Hcnt].
    split; [lia|]. intros _. split; [|done]. intros j Hj. rewrite Hs. by apply Ha.
  - destruct (H2 ltac:(lia)) as (Ha & Hc).
    apply st_context_Ok, list_set_ok in Hrun as (_ & _ & Ho & Hcnt).
    split; [lia|]. intros _. split; [|congruence].
    intros j Hj. rewrite Ho by lia. by apply Ha.
Qed.

(** Every state between two updates, and every state a failure leaves. *)
Lemma reach_written k m rest m' :
  written k m → rtc writer_step (drop k (deny_ops es), m) (rest, m') →
  ∃ k', written k' m'.
Proof.
  intros Hw Hr. remember (drop k (deny_ops es), m) as s eqn:Hs.
  remember (rest, m') as s' eqn:Hs'. revert k m Hs Hw Hs'.
  induction Hr as [s|s1 s2 s3 Hstep Hr IH]; intros k m -> Hw Hs'.
  { injection Hs' as _ <-. eauto. }
  inversion Hstep as [op ops ? m2 Hrun Hd|op ops ? m2 e Hrun Hd]; subst.
  - assert (deny_ops es !! k = Some op) as Hop.
    { rewrite <- (Nat.add_0_r k), <- lookup_drop. by rewrite <- Hd. }
    apply (IH (S k) m2); [|by eapply written_step|done].
    f_equal. rewrite (drop_S _ _ _ Hop) in Hd. by injection Hd.
  - destruct (run_op_err _ _ _ _ Hrun) as [H1 H2].
    inversion Hr as [|? ? ? Hbad _]; subst; [|by inversion Hbad].
    exists k. by eapply written_ext.
Qed.

(** A whole successful run ends after the last update. *)
Lemma run_written k m m' :
  (k ≤ length (deny_ops es))%nat → written k m →
  for_each run_op (drop k (deny_ops es)) m = (m', Ok ()) →
  written (length (deny_ops es)) m'.
Proof.
  remember (length (deny_ops es) - k)%nat as r eqn:Hr. revert k m Hr.
  induction r as [|r IH]; intros k m Hr Hk Hw.
  - replace k with (length (deny_ops es)) in * by lia. rewrite drop_all. by intros [= <-].
  - destruct (deny_ops es !! k) as [op|] eqn:Hop; [|apply lookup_ge_None in Hop; lia].
    rewrite (drop_S _ _ _ Hop). simpl. rewrite stm_bind_run.
    destruct (run_op op m) as [m1 [[]|]] eqn:Hrun; [|done].
    apply IH; [lia|lia|by eapply written_step].
Qed.

Lemma length_deny_ops : (n < length (deny_ops es))%nat.
Proof.
  unfold deny_ops, enumerate. rewrite !length_app, length_map, length_zip, length_seq. simpl. lia.
Qed.
End one_call.

Lemma written_start es m : written es (λ j, slot m j) (cnt m) 0 m.
Proof. split; intros; [|lia]. split_and!; intros; [lia|done|done]. Qed.

(** A call that succeeds wrote at most 64 entries: index 64 has no slot. *)
Lemma apply_ok_length es m m' :
  apply_deny_entries es m = (m', Ok ()) →
  es ≠ [] ∧ Z.of_nat (length es) ≤ PATH_DENY_MAX_ENTRIES.
Proof.
  unfold apply_deny_entries. case_bool_decide as Hne; [done|].
  case_bool_decide; [done|]. rewrite stm_bind_run.
  destruct (for_each write_entry _ m) as [m1 [[]|]] eqn:Hw; [|done]. intros _.
  split; [done|]. destruct (decide (Z.of_nat (length es) ≤ PATH_DENY_MAX_ENTRIES)); [done|].
  exfalso. unfold PATH_DENY_MAX_ENTRIES in *.
  destruct (lookup_lt_is_Some_2 es 64) as [e He]; [lia|].
  assert ((64%nat, e) ∈ enumerate es) as Hin.
  { apply list_elem_of_lookup. exists 64%nat. apply lookup_zip_Some.
    split; [|done]. apply lookup_seq. lia. }
  destruct (for_each_Ok_elem _ _ _ _ _ Hw Hin) as (s1 & s2 & Hx).
  simpl in Hx. case_match; [done|].
  apply st_context_Ok, list_set_ok in Hx as [Hx _].
  change (as_uint 32 (Z.of_nat 64)) with 64 in Hx. unfold PATH_DENY_MAX_ENTRIES in Hx. lia.
Qed.

Lemma apply_ok_written es m m' :
  apply_deny_entries es m = (m', Ok ()) →
  (∀ j, 0 ≤ j < Z.of_nat (length es) → slot m' j = es !! Z.to_nat j) ∧
  cnt m' = Some (Z.of_nat (length es)).
Proof.
  intros Hok. destruct (apply_ok_length _ _ _ Hok) as [Hne Hlen].
  rewrite apply_deny_entries_ops in Hok; [|done|].
  - pose proof (run_written es _ _ Hlen 0 m m' ltac:(lia) (written_start es m) Hok) as [_ H].
    apply H, length_deny_ops.
  - rewrite (small_index es) by (done || lia). done.
Qed.

Lemma omap_seq_lookup {A} (f : nat → option A) (l : list A) s :
  (∀ k, (k < length l)%nat → f (s + k)%nat = l !! k) → omap f (seq s (length l)) = l.
Proof.
  revert s. induction l as [|x l IH]; intros s Hf; [done|].
  cbn [length seq]. simpl. pose proof (Hf 0%nat ltac:(simpl; lia)) as H0.
  rewrite Nat.add_0_r in H0. rewrite H0. simpl. f_equal. apply IH.
  intros k Hk. rewrite Nat.add_succ_comm. apply (Hf (S k)). simpl. lia.
Qed.

(** The hook scans exactly the entries of a successful call. *)
Lemma apply_ok_active es m m' :
  apply_deny_entries es m = (m', Ok ()) → active_entries m' = es.
Proof.
  intros Hok. destruct (apply_ok_length _ _ _ Hok) as [_ Hlen].
  destruct (apply_ok_written _ _ _ Hok) as [Hs Hc].
  assert (deny_count m' = Z.of_nat (length es)) as Hd.
  { unfold deny_count. rewrite Hc. case_bool_decide; lia. }
  unfold active_entries. rewrite Hd, Nat2Z.id. apply omap_seq_lookup.
  intros k Hk. rewrite Hs by lia. by rewrite Nat2Z.id.
Qed.

Lemma apply_ok_hook es m m' path :
  Forall array_typed es → apply_deny_entries es m = (m', Ok ()) →
  is_blacklisted_path m' path = map_backed_is_blacklisted path es.
Proof.
  intros Ht Hok. pose proof (apply_ok_active _ _ _ Hok) as Ha.
  rewrite is_blacklisted_active; [by rewrite Ha|]. unfold deny_typed. by rewrite Ha.
Qed.

Lemma wf_array_typed es : Forall wf_entry es → Forall array_typed es.
Proof. intros Hw. eapply Forall_impl; [exact Hw|]. by intros e [_ ?]. Qed.

(** The state of a call at any point: [k] updates in. *)
Lemma reach_state es m rest m' :
  Z.of_nat (length es) ≤ PATH_DENY_MAX_ENTRIES →
  rtc writer_step (deny_ops es, m) (rest, m') →
  ∃ k, written es (λ j, slot m j) (cnt m) k m'.
Proof.
  intros Hlen Hr. eapply (reach_written es _ _ Hlen 0 m); [apply written_start|].
  by rewrite drop_0.
Qed.

(** ** Properties *)

(** C5: when a list of prefixes has been turned into entries and applied, the
    LSM scan denies exactly the paths that begin with one of the prefixes,
    whatever the arrays held before. *)
Theorem applied_prefixes_enforced err ps es m m' :
  try_map (λ p, ok_or err (from_prefix p)) ps = Ok es →
  apply_deny_entries es m = (m', Ok ()) →
  ∀ path, is_blacklisted_path m' path = existsb (starts_with path) ps.
Proof.
  intros Hps Hok path. destruct (try_map_from_prefix _ _ _ Hps) as [Hw Hm].
  rewrite <- Hm. eapply apply_ok_hook; [by apply wf_array_typed|done].
Qed.

(** After the bootstrap the LSM program enforces exactly the historical
    hardcoded rule ([/tmp/], [/dev/shm/], [/var/tmp/]), and the recorded policy
    state is the fresh bootstrap one. *)
Theorem bootstrap_enforces_legacy now m m' s :
  bootstrap_deny_maps now m = (m', Ok s) →
  s = ps_fresh now (lit "bootstrap") ∧
  ∀ path, is_blacklisted_path m' path = legacy_hardcoded_is_blacklisted path.
Proof.
  unfold bootstrap_deny_maps. rewrite bootstrap_entries_ok. rewrite !stm_bind_run. simpl.
  rewrite stm_bind_run. destruct (apply_deny_entries bootstrap_list m) as [m1 [[]|]] eqn:Hok;
    [|done].
  intros [= <- <-]. split; [done|]. intros path.
  erewrite apply_ok_hook; [|apply wf_array_typed, bootstrap_list_wf|exact Hok].
  rewrite bootstrap_map_backed. unfold legacy_hardcoded_is_blacklisted.
  rewrite !slice_starts_with_spec. simpl. by rewrite orb_false_r, orb_assoc.
Qed.

(** A call refuses the empty list and a list longer than the map, and then
    leaves the arrays untouched. *)
Theorem apply_refuses_bad_sizes es m :
  es = [] ∨ PATH_DENY_MAX_ENTRIES < as_uint 32 (Z.of_nat (length es)) →
  ∃ e, apply_deny_entries es m = (m, Err e).
Proof.
  unfold apply_deny_entries. intros Hbad.
  case_bool_decide; [eexists; done|]. case_bool_decide; [eexists; done|]. naive_solver.
Qed.

(** With map updates that only fail out of range, no update of the sequence fails. *)
Lemma run_op_total es op m :
  (∀ (l : ML) i e, 0 ≤ i < PATH_DENY_MAX_ENTRIES → (am_set l i e).2 = true) →
  (∀ (c : MC) v, (am_set c 0 v).2 = true) →
  Z.of_nat (length es) ≤ PATH_DENY_MAX_ENTRIES → Forall wf_entry es → op ∈ deny_ops es → (run_op op m).2 = Ok ().
Proof.
  intros Hl Hc Hlen Hwf [k Hk]%list_elem_of_lookup.
  assert (∀ i e (s : dmaps), 0 ≤ i < PATH_DENY_MAX_ENTRIES → (list_set i e s).2 = Ok ()) as Hset.
  { intros i e s Hi. unfold list_set. pose proof (Hl (pdm_list s) i e Hi) as H1.
    destruct (am_set (pdm_list s) i e) as [l []]; done. }
  destruct (deny_ops_lookup es Hlen _ _ Hk)
    as [(e & Hkn & He & ->)|[(-> & ->)|(Hkn & i & -> & Hi)]]; simpl.
  - rewrite Forall_lookup in Hwf. destruct (Hwf _ _ He) as [Hpd _].
    rewrite !bool_decide_eq_false_2 by (unfold PATH_DENY_KEY_BYTES; lia). simpl.
    unfold st_context. rewrite (small_index es Hlen) by lia.
    pose proof (Hset (Z.of_nat k) e m ltac:(lia)) as H1.
    destruct (list_set _ e m) as [s' r]. simpl in H1. by subst r.
  - unfold st_context, count_set. pose proof (Hc (pdm_count m) (Z.of_nat (length es))) as H1.
    destruct (am_set (pdm_count m) 0 _) as [c []]; done.
  - unfold st_context. pose proof (Hset i PathDenyEntry_default m ltac:(lia)) as H1.
    destruct (list_set _ _ m) as [s' r]. simpl in H1. by subst r.
Qed.

(** With such updates, a non-empty list of at most 64 valid entries is applied to the
    end. *)
Theorem apply_succeeds es m :
  (∀ (l : ML) i e, 0 ≤ i < PATH_DENY_MAX_ENTRIES → (am_set l i e).2 = true) →
  (∀ (c : MC) v, (am_set c 0 v).2 = true) →
  es ≠ [] → Z.of_nat (length es) ≤ PATH_DENY_MAX_ENTRIES → Forall wf_entry es →
  ∃ m', apply_deny_entries es m = (m', Ok ()).
Proof.
  intros Hl Hc Hne Hlen Hwf.
  rewrite apply_deny_entries_ops by (done || by rewrite (small_index es) by (done || lia)).
  apply for_each_total. intros op s Hop. by apply (run_op_total es).
Qed.

(** While a list is being rewritten the LSM program never sees an empty
    list: at every point between two updates, and after any failed update, the
    active count is the old one or the new one. *)
Theorem rewrite_never_empty es m rest m' c :
  Z.of_nat (length es) ≤ PATH_DENY_MAX_ENTRIES → es ≠ [] →
  cnt m = Some c → 1 ≤ c ≤ PATH_DENY_MAX_ENTRIES →
  rtc writer_step (deny_ops es, m) (rest, m') →
  1 ≤ deny_count m' ∧ (deny_count m' = c ∨ deny_count m' = Z.of_nat (length es)).
Proof.
  intros Hlen Hne Hc Hr Hsteps.
  destruct (reach_state _ _ _ _ Hlen Hsteps) as [k [H1 H2]].
  assert (length es ≠ 0%nat) by (by destruct es).
  unfold deny_count. destruct (decide (k ≤ length es)%nat) as [Hk|Hk].
  - destruct (H1 Hk) as (_ & _ & ->). rewrite Hc. case_bool_decide; lia.
  - destruct (H2 ltac:(lia)) as (_ & ->). case_bool_decide; lia.
Qed.

(** A path that the old list denies in slot [i] and the new list denies in
    a slot no later than [i] is denied throughout the rewrite: at every point
    between two updates and after any failed one. In particular extending or
    re-applying a list never lets a denied path through. *)
Theorem rewrite_never_weakens es m rest m' c i e j e' path :
  Z.of_nat (length es) ≤ PATH_DENY_MAX_ENTRIES →
  cnt m = Some c → c ≤ PATH_DENY_MAX_ENTRIES →
  slot m (Z.of_nat i) = Some e → Z.of_nat i < c → slot_hit e path = true →
  es !! j = Some e' → (j ≤ i)%nat → slot_hit e' path = true →
  rtc writer_step (deny_ops es, m) (rest, m') →
  is_blacklisted_path m' path = true.
Proof.
  intros Hlen Hc Hcm Hi Hic Hhit Hj Hji Hhit' Hsteps.
  destruct (reach_state _ _ _ _ Hlen Hsteps) as [k [H1 H2]].
  pose proof (lookup_lt_Some _ _ _ Hj) as Hjl. apply blacklisted_iff.
  unfold deny_count. destruct (decide (k ≤ length es)%nat) as [Hk|Hk].
  - destruct (H1 Hk) as (Hnew & Hold & ->). rewrite Hc.
    rewrite bool_decide_eq_false_2 by lia.
    destruct (decide (k ≤ i)%nat).
    + exists (Z.of_nat i), e. split; [lia|]. by rewrite Hold by lia.
    + exists (Z.of_nat j), e'. split; [lia|]. rewrite Hnew by lia. by rewrite Nat2Z.id.
  - destruct (H2 ltac:(lia)) as (Hnew & ->). rewrite bool_decide_eq_false_2 by lia.
    exists (Z.of_nat j), e'. split; [lia|]. rewrite Hnew by lia. by rewrite Nat2Z.id.
Qed.
End refine.

(** ** A concrete run *)
Abbreviation sim_deny := (PathDenyMaps (sim_array PathDenyEntry 64) (sim_array Z 1)).

(** Fresh arrays whose list updates follow the fault schedule [faults]. *)
Definition sim_deny_new (faults : list bool) : sim_deny :=
  mkPathDenyMaps (sim_array_new 64 PathDenyEntry_default faults) (sim_array_new 1 0 []).

Definition entry_of (s : string) : PathDenyEntry :=
  default PathDenyEntry_default (from_prefix (lit s)).

(** The arrays after applying a list to fresh ones. *)
Definition sim_applied (es : list PathDenyEntry) : sim_deny :=
  (apply_deny_entries es (sim_deny_new [])).1.

Definition shm_path : bytes := lit "/dev/shm/payload-0123456789abcde".

(** The guarantee of [rewrite_never_weakens] needs its order condition. With
    [/dev/shm/] the only entry, applying [/aaa/], [/dev/shm/] first overwrites
    slot 0 while the count is still one: a path that the old and the new list
    both deny is let through until the count is written. *)
Theorem rewrite_window :
  ∃ (m : sim_deny) es rest m' path,
    rtc writer_step (deny_ops es, m) (rest, m') ∧
    is_blacklisted_path m path = true ∧
    map_backed_is_blacklisted path es = true ∧
    is_blacklisted_path m' path = false.
Proof.
  set (m := sim_applied [entry_of "/dev/shm/"]).
  set (es := [entry_of "/aaa/"; entry_of "/dev/shm/"]).
  exists m, es, (drop 1 (deny_ops es)), (run_op (WEntry 0 (entry_of "/aaa/")) m).1, shm_path.
  split; [|by vm_compute].
  apply rtc_once. apply (writer_ok (WEntry 0 (entry_of "/aaa/"))).
  apply run_result. by vm_compute.
Qed.

(** ** Witnesses *)
Lemma applied_prefixes_enforced_witness :
  is_blacklisted_path (sim_applied [entry_of "/opt/x/"]) shm_path = false.
Proof.
  unfold sim_applied.
  rewrite (applied_prefixes_enforced (EMsg "e") [lit "/opt/x/"] [entry_of "/opt/x/"]
             (sim_deny_new []) (apply_deny_entries [entry_of "/opt/x/"] (sim_deny_new [])).1).
  - vm_compute. reflexivity.
  - vm_compute. reflexivity.
  - apply run_result. vm_compute. reflexivity.
Defined.

Lemma bootstrap_enforces_legacy_witness :
  is_blacklisted_path (bootstrap_deny_maps 7 (sim_deny_new [])).1 shm_path = true.
Proof.
  edestruct (bootstrap_enforces_legacy 7 (sim_deny_new [])
               (bootstrap_deny_maps 7 (sim_deny_new [])).1) as [_ H].
  - apply run_result. vm_compute. reflexivity.
  - rewrite H. vm_compute. reflexivity.
Defined.

Lemma apply_refuses_bad_sizes_witness :
  ∃ e, apply_deny_entries [] (sim_deny_new []) = (sim_deny_new [], Err e).
Proof. apply apply_refuses_bad_sizes. left. reflexivity. Defined.

(** A list map whose in-range updates always succeed: no fault is scheduled. *)
Record reliable_array (V : Type) (cap : Z) : Type := mkReliable { ra_written : gmap Z V }.
Arguments mkReliable {V cap}.
Arguments ra_written {V cap}.

#[export] Instance reliable_map {V cap} `{Inhabited V} : ArrayMap V (reliable_array V cap) := {
  am_get a i :=
    if bool_decide (0 ≤ i < cap) then Some (default inhabitant (ra_written a !! i)) else None;
  am_set a i v :=
    if bool_decide (0 ≤ i < cap) then (mkReliable (<[i := v]> (ra_written a)), true) else (a, false)
}.

#[export] Instance PathDenyEntry_inhabited : Inhabited PathDenyEntry :=
  populate PathDenyEntry_default.

#[export] Instance reliable_laws {V cap} `{Inhabited V} :
  ArrayMapLaws V (reliable_array V cap) cap.
Proof.
  split; intros m i; simpl; repeat case_bool_decide; intros; simplify_eq/=; try done.
  - by rewrite lookup_insert_eq.
  - by rewrite lookup_insert_ne by done.
Qed.

Lemma apply_succeeds_witness :
  ∃ m', apply_deny_entries bootstrap_list
          (mkPathDenyMaps (mkReliable ∅ : reliable_array PathDenyEntry 64)
             (mkReliable ∅ : reliable_array Z 1)) = (m', Ok ()).
Proof.
  apply apply_succeeds.
  - intros l i e Hi. simpl. rewrite bool_decide_eq_true_2; [reflexivity|exact Hi].
  - reflexivity.
  - vm_compute. discriminate.
  - vm_compute. discriminate.
  - apply (bool_decide_eq_true_1 _). vm_compute. reflexivity.
Defined.

(** Re-applying the two-entry list to arrays that already hold it, with the
    second slot update failing. *)
Definition two_entries : list PathDenyEntry := [entry_of "/tmp/"; entry_of "/dev/shm/"].
Definition sim_two : sim_deny :=
  let m := sim_applied two_entries in
  mkPathDenyMaps
    (mkSimArray PathDenyEntry_default (sa_written (pdm_list m)) [false; true]) (pdm_count m).
Definition sim_two_failed : sim_deny := (apply_deny_entries two_entries sim_two).1.

Lemma sim_two_steps :
  ∃ rest, rtc writer_step (deny_ops two_entries, sim_two) (rest, sim_two_failed).
Proof.
  destruct (run_ops_steps (deny_ops two_entries) sim_two) as (rest & Hr & _).
  exists rest. unfold sim_two_failed.
  rewrite apply_deny_entries_ops; [exact Hr|discriminate|vm_compute; discriminate].
Qed.

Lemma rewrite_never_empty_witness : 1 ≤ deny_count sim_two_failed.
Proof.
  destruct sim_two_steps as [rest Hr].
  apply (rewrite_never_empty two_entries sim_two rest sim_two_failed 2);
    [vm_compute; discriminate|discriminate|vm_compute; reflexivity|vm_compute; split; discriminate
    |exact Hr].
Defined.

Lemma rewrite_never_weakens_witness : is_blacklisted_path sim_two_failed shm_path = true.
Proof.
  destruct sim_two_steps as [rest Hr].
  apply (rewrite_never_weakens two_entries sim_two rest sim_two_failed 2 1
           (entry_of "/dev/shm/") 1 (entry_of "/dev/shm/") shm_path);
    try (vm_compute; reflexivity); try (vm_compute; discriminate); exact Hr.
Defined.
