(* ===== verification/EnvCapture.v ===== *)
(** * Exec environment capture policy

    [packages/neuromesh-common/src/env_capture.rs]: which environment strings
    may be copied into an exec record, how they are laid out in eight slots of
    32 bytes, and how values that look like secrets are overwritten before
    export. [capture] is the specification of the copying loop: the allowlisted
    entries among the first 16, each name once, at most eight of them. *)

From S2P Require Import Prelude RustStd Common.

(** ** Policy *)
Definition ENV_VALUE_ALLOWLIST : list bytes :=
  [lit "LD_PRELOAD"; lit "LD_AUDIT"; lit "LD_LIBRARY_PATH"; lit "PATH";
   lit "NODE_OPTIONS"; lit "PYTHONPATH"; lit "BASH_ENV"; lit "PROMPT_COMMAND";
   lit "SSLKEYLOGFILE"].

Definition ENV_FORBIDDEN_NAME_SUFFIXES : list bytes :=
  [lit "_KEY"; lit "_TOKEN"; lit "_SECRET"; lit "_PASSWORD"; lit "_PASSWD";
   lit "_CREDENTIAL"; lit "_PRIVATE"].

Definition ENV_VALUE_REDACT_PREFIXES : list bytes :=
  [lit "eyJ"; lit "AKIA"; lit "-----BEGIN"].

Definition ENV_VALUE_REDACTED : bytes := lit "REDACTED".

Record EnvCaptureMeta : Type := mkEnvCaptureMeta {
  em_slots : Z;
  em_ptr_count : Z;
  em_trunc_mask : Z;
  em_count_truncated : bool;
  em_slots_full : bool;
  em_probe_fault : bool
}.

Definition EnvCaptureMeta_default : EnvCaptureMeta :=
  mkEnvCaptureMeta 0 0 0 false false false.

(** [env_name_has_forbidden_suffix]; [None] is a panic. *)
Fixpoint has_suffix_among (name : bytes) (sufs : list bytes) : option bool :=
  match sufs with
  | [] => Some false
  | suf :: sufs =>
      if bool_decide (length suf ≤ length name)%nat then
        let i := (length name - length suf)%nat in
        if negb (is_char_boundary name i) then None
        else if eq_ignore_ascii_case (drop i name) suf then Some true
        else has_suffix_among name sufs
      else has_suffix_among name sufs
  end.
Definition env_name_has_forbidden_suffix (name : bytes) : option bool :=
  has_suffix_among name ENV_FORBIDDEN_NAME_SUFFIXES.

Definition env_name_is_allowlisted (name : bytes) : bool :=
  existsb (λ n, bool_decide (n = name)) ENV_VALUE_ALLOWLIST.

(** The name of [NAME=VALUE]: everything before the first [=]. *)
Definition env_entry_name (entry : bytes) : bytes :=
  match split_once entry [61] with Some (n, _) => n | None => entry end.

Definition env_string_is_allowlisted (entry : bytes) : bool :=
  env_name_is_allowlisted (env_entry_name entry).

(** ** Redaction *)
Definition value_needs_redact (value : bytes) : bool :=
  existsb (starts_with value) ENV_VALUE_REDACT_PREFIXES.

(** The 32-byte replacement: the name (at most 31 bytes), [=], as much of
    [REDACTED] as fits, zeros. *)
Definition redacted_slot (name : bytes) : bytes :=
  let i := Nat.min (length name) (MAX_ENV_STR_LEN - 1) in
  let out := copy_into (zeroed MAX_ENV_STR_LEN) (take i name) in
  if bool_decide (MAX_ENV_STR_LEN ≤ i)%nat then out
  else
    let out := take i out ++ [61] ++ drop (i + 1) out in
    let body := take (MAX_ENV_STR_LEN - (i + 1)) ENV_VALUE_REDACTED in
    take (i + 1) out ++ body ++ drop (i + 1 + length body) out.

(** [redact_env_slot]: the slot afterwards and whether it was redacted. *)
Definition redact_env_slot (slot : bytes) : bytes * bool :=
  let nul := position_or_len 0 slot in
  let text := take nul slot in
  if negb (utf8_valid text) then (slot, false)
  else
    match split_once text [61] with
    | None => (slot, false)
    | Some (name, value) =>
        if negb (value_needs_redact value) then (slot, false)
        else
          let n := Nat.min (length slot) MAX_ENV_STR_LEN in
          (copy_into slot (take n (redacted_slot name)), true)
    end.

(** ** Filling the slots *)

(** [allowlist_bit]. *)
Fixpoint allowlist_bit_from (i : nat) (l : list bytes) (name : bytes) : Z :=
  match l with
  | [] => 0
  | n :: l => if bool_decide (n = name) then Z.shiftl 1 (Z.of_nat i)
              else allowlist_bit_from (S i) l name
  end.
Definition allowlist_bit (name : bytes) : Z := allowlist_bit_from 0 ENV_VALUE_ALLOWLIST name.

(** The loop state: [buf], [meta], [seen]. *)
Definition fill_state : Type := bytes * EnvCaptureMeta * Z.

(** [buf[start..start + n].copy_from_slice(&bytes[..n])]. *)
Definition write_at (buf : bytes) (start : nat) (src : bytes) : bytes :=
  take start buf ++ src ++ drop (start + length src) buf.

Definition fill_step (st : fill_state) (entry : bytes) : fill_state :=
  let '(buf, meta, seen) := st in
  let name := env_entry_name entry in
  if negb (env_name_is_allowlisted name) then (buf, meta, seen)
  else
    let bit := allowlist_bit name in
    if negb (bool_decide (bit = 0)) && negb (bool_decide (Z.land seen bit = 0))
    then (buf, meta, seen)
    else if bool_decide (MAX_ENV_CAPTURE ≤ Z.to_nat (em_slots meta))%nat then
      (buf, mkEnvCaptureMeta (em_slots meta) (em_ptr_count meta) (em_trunc_mask meta)
              (em_count_truncated meta) true (em_probe_fault meta), seen)
    else
      let i := Z.to_nat (em_slots meta) in
      let n := Nat.min (length entry) MAX_ENV_STR_LEN in
      (write_at buf (i * MAX_ENV_STR_LEN) (take n entry),
       mkEnvCaptureMeta (em_slots meta + 1) (em_ptr_count meta)
         (if bool_decide (MAX_ENV_STR_LEN ≤ length entry)%nat
          then Z.lor (em_trunc_mask meta) (Z.shiftl 1 (Z.of_nat i)) else em_trunc_mask meta)
         (em_count_truncated meta) (em_slots_full meta) (em_probe_fault meta),
       Z.lor seen bit).

Definition fill_env_slots (envp : list bytes) : bytes * EnvCaptureMeta :=
  let scan := Nat.min (length envp) MAX_ENV_SCAN in
  let meta := mkEnvCaptureMeta 0 (as_uint 16 (Z.of_nat scan)) 0
                (bool_decide (MAX_ENV_SCAN < length envp)%nat) false false in
  let '(buf, meta, _) := foldl fill_step (zeroed MAX_ENV_LEN, meta, 0) (take scan envp) in
  (buf, meta).

(** [redact_env_slots]: the loop over the filled slots. *)
Fixpoint redact_loop (slots i : nat) (env : bytes) (any : bool) : bytes * bool :=
  match slots with
  | O => (env, any)
  | S slots =>
      let start := (i * MAX_ENV_STR_LEN)%nat in
      let stop := Nat.min (start + MAX_ENV_STR_LEN) (length env) in
      if bool_decide (stop ≤ start)%nat then (env, any)
      else
        let '(slot, r) := redact_env_slot (slice start (stop - start) env) in
        redact_loop slots (S i) (write_at env start slot) (any || r)
  end.
Definition redact_env_slots (env : bytes) (env_len : Z) : bytes * bool :=
  redact_loop (Nat.min (Z.to_nat env_len) MAX_ENV_CAPTURE) 0 env false.

(** ** Specification of the capture *)

(** Whether [entry] is taken, given the entries taken so far. *)
Definition captures (acc : list bytes) (entry : bytes) : bool :=
  env_string_is_allowlisted entry
  && negb (bool_decide (env_entry_name entry ∈ map env_entry_name acc)).
Fixpoint capture_from (acc l : list bytes) : list bytes :=
  match l with
  | [] => acc
  | e :: l =>
      if captures acc e && bool_decide (length acc < MAX_ENV_CAPTURE)%nat
      then capture_from (acc ++ [e]) l else capture_from acc l
  end.
Definition capture (envp : list bytes) : list bytes := capture_from [] (take MAX_ENV_SCAN envp).

(** One slot: the first 32 bytes of an entry, zero padded. *)
Definition slot_of (entry : bytes) : bytes :=
  copy_into (zeroed MAX_ENV_STR_LEN) (take MAX_ENV_STR_LEN entry).
Definition slots_of (entries : list bytes) : bytes := concat (map slot_of entries).
(** Bit [i] of the mask: entry [i] filled its slot. *)
Definition trunc_bit (entries : list bytes) (i : nat) : bool :=
  match entries !! i with
  | Some e => bool_decide (MAX_ENV_STR_LEN ≤ length e)%nat
  | None => false
  end.

(** ** Lemmas: the allowlist bits *)
Lemma env_name_is_allowlisted_iff name :
  env_name_is_allowlisted name = true ↔ name ∈ ENV_VALUE_ALLOWLIST.
Proof.
  unfold env_name_is_allowlisted. rewrite existsb_exists_elem. split.
  - intros (n & Hn & He%bool_decide_eq_true). by subst.
  - intros Hn. exists name. by rewrite bool_decide_eq_true_2.
Qed.

Lemma allowlist_bit_from_lookup i l name k :
  NoDup l → l !! k = Some name → allowlist_bit_from i l name = Z.shiftl 1 (Z.of_nat (i + k)).
Proof.
  revert i k. induction l as [|n l IH]; intros i k Hnd Hk; [done|]. simpl.
  apply NoDup_cons in Hnd as [Hn Hnd]. destruct k as [|k]; simpl in Hk.
  - injection Hk as ->. rewrite bool_decide_eq_true_2 by done. do 2 f_equal. lia.
  - rewrite bool_decide_eq_false_2.
    + rewrite (IH (S i) k) by done. do 2 f_equal. lia.
    + intros ->. apply Hn. by eapply list_elem_of_lookup_2.
Qed.

Lemma allowlist_nodup : NoDup ENV_VALUE_ALLOWLIST.
Proof. apply (bool_decide_eq_true_1 _). by vm_compute. Qed.

Lemma allowlist_bit_lookup k name :
  ENV_VALUE_ALLOWLIST !! k = Some name → allowlist_bit name = Z.shiftl 1 (Z.of_nat k).
Proof. intros Hk. by apply (allowlist_bit_from_lookup 0 _ _ _ allowlist_nodup). Qed.

Lemma land_bit a i : 0 ≤ i → Z.land a (Z.shiftl 1 i) = 0 ↔ Z.testbit a i = false.
Proof.
  intros Hi. rewrite Z.shiftl_1_l. split.
  - intros H. apply (f_equal (λ z, Z.testbit z i)) in H.
    rewrite Z.land_spec, Z.pow2_bits_true, andb_true_r, Z.bits_0 in H by done. done.
  - intros H. apply Z.bits_inj'. intros n Hn. rewrite Z.land_spec, Z.bits_0.
    destruct (decide (n = i)) as [->|]; [by rewrite H|].
    rewrite Z.pow2_bits_false by lia. by rewrite andb_false_r.
Qed.

Lemma testbit_lor_bit a i j :
  0 ≤ i → 0 ≤ j → Z.testbit (Z.lor a (Z.shiftl 1 i)) j = Z.testbit a j || bool_decide (i = j).
Proof.
  intros Hi Hj. rewrite Z.lor_spec, Z.shiftl_1_l. f_equal.
  case_bool_decide; subst; [by rewrite Z.pow2_bits_true|by rewrite Z.pow2_bits_false].
Qed.

(** ** Lemmas: the slot layout *)
Lemma length_slot_of e : length (slot_of e) = MAX_ENV_STR_LEN.
Proof. unfold slot_of. rewrite length_copy_into; rewrite length_zeroed; [done|].
  rewrite length_take. lia. Qed.

Lemma length_slots_of es : length (slots_of es) = (length es * MAX_ENV_STR_LEN)%nat.
Proof.
  induction es as [|e es IH]; [done|]. unfold slots_of in *. simpl.
  rewrite length_app, IH, length_slot_of. done.
Qed.

Lemma slots_of_app es fs : slots_of (es ++ fs) = slots_of es ++ slots_of fs.
Proof. unfold slots_of. by rewrite map_app, concat_app. Qed.

Lemma drop_zeroed n k : drop n (zeroed k) = zeroed (k - n).
Proof. apply drop_replicate. Qed.

Lemma write_at_slot es e k :
  write_at (slots_of es ++ zeroed (S k * MAX_ENV_STR_LEN)) (length es * MAX_ENV_STR_LEN)
    (take (Nat.min (length e) MAX_ENV_STR_LEN) e) =
  slots_of (es ++ [e]) ++ zeroed (k * MAX_ENV_STR_LEN).
Proof.
  unfold write_at. rewrite <- length_slots_of, take_app_length, slots_of_app, <- app_assoc.
  f_equal. rewrite <- drop_drop, drop_app_length, drop_zeroed.
  unfold slots_of; simpl. unfold slot_of, copy_into. rewrite app_nil_r, <- app_assoc.
  rewrite drop_zeroed.
  assert (take (Nat.min (length e) MAX_ENV_STR_LEN) e = take MAX_ENV_STR_LEN e) as ->.
  { destruct (decide (length e ≤ MAX_ENV_STR_LEN)%nat).
    - rewrite Nat.min_l by done. by rewrite !take_ge by lia.
    - by rewrite Nat.min_r by lia. }
  f_equal. unfold zeroed. rewrite <- replicate_add. f_equal.
  rewrite length_take. unfold MAX_ENV_STR_LEN. lia.
Qed.

(** ** The copying loop computes the specification *)

(** Whether an eligible entry was met after the slots were full. *)
Fixpoint overflow_from (acc l : list bytes) : bool :=
  match l with
  | [] => false
  | e :: l =>
      if captures acc e then
        if bool_decide (length acc < MAX_ENV_CAPTURE)%nat then overflow_from (acc ++ [e]) l
        else true
      else overflow_from acc l
  end.

(** The loop state after the entries [acc] were taken. *)
Definition fill_inv (acc : list bytes) (full : bool) (m0 : EnvCaptureMeta) (st : fill_state) : Prop :=
  let '(buf, meta, seen) := st in
  (length acc ≤ MAX_ENV_CAPTURE)%nat ∧
  buf = slots_of acc ++ zeroed ((MAX_ENV_CAPTURE - length acc) * MAX_ENV_STR_LEN) ∧
  em_slots meta = Z.of_nat (length acc) ∧
  em_ptr_count meta = em_ptr_count m0 ∧
  em_count_truncated meta = em_count_truncated m0 ∧
  em_slots_full meta = full ∧
  em_probe_fault meta = em_probe_fault m0 ∧
  (∀ i, Z.testbit (em_trunc_mask meta) (Z.of_nat i) = trunc_bit acc i) ∧
  (∀ k name, ENV_VALUE_ALLOWLIST !! k = Some name →
     Z.testbit seen (Z.of_nat k) = bool_decide (name ∈ map env_entry_name acc)).

Lemma trunc_bit_snoc acc e i :
  trunc_bit (acc ++ [e]) i =
  trunc_bit acc i || (bool_decide (length acc = i) && bool_decide (MAX_ENV_STR_LEN ≤ length e)%nat).
Proof.
  unfold trunc_bit. destruct (decide (i < length acc)%nat).
  - rewrite lookup_app_l by done. rewrite (bool_decide_eq_false_2 (length acc = i)) by lia.
    by rewrite orb_false_r.
  - rewrite lookup_app_r, (lookup_ge_None_2 acc) by lia. simpl.
    case_bool_decide as Hi; subst; simpl.
    + by rewrite Nat.sub_diag.
    + rewrite lookup_ge_None_2; [done|]. simpl. lia.
Qed.

(** The mask test of the loop is the duplicate test of the specification. *)
Lemma seen_test acc seen entry :
  (∀ k name, ENV_VALUE_ALLOWLIST !! k = Some name →
     Z.testbit seen (Z.of_nat k) = bool_decide (name ∈ map env_entry_name acc)) →
  env_name_is_allowlisted (env_entry_name entry) = true →
  negb (bool_decide (allowlist_bit (env_entry_name entry) = 0))
  && negb (bool_decide (Z.land seen (allowlist_bit (env_entry_name entry)) = 0)) =
  bool_decide (env_entry_name entry ∈ map env_entry_name acc).
Proof.
  intros Hseen [k Hk]%env_name_is_allowlisted_iff%list_elem_of_lookup.
  rewrite <- (Hseen _ _ Hk). rewrite (allowlist_bit_lookup _ _ Hk).
  rewrite (bool_decide_eq_false_2 (Z.shiftl 1 _ = 0)).
  - simpl. case_bool_decide as Hl.
    + apply land_bit in Hl; [by rewrite Hl|lia].
    + destruct (Z.testbit seen (Z.of_nat k)) eqn:E; [done|].
      exfalso. apply Hl, land_bit; [lia|done].
  - rewrite Z.shiftl_1_l. apply Z.pow_nonzero; lia.
Qed.

Lemma fill_step_inv acc full m0 st entry :
  fill_inv acc full m0 st →
  fill_inv
    (if captures acc entry && bool_decide (length acc < MAX_ENV_CAPTURE)%nat
     then acc ++ [entry] else acc)
    (full || (captures acc entry && negb (bool_decide (length acc < MAX_ENV_CAPTURE)%nat)))
    m0 (fill_step st entry).
Proof.
  destruct st as [[buf meta] seen]. unfold fill_inv at 1.
  intros (Hlen & Hbuf & Hslots & Hptr & Hct & Hfull & Hpf & Htr & Hseen).
  unfold fill_step, captures, env_string_is_allowlisted.
  destruct (env_name_is_allowlisted (env_entry_name entry)) eqn:Hal; cbn [negb andb].
  2:{ rewrite orb_false_r. by split_and!. }
  rewrite (seen_test acc) by done.
  destruct (bool_decide (_ ∈ _)) eqn:Hdup; cbn [negb andb].
  { rewrite orb_false_r. by split_and!. }
  rewrite Hslots, Nat2Z.id. destruct (decide (length acc < MAX_ENV_CAPTURE)%nat) as [Hlt|Hge].
  - rewrite (bool_decide_eq_false_2 (MAX_ENV_CAPTURE ≤ _)%nat) by lia.
    rewrite (bool_decide_eq_true_2 (_ < _)%nat) by done. cbn [negb]. rewrite orb_false_r.
    unfold fill_inv. cbn [em_slots em_ptr_count em_count_truncated em_slots_full em_probe_fault
      em_trunc_mask]. split_and!; try done.
    + rewrite length_app. simpl. lia.
    + rewrite Hbuf. replace (MAX_ENV_CAPTURE - length acc)%nat
        with (S (MAX_ENV_CAPTURE - length (acc ++ [entry])))
        by (rewrite length_app; simpl; lia).
      apply write_at_slot.
    + rewrite length_app. simpl. lia.
    + intros i. rewrite trunc_bit_snoc.
      destruct (bool_decide (MAX_ENV_STR_LEN ≤ length entry)%nat).
      * rewrite testbit_lor_bit, Htr by lia. rewrite andb_true_r. f_equal.
        apply bool_decide_ext. lia.
      * by rewrite Htr, andb_false_r, orb_false_r.
    + intros k name Hk. rewrite map_app. simpl.
      apply env_name_is_allowlisted_iff, list_elem_of_lookup in Hal as [k' Hk'].
      rewrite (allowlist_bit_lookup _ _ Hk'), testbit_lor_bit by lia.
      rewrite (Hseen _ _ Hk). rewrite <- bool_decide_or. apply bool_decide_ext.
      rewrite elem_of_app, list_elem_of_singleton. split; (intros [?|?]; [by left|right]).
      * assert (k' = k) by lia. by simplify_eq.
      * subst name. f_equal. eapply NoDup_lookup; eauto using allowlist_nodup.
  - rewrite (bool_decide_eq_true_2 (MAX_ENV_CAPTURE ≤ _)%nat) by lia.
    rewrite (bool_decide_eq_false_2 (_ < _)%nat) by done. cbn [negb]. rewrite orb_true_r.
    unfold fill_inv. simpl. by split_and!.
Qed.

Lemma fill_loop_inv l acc full m0 st :
  fill_inv acc full m0 st →
  fill_inv (capture_from acc l) (full || overflow_from acc l) m0 (foldl fill_step st l).
Proof.
  revert acc full st. induction l as [|e l IH]; intros acc full st Hst; simpl.
  { by rewrite orb_false_r. }
  pose proof (fill_step_inv _ _ _ _ e Hst) as Hst'. apply IH in Hst'. revert Hst'.
  destruct (captures acc e); simpl; [|by rewrite orb_false_r].
  case_bool_decide; simpl; [by rewrite orb_false_r|].
  rewrite orb_true_r. done.
Qed.

(** ** Properties of the capture *)

Lemma capture_from_spec acc l :
  let r := capture_from acc l in
  Forall (λ e, env_string_is_allowlisted e = true) acc →
  NoDup (map env_entry_name acc) → (length acc ≤ MAX_ENV_CAPTURE)%nat →
  Forall (λ e, env_string_is_allowlisted e = true) r ∧
  NoDup (map env_entry_name r) ∧ (length r ≤ MAX_ENV_CAPTURE)%nat ∧
  ∃ k, r = acc ++ k ∧ k `sublist_of` l.
Proof.
  revert acc. induction l as [|e l IH]; intros acc; simpl; intros Ha Hn Hl.
  { split_and!; try done. exists []. by rewrite app_nil_r. }
  destruct (captures acc e && _) eqn:Hc.
  - apply andb_true_iff in Hc as [Hc Hlt%bool_decide_eq_true].
    apply andb_true_iff in Hc as [Hal Hnew%negb_true_iff%bool_decide_eq_false].
    destruct (IH (acc ++ [e])) as (H1 & H2 & H3 & k & Hk & Hs).
    + apply Forall_app. split; [done|]. by constructor.
    + rewrite map_app. apply NoDup_app. split_and!; [done| |apply NoDup_singleton].
      intros x Hx Hx'%list_elem_of_singleton. by subst.
    + rewrite length_app. simpl. lia.
    + split_and!; try done. exists (e :: k). split; [by rewrite Hk, <- app_assoc|].
      by constructor.
  - destruct (IH acc) as (H1 & H2 & H3 & k & Hk & Hs); try done.
    split_and!; try done. exists k. split; [done|]. by constructor.
Qed.

(** The copying loop lays out, in eight zero-padded 32-byte slots, exactly
    the specified entries: allowlisted ones among the first 16, in order, each
    name once, at most eight. The metadata says how many slots are filled, which
    entries filled their slot, and whether the scan or the slots ran out. *)
Theorem fill_env_slots_spec envp :
  let taken := capture envp in
  let '(buf, meta) := fill_env_slots envp in
  buf = slots_of taken ++ zeroed ((MAX_ENV_CAPTURE - length taken) * MAX_ENV_STR_LEN) ∧
  em_slots meta = Z.of_nat (length taken) ∧
  em_ptr_count meta = Z.of_nat (Nat.min (length envp) MAX_ENV_SCAN) ∧
  (∀ i, Z.testbit (em_trunc_mask meta) (Z.of_nat i) = trunc_bit taken i) ∧
  em_count_truncated meta = bool_decide (MAX_ENV_SCAN < length envp)%nat ∧
  em_slots_full meta = overflow_from [] (take MAX_ENV_SCAN envp) ∧
  Forall (λ e, env_string_is_allowlisted e = true) taken ∧
  NoDup (map env_entry_name taken) ∧ (length taken ≤ MAX_ENV_CAPTURE)%nat ∧
  taken `sublist_of` take MAX_ENV_SCAN envp.
Proof.
  cbv zeta. unfold fill_env_slots.
  set (m0 := mkEnvCaptureMeta 0 _ 0 _ false false).
  assert (take (Nat.min (length envp) MAX_ENV_SCAN) envp = take MAX_ENV_SCAN envp) as ->.
  { destruct (decide (length envp ≤ MAX_ENV_SCAN)%nat).
    - rewrite Nat.min_l by done. by rewrite !take_ge by lia.
    - by rewrite Nat.min_r by lia. }
  assert (fill_inv [] false m0 (zeroed MAX_ENV_LEN, m0, 0)) as H0.
  { unfold fill_inv. split_and!; try done; [simpl; unfold MAX_ENV_CAPTURE; lia| |].
    - intros i. unfold m0; simpl. by rewrite Z.bits_0.
    - intros k name _. rewrite Z.bits_0. symmetry. by apply bool_decide_eq_false_2, not_elem_of_nil. }
  apply (fill_loop_inv (take MAX_ENV_SCAN envp)) in H0.
  destruct (foldl fill_step _ _) as [[buf meta] seen].
  destruct H0 as (_ & Hb & Hs & Hp & Hc & Hf & _ & Ht & _).
  destruct (capture_from_spec [] (take MAX_ENV_SCAN envp)) as (P1 & P2 & P3 & k & Hk & Hk');
    [constructor|constructor|simpl; lia|].
  fold (capture envp) in *. simpl in Hk. subst k. split_and!; try done.
  rewrite Hp. unfold m0; simpl. apply as_uint_small.
  assert (Nat.min (length envp) MAX_ENV_SCAN ≤ 16)%nat by (unfold MAX_ENV_SCAN; lia).
  change (2 ^ 16) with 65536. lia.
Qed.

(** ** Lemmas: redaction *)
Lemma take_min_length {A} n (l : list A) : take (Nat.min (length l) n) l = take n l.
Proof.
  destruct (decide (length l ≤ n)%nat).
  - rewrite Nat.min_l by done. by rewrite !take_ge by lia.
  - by rewrite Nat.min_r by lia.
Qed.

Lemma redacted_slot_eq name :
  let p := take 31 name in
  let body := take (31 - length p) ENV_VALUE_REDACTED in
  redacted_slot name = (p ++ 61 :: body) ++ zeroed (31 - length p - length body).
Proof.
  cbv zeta. unfold redacted_slot. change (MAX_ENV_STR_LEN - 1)%nat with 31%nat.
  rewrite take_min_length. set (p := take 31 name).
  assert (Nat.min (length name) 31 = length p) as -> by (unfold p; rewrite length_take; lia).
  assert (length p ≤ 31)%nat as Hp by (unfold p; rewrite length_take; lia).
  rewrite bool_decide_eq_false_2 by (unfold MAX_ENV_STR_LEN; lia).
  unfold copy_into. rewrite drop_zeroed, take_app_length.
  replace (MAX_ENV_STR_LEN - (length p + 1))%nat with (31 - length p)%nat
    by (unfold MAX_ENV_STR_LEN; lia).
  set (body := take _ ENV_VALUE_REDACTED).
  replace (p ++ [61] ++ _) with ((p ++ [61]) ++ zeroed (31 - length p)).
  2:{ rewrite <- app_assoc. f_equal. simpl. f_equal. rewrite <- drop_drop, drop_app_length, drop_zeroed.
      f_equal. unfold MAX_ENV_STR_LEN. lia. }
  replace (length p + 1)%nat with (length (p ++ [61])) by (rewrite length_app; simpl; lia).
  rewrite take_app_length, <- drop_drop, drop_app_length, drop_zeroed.
  by rewrite <- !app_assoc.
Qed.

Lemma length_redacted_slot name : length (redacted_slot name) = MAX_ENV_STR_LEN.
Proof.
  rewrite redacted_slot_eq. rewrite !length_app, length_zeroed. cbn [length].
  rewrite !length_take. unfold MAX_ENV_STR_LEN. lia.
Qed.

Lemma position_or_len_pad c t k : c ∉ t → c = 0 → position_or_len c (t ++ zeroed k) = length t.
Proof.
  intros Ht ->. rewrite position_or_len_app by done.
  destruct k; simpl; lia.
Qed.

Lemma take_redacted_clean k :
  value_needs_redact (take k ENV_VALUE_REDACTED) = false ∧ 0 ∉ take k ENV_VALUE_REDACTED.
Proof.
  assert (take k ENV_VALUE_REDACTED = take (Nat.min 8 k) ENV_VALUE_REDACTED) as ->.
  { by rewrite (take_min_length k ENV_VALUE_REDACTED : take (Nat.min 8 k) _ = _). }
  assert (∀ j, (j ≤ 8)%nat → value_needs_redact (take j ENV_VALUE_REDACTED) = false ∧
    bool_decide (0 ∈ take j ENV_VALUE_REDACTED) = false) as Hall.
  { intros j Hj. do 9 (destruct j as [|j]; [by vm_compute|]). lia. }
  destruct (Hall (Nat.min 8 k)) as [? ?%bool_decide_eq_false]; [lia|done].
Qed.

(** The three outcomes of [redact_env_slot] on a whole slot. *)
Lemma redact_env_slot_cases slot :
  length slot = MAX_ENV_STR_LEN →
  redact_env_slot slot = (slot, false) ∨
  ∃ name value, take (position_or_len 0 slot) slot = name ++ 61 :: value ∧
    61 ∉ name ∧ 0 ∉ name ∧ (length name ≤ 31)%nat ∧ value_needs_redact value = true ∧
    utf8_valid (name ++ 61 :: value) = true ∧
    redact_env_slot slot = (redacted_slot name, true).
Proof.
  intros Hlen. unfold redact_env_slot. set (text := take (position_or_len 0 slot) slot).
  destruct (utf8_valid text) eqn:Hu; simpl; [|by left].
  destruct (split_once text [61]) as [[name value]|] eqn:Hs; [|by left].
  destruct (value_needs_redact value) eqn:Hv; simpl; [right|by left].
  pose proof (split_once_app _ _ _ _ Hs) as Ht. simpl in Ht.
  pose proof (position_or_len_notin 0 slot) as H0. fold text in H0. rewrite Ht in H0.
  assert (length text ≤ 32)%nat as Hl32.
  { unfold text. rewrite length_take, Hlen. unfold MAX_ENV_STR_LEN. lia. }
  rewrite Ht, length_app in Hl32. simpl in Hl32.
  exists name, value. split_and!; try done.
  - by eapply split_once_byte_fst.
  - intros Hin. apply H0, elem_of_app. by left.
  - lia.
  - by rewrite <- Ht.
  - rewrite Hlen, Nat.min_id. rewrite take_ge by (by rewrite length_redacted_slot).
    unfold copy_into. rewrite drop_ge by (rewrite length_redacted_slot; lia). by rewrite app_nil_r.
Qed.

Lemma redact_env_slot_redacted name :
  61 ∉ name → 0 ∉ name → (length name ≤ 31)%nat →
  redact_env_slot (redacted_slot name) = (redacted_slot name, false).
Proof.
  intros H61 H0 Hl. rewrite redacted_slot_eq. rewrite (take_ge name 31) by lia.
  destruct (take_redacted_clean (31 - length name)) as [Hclean Hz].
  set (body := take _ ENV_VALUE_REDACTED) in *. unfold redact_env_slot.
  rewrite position_or_len_pad, take_app_length by (done || set_solver).
  rewrite split_once_byte by done. rewrite Hclean. simpl. by destruct (negb _).
Qed.

(** The text a consumer reads from a slot, and the value in it. *)
Definition slot_text (slot : bytes) : bytes := take (position_or_len 0 slot) slot.
Definition slot_name (slot : bytes) : bytes := env_entry_name (slot_text slot).
Definition slot_value (slot : bytes) : option bytes := snd <$> split_once (slot_text slot) [61].

(** Slot [i] of the buffer. *)
Definition env_slot (env : bytes) (i : nat) : bytes :=
  slice (i * MAX_ENV_STR_LEN) MAX_ENV_STR_LEN env.

Lemma length_write_at buf start src :
  (start + length src ≤ length buf)%nat → length (write_at buf start src) = length buf.
Proof. intros H. unfold write_at. rewrite !length_app, length_take, length_drop. lia. Qed.

Lemma lookup_write_at buf start src k :
  (start + length src ≤ length buf)%nat →
  write_at buf start src !! k =
  if bool_decide (start ≤ k < start + length src)%nat then src !! (k - start)%nat else buf !! k.
Proof.
  intros H. unfold write_at. destruct (decide (k < start)%nat).
  - rewrite lookup_app_l by (rewrite length_take; lia).
    rewrite bool_decide_eq_false_2 by lia. by rewrite lookup_take_lt by lia.
  - rewrite lookup_app_r by (rewrite length_take; lia). rewrite length_take, Nat.min_l by lia.
    destruct (decide (k < start + length src)%nat).
    + rewrite bool_decide_eq_true_2 by lia. by rewrite lookup_app_l by lia.
    + rewrite bool_decide_eq_false_2 by lia. rewrite lookup_app_r, lookup_drop by lia.
      f_equal. lia.
Qed.

Lemma lookup_env_slot env i k :
  env_slot env i !! k =
  if bool_decide (k < MAX_ENV_STR_LEN)%nat then env !! (i * MAX_ENV_STR_LEN + k)%nat else None.
Proof.
  unfold env_slot, slice. case_bool_decide.
  - by rewrite lookup_take_lt, lookup_drop by done.
  - by rewrite lookup_take_ge by lia.
Qed.

Lemma env_slot_write_at env slot i j :
  length env = MAX_ENV_LEN → (i < MAX_ENV_CAPTURE)%nat → length slot = MAX_ENV_STR_LEN →
  env_slot (write_at env (i * MAX_ENV_STR_LEN) slot) j = if bool_decide (i = j) then slot else env_slot env j.
Proof.
  unfold MAX_ENV_LEN, MAX_ENV_CAPTURE, MAX_ENV_STR_LEN. intros He Hi Hs.
  apply list_eq. intros k. rewrite lookup_env_slot. unfold MAX_ENV_STR_LEN.
  rewrite lookup_write_at, Hs by lia. destruct (decide (k < 32)%nat) as [Hk|Hk].
  - rewrite (bool_decide_eq_true_2 (k < 32)%nat) by done. destruct (decide (i = j)) as [->|Hij].
    + rewrite bool_decide_eq_true_2, bool_decide_eq_true_2 by lia. f_equal. lia.
    + rewrite bool_decide_eq_false_2, bool_decide_eq_false_2 by lia.
      rewrite lookup_env_slot. unfold MAX_ENV_STR_LEN. by rewrite bool_decide_eq_true_2.
  - rewrite (bool_decide_eq_false_2 (k < 32)%nat) by done. symmetry. case_bool_decide.
    + apply lookup_ge_None_2. lia.
    + rewrite lookup_env_slot. unfold MAX_ENV_STR_LEN. by rewrite bool_decide_eq_false_2.
Qed.

Lemma length_redact_env_slot slot :
  length slot = MAX_ENV_STR_LEN → length (redact_env_slot slot).1 = MAX_ENV_STR_LEN.
Proof.
  intros H. destruct (redact_env_slot_cases _ H) as [->|(n & v & _ & _ & _ & _ & _ & _ & ->)]; [done|].
  apply length_redacted_slot.
Qed.

Lemma length_env_slot env i :
  length env = MAX_ENV_LEN → (i < MAX_ENV_CAPTURE)%nat → length (env_slot env i) = MAX_ENV_STR_LEN.
Proof.
  unfold env_slot, slice, MAX_ENV_LEN, MAX_ENV_CAPTURE, MAX_ENV_STR_LEN. intros He Hi.
  rewrite length_take, length_drop. lia.
Qed.

Lemma redact_loop_spec m i env any :
  length env = MAX_ENV_LEN → (i + m ≤ MAX_ENV_CAPTURE)%nat →
  let '(env', any') := redact_loop m i env any in
  length env' = MAX_ENV_LEN ∧
  (∀ j, env_slot env' j =
     if bool_decide (i ≤ j < i + m)%nat then (redact_env_slot (env_slot env j)).1 else env_slot env j) ∧
  any' = any || existsb (λ j, (redact_env_slot (env_slot env j)).2) (seq i m).
Proof.
  revert i env any. induction m as [|m IH]; intros i env any He Hi; simpl.
  { split_and!; [done| |by rewrite orb_false_r].
    intros j. by rewrite bool_decide_eq_false_2 by lia. }
  assert (i * 32 + 32 ≤ length env)%nat as Hb.
  { rewrite He. unfold MAX_ENV_LEN, MAX_ENV_CAPTURE, MAX_ENV_STR_LEN in *. lia. }
  rewrite Nat.min_l by exact Hb.
  replace (i * MAX_ENV_STR_LEN + MAX_ENV_STR_LEN - i * MAX_ENV_STR_LEN)%nat with MAX_ENV_STR_LEN by lia.
  rewrite bool_decide_eq_false_2 by (unfold MAX_ENV_STR_LEN; lia).
  fold (env_slot env i). destruct (redact_env_slot (env_slot env i)) as [slot r] eqn:Hr.
  assert (length slot = MAX_ENV_STR_LEN) as Hsl.
  { change slot with (slot, r).1. rewrite <- Hr. apply length_redact_env_slot, length_env_slot; [done|lia]. }
  specialize (IH (S i) (write_at env (i * MAX_ENV_STR_LEN) slot) (any || r)).
  destruct (redact_loop _ _ _ _) as [env' any']. destruct IH as (H1 & H2 & H3).
  { rewrite length_write_at; [done|]. rewrite Hsl. exact Hb. }
  { lia. }
  split_and!; [done| |].
  - intros j. rewrite H2, env_slot_write_at by (done || lia).
    destruct (decide (i = j)) as [<-|Hij].
    + rewrite (bool_decide_eq_true_2 (i = i)), bool_decide_eq_false_2, bool_decide_eq_true_2 by lia.
      by rewrite Hr.
    + rewrite (bool_decide_eq_false_2 (i = j)) by done.
      erewrite (bool_decide_ext (S i ≤ j < S i + m)%nat); [reflexivity|lia].
  - rewrite H3, <- orb_assoc. f_equal. f_equal.
    apply existsb_ext_elem. intros j [? ?]%elem_of_seq.
    by rewrite env_slot_write_at, bool_decide_eq_false_2 by (done || lia).
Qed.

(** Redacting a slot keeps its length and its name, overwrites the whole
    value by (a prefix of) the marker when it redacts and changes nothing
    otherwise, is idempotent, and leaves no value with a secret prefix in a slot
    whose text is valid UTF-8. *)
Theorem redact_env_slot_spec slot :
  length slot = MAX_ENV_STR_LEN →
  let '(slot', redacted) := redact_env_slot slot in
  length slot' = MAX_ENV_STR_LEN ∧
  slot_name slot' = slot_name slot ∧
  redact_env_slot slot' = (slot', false) ∧
  (redacted = false → slot' = slot) ∧
  (redacted = true → slot_value slot' = Some (take (31 - length (slot_name slot)) ENV_VALUE_REDACTED)) ∧
  (utf8_valid (slot_text slot) = true → ∀ v, slot_value slot' = Some v → value_needs_redact v = false).
Proof.
  intros Hlen. destruct (redact_env_slot_cases _ Hlen) as [Hr|(name & v & Ht & H61 & H0 & Hl & Hv & Hu & Hr)].
  - rewrite Hr. split_and!; try done. intros Hu w Hw. revert Hr Hw. unfold redact_env_slot, slot_value.
    fold (slot_text slot). rewrite Hu. simpl. destruct (split_once _ _) as [[n x]|]; [|done].
    simpl. intros Hr [= ->]. by destruct (value_needs_redact w).
  - rewrite Hr. pose proof (redact_env_slot_redacted name H61 H0 Hl) as Hid.
    assert (slot_text (redacted_slot name) = name ++ 61 :: take (31 - length name) ENV_VALUE_REDACTED) as Ht'.
    { unfold slot_text. rewrite redacted_slot_eq, (take_ge name 31) by lia.
      destruct (take_redacted_clean (31 - length name)) as [_ Hz].
      rewrite position_or_len_pad, take_app_length by (done || set_solver). done. }
    unfold slot_name, slot_value, env_entry_name. rewrite Ht'.
    change (take (position_or_len 0 slot) slot) with (slot_text slot) in Ht. rewrite Ht.
    rewrite !split_once_byte by done. simpl. split_and!; try done.
    + apply length_redacted_slot.
    + intros _ w [= <-]. apply take_redacted_clean.
Qed.

Lemma redact_env_slot_spec_witness :
  let slot := slot_of (lit "PATH=eyJhbGciOiJIUzI1NiIs") in
  slot_value (redact_env_slot slot).1 = Some (lit "REDACTED").
Proof.
  cbv zeta. pose proof (redact_env_slot_spec (slot_of (lit "PATH=eyJhbGciOiJIUzI1NiIs")) eq_refl) as H.
  vm_compute in H. vm_compute. destruct H as (_ & _ & _ & _ & H & _). by apply H.
Defined.

(** The pass over a 256-byte environment buffer redacts exactly the first
    [env_len] slots (at most eight), each as [redact_env_slot] does, leaves the
    others alone, and reports whether any slot was redacted. *)
Theorem redact_env_slots_spec env env_len :
  length env = MAX_ENV_LEN →
  let n := Nat.min (Z.to_nat env_len) MAX_ENV_CAPTURE in
  let '(env', any) := redact_env_slots env env_len in
  length env' = MAX_ENV_LEN ∧
  (∀ j, env_slot env' j =
     if bool_decide (j < n)%nat then (redact_env_slot (env_slot env j)).1 else env_slot env j) ∧
  any = existsb (λ j, (redact_env_slot (env_slot env j)).2) (seq 0 n).
Proof.
  intros He n. pose proof (redact_loop_spec n 0 env false He) as H. unfold redact_env_slots. fold n.
  destruct (redact_loop n 0 env false) as [env' any]. destruct H as (H1 & H2 & H3); [lia|].
  split_and!; try done. intros j. rewrite H2.
  erewrite (bool_decide_ext (0 ≤ j < 0 + n)%nat); [reflexivity|lia].
Qed.

Lemma redact_env_slots_spec_witness :
  let env := slots_of [lit "PATH=/bin"; lit "LD_AUDIT=AKIA1234"] ++ zeroed (6 * 32) in
  env_slot (redact_env_slots env 2).1 1 = slot_of (lit "LD_AUDIT=REDACTED").
Proof.
  cbv zeta.
  pose proof (redact_env_slots_spec
    (slots_of [lit "PATH=/bin"; lit "LD_AUDIT=AKIA1234"] ++ zeroed (6 * 32)) 2 eq_refl) as H.
  cbv zeta in H. destruct (redact_env_slots _ _) as [e a]. destruct H as (_ & H & _). simpl.
  rewrite H. vm_compute. reflexivity.
Defined.

(** A value with a secret prefix is not redacted when its slot is not valid
    UTF-8: a name-value pair of valid text whose last character is cut at the
    32-byte slot boundary keeps its secret. *)
Theorem redact_skips_cut_character :
  let entry := lit "PATH=AKIAIOSFODNN7EXAMPLEaaaaaa" ++ [195; 169] in
  let '(buf, meta) := fill_env_slots [entry] in
  utf8_valid entry = true ∧ em_slots meta = 1 ∧
  redact_env_slots buf (em_slots meta) = (buf, false) ∧
  option_map value_needs_redact (slot_value (env_slot buf 0)) = Some true.
Proof. vm_compute. by split_and!. Qed.
