(* ===== verification/IdentityAllow.v ===== *)
(** * Identity-allow exceptions

    [apps/agent-ebpf-sensor/src/identity_allow.rs]: the identity section of a
    policy bundle, its time-to-live, the two BPF maps the LSM program consults
    ([ID_ALLOW_CGROUP], [ID_EXCEPT_VALID]) and the laboratory seeds. The JSON
    and RFC 3339 parsers are third-party code and are parameters. *)

From S2P Require Import Prelude RustStd Common Bpf PathDeny.

Definition IDENTITY_ALLOW_CGROUP_IDS_ENV : bytes := lit "NEUROMESH_IDENTITY_ALLOW_CGROUP_IDS".
Definition IDENTITY_EXCEPTION_TTL : Z := secs 90.
Definition REQUIRED_SCOPE_PATH_PREFIX : bytes := lit "/tmp/".

(** ** Data *)
Record IdentityAllowMaps (MH MV : Type) : Type := mkIdentityAllowMaps {
  iam_allow_cgroups : MH;
  iam_exceptions_valid : MV
}.
Arguments mkIdentityAllowMaps {MH MV}.
Arguments iam_allow_cgroups {MH MV}.
Arguments iam_exceptions_valid {MH MV}.

(** A [SystemTime] is a [Z] of nanoseconds since the epoch. *)
Record IdentityAllowSection : Type := mkIdentityAllowSection {
  ias_scope_path_prefix : bytes;
  ias_spiffe_ids : list bytes;
  ias_issued_at : Z;
  ias_expires_at : Z
}.

Inductive IdentitySectionValidity : Type :=
| Fresh (s : IdentityAllowSection)
| Invalid (reason : string).

Record ParsedPolicyBundle : Type := mkParsedPolicyBundle {
  pb_schema_version : Z;
  pb_version : bytes;
  pb_deny_path_prefixes : list bytes;
  pb_identity : IdentitySectionValidity;
  pb_not_before : option Z;
  pb_not_after : option Z
}.

(** The documents of [parse_policy_bundle_json_at]. *)
Record IdentityDoc : Type := mkIdentityDoc {
  id_scope_path_prefix : bytes;
  id_spiffe_ids : list bytes;
  id_issued_at : bytes;
  id_expires_at : bytes
}.
Record BundleDoc : Type := mkBundleDoc {
  bd_schema_version : Z;
  bd_version : bytes;
  bd_deny_path_prefixes : list bytes;
  bd_identity_allow_exceptions : option IdentityDoc;
  bd_not_before : option bytes;
  bd_not_after : option bytes
}.

(** ** Evaluation of the identity section *)
Definition evaluate_identity_section (scope_path_prefix : bytes) (spiffe_ids : list bytes)
    (issued_at expires_at now : Z) : IdentitySectionValidity :=
  if negb (bool_decide (scope_path_prefix = REQUIRED_SCOPE_PATH_PREFIX)) then
    Invalid "identity scope_path_prefix is not the required one"
  else if negb (bool_decide (REQUIRED_SCOPE_PATH_PREFIX = IDENTITY_EXCEPTION_SCOPE_PREFIX)) then
    Invalid "internal scope constant mismatch"
  else if bool_decide (expires_at ≤ issued_at) then Invalid "expires_at must be after issued_at"
  else if bool_decide (expires_at ≤ now) then Invalid "identity_allow_exceptions expired"
  else Fresh (mkIdentityAllowSection scope_path_prefix spiffe_ids issued_at expires_at).

(** ** Parsing

    [serde_json::from_str] for the document types, and
    [DateTime::parse_from_rfc3339] as nanoseconds since the epoch. *)
Section parse.
Context (from_str : bytes → option BundleDoc) (parse_from_rfc3339 : bytes → option Z).

Definition parse_rfc3339 (s : bytes) : result Z :=
  ok_or (EMsg "invalid RFC3339 timestamp") (parse_from_rfc3339 s).

(** [opt.as_deref().map(str::trim).filter(|s| !s.is_empty())], then the parse. *)
Definition parse_opt_time (o : option bytes) : result (option Z) :=
  match o with
  | Some s =>
      let s := trim s in
      if is_empty s then Ok None else t ← parse_rfc3339 s; Ok (Some t)
  | None => Ok None
  end.

Definition identity_of_doc (schema : Z) (ie : option IdentityDoc) (now : Z) :
    result IdentitySectionValidity :=
  if bool_decide (schema = 2) || bool_decide (schema = 3) then
    match ie with
    | Some ie =>
        issued ← parse_rfc3339 (id_issued_at ie);
        expires ← parse_rfc3339 (id_expires_at ie);
        Ok (evaluate_identity_section (id_scope_path_prefix ie) (id_spiffe_ids ie) issued expires now)
    | None => Ok (Invalid "missing identity_allow_exceptions")
    end
  else if bool_decide (schema = 1) then Ok (Invalid "schema_version 1 has no identity section")
  else Ok (Invalid "unreachable schema").

Definition parse_policy_bundle_json_at (body : bytes) (now : Z) : result ParsedPolicyBundle :=
  doc ← ok_or (EMsg "malformed policy-bundle JSON") (from_str body);
  if negb (bool_decide (bd_schema_version doc = 1)) && negb (bool_decide (bd_schema_version doc = 2))
     && negb (bool_decide (bd_schema_version doc = 3))
  then Err (EMsg "unsupported policy-bundle schema_version")
  else if is_empty (bd_version doc) then Err (EMsg "policy-bundle missing version")
  else if bool_decide (bd_deny_path_prefixes doc = []) then
    Err (EMsg "policy-bundle deny_path_prefixes is empty (refusing fail-open)")
  else
    not_before ← parse_opt_time (bd_not_before doc);
    not_after ← parse_opt_time (bd_not_after doc);
    identity ← identity_of_doc (bd_schema_version doc) (bd_identity_allow_exceptions doc) now;
    Ok (mkParsedPolicyBundle (bd_schema_version doc) (bd_version doc) (bd_deny_path_prefixes doc)
          identity not_before not_after).

(** [parse_policy_bundle_json]; [system_now] is the clock's reading. *)
Definition parse_policy_bundle_json (system_now : Z) (body : bytes) : result ParsedPolicyBundle :=
  parse_policy_bundle_json_at body system_now.

(** [path_deny::entries_from_bundle_json]: the version and the deny entries. *)
Definition entries_from_bundle_json (system_now : Z) (body : bytes) : result (bytes * list PathDenyEntry) :=
  parsed ← parse_policy_bundle_json system_now body;
  entries ← try_map (λ p, ok_or (EMsg "bundle prefix is empty or longer than PATH_DENY_KEY_BYTES bytes") (from_prefix p))
              (pb_deny_path_prefixes parsed);
  Ok (pb_version parsed, entries).
End parse.

(** ** The maps *)
Section maps.
Context {MH MV : Type} `{HashMap Z MH, ArrayMap Z MV}.
Abbreviation maps := (IdentityAllowMaps MH MV).

Definition set_exceptions_valid (fresh : bool) : stm maps unit := λ m,
  let v := if fresh then IDENTITY_EXCEPTIONS_VALID_FRESH else IDENTITY_EXCEPTIONS_VALID_STALE in
  let '(a, ok) := am_set (iam_exceptions_valid m) 0 v in
  (mkIdentityAllowMaps (iam_allow_cgroups m) a,
   if ok then Ok () else Err (EMsg "failed to write ID_EXCEPT_VALID[0]")).

Definition seed_allow_cgroup (cgroup_id : Z) : stm maps unit := λ m,
  let '(h, ok) := hm_insert (iam_allow_cgroups m) cgroup_id IDENTITY_ALLOW_VALUE in
  (mkIdentityAllowMaps h (iam_exceptions_valid m),
   if ok then Ok () else Err (EMsg "failed to insert ID_ALLOW_CGROUP")).

Definition remove_allow_cgroup (cgroup_id : Z) : stm maps unit := λ m,
  let '(h, out) := hm_remove (iam_allow_cgroups m) cgroup_id in
  (mkIdentityAllowMaps h (iam_exceptions_valid m),
   match out with
   | Removed | KeyNotFound => Ok ()
   | RemoveError => Err (EMsg "failed to remove ID_ALLOW_CGROUP")
   end).

(** [parse_manual_cgroup_ids]: the loop over the comma-separated parts. *)
Fixpoint parse_id_parts (parts : list bytes) : result (list Z) :=
  match parts with
  | [] => Ok []
  | part :: parts =>
      let part := trim part in
      if is_empty part then parse_id_parts parts
      else
        id ← ok_or (EMsg "invalid cgroup_id in NEUROMESH_IDENTITY_ALLOW_CGROUP_IDS") (parse_u64 part);
        ids ← parse_id_parts parts;
        Ok (id :: ids)
  end.
Definition parse_manual_cgroup_ids (raw : bytes) : result (list Z) :=
  out ← parse_id_parts (split_byte 44 raw);
  if bool_decide (IDENTITY_ALLOW_CGROUPS_MAX_ENTRIES < as_uint 32 (Z.of_nat (length out)))
  then Err (EMsg "manual cgroup seed has too many ids")
  else Ok out.

(** [apply_manual_cgroup_seeds_from_env]; [var] is the environment variable.
    The security warning is a log line. *)
Definition apply_manual_cgroup_seeds_from_env (var : option bytes) : stm maps (list Z) :=
  match var with
  | None => mret []
  | Some raw =>
      let raw := trim raw in
      if is_empty raw then mret []
      else
        ids ← st_of_result (parse_manual_cgroup_ids raw);
        _ ← for_each seed_allow_cgroup ids;
        mret ids
  end.

Definition apply_identity_validity (identity : IdentitySectionValidity) : stm maps unit :=
  match identity with
  | Fresh _ => set_exceptions_valid true
  | Invalid _ => set_exceptions_valid false
  end.

Definition invalidate_if_expired (expires_at : option Z) (now : Z) : stm maps bool :=
  match expires_at with
  | None => _ ← set_exceptions_valid false; mret true
  | Some exp =>
      if bool_decide (exp ≤ now) then _ ← set_exceptions_valid false; mret true
      else mret false
  end.

(** ** What the LSM program reads *)
Definition valid_flag (m : maps) : option Z := am_get (iam_exceptions_valid m) 0.
Definition allowed_cgroup (m : maps) (c : Z) : option Z := hm_get (iam_allow_cgroups m) c.
End maps.

(** ** Lemmas *)
Lemma evaluate_fresh scope ids issued expires now s :
  evaluate_identity_section scope ids issued expires now = Fresh s ↔
  s = mkIdentityAllowSection scope ids issued expires ∧
  scope = REQUIRED_SCOPE_PATH_PREFIX ∧ issued < expires ∧ now < expires.
Proof.
  unfold evaluate_identity_section.
  rewrite (bool_decide_eq_true_2 (REQUIRED_SCOPE_PATH_PREFIX = IDENTITY_EXCEPTION_SCOPE_PREFIX))
    by (by vm_compute). simpl.
  case_bool_decide; simpl; [|split; [done|by intros (_ & ? & _)]]. case_bool_decide; [split; [done|intros (_ & _ & ? & ?); lia]|].
  case_bool_decide; [split; [done|intros (_ & _ & ? & ?); lia]|]. split; [|by intros [-> _]].
  intros [= <-]. split_and!; [done|done|lia|lia].
Qed.

Section parse_lemmas.
Context (from_str : bytes → option BundleDoc) (rfc3339 : bytes → option Z).

Lemma identity_of_doc_fresh schema ie now s :
  identity_of_doc rfc3339 schema ie now = Ok (Fresh s) ↔
  (schema = 2 ∨ schema = 3) ∧
  ∃ d, ie = Some d ∧ rfc3339 (id_issued_at d) = Some (ias_issued_at s) ∧
    rfc3339 (id_expires_at d) = Some (ias_expires_at s) ∧
    evaluate_identity_section (id_scope_path_prefix d) (id_spiffe_ids d)
      (ias_issued_at s) (ias_expires_at s) now = Fresh s.
Proof.
  unfold identity_of_doc, parse_rfc3339. split.
  - destruct (bool_decide (schema = 2) || _) eqn:Hs; [|by destruct (bool_decide (schema = 1))].
    apply orb_true_iff in Hs as Hs'. rewrite !bool_decide_eq_true in Hs'.
    destruct ie as [d|]; [|done]. intros Ho. ok_inv Ho.
    apply ok_or_Ok in H, H0. split; [done|].
    exists d. injection Ho as Ho. pose proof Ho as Ho'.
    apply evaluate_fresh in Ho' as [-> _]. by split_and!.
  - intros [Hs (d & -> & Hi & He & Hf)].
    assert (bool_decide (schema = 2) || bool_decide (schema = 3) = true) as ->.
    { destruct Hs as [-> | ->]; done. }
    rewrite Hi, He. simpl. by rewrite Hf.
Qed.

(** C34: a bundle that parses has a supported schema, a version and a non-empty
    deny list; its identity section enables exceptions exactly when the schema
    is 2 or 3, the section is present with two readable timestamps, its scope is
    literally [/tmp/], it expires after it was issued and has not expired. *)
Theorem parse_bundle_fresh_iff body now b :
  parse_policy_bundle_json_at from_str rfc3339 body now = Ok b →
  ∃ doc, from_str body = Some doc ∧
  pb_schema_version b = bd_schema_version doc ∧ pb_schema_version b ∈ [1; 2; 3] ∧
  pb_version b = bd_version doc ∧ pb_version b ≠ [] ∧
  pb_deny_path_prefixes b = bd_deny_path_prefixes doc ∧ pb_deny_path_prefixes b ≠ [] ∧
  ∀ s, pb_identity b = Fresh s ↔
    pb_schema_version b ∈ [2; 3] ∧
    ∃ d issued expires, bd_identity_allow_exceptions doc = Some d ∧
      rfc3339 (id_issued_at d) = Some issued ∧ rfc3339 (id_expires_at d) = Some expires ∧
      id_scope_path_prefix d = REQUIRED_SCOPE_PATH_PREFIX ∧ issued < expires ∧ now < expires ∧
      s = mkIdentityAllowSection (id_scope_path_prefix d) (id_spiffe_ids d) issued expires.
Proof.
  unfold parse_policy_bundle_json_at. intros Hp. ok_inv Hp. rename x into doc.
  apply ok_or_Ok in H.
  exists doc. destruct (_ && _) eqn:Hsch; [done|].
  destruct (is_empty (bd_version doc)) eqn:Hv; [done|].
  destruct (bool_decide (bd_deny_path_prefixes doc = [])) eqn:Hd; [done|].
  ok_inv Hp. simplify_eq/=. unfold is_empty in Hv. bool_split.
  match goal with H : identity_of_doc _ _ _ _ = Ok ?i |- _ => rename i into ident; rename H into Hid end.
  split_and!; try done.
  - rewrite !elem_of_cons. rewrite !andb_false_iff, !negb_false_iff, !bool_decide_eq_true in Hsch. tauto.
  - intros s. pose proof (identity_of_doc_fresh (bd_schema_version doc)
      (bd_identity_allow_exceptions doc) now s) as Hiff. rewrite Hid in Hiff.
    transitivity (Ok ident = Ok (Fresh s)); [naive_solver|]. rewrite Hiff, !elem_of_cons.
    setoid_rewrite evaluate_fresh. split.
    + intros [Hs (d & Hdoc & Hi & He & -> & Hsc & ? & ?)]. split; [tauto|].
      exists d. do 2 eexists. by split_and!.
    + intros [Hs (d & i & xp & Hdoc & Hi & He & Hsc & ? & ? & ->)].
      split; [|exists d; by split_and!]. destruct Hs as [?|[?|Hn]]; [tauto|tauto|].
      by apply not_elem_of_nil in Hn.
Qed.

Lemma parse_fresh_unexpired body now b s :
  parse_policy_bundle_json_at from_str rfc3339 body now = Ok b → pb_identity b = Fresh s →
  now < ias_expires_at s.
Proof.
  unfold parse_policy_bundle_json_at. intros Hp. ok_inv Hp. rename x into doc.
  destruct (_ && _); [done|]. destruct (is_empty _); [done|]. destruct (bool_decide _); [done|].
  ok_inv Hp. injection Hp as <-. cbn [pb_identity]. intros ->.
  match goal with H : identity_of_doc _ _ _ _ = Ok _ |- _ => apply identity_of_doc_fresh in H as (_ & d & _ & _ & _ & Hf) end.
  by apply evaluate_fresh in Hf as (_ & _ & _ & ?).
Qed.
End parse_lemmas.

(** A parser stub for the witnesses: one fixed document, and times that are
    plain second counts. *)
Definition demo_doc (scope expires : bytes) : BundleDoc :=
  mkBundleDoc 3 (lit "v7") [lit "/tmp/"; lit "/opt/x/"]
    (Some (mkIdentityDoc scope [lit "spiffe://neuromesh.security/ns/default/sa/web"] (lit "100") expires))
    (Some (lit " 100 ")) (Some (lit "400")).
Definition demo_rfc3339 (s : bytes) : option Z := secs <$> parse_u64 s.

Lemma parse_bundle_fresh_iff_witness :
  ∃ b, parse_policy_bundle_json_at (λ _, Some (demo_doc (lit "/tmp/") (lit "190"))) demo_rfc3339 [] (secs 120) = Ok b ∧
    ∃ s, pb_identity b = Fresh s.
Proof.
  eexists. split; [vm_compute; reflexivity|].
  edestruct (parse_bundle_fresh_iff (λ _, Some (demo_doc (lit "/tmp/") (lit "190"))) demo_rfc3339 [] (secs 120))
    as (doc & Hdoc & _ & _ & _ & _ & _ & _ & Hiff); [vm_compute; reflexivity|].
  injection Hdoc as <-. eexists. apply Hiff. split.
  - vm_compute. set_solver.
  - do 3 eexists. split_and!; vm_compute; reflexivity.
Defined.

Section map_lemmas.
Context {MH MV : Type} `{HH : HashMap Z MH, HV : ArrayMap Z MV}.
Context `{!HashMapLaws Z MH, !ArrayMapLaws Z MV 1}.
Abbreviation maps := (IdentityAllowMaps MH MV).
Implicit Types (m : maps).

(** What one call leaves of the two maps. *)
Lemma set_exceptions_valid_spec fresh m m' r :
  set_exceptions_valid fresh m = (m', r) →
  iam_allow_cgroups m' = iam_allow_cgroups m ∧
  match r with
  | Ok _ => valid_flag m' = Some (if fresh then IDENTITY_EXCEPTIONS_VALID_FRESH
                                  else IDENTITY_EXCEPTIONS_VALID_STALE)
  | Err _ => valid_flag m' = valid_flag m
  end.
Proof.
  unfold set_exceptions_valid. destruct (am_set _ _ _) as [a []] eqn:E; intros [= <- <-];
    split; try done; unfold valid_flag; cbn [iam_exceptions_valid].
  - by eapply am_set_same.
  - by eapply am_set_fail.
Qed.

Lemma seed_allow_cgroup_spec c m m' r :
  seed_allow_cgroup c m = (m', r) →
  iam_exceptions_valid m' = iam_exceptions_valid m ∧
  ∀ j, allowed_cgroup m' j =
    if is_ok r && bool_decide (j = c) then Some IDENTITY_ALLOW_VALUE else allowed_cgroup m j.
Proof.
  unfold seed_allow_cgroup, allowed_cgroup. destruct (hm_insert _ _ _) as [h []] eqn:E;
    intros [= <- <-]; split; try done; intros j; cbn.
  - case_bool_decide; [subst; by eapply hm_insert_same|by eapply hm_insert_other].
  - by eapply hm_insert_fail.
Qed.

Lemma remove_allow_cgroup_spec c m m' r :
  remove_allow_cgroup c m = (m', r) →
  iam_exceptions_valid m' = iam_exceptions_valid m ∧
  ∀ j, allowed_cgroup m' j =
    if is_ok r && bool_decide (j = c) then None else allowed_cgroup m j.
Proof.
  unfold remove_allow_cgroup, allowed_cgroup. destruct (hm_remove _ _) as [h []] eqn:E;
    intros [= <- <-]; split; try done; intros j; cbn.
  - case_bool_decide; [subst; by eapply hm_remove_same|by eapply hm_remove_other].
  - case_bool_decide; [subst|by eapply hm_remove_missing_same].
    erewrite hm_remove_missing_same by done. by eapply hm_remove_missing.
  - by eapply hm_remove_error.
Qed.

(** What the LSM program needs for an exception of cgroup [c]. *)
Definition exception_active m (c : Z) : bool :=
  bool_decide (valid_flag m = Some IDENTITY_EXCEPTIONS_VALID_FRESH)
  && bool_decide (allowed_cgroup m c = Some IDENTITY_ALLOW_VALUE).

(** The expiry gate. With no known expiry, or at or past it, a successful
    call switches off the exceptions of every cgroup, seeded ones included;
    before the expiry it changes nothing; and a failed call is one whose flag
    write failed, which leaves the flag as it was. *)
Theorem expiry_gate expires_at now m :
  let '(m', r) := invalidate_if_expired expires_at now m in
  let expired := match expires_at with Some exp => bool_decide (exp ≤ now) | None => true end in
  iam_allow_cgroups m' = iam_allow_cgroups m ∧
  match r with
  | Ok b => b = expired ∧ (if b then ∀ c, exception_active m' c = false else m' = m)
  | Err _ => expired = true ∧ valid_flag m' = valid_flag m
  end.
Proof.
  assert (∀ m' r, set_exceptions_valid false m = (m', r) →
    iam_allow_cgroups m' = iam_allow_cgroups m ∧
    match r with Ok _ => ∀ c, exception_active m' c = false | Err _ => valid_flag m' = valid_flag m end) as Hset.
  { intros m' r [Ha Hv]%set_exceptions_valid_spec. split; [done|]. destruct r; [|done].
    intros c. unfold exception_active. rewrite Hv. done. }
  assert (∀ b : bool, b = true →
    let '(m', r) := (set_exceptions_valid false ≫= λ _, mret true : stm maps bool) m in
    iam_allow_cgroups m' = iam_allow_cgroups m ∧
    match r with
    | Ok b' => b' = b ∧ (if b' then ∀ c, exception_active m' c = false else m' = m)
    | Err _ => b = true ∧ valid_flag m' = valid_flag m
    end) as Hrun.
  { intros b ->. rewrite stm_bind_run. destruct (set_exceptions_valid false m) as [m' [u|e]] eqn:E;
      destruct (Hset _ _ eq_refl) as [Ha Hv]; cbn; by split_and!. }
  destruct expires_at as [exp|]; unfold invalidate_if_expired; [|by apply Hrun].
  destruct (bool_decide (exp ≤ now)) eqn:Hb; [by apply Hrun|]. cbn. by split_and!.
Qed.
End map_lemmas.

(** A fresh pair of maps with fault schedules. *)
Definition demo_id_maps (fh fv : list bool) : IdentityAllowMaps (sim_hash Z) (sim_array Z 1) :=
  mkIdentityAllowMaps (mkSimHash {[ 42 := IDENTITY_ALLOW_VALUE ]} 1024 fh)
    (mkSimArray 0 {[ 0 := IDENTITY_EXCEPTIONS_VALID_FRESH ]} fv).

Lemma expiry_gate_witness :
  exception_active (demo_id_maps [] []) 42 = true ∧
  exception_active (invalidate_if_expired (Some (secs 190)) (secs 190) (demo_id_maps [] [])).1 42 = false.
Proof.
  split; [by vm_compute|].
  pose proof (expiry_gate (Some (secs 190)) (secs 190) (demo_id_maps [] [])) as H.
  destruct (invalidate_if_expired _ _ _) as [m' r] eqn:E. cbn [fst]. destruct H as [_ H].
  assert (r = Ok true) as -> by (vm_compute in E; congruence). apply H.
Defined.
