(* ===== verification/Attestation.v ===== *)
(** * Bytecode attestation

    [apps/agent-ebpf-sensor/src/bytecode_attestation.rs]: the detached signature
    over the manifest (also used for policy bundles) and the check of the embedded
    BPF objects against the signed manifest, before any of them is loaded. Base64,
    SHA-256, the two signature schemes and the JSON decoder are third-party code
    and parameters; a file read may fail. *)

From S2P Require Import Prelude RustStd Common.

Definition DEFAULT_COSIGN_PUBLIC_KEY_PATH : bytes := lit "/etc/neuromesh/cosign/cosign.pub".
Definition DEFAULT_BYTECODE_MANIFEST_PATH : bytes := lit "/etc/neuromesh/bytecode-manifest.json".
Definition DEFAULT_BYTECODE_MANIFEST_SIG_PATH : bytes := lit "/etc/neuromesh/bytecode-manifest.sig".
Definition REQUIRED_ARTIFACT_NAMES : list bytes :=
  [lit "sys_exec.bpf.o"; lit "network_filter.bpf.o"; lit "agent-ebpf-sensor-ebpf"].
Definition EXPECTED_SCHEMA_VERSION : Z := 1.
Definition ED25519_SIGNATURE_LENGTH : nat := 64.

Record EmbeddedArtifact : Type := mkEmbeddedArtifact {
  ea_name : bytes;
  ea_bytes : bytes
}.

Inductive AttestationError : Type :=
| ManifestMissing (path : bytes)
| ManifestUnreadable (path : bytes)
| SignatureMissing (path : bytes)
| SignatureUnreadable (path : bytes)
| PublicKeyMissing (path : bytes)
| PublicKeyUnreadable (path : bytes)
| PublicKeyInvalid (reason : string)
| PathNotAbsolute (env : string) (path : bytes)
| SignatureInvalid (reason : string)
| ManifestParse
| ManifestSchema (reason : string)
| ArtifactMissingFromManifest (name : bytes)
| UnexpectedArtifactInManifest (name : bytes)
| DigestMismatch (name expected actual : bytes).

(** [Result<A, AttestationError>]. *)
Inductive ares (A : Type) : Type :=
| AOk (a : A)
| AErr (e : AttestationError).
Arguments AOk {A} a.
Arguments AErr {A} e.
#[export] Instance ares_bind : MBind ares := λ A B f r,
  match r with AOk a => f a | AErr e => AErr e end.

Record ManifestArtifact : Type := mkManifestArtifact {
  ma_name : bytes;
  ma_digest : bytes
}.
Record Manifest : Type := mkManifest {
  mf_schema_version : Z;
  mf_git_sha : bytes;
  mf_build_timestamp : bytes;
  mf_artifacts : list ManifestArtifact
}.

(** ** Third-party primitives *)
Class Cosign : Type := {
  p256_key : Type;
  ecdsa_sig : Type;
  ed25519_key : Type;
  base64_decode : bytes → option bytes;
  p256_from_pem : bytes → option p256_key;
  ecdsa_from_der : bytes → option ecdsa_sig;
  ecdsa_from_slice : bytes → option ecdsa_sig;
  p256_verify : p256_key → bytes → ecdsa_sig → bool;
  ed25519_from_pem : bytes → option ed25519_key;
  ed25519_verify_strict : ed25519_key → bytes → bytes → bool;
  sha256 : bytes → bytes
}.

(** [fs::read]: contents, not found, or another error. *)
Inductive read_outcome : Type := ReadOk (b : bytes) | ReadNotFound | ReadFailed.

(** ** Digests *)
Definition hex_digit_lower (d : Z) : Z := if bool_decide (d < 10) then 48 + d else 87 + d.
Definition hex_encode (b : bytes) : bytes :=
  concat (map (λ x, [hex_digit_lower (Z.shiftr x 4); hex_digit_lower (Z.land x 15)]) b).

Section attest.
Context `{Cosign} (manifest_from_slice : bytes → option Manifest).

Definition sha256_digest (b : bytes) : bytes := lit "sha256:" ++ hex_encode (sha256 b).

(** ** The detached signature *)
Definition parse_ecdsa_signature (sig_raw : bytes) : ares ecdsa_sig :=
  match ecdsa_from_der sig_raw with
  | Some s => AOk s
  | None =>
      match ecdsa_from_slice sig_raw with
      | Some s => AOk s
      | None => AErr (SignatureInvalid "ECDSA signature neither DER nor raw fixed-size")
      end
  end.

Definition verify_cosign_blob_signature (public_key_pem message signature_file_bytes : bytes) : ares unit :=
  if negb (utf8_valid signature_file_bytes) then AErr (SignatureInvalid "signature file is not UTF-8")
  else
    let sig_b64 := trim signature_file_bytes in
    if is_empty sig_b64 then AErr (SignatureInvalid "signature file is empty")
    else
      match base64_decode sig_b64 with
      | None => AErr (SignatureInvalid "signature is not valid base64")
      | Some sig_raw =>
          if negb (utf8_valid public_key_pem) then AErr (PublicKeyInvalid "public key PEM is not UTF-8")
          else
            match p256_from_pem public_key_pem with
            | Some key =>
                match parse_ecdsa_signature sig_raw with
                | AErr e => AErr e
                | AOk s =>
                    if p256_verify key message s then AOk ()
                    else AErr (SignatureInvalid "ECDSA P-256 verification failed")
                end
            | None =>
                match ed25519_from_pem public_key_pem with
                | Some key =>
                    if negb (bool_decide (length sig_raw = ED25519_SIGNATURE_LENGTH)) then
                      AErr (SignatureInvalid "Ed25519 signature length")
                    else if ed25519_verify_strict key message sig_raw then AOk ()
                    else AErr (SignatureInvalid "Ed25519 verification failed")
                | None => AErr (PublicKeyInvalid "PEM is neither Cosign ECDSA P-256 nor Ed25519")
                end
            end
      end.

(** ** The artifact set *)
Definition has_artifact (name : bytes) (artifacts : list EmbeddedArtifact) : bool :=
  existsb (λ a, bool_decide (ea_name a = name)) artifacts.
Definition has_entry (name : bytes) (entries : list ManifestArtifact) : bool :=
  existsb (λ a, bool_decide (ma_name a = name)) entries.

Fixpoint check_required (names : list bytes) (manifest : Manifest) (artifacts : list EmbeddedArtifact) : ares unit :=
  match names with
  | [] => AOk ()
  | required :: names =>
      if negb (has_artifact required artifacts) then AErr (ArtifactMissingFromManifest required)
      else if negb (has_entry required (mf_artifacts manifest)) then AErr (ArtifactMissingFromManifest required)
      else check_required names manifest artifacts
  end.

Fixpoint check_entries (entries : list ManifestArtifact) : ares unit :=
  match entries with
  | [] => AOk ()
  | entry :: entries =>
      if negb (existsb (λ n, bool_decide (n = ma_name entry)) REQUIRED_ARTIFACT_NAMES) then
        AErr (UnexpectedArtifactInManifest (ma_name entry))
      else if negb (starts_with (ma_digest entry) (lit "sha256:"))
              || negb (bool_decide (length (ma_digest entry) = 7 + 64)%nat) then
        AErr (ManifestSchema "artifact digest must be sha256:<64 lowercase hex>")
      else check_entries entries
  end.

Definition validate_artifact_set (manifest : Manifest) (artifacts : list EmbeddedArtifact) : ares unit :=
  if negb (bool_decide (length artifacts = length REQUIRED_ARTIFACT_NAMES)) then
    AErr (ManifestSchema "caller supplied the wrong number of artifacts")
  else
    match check_required REQUIRED_ARTIFACT_NAMES manifest artifacts with
    | AErr e => AErr e
    | AOk _ =>
        match check_entries (mf_artifacts manifest) with
        | AErr e => AErr e
        | AOk _ =>
            if negb (bool_decide (length (mf_artifacts manifest) = length REQUIRED_ARTIFACT_NAMES)) then
              AErr (ManifestSchema "manifest has the wrong number of artifacts")
            else AOk ()
        end
    end.

(** The digest loop; [None] is the panic of [expect] when an entry is missing. *)
Fixpoint check_digests (entries : list ManifestArtifact) (artifacts : list EmbeddedArtifact) : option (ares unit) :=
  match artifacts with
  | [] => Some (AOk ())
  | a :: artifacts =>
      '(_, entry) ← list_find (λ e, ma_name e = ea_name a) entries;
      if is_empty (ea_bytes a) then
        Some (AErr (DigestMismatch (ea_name a) (ma_digest entry)
                     (lit "sha256:<unreadable-or-empty-embedded-bytes>")))
      else
        let actual := sha256_digest (ea_bytes a) in
        if negb (bool_decide (actual = ma_digest entry)) then
          Some (AErr (DigestMismatch (ea_name a) (ma_digest entry) actual))
        else check_digests entries artifacts
  end.

(** [read_file]. *)
Definition read_file (r : read_outcome) (missing unreadable : AttestationError) : ares bytes :=
  match r with ReadOk b => AOk b | ReadNotFound => AErr missing | ReadFailed => AErr unreadable end.

(** The checks of [verify_artifacts] between the reads and the digest loop. *)
Definition open_manifest (fs_read : bytes → read_outcome) (manifest_path signature_path public_key_path : bytes)
    (artifacts : list EmbeddedArtifact) : ares Manifest :=
  public_key_pem ← read_file (fs_read public_key_path) (PublicKeyMissing public_key_path) (PublicKeyUnreadable public_key_path);
  manifest_bytes ← read_file (fs_read manifest_path) (ManifestMissing manifest_path) (ManifestUnreadable manifest_path);
  signature_bytes ← read_file (fs_read signature_path) (SignatureMissing signature_path) (SignatureUnreadable signature_path);
  _ ← verify_cosign_blob_signature public_key_pem manifest_bytes signature_bytes;
  match manifest_from_slice manifest_bytes with
  | None => AErr ManifestParse
  | Some manifest =>
      if negb (bool_decide (mf_schema_version manifest = EXPECTED_SCHEMA_VERSION)) then
        AErr (ManifestSchema "schema_version")
      else if is_empty (trim (mf_git_sha manifest)) then AErr (ManifestSchema "git_sha is empty")
      else if is_empty (trim (mf_build_timestamp manifest)) then AErr (ManifestSchema "build_timestamp is empty")
      else
        match validate_artifact_set manifest artifacts with
        | AErr e => AErr e
        | AOk _ => AOk manifest
        end
  end.

Definition verify_artifacts (fs_read : bytes → read_outcome) (manifest_path signature_path public_key_path : bytes)
    (artifacts : list EmbeddedArtifact) : option (ares unit) :=
  match open_manifest fs_read manifest_path signature_path public_key_path artifacts with
  | AErr e => Some (AErr e)
  | AOk manifest => check_digests (mf_artifacts manifest) artifacts
  end.

(** ** Start-up *)
Definition env_abs_path (env : string) (var : option bytes) (dflt : bytes) : ares bytes :=
  let raw := default dflt var in
  if negb (starts_with raw [47]) then AErr (PathNotAbsolute env raw) else AOk raw.

Definition paths_from_env (manifest sig key : option bytes) : ares (bytes * bytes * bytes) :=
  m ← env_abs_path "NEUROMESH_BYTECODE_MANIFEST_PATH" manifest DEFAULT_BYTECODE_MANIFEST_PATH;
  s ← env_abs_path "NEUROMESH_BYTECODE_MANIFEST_SIG_PATH" sig DEFAULT_BYTECODE_MANIFEST_SIG_PATH;
  k ← env_abs_path "NEUROMESH_COSIGN_PUBLIC_KEY_PATH" key DEFAULT_COSIGN_PUBLIC_KEY_PATH;
  AOk (m, s, k).

Definition verify_startup (fs_read : bytes → read_outcome) (manifest sig key : option bytes)
    (artifacts : list EmbeddedArtifact) : option (ares unit) :=
  match paths_from_env manifest sig key with
  | AErr e => Some (AErr e)
  | AOk (m, s, k) => verify_artifacts fs_read m s k artifacts
  end.
End attest.

(** ** Lemmas *)
Lemma check_required_ok names mf arts :
  check_required names mf arts = AOk () ↔
  Forall (λ n, n ∈ map ea_name arts ∧ n ∈ map ma_name (mf_artifacts mf)) names.
Proof.
  assert (∀ n, has_artifact n arts = true ↔ n ∈ map ea_name arts) as Ha.
  { intros n. unfold has_artifact. rewrite existsb_exists_elem, list_elem_of_fmap.
    setoid_rewrite bool_decide_eq_true. naive_solver. }
  assert (∀ n, has_entry n (mf_artifacts mf) = true ↔ n ∈ map ma_name (mf_artifacts mf)) as He.
  { intros n. unfold has_entry. rewrite existsb_exists_elem, list_elem_of_fmap.
    setoid_rewrite bool_decide_eq_true. naive_solver. }
  induction names as [|n names IH]; simpl; [split; [constructor|done]|].
  rewrite Forall_cons, <- IH, <- Ha, <- He.
  destruct (has_artifact n arts), (has_entry n (mf_artifacts mf)); simpl; naive_solver.
Qed.

Definition digest_form (d : bytes) : Prop := starts_with d (lit "sha256:") = true ∧ length d = 71%nat.

Lemma check_entries_ok entries :
  check_entries entries = AOk () ↔
  Forall (λ e, ma_name e ∈ REQUIRED_ARTIFACT_NAMES ∧ digest_form (ma_digest e)) entries.
Proof.
  induction entries as [|e entries IH]; cbn [check_entries]; [split; [constructor|done]|].
  rewrite Forall_cons, <- IH. unfold digest_form.
  assert (existsb (λ n, bool_decide (n = ma_name e)) REQUIRED_ARTIFACT_NAMES = true ↔
          ma_name e ∈ REQUIRED_ARTIFACT_NAMES) as Hex.
  { rewrite existsb_exists_elem. setoid_rewrite bool_decide_eq_true. naive_solver. }
  rewrite <- Hex. destruct (existsb _ _); cbn [negb]; [|naive_solver].
  destruct (starts_with (ma_digest e) (lit "sha256:")); cbn [negb orb]; [|naive_solver].
  destruct (decide (length (ma_digest e) = 71%nat)).
  - rewrite bool_decide_eq_true_2 by done. cbn [negb]. naive_solver.
  - rewrite bool_decide_eq_false_2 by done. cbn [negb]. naive_solver.
Qed.

Lemma required_nodup : NoDup REQUIRED_ARTIFACT_NAMES.
Proof. compute_done. Qed.

(** Three names that contain the three required ones are exactly those. *)
Lemma names_are_required (names : list bytes) :
  length names = length REQUIRED_ARTIFACT_NAMES →
  Forall (λ n, n ∈ names) REQUIRED_ARTIFACT_NAMES → names ≡ₚ REQUIRED_ARTIFACT_NAMES.
Proof.
  intros Hl Hin. symmetry. apply submseteq_length_Permutation; [|lia].
  apply NoDup_submseteq; [apply required_nodup|]. intros x Hx. rewrite Forall_forall in Hin. by apply Hin.
Qed.

Lemma validate_artifact_set_ok mf arts :
  validate_artifact_set mf arts = AOk () ↔
  map ea_name arts ≡ₚ REQUIRED_ARTIFACT_NAMES ∧
  map ma_name (mf_artifacts mf) ≡ₚ REQUIRED_ARTIFACT_NAMES ∧
  Forall (λ e, digest_form (ma_digest e)) (mf_artifacts mf).
Proof.
  unfold validate_artifact_set. split.
  - case_bool_decide as Hl; cbn [negb]; [|done].
    destruct (check_required _ mf arts) as [[]|] eqn:Hr; [|done].
    destruct (check_entries (mf_artifacts mf)) as [[]|] eqn:He; [|done].
    case_bool_decide as Hm; cbn [negb]; [|done]. intros _.
    apply check_required_ok, Forall_and in Hr as [Ha Hb]. apply check_entries_ok, Forall_and in He as [_ Hd].
    split_and!; [| |done]; apply names_are_required; rewrite ?length_map; done.
  - intros (Ha & Hm & Hd).
    assert (length arts = length REQUIRED_ARTIFACT_NAMES) as Hla by (by rewrite <- Ha, length_map).
    assert (length (mf_artifacts mf) = length REQUIRED_ARTIFACT_NAMES) as Hlm by (by rewrite <- Hm, length_map).
    rewrite (bool_decide_eq_true_2 (length arts = _)) by done. cbn [negb].
    assert (check_required REQUIRED_ARTIFACT_NAMES mf arts = AOk ()) as ->.
    { apply check_required_ok, Forall_forall. intros n Hn. by rewrite Ha, Hm. }
    assert (check_entries (mf_artifacts mf) = AOk ()) as ->.
    { apply check_entries_ok, Forall_and. split; [|done]. apply Forall_forall. intros e He.
      rewrite <- Hm. apply list_elem_of_fmap. by exists e. }
    by rewrite bool_decide_eq_true_2.
Qed.

Section theorems.
Context `{Cosign} (manifest_from_slice : bytes → option Manifest).

Lemma list_find_name (entries : list ManifestArtifact) n :
  n ∈ map ma_name entries → ∃ i e, list_find (λ e, ma_name e = n) entries = Some (i, e) ∧
    e ∈ entries ∧ ma_name e = n.
Proof.
  intros (e & -> & He)%list_elem_of_fmap.
  destruct (list_find_elem_of (λ e', ma_name e' = ma_name e) entries e He eq_refl) as [[i e'] Hf].
  exists i, e'. split; [done|]. apply list_find_Some in Hf as (Hi & Hn & _).
  split; [by eapply list_elem_of_lookup_2|done].
Qed.

Lemma check_digests_ok entries arts :
  NoDup (map ma_name entries) →
  Forall (λ a, ea_name a ∈ map ma_name entries) arts →
  check_digests entries arts ≠ None ∧
  (check_digests entries arts = Some (AOk ()) ↔
   Forall (λ a, ea_bytes a ≠ [] ∧ mkManifestArtifact (ea_name a) (sha256_digest (ea_bytes a)) ∈ entries) arts).
Proof.
  intros Hnd Hin. induction Hin as [|a arts Ha _ [IHn IH]]; [done|]. cbn [check_digests].
  destruct (list_find_name _ _ Ha) as (i & e & -> & He & Hn). cbn [mbind option_bind].
  rewrite Forall_cons, <- IH. clear IH. unfold is_empty.
  assert (mkManifestArtifact (ea_name a) (sha256_digest (ea_bytes a)) ∈ entries ↔
          sha256_digest (ea_bytes a) = ma_digest e) as ->.
  { split.
    - intros Hx. assert (e = mkManifestArtifact (ea_name a) (sha256_digest (ea_bytes a))) as ->; [|done].
      apply list_elem_of_lookup in Hx as [j Hj]. apply list_elem_of_lookup in He as [k Hk].
      assert (k = j) as ->.
      { eapply (NoDup_lookup (map ma_name entries)); [done|by rewrite list_lookup_fmap, Hk|].
        rewrite list_lookup_fmap, Hj. simpl. by rewrite Hn. }
      congruence.
    - intros ->. rewrite <- Hn. by destruct e. }
  destruct (decide (ea_bytes a = [])) as [Hz|Hz].
  { rewrite bool_decide_eq_true_2 by done. split; [done|]. naive_solver. }
  rewrite bool_decide_eq_false_2 by done.
  destruct (decide (sha256_digest (ea_bytes a) = ma_digest e)) as [Hd|Hd].
  - rewrite bool_decide_eq_true_2 by done. cbn [negb]. naive_solver.
  - rewrite bool_decide_eq_false_2 by done. cbn [negb]. split; [done|]. naive_solver.
Qed.

(** C15: verification succeeds exactly when the three files can be read, the
    detached signature verifies over the manifest's exact bytes, the manifest is
    well formed and lists the three required objects once each, the program
    supplies those three objects, and every one is non-empty with the digest
    the manifest gives; it never panics. *)
Theorem attestation_exact fs_read mpath spath kpath artifacts :
  verify_artifacts manifest_from_slice fs_read mpath spath kpath artifacts ≠ None ∧
  (verify_artifacts manifest_from_slice fs_read mpath spath kpath artifacts = Some (AOk ()) ↔
   ∃ pem mbytes sbytes mf,
     fs_read kpath = ReadOk pem ∧ fs_read mpath = ReadOk mbytes ∧ fs_read spath = ReadOk sbytes ∧
     verify_cosign_blob_signature pem mbytes sbytes = AOk () ∧
     manifest_from_slice mbytes = Some mf ∧
     mf_schema_version mf = EXPECTED_SCHEMA_VERSION ∧
     trim (mf_git_sha mf) ≠ [] ∧ trim (mf_build_timestamp mf) ≠ [] ∧
     map ea_name artifacts ≡ₚ REQUIRED_ARTIFACT_NAMES ∧
     map ma_name (mf_artifacts mf) ≡ₚ REQUIRED_ARTIFACT_NAMES ∧
     Forall (λ e, digest_form (ma_digest e)) (mf_artifacts mf) ∧
     Forall (λ a, ea_bytes a ≠ [] ∧
       mkManifestArtifact (ea_name a) (sha256_digest (ea_bytes a)) ∈ mf_artifacts mf) artifacts).
Proof.
  unfold verify_artifacts.
  assert (∀ mf, open_manifest manifest_from_slice fs_read mpath spath kpath artifacts = AOk mf ↔
    ∃ pem mbytes sbytes, fs_read kpath = ReadOk pem ∧ fs_read mpath = ReadOk mbytes ∧
      fs_read spath = ReadOk sbytes ∧ verify_cosign_blob_signature pem mbytes sbytes = AOk () ∧
      manifest_from_slice mbytes = Some mf ∧ mf_schema_version mf = EXPECTED_SCHEMA_VERSION ∧
      trim (mf_git_sha mf) ≠ [] ∧ trim (mf_build_timestamp mf) ≠ [] ∧
      validate_artifact_set mf artifacts = AOk ()) as Hopen.
  { intros mf. unfold open_manifest, read_file. split.
    - destruct (fs_read kpath) as [pem| |]; cbn [mbind ares_bind]; [|done..].
      destruct (fs_read mpath) as [mb| |]; cbn [mbind ares_bind]; [|done..].
      destruct (fs_read spath) as [sb| |]; cbn [mbind ares_bind]; [|done..].
      destruct (verify_cosign_blob_signature pem mb sb) as [[]|] eqn:Hv; cbn [mbind ares_bind]; [|done].
      destruct (manifest_from_slice mb) as [mf'|] eqn:Hm; [|done].
      case_bool_decide; cbn [negb]; [|done]. unfold is_empty. case_bool_decide; [done|].
      case_bool_decide; [done|].
      destruct (validate_artifact_set mf' artifacts) as [[]|] eqn:Hs; [|done].
      intros [= <-]. exists pem, mb, sb. by split_and!.
    - intros (pem & mb & sb & -> & -> & -> & Hv & Hp & Hsch & Hg & Ht & Hset). cbn [mbind ares_bind].
      rewrite Hv. cbn [mbind ares_bind]. rewrite Hp, Hset. unfold is_empty.
      rewrite bool_decide_eq_true_2 by done. cbn [negb]. by rewrite !bool_decide_eq_false_2. }
  destruct (open_manifest _ _ _ _ _ _) as [mf|e] eqn:Ho.
  - destruct (proj1 (Hopen mf) eq_refl) as (pem & mb & sb & Hk & Hm & Hs & Hv & Hp & Hsch & Hg & Ht & Hset).
    pose proof Hset as (Ha & Hn & Hd)%validate_artifact_set_ok.
    destruct (check_digests_ok (mf_artifacts mf) artifacts) as [Hnn Hiff].
    + rewrite Hn. apply required_nodup.
    + apply Forall_forall. intros a Hin. rewrite Hn, <- Ha. apply list_elem_of_fmap. by exists a.
    + split; [done|]. rewrite Hiff. split; [intros Hall; exists pem, mb, sb, mf; by split_and!|].
      intros (pem' & mb' & sb' & mf' & _ & Hm' & _ & _ & Hp' & _ & _ & _ & _ & _ & _ & Hall).
      rewrite Hm in Hm'. injection Hm' as <-. rewrite Hp in Hp'. by injection Hp' as <-.
  - split; [done|]. split; [done|].
    intros (pem & mb & sb & mf & Hk & Hm & Hs & Hv & Hp & Hsch & Hg & Ht & Ha & Hn & Hd & _).
    assert (AErr e = AOk mf); [|done]. apply Hopen. exists pem, mb, sb. split_and!; try done.
    by apply validate_artifact_set_ok.
Qed.
End theorems.
