(* ===== verification/SideTable.v ===== *)
(** * The correlator's side table

    [identity_correlator/side_table.rs], [allowlist.rs] and [invalidate.rs]:
    the in-memory index of the cgroups the correlator put in the BPF allow map,
    by cgroup id, by pod and by path, the cache of allowed SPIFFE ids, and the
    planners that turn an event into a list of ids to delete.

    A [HashMap] or [HashSet] is a [gmap] or [gset]; where the source iterates one,
    the model iterates in the order of [map_to_list] or [elements], and no theorem
    depends on that order. The specification of the table is the map by cgroup id;
    the two other maps are indexes of it ([st_wf]). *)

From S2P Require Import Prelude RustStd Common.

(** ** Paths

    [PathBuf] equality and hashing compare components: repeated separators, a
    trailing separator and [.] components that are not first are ignored. *)
Definition skip_component (c : bytes) : bool := bool_decide (c = []) || bool_decide (c = [46]).
Definition path_key (p : bytes) : bool * list bytes :=
  let parts := split_byte 47 p in
  match parts with
  | [] => (false, [])
  | first :: rest =>
      let rest := filter (λ c, skip_component c = false) rest in
      if bool_decide (first = []) then (starts_with p [47], rest) else (false, first :: rest)
  end.

(** ** Data *)
Record SideEntry : Type := mkSideEntry {
  sd_pod_uid : bytes;
  sd_namespace : bytes;
  sd_service_account : bytes;
  sd_spiffe_id : bytes;
  sd_cgroup_path : bytes;
  sd_inode : Z
}.

Inductive InsertOutcome : Type := Inserted | Replaced | RejectedFull.

Record SideTable : Type := mkSideTable {
  by_cgroup : gmap Z SideEntry;
  by_pod : gmap bytes (gset Z);
  by_path : gmap (bool * list bytes) Z
}.

Definition st_new : SideTable := mkSideTable ∅ ∅ ∅.

Definition st_len (t : SideTable) : nat := size (by_cgroup t).
Definition st_is_empty (t : SideTable) : bool := bool_decide (by_cgroup t = ∅).
Definition st_entry (t : SideTable) (cgroup_id : Z) : option SideEntry := by_cgroup t !! cgroup_id.
Definition cgroup_ids (t : SideTable) : list Z := (map_to_list (by_cgroup t)).*1.
Definition entries (t : SideTable) : list (Z * SideEntry) := map_to_list (by_cgroup t).

(** ** Operations *)
Definition unlink_indexes (t : SideTable) (cgroup_id : Z) (entry : SideEntry) : SideTable :=
  let path' := delete (path_key (sd_cgroup_path entry)) (by_path t) in
  let pod' :=
    if negb (is_empty (sd_pod_uid entry)) then
      match by_pod t !! sd_pod_uid entry with
      | Some set =>
          let set := set ∖ {[cgroup_id]} in
          if bool_decide (set = ∅) then delete (sd_pod_uid entry) (by_pod t)
          else <[sd_pod_uid entry := set]> (by_pod t)
      | None => by_pod t
      end
    else by_pod t in
  mkSideTable (by_cgroup t) pod' path'.

Definition remove_by_cgroup (cgroup_id : Z) (t : SideTable) : SideTable * option SideEntry :=
  match by_cgroup t !! cgroup_id with
  | None => (t, None)
  | Some entry =>
      (unlink_indexes (mkSideTable (delete cgroup_id (by_cgroup t)) (by_pod t) (by_path t))
         cgroup_id entry, Some entry)
  end.

Definition contains_key (t : SideTable) (cgroup_id : Z) : bool :=
  bool_decide (is_Some (by_cgroup t !! cgroup_id)).

(** [SideTable::insert]. *)
Definition st_insert (cgroup_id : Z) (entry : SideEntry) (t : SideTable) : SideTable * InsertOutcome :=
  if negb (contains_key t cgroup_id)
     && bool_decide (IDENTITY_ALLOW_CGROUPS_MAX_ENTRIES ≤ as_uint 32 (Z.of_nat (st_len t)))
  then (t, RejectedFull)
  else
    let outcome := if contains_key t cgroup_id then Replaced else Inserted in
    let t := (remove_by_cgroup cgroup_id t).1 in
    let pod' :=
      if negb (is_empty (sd_pod_uid entry)) then
        <[sd_pod_uid entry := default ∅ (by_pod t !! sd_pod_uid entry) ∪ {[cgroup_id]}]> (by_pod t)
      else by_pod t in
    (mkSideTable (<[cgroup_id := entry]> (by_cgroup t)) pod'
       (<[path_key (sd_cgroup_path entry) := cgroup_id]> (by_path t)), outcome).

(** One turn of the loop of [remove_by_pod]. *)
Definition remove_pod_id (acc : SideTable * list (Z * SideEntry)) (id : Z) :
    SideTable * list (Z * SideEntry) :=
  let '(t, out) := acc in
  match by_cgroup t !! id with
  | Some entry =>
      (mkSideTable (delete id (by_cgroup t)) (by_pod t)
         (delete (path_key (sd_cgroup_path entry)) (by_path t)), out ++ [(id, entry)])
  | None => (t, out)
  end.
Definition remove_by_pod (pod_uid : bytes) (t : SideTable) : SideTable * list (Z * SideEntry) :=
  match by_pod t !! pod_uid with
  | None => (t, [])
  | Some ids =>
      foldl remove_pod_id
        (mkSideTable (by_cgroup t) (delete pod_uid (by_pod t)) (by_path t), []) (elements ids)
  end.

Definition plan_pe_allowlist_revoke (t : SideTable) (allowed : gset bytes) : list Z :=
  (filter (λ p, negb (is_empty (sd_spiffe_id p.2)) && negb (bool_decide (sd_spiffe_id p.2 ∈ allowed)) = true)
     (entries t)).*1.

Definition cgroup_id_for_path (t : SideTable) (path : bytes) : option Z := by_path t !! path_key path.

(** [SideTable::clear]. *)
Definition st_clear (t : SideTable) : SideTable * list (Z * SideEntry) := (st_new, entries t).

(** Removes a list of ids one at a time and keeps what was there. *)
Definition remove_id (acc : SideTable * list (Z * SideEntry)) (id : Z) :
    SideTable * list (Z * SideEntry) :=
  let '(t, out) := acc in
  match remove_by_cgroup id t with
  | (t, Some e) => (t, out ++ [(id, e)])
  | (t, None) => (t, out)
  end.

(** [sweep_missing_paths]; [exists_] is [Path::exists]. *)
Definition sweep_missing_paths (exists_ : bytes → bool) (t : SideTable) :
    SideTable * list (Z * SideEntry) :=
  let stale := (filter (λ p, exists_ (sd_cgroup_path p.2) = false) (entries t)).*1 in
  foldl remove_id (t, []) stale.

(** ** The allowlist cache: a set behind a lock *)
Definition PeAllowlistCache : Type := gset bytes.
Definition pe_new : PeAllowlistCache := ∅.
Definition pe_replace (ids : list bytes) (c : PeAllowlistCache) : PeAllowlistCache := list_to_set ids.
Definition pe_clear (c : PeAllowlistCache) : PeAllowlistCache := ∅.
Definition pe_contains (c : PeAllowlistCache) (spiffe_id : bytes) : bool := bool_decide (spiffe_id ∈ c).
Definition pe_len (c : PeAllowlistCache) : nat := size c.
Definition pe_snapshot (c : PeAllowlistCache) : gset bytes := c.

(** ** Planning *)
Inductive InvalidationReason : Type := PodDelete | CgroupTeardown | ResyncSweep | PeAllowlistRevoke.
Definition reason_as_metric_label (r : InvalidationReason) : bytes :=
  match r with
  | PodDelete => lit "pod_delete"
  | CgroupTeardown => lit "cgroup_teardown"
  | ResyncSweep => lit "resync_sweep"
  | PeAllowlistRevoke => lit "pe_allowlist_revoke"
  end.
Inductive ResyncReason : Type := InotifyOverflow | Startup | WatchError.
Definition resync_as_metric_label (r : ResyncReason) : bytes :=
  match r with
  | InotifyOverflow => lit "inotify_overflow"
  | Startup => lit "startup"
  | WatchError => lit "watch_error"
  end.

Definition plan_pod_delete (pod_uid : bytes) (t : SideTable) : SideTable * list Z :=
  let '(t, out) := remove_by_pod pod_uid t in (t, out.*1).
Definition plan_teardown (cgroup_id : Z) (t : SideTable) : SideTable * option Z :=
  let '(t, e) := remove_by_cgroup cgroup_id t in (t, (λ _, cgroup_id) <$> e).
Definition plan_missing_path_sweep (exists_ : bytes → bool) (t : SideTable) : SideTable * list Z :=
  let '(t, out) := sweep_missing_paths exists_ t in (t, out.*1).

(** ** The invariant *)

(** The pod index lists, for each pod, exactly its cgroups, and no empty set. *)
Definition pod_index_ok (t : SideTable) : Prop :=
  (∀ uid ids, by_pod t !! uid = Some ids → uid ≠ [] ∧ ids ≠ ∅) ∧
  ∀ uid c, uid ≠ [] →
    (∃ ids, by_pod t !! uid = Some ids ∧ c ∈ ids) ↔
    (∃ e, by_cgroup t !! c = Some e ∧ sd_pod_uid e = uid).

(** The path index points to entries with that path. *)
Definition path_index_ok (t : SideTable) : Prop :=
  ∀ p c, by_path t !! p = Some c →
    ∃ e, by_cgroup t !! c = Some e ∧ path_key (sd_cgroup_path e) = p.

Definition st_wf (t : SideTable) : Prop :=
  pod_index_ok t ∧ path_index_ok t ∧ Z.of_nat (st_len t) ≤ IDENTITY_ALLOW_CGROUPS_MAX_ENTRIES.

(** When no two entries share a path, the path index is complete. *)
Definition path_index_complete (t : SideTable) : Prop :=
  ∀ c e, by_cgroup t !! c = Some e → by_path t !! path_key (sd_cgroup_path e) = Some c.

(** ** Lemmas: every operation keeps the invariant *)

Lemma st_new_wf : st_wf st_new.
Proof.
  split_and!; [split|..].
  - intros uid ids. simpl. by rewrite lookup_empty.
  - intros uid c _. simpl. split; [intros (? & H & _)|intros (? & H & _)]; by rewrite lookup_empty in H.
  - intros p c. simpl. by rewrite lookup_empty.
  - unfold st_len, st_new. cbn [by_cgroup]. rewrite map_size_empty. by vm_compute.
Qed.

(** The pod index after one id left the table. *)
Lemma unlink_pod_index t c e :
  pod_index_ok t → by_cgroup t !! c = Some e →
  pod_index_ok (unlink_indexes (mkSideTable (delete c (by_cgroup t)) (by_pod t) (by_path t)) c e).
Proof.
  intros [Hne Hix] Hc. unfold unlink_indexes. cbn [by_cgroup by_pod by_path].
  destruct (is_empty (sd_pod_uid e)) eqn:Hu; cbn [negb].
  - apply is_empty_true in Hu. split; cbn [by_pod by_cgroup]; [done|].
    intros uid c' Huid. rewrite (Hix uid c' Huid). split; intros (e' & He' & Hp); exists e'.
    + rewrite lookup_delete_ne; [done|]. intros ->. congruence.
    + by apply lookup_delete_Some in He' as [_ ?].
  - apply is_empty_false in Hu.
    destruct (proj2 (Hix (sd_pod_uid e) c Hu)) as (ids & Hids & Hin); [by exists e|].
    rewrite Hids.
    assert (∀ uid c', uid ≠ [] →
      (∃ e', delete c (by_cgroup t) !! c' = Some e' ∧ sd_pod_uid e' = uid) ↔
      c' ≠ c ∧ ∃ ids', by_pod t !! uid = Some ids' ∧ c' ∈ ids') as Hspec.
    { intros uid c' Huid. rewrite (Hix uid c' Huid). setoid_rewrite lookup_delete_Some. naive_solver. }
    destruct (decide (ids ∖ {[c]} = ∅)) as [Hemp|Hemp];
      [rewrite bool_decide_eq_true_2 by done|rewrite bool_decide_eq_false_2 by done];
      split; cbn [by_pod by_cgroup].
    + intros uid ids' [_ H]%lookup_delete_Some. by apply Hne.
    + intros uid c' Huid. rewrite Hspec by done. setoid_rewrite lookup_delete_Some. split.
      * intros (ids' & [Hn Hi] & Hin'). split; [|by eauto]. intros ->.
        destruct (proj1 (Hix uid c Huid)) as (e' & He' & Hp'); [by eauto|]. congruence.
      * intros (Hcc & ids' & Hi & Hin'). exists ids'. split_and!; try done. intros <-.
        rewrite Hids in Hi. injection Hi as <-. set_solver.
    + intros uid ids' [[<- <-]|[_ H]]%lookup_insert_Some; [done|by apply Hne].
    + intros uid c' Huid. rewrite Hspec by done. setoid_rewrite lookup_insert_Some. split.
      * intros (ids' & [[<- <-]|[Hn Hi]] & Hin').
        -- split; [set_solver|]. exists ids. split; [done|set_solver].
        -- split; [|by eauto]. intros ->.
           destruct (proj1 (Hix uid c Huid)) as (e' & He' & Hp'); [by eauto|]. congruence.
      * intros (Hcc & ids' & Hi & Hin'). destruct (decide (sd_pod_uid e = uid)) as [<-|Hn].
        -- rewrite Hids in Hi. injection Hi as <-. exists (ids ∖ {[c]}). set_solver.
        -- exists ids'. split; [by right|done].
Qed.

Lemma by_cgroup_unlink t c e : by_cgroup (unlink_indexes t c e) = by_cgroup t.
Proof. done. Qed.

(** [remove_by_cgroup] refines [delete] on the map by cgroup id. *)
Lemma remove_by_cgroup_spec c t :
  by_cgroup (remove_by_cgroup c t).1 = delete c (by_cgroup t) ∧
  (remove_by_cgroup c t).2 = by_cgroup t !! c.
Proof.
  unfold remove_by_cgroup. destruct (by_cgroup t !! c) as [e|] eqn:E; simpl; [done|].
  split; [|done]. by rewrite delete_id.
Qed.

Lemma remove_by_cgroup_wf c t : st_wf t → st_wf (remove_by_cgroup c t).1.
Proof.
  intros (Hpod & Hpath & Hlen). pose proof (remove_by_cgroup_spec c t) as [Hby _].
  unfold remove_by_cgroup in *. destruct (by_cgroup t !! c) as [e|] eqn:E; [|by split_and!].
  split_and!; cbn [fst] in *.
  - by apply unlink_pod_index.
  - intros p c' Hp. cbn [unlink_indexes by_path] in Hp. apply lookup_delete_Some in Hp as [Hn Hp].
    destruct (Hpath _ _ Hp) as (e' & He' & Hk). exists e'. split; [|done].
    rewrite Hby, lookup_delete_ne; [done|]. intros ->. congruence.
  - unfold st_len in *. rewrite Hby.
    pose proof (map_size_delete_Some _ _ (ex_intro _ _ E)) as Hs. lia.
Qed.

(** The pod index after a new id joined the table. *)
Lemma link_pod_index t c e :
  pod_index_ok t → by_cgroup t !! c = None →
  pod_index_ok
    (mkSideTable (<[c := e]> (by_cgroup t))
       (if negb (is_empty (sd_pod_uid e)) then
          <[sd_pod_uid e := default ∅ (by_pod t !! sd_pod_uid e) ∪ {[c]}]> (by_pod t)
        else by_pod t)
       (<[path_key (sd_cgroup_path e) := c]> (by_path t))).
Proof.
  intros [Hne Hix] Hnone. split; cbn [by_cgroup by_pod by_path].
  - intros uid ids. destruct (is_empty (sd_pod_uid e)) eqn:Hu; cbn [negb]; [apply Hne|].
    apply is_empty_false in Hu.
    intros [[<- <-]|[_ H]]%lookup_insert_Some; [split; [done|set_solver]|by apply Hne].
  - intros uid c' Huid.
    assert ((∃ e', <[c:=e]> (by_cgroup t) !! c' = Some e' ∧ sd_pod_uid e' = uid) ↔
      (c' = c ∧ sd_pod_uid e = uid) ∨ ∃ ids, by_pod t !! uid = Some ids ∧ c' ∈ ids) as ->.
    { rewrite (Hix uid c' Huid). setoid_rewrite lookup_insert_Some. split.
      - intros (e' & [[<- <-]|[_ He']] & Hp); [by left|right; by exists e'].
      - intros [[-> Hp]|(e' & He' & Hp)]; [exists e; eauto|].
        exists e'. split; [|done]. right. split; [congruence|done]. }
    destruct (is_empty (sd_pod_uid e)) eqn:Hu; cbn [negb].
    + apply is_empty_true in Hu. split; [by right|]. intros [[_ ?]|?]; [congruence|done].
    + setoid_rewrite lookup_insert_Some. split.
      * intros (ids & [[<- <-]|[Hn Hi]] & Hin); [|right; by exists ids].
        apply elem_of_union in Hin as [Hin|Hin%elem_of_singleton]; [right|by left].
        destruct (by_pod t !! sd_pod_uid e) as [ids|]; simpl in Hin; [by exists ids|set_solver].
      * intros [[-> Hp]|(ids & Hi & Hin)].
        -- eexists. split; [by left|set_solver].
        -- destruct (decide (sd_pod_uid e = uid)) as [<-|Hn]; [|exists ids; split; [by right|done]].
           eexists. split; [by left|]. rewrite Hi. simpl. set_solver.
Qed.

Lemma insert_len c t :
  st_wf t →
  negb (contains_key t c)
    && bool_decide (IDENTITY_ALLOW_CGROUPS_MAX_ENTRIES ≤ as_uint 32 (Z.of_nat (st_len t))) = false →
  Z.of_nat (S (size (delete c (by_cgroup t)))) ≤ IDENTITY_ALLOW_CGROUPS_MAX_ENTRIES.
Proof.
  intros (_ & _ & Hl) Hfull. unfold st_len, contains_key in *.
  apply andb_false_iff in Hfull as [Hf|Hf]; bool_split.
  - pose proof (map_size_delete_Some _ _ Hf). destruct Hf as [e0 He0].
    assert (size (by_cgroup t) ≠ 0%nat) by (apply map_size_ne_0_lookup; eauto). lia.
  - rewrite as_uint_small in Hf.
    + rewrite map_size_delete. destruct (by_cgroup t !! c); simpl; lia.
    + assert (IDENTITY_ALLOW_CGROUPS_MAX_ENTRIES < 2 ^ 32) by (by vm_compute). lia.
Qed.

Lemma insert_wf c e t : st_wf t → st_wf (st_insert c e t).1.
Proof.
  intros Hwf. unfold st_insert. destruct (_ && _) eqn:Hfull; [done|]. cbn [fst].
  pose proof (remove_by_cgroup_wf c t Hwf) as (Hpod & Hpath & _).
  destruct (remove_by_cgroup_spec c t) as [Hby _]. set (t1 := (remove_by_cgroup c t).1) in *.
  assert (by_cgroup t1 !! c = None) as Hnone by (by rewrite Hby, lookup_delete_eq).
  split_and!.
  - by apply link_pod_index.
  - intros p c'. cbn [by_path by_cgroup]. intros [[<- <-]|[Hn Hp]]%lookup_insert_Some.
    + exists e. by rewrite lookup_insert_eq.
    + destruct (Hpath _ _ Hp) as (e' & He' & Hk). exists e'. split; [|done].
      rewrite lookup_insert_ne; [done|]. intros <-. congruence.
  - unfold st_len. cbn [by_cgroup]. rewrite map_size_insert, Hnone, Hby. by apply insert_len.
Qed.

(** [insert] refines [<[_ := _]>] unless the table is full. *)
Lemma insert_spec c e t :
  by_cgroup (st_insert c e t).1 =
  match (st_insert c e t).2 with
  | RejectedFull => by_cgroup t
  | _ => <[c := e]> (by_cgroup t)
  end.
Proof.
  unfold st_insert. destruct (_ && _); [done|]. cbn [fst snd].
  destruct (remove_by_cgroup_spec c t) as [-> _].
  destruct (contains_key t c); by rewrite insert_delete_eq.
Qed.

(** ** Removal of a pod *)
Lemma remove_pod_ids_spec ids t out :
  NoDup ids →
  let r := foldl remove_pod_id (t, out) ids in
  by_cgroup r.1 = filter (λ p, p.1 ∉ ids) (by_cgroup t) ∧
  by_pod r.1 = by_pod t ∧
  r.2 = out ++ omap (λ id, (id,.) <$> by_cgroup t !! id) ids ∧
  (path_index_ok t → path_index_ok r.1).
Proof.
  revert t out. induction ids as [|id ids IH]; intros t out Hnd; simpl.
  { split_and!; try done; [|by rewrite app_nil_r].
    symmetry. apply map_filter_id. intros i x _. apply not_elem_of_nil. }
  apply NoDup_cons in Hnd as [Hid Hnd].
  assert (∀ m : gmap Z SideEntry, filter (λ p, p.1 ∉ ids) (delete id m) = filter (λ p, p.1 ∉ id :: ids) m) as Hf.
  { intros m. apply map_eq. intros i. apply option_eq. intros x.
    rewrite !map_lookup_filter_Some, lookup_delete_Some, not_elem_of_cons. simpl. naive_solver. }
  assert (∀ m : gmap Z SideEntry,
    omap (λ id', (id',.) <$> delete id m !! id') ids = omap (λ id', (id',.) <$> m !! id') ids) as Ho.
  { intros m. apply list_omap_ext, Forall_Forall2_diag, Forall_forall. intros i Hi.
    rewrite lookup_delete_ne; [done|]. by intros ->. }
  destruct (by_cgroup t !! id) as [e|] eqn:E; cbn [fmap option_fmap option_map].
  - destruct (IH (mkSideTable (delete id (by_cgroup t)) (by_pod t)
      (delete (path_key (sd_cgroup_path e)) (by_path t))) (out ++ [(id, e)]) Hnd)
      as (H1 & H2 & H3 & H4). cbn [by_cgroup by_pod] in *.
    rewrite H1, H2, H3, Hf, Ho, <- app_assoc. split_and!; try done.
    intros Hp. apply H4. intros p c. cbn [by_path]. intros [Hn Hpc]%lookup_delete_Some.
    destruct (Hp _ _ Hpc) as (e' & He' & Hk). exists e'. split; [|done]. cbn [by_cgroup].
    rewrite lookup_delete_ne; [done|]. intros ->. congruence.
  - destruct (IH t out Hnd) as (H1 & H2 & H3 & H4). split_and!; try done.
    rewrite H1, <- Hf. by rewrite delete_id.
Qed.

Lemma by_pod_elements t uid ids c :
  pod_index_ok t → by_pod t !! uid = Some ids →
  c ∈ elements ids ↔ ∃ e, by_cgroup t !! c = Some e ∧ sd_pod_uid e = uid.
Proof.
  intros [Hne Hix] Hids. destruct (Hne _ _ Hids) as [Huid _].
  rewrite elem_of_elements, <- (Hix uid c Huid). split; [by eauto|]. intros (? & ? & ?). by simplify_eq.
Qed.

(** What [remove_by_pod] does to the map by cgroup id. *)
Lemma remove_by_pod_spec uid t :
  st_wf t → uid ≠ [] →
  by_cgroup (remove_by_pod uid t).1 = filter (λ p, sd_pod_uid p.2 ≠ uid) (by_cgroup t) ∧
  by_pod (remove_by_pod uid t).1 = delete uid (by_pod t) ∧
  path_index_ok (remove_by_pod uid t).1 ∧
  (remove_by_pod uid t).2 ≡ₚ filter (λ p, sd_pod_uid p.2 = uid) (entries t).
Proof.
  intros (Hpod & Hpath & _) Huid. unfold remove_by_pod.
  destruct (by_pod t !! uid) as [ids|] eqn:Hids.
  - pose proof (remove_pod_ids_spec (elements ids)
      (mkSideTable (by_cgroup t) (delete uid (by_pod t)) (by_path t)) [] (NoDup_elements ids))
      as (H1 & H2 & H3 & H4). cbn [by_cgroup by_pod] in *.
    rewrite H1, H2, H3. split_and!; [|done|by apply H4|].
    + apply map_filter_ext. intros i x Hx. simpl. rewrite (by_pod_elements _ _ _ _ Hpod Hids). naive_solver.
    + simpl. apply NoDup_Permutation.
      * apply NoDup_fmap_1 with fst.
        assert (∀ l, (omap (λ id, (id,.) <$> by_cgroup t !! id) l).*1 `sublist_of` l) as Hsub.
        { induction l as [|i l IH]; simpl; [done|].
          destruct (by_cgroup t !! i); simpl; by constructor. }
        eapply sublist_NoDup; [apply (NoDup_elements ids)|apply Hsub].
      * apply NoDup_filter, NoDup_map_to_list.
      * intros [c e]. unfold entries.
        rewrite list_elem_of_omap, list_elem_of_filter, elem_of_map_to_list. simpl.
        setoid_rewrite (by_pod_elements _ _ _ _ Hpod Hids). setoid_rewrite fmap_Some. naive_solver.
  - assert (∀ i x, by_cgroup t !! i = Some x → sd_pod_uid x ≠ uid) as Hno.
    { intros i x Hx Hp. destruct (proj2 (proj2 Hpod uid i Huid)) as (? & ? & _); [by eauto|]. congruence. }
    cbn [fst snd]. split_and!; try done.
    + symmetry. apply map_filter_id. intros i x Hx. by eapply Hno.
    + by rewrite delete_id.
    + assert (filter (λ p : Z * SideEntry, sd_pod_uid p.2 = uid) (entries t) = []) as ->; [|done].
      apply elem_of_nil_inv. intros [i x] [Hp Hx%elem_of_map_to_list]%list_elem_of_filter. by eapply Hno.
Qed.

Lemma remove_by_pod_wf uid t : st_wf t → st_wf (remove_by_pod uid t).1.
Proof.
  intros Hwf. destruct (decide (uid = [])) as [->|Huid].
  { assert (by_pod t !! [] = None) as Hn.
    { destruct Hwf as [[Hne _] _]. destruct (by_pod t !! []) eqn:E; [|done].
      by destruct (Hne _ _ E). }
    unfold remove_by_pod. by rewrite Hn. }
  destruct (remove_by_pod_spec uid t Hwf Huid) as (H1 & H2 & H3 & _).
  destruct Hwf as ([Hne Hix] & _ & Hlen). split_and!; [split|done|].
  - intros u ids. rewrite H2. intros [_ H]%lookup_delete_Some. by eapply Hne.
  - intros u c Hu. rewrite H1, H2. setoid_rewrite lookup_delete_Some.
    setoid_rewrite map_lookup_filter_Some. simpl. pose proof (Hix u c Hu) as Hu'. split.
    + intros (ids & [Hn Hi] & Hc). destruct (proj1 Hu') as (e & He & Hp); [by eauto|].
      exists e. naive_solver.
    + intros (e & [He Hp] & He'). destruct (proj2 Hu') as (ids & Hi & Hc); [by eauto|].
      exists ids. naive_solver.
  - unfold st_len in *. rewrite H1. pose proof (map_size_filter (λ p : Z * SideEntry, sd_pod_uid p.2 ≠ uid) (by_cgroup t)). lia.
Qed.

(** ** Removal of a list of ids *)
Lemma remove_ids_wf ids t out : st_wf t → st_wf (foldl remove_id (t, out) ids).1.
Proof.
  revert t out. induction ids as [|id ids IH]; intros t out Hwf; simpl; [done|].
  pose proof (remove_by_cgroup_wf id t Hwf) as H.
  destruct (remove_by_cgroup id t) as [t' [e|]]; by apply IH.
Qed.

Lemma remove_ids_spec ids t out :
  NoDup ids →
  let r := foldl remove_id (t, out) ids in
  by_cgroup r.1 = filter (λ p, p.1 ∉ ids) (by_cgroup t) ∧
  r.2 = out ++ omap (λ id, (id,.) <$> by_cgroup t !! id) ids.
Proof.
  revert t out. induction ids as [|id ids IH]; intros t out Hnd; simpl.
  { split; [|by rewrite app_nil_r].
    symmetry. apply map_filter_id. intros i x _. apply not_elem_of_nil. }
  apply NoDup_cons in Hnd as [Hid Hnd]. destruct (remove_by_cgroup_spec id t) as [Hb Ho].
  destruct (remove_by_cgroup id t) as [t' o]. cbn [fst snd] in *. subst o.
  assert (filter (λ p, p.1 ∉ ids) (by_cgroup t') = filter (λ p, p.1 ∉ id :: ids) (by_cgroup t)) as Hf.
  { rewrite Hb. apply map_eq. intros i. apply option_eq. intros x.
    rewrite !map_lookup_filter_Some, lookup_delete_Some, not_elem_of_cons. simpl. naive_solver. }
  assert (omap (λ id', (id',.) <$> by_cgroup t' !! id') ids =
          omap (λ id', (id',.) <$> by_cgroup t !! id') ids) as Hm.
  { rewrite Hb. apply list_omap_ext, Forall_Forall2_diag, Forall_forall. intros i Hi.
    rewrite lookup_delete_ne; [done|]. by intros ->. }
  destruct (by_cgroup t !! id) as [e|]; cbn [fmap option_fmap option_map].
  - destruct (IH t' (out ++ [(id, e)]) Hnd) as [H1 H2]. by rewrite H1, H2, Hf, Hm, <- app_assoc.
  - destruct (IH t' out Hnd) as [H1 H2]. by rewrite H1, H2, Hf, Hm.
Qed.

(** ** Runs of the table *)
Inductive st_op : Type :=
| OInsert (c : Z) (e : SideEntry)
| ORemoveCgroup (c : Z)
| ORemovePod (uid : bytes)
| OSweep (exists_ : bytes → bool)
| OClear.

Definition run_st_op (t : SideTable) (op : st_op) : SideTable :=
  match op with
  | OInsert c e => (st_insert c e t).1
  | ORemoveCgroup c => (remove_by_cgroup c t).1
  | ORemovePod uid => (remove_by_pod uid t).1
  | OSweep ex => (sweep_missing_paths ex t).1
  | OClear => (st_clear t).1
  end.
Definition run_st_ops (ops : list st_op) : SideTable := foldl run_st_op st_new ops.

Lemma run_st_op_wf t op : st_wf t → st_wf (run_st_op t op).
Proof.
  destruct op; simpl; intros H.
  - by apply insert_wf.
  - by apply remove_by_cgroup_wf.
  - by apply remove_by_pod_wf.
  - by apply remove_ids_wf.
  - apply st_new_wf.
Qed.

Lemma run_st_ops_from_wf ops t : st_wf t → st_wf (foldl run_st_op t ops).
Proof. revert t. induction ops as [|op ops IH]; intros t H; simpl; [done|]. by apply IH, run_st_op_wf. Qed.

Lemma run_st_ops_wf ops : st_wf (run_st_ops ops).
Proof. apply run_st_ops_from_wf, st_new_wf. Qed.

(** Whatever operations ran, the pod index lists exactly the tracked cgroups
    of each pod with no empty set left behind, the path index points only to
    tracked entries of that path, and the table never holds more entries than
    the BPF allow map. *)
Theorem side_table_invariant ops :
  let t := run_st_ops ops in
  pod_index_ok t ∧ path_index_ok t ∧ Z.of_nat (st_len t) ≤ IDENTITY_ALLOW_CGROUPS_MAX_ENTRIES.
Proof. apply run_st_ops_wf. Qed.

(** On any table the program can build, [remove_by_pod] returns each tracked
    cgroup of that pod once and nothing else, and removes exactly those from the
    table; the other pods' entries stay. *)
Theorem pod_removal_exact ops uid :
  uid ≠ [] →
  let t := run_st_ops ops in
  let '(t', out) := remove_by_pod uid t in
  (∀ c e, st_entry t' c = Some e ↔ st_entry t c = Some e ∧ sd_pod_uid e ≠ uid) ∧
  (∀ c e, (c, e) ∈ out ↔ st_entry t c = Some e ∧ sd_pod_uid e = uid) ∧
  NoDup out.*1.
Proof.
  intros Huid t. destruct (remove_by_pod_spec uid t (run_st_ops_wf ops) Huid) as (H1 & _ & _ & H4).
  destruct (remove_by_pod uid t) as [t' out]. cbn [fst snd] in *. unfold st_entry. split_and!.
  - intros c e. rewrite H1, map_lookup_filter_Some. done.
  - intros c e. rewrite H4, list_elem_of_filter. unfold entries. rewrite elem_of_map_to_list. naive_solver.
  - rewrite H4. apply NoDup_fmap_fst; [|apply NoDup_filter, NoDup_map_to_list].
    intros c e1 e2 [_ H1'%elem_of_map_to_list]%list_elem_of_filter
      [_ H2'%elem_of_map_to_list]%list_elem_of_filter. congruence.
Qed.

(** Sample entries. *)
Definition demo_entry (uid path : bytes) (inode : Z) : SideEntry :=
  mkSideEntry uid (lit "default") (lit "web") (lit "spiffe://neuromesh.security/ns/default/sa/web") path inode.

Lemma pod_removal_exact_witness :
  let ops := [OInsert 7 (demo_entry (lit "u1") (lit "/sys/fs/cgroup/a") 7);
              OInsert 8 (demo_entry (lit "u1") (lit "/sys/fs/cgroup/b") 8);
              OInsert 9 (demo_entry (lit "u2") (lit "/sys/fs/cgroup/c") 9)] in
  st_entry (remove_by_pod (lit "u1") (run_st_ops ops)).1 9 =
    Some (demo_entry (lit "u2") (lit "/sys/fs/cgroup/c") 9).
Proof.
  cbv zeta. set (ops := [_; _; _]).
  pose proof (pod_removal_exact ops (lit "u1") ltac:(by vm_compute)) as H. cbv zeta in H.
  destruct (remove_by_pod (lit "u1") (run_st_ops ops)) as [t' out]. destruct H as (H & _ & _).
  apply H. split; by vm_compute.
Defined.

(** ** The path index *)

(** Each insertion uses a path that no other tracked cgroup has. *)
Definition path_unshared (t : SideTable) (op : st_op) : Prop :=
  match op with
  | OInsert c e =>
      ∀ c' e', by_cgroup t !! c' = Some e' → c' ≠ c →
        path_key (sd_cgroup_path e') ≠ path_key (sd_cgroup_path e)
  | _ => True
  end.
Fixpoint paths_unshared (t : SideTable) (ops : list st_op) : Prop :=
  match ops with
  | [] => True
  | op :: ops => path_unshared t op ∧ paths_unshared (run_st_op t op) ops
  end.

(** Removing ids keeps the index complete: the removed entries' paths are theirs alone. *)
Lemma remove_by_cgroup_complete c t :
  path_index_complete t → path_index_complete (remove_by_cgroup c t).1.
Proof.
  intros Hc. unfold remove_by_cgroup. destruct (by_cgroup t !! c) as [e|] eqn:E; [|done].
  intros c' e'. cbn [fst unlink_indexes by_path by_cgroup]. intros [Hn He']%lookup_delete_Some.
  rewrite lookup_delete_ne; [by apply Hc|]. intros Hk.
  pose proof (Hc _ _ He') as H1. pose proof (Hc _ _ E) as H2. congruence.
Qed.

Lemma remove_pod_ids_complete ids t out :
  path_index_complete t → path_index_complete (foldl remove_pod_id (t, out) ids).1.
Proof.
  revert t out. induction ids as [|id ids IH]; intros t out Hc; simpl; [done|].
  destruct (by_cgroup t !! id) as [e|] eqn:E; [|by apply IH]. apply IH.
  intros c' e'. cbn [by_path by_cgroup]. intros [Hn He']%lookup_delete_Some.
  rewrite lookup_delete_ne; [by apply Hc|]. intros Hk.
  pose proof (Hc _ _ He') as H1. pose proof (Hc _ _ E) as H2. congruence.
Qed.

Lemma remove_ids_complete ids t out :
  path_index_complete t → path_index_complete (foldl remove_id (t, out) ids).1.
Proof.
  revert t out. induction ids as [|id ids IH]; intros t out Hc; simpl; [done|].
  pose proof (remove_by_cgroup_complete id t Hc) as H.
  destruct (remove_by_cgroup id t) as [t' [e|]]; by apply IH.
Qed.

Lemma run_st_op_complete t op :
  path_unshared t op → path_index_complete t → path_index_complete (run_st_op t op).
Proof.
  intros Hu Hc. destruct op as [c e|c|uid|ex|]; simpl.
  - unfold st_insert. destruct (_ && _); [done|]. cbn [fst].
    pose proof (remove_by_cgroup_complete c t Hc) as Hc1.
    destruct (remove_by_cgroup_spec c t) as [Hb _].
    intros c' e'. cbn [by_cgroup by_path]. intros [[<- <-]|[Hn He']]%lookup_insert_Some.
    + by rewrite lookup_insert_eq.
    + rewrite lookup_insert_ne; [by apply Hc1|].
      rewrite Hb in He'. apply lookup_delete_Some in He' as [_ He']. intros Hk.
      by apply (Hu c' e').
  - by apply remove_by_cgroup_complete.
  - unfold remove_by_pod. destruct (by_pod t !! uid); [|done]. by apply remove_pod_ids_complete.
  - by apply remove_ids_complete.
  - intros c e H. cbn [st_clear fst st_new by_cgroup] in H. by rewrite lookup_empty in H.
Qed.

(** As long as no two tracked cgroups share a directory path, the lookup of a
    torn-down directory finds exactly the cgroup tracked under that path, so no
    teardown event is missed. *)
Theorem path_lookup_exact ops path c :
  paths_unshared st_new ops →
  cgroup_id_for_path (run_st_ops ops) path = Some c ↔
  ∃ e, st_entry (run_st_ops ops) c = Some e ∧ path_key (sd_cgroup_path e) = path_key path.
Proof.
  intros Hu.
  assert (path_index_complete (run_st_ops ops)) as Hc.
  { unfold run_st_ops.
    assert (path_index_complete st_new) as H0 by (intros c' e'; cbn [st_new by_cgroup]; by rewrite lookup_empty).
    revert Hu H0. generalize st_new as t. induction ops as [|op ops IH]; intros t; simpl; [done|].
    intros [Hop Hu] H0. by apply IH, run_st_op_complete. }
  split.
  - apply run_st_ops_wf.
  - intros (e & He & Hk). unfold cgroup_id_for_path. rewrite <- Hk. by apply Hc.
Qed.

Lemma path_lookup_exact_witness :
  cgroup_id_for_path
    (run_st_ops [OInsert 7 (demo_entry (lit "u1") (lit "/sys/fs/cgroup/a") 7);
                 OInsert 8 (demo_entry (lit "u1") (lit "/sys/fs/cgroup/b") 8);
                 ORemoveCgroup 7]) (lit "/sys/fs//cgroup/b/") = Some 8.
Proof.
  apply path_lookup_exact.
  - split; [|split; [|by split]].
    + intros c' e'. cbn [st_new by_cgroup]. by rewrite lookup_empty.
    + intros c' e' H _. unfold run_st_op in H. rewrite insert_spec in H.
      change (<[7 := demo_entry (lit "u1") (lit "/sys/fs/cgroup/a") 7]> (∅ : gmap Z SideEntry) !! c' = Some e') in H.
      apply lookup_insert_Some in H as [[_ <-]|[_ H]]; [by vm_compute|]. by rewrite lookup_empty in H.
  - eexists. split; by vm_compute.
Defined.

(** When a directory was removed and created again, so that two tracked cgroup
    ids share a path, forgetting the old id drops the path of the new one: its
    teardown is no longer found although it is still tracked. *)
Theorem shared_path_teardown_lost :
  let p := lit "/sys/fs/cgroup/app.slice" in
  let t := run_st_ops [OInsert 7 (demo_entry [] p 7); OInsert 8 (demo_entry [] p 8); ORemoveCgroup 7] in
  st_entry t 8 = Some (demo_entry [] p 8) ∧ cgroup_id_for_path t p = None.
Proof. by vm_compute. Qed.
