(* ===== verification/CgroupPath.v ===== *)
(** * Cgroup paths, SPIFFE ids and the cgroup file system

    [identity_correlator/path_parse.rs], [spiffe.rs], [container_match.rs] and
    [cgroup_resolve.rs]: the two kubelet path layouts, the identity of a pod, the
    match of a container id with a cgroup directory, and the walk that finds the
    directory of a cgroup id. The file system is a tree read through the calls of
    [std::fs] the source makes. *)

From S2P Require Import Prelude RustStd Common SideTable.

(** ** [path_parse.rs] *)
Inductive CgroupPathStyle : Type := Cgroupfs | Systemd.

Record ParsedCgroupPath : Type := mkParsedCgroupPath {
  pc_pod_uid : bytes;
  pc_container_id : option bytes;
  pc_qos : option bytes;
  pc_style : CgroupPathStyle
}.

Definition normalize_pod_uid (raw : bytes) : bytes := replace_byte 95 45 raw.

(** The components of a path without its root. *)
Definition path_components (path : bytes) : list bytes := (path_key path).2.

(** [iter().position(|c| *c == x)]. *)
Fixpoint position_of (x : bytes) (l : list bytes) : option nat :=
  match l with
  | [] => None
  | c :: l => if bool_decide (c = x) then Some 0%nat else S <$> position_of x l
  end.

Definition parse_cgroupfs (path : bytes) : option ParsedCgroupPath :=
  let comps := path_components path in
  kubepods_idx ← position_of (lit "kubepods") comps;
  let rest := drop (kubepods_idx + 1) comps in
  match rest with
  | [] => None
  | r0 :: rest1 =>
      '(qos, pod_comp, container_id) ←
        (if starts_with r0 (lit "pod") then Some (None, r0, rest1 !! 0%nat)
         else match rest1 with
              | r1 :: rest2 =>
                  if starts_with r1 (lit "pod") then Some (Some r0, r1, rest2 !! 0%nat) else None
              | [] => None
              end);
      uid_raw ← strip_prefix pod_comp (lit "pod");
      if is_empty uid_raw then None
      else
        Some (mkParsedCgroupPath (normalize_pod_uid uid_raw)
                (match container_id with
                 | Some c => if negb (is_empty c) && negb (starts_with c (lit "pod")) then Some c else None
                 | None => None
                 end) qos Cgroupfs)
  end.

(** [split(p).next()]: everything before the first occurrence. *)
Definition before_first (s p : bytes) : bytes :=
  match split_once s p with Some (a, _) => a | None => s end.

Definition extract_systemd_qos (comp : bytes) : option bytes :=
  base ← strip_suffix comp (lit ".slice");
  rest ← strip_prefix base (lit "kubepods-");
  if starts_with rest (lit "pod") then None
  else
    let qos := before_first rest (lit "-pod") in
    if bool_decide (qos = lit "burstable") || bool_decide (qos = lit "besteffort") then Some qos
    else None.

Definition extract_systemd_pod_uid (comp : bytes) : option bytes :=
  base ← strip_suffix comp (lit ".slice");
  idx ← find_sub base (lit "-pod");
  let uid_raw := drop (idx + 4) base in
  if is_empty uid_raw || contains_sub uid_raw (lit "kubepods") then None
  else Some (normalize_pod_uid uid_raw).

(** The loop of [parse_systemd]: [(qos, pod_uid, container_id)]. *)
Definition systemd_step (st : option bytes * option bytes * option bytes) (comp : bytes) :
    option bytes * option bytes * option bytes :=
  let '(qos, pod_uid, container_id) := st in
  match extract_systemd_pod_uid comp with
  | Some uid => (extract_systemd_qos comp, Some uid, container_id)
  | None =>
      match pod_uid with
      | Some _ => if ends_with comp (lit ".scope") then (qos, pod_uid, Some comp) else st
      | None => st
      end
  end.

Definition parse_systemd (path : bytes) : option ParsedCgroupPath :=
  let comps := path_components path in
  _ ← position_of (lit "kubepods.slice") comps;
  let '(qos, pod_uid, container_id) := foldl systemd_step (None, None, None) comps in
  uid ← pod_uid;
  Some (mkParsedCgroupPath uid container_id qos Systemd).

Definition parse_cgroup_path (path : bytes) : option ParsedCgroupPath :=
  let normalized := replace_byte 92 47 path in
  match parse_systemd normalized with
  | Some p => Some p
  | None => parse_cgroupfs normalized
  end.

(** ** [spiffe.rs] *)
Definition DEFAULT_SPIFFE_TRUST_DOMAIN : bytes := lit "neuromesh.security".

(** [trust_domain_from_env]; [var] is the environment variable. *)
Definition trust_domain_from_env (var : option bytes) : bytes :=
  match var with
  | Some v => let t := trim v in if is_empty t then DEFAULT_SPIFFE_TRUST_DOMAIN else t
  | None => DEFAULT_SPIFFE_TRUST_DOMAIN
  end.

Definition construct_spiffe_id (trust_domain namespace service_account : bytes) : bytes :=
  let sa := if is_empty (trim service_account) then lit "default" else trim service_account in
  lit "spiffe://" ++ trim trust_domain ++ lit "/ns/" ++ trim namespace ++ lit "/sa/" ++ sa.

(** ** [container_match.rs] *)
Definition strip_runtime_prefix (container_id : bytes) : option bytes :=
  let s := trim container_id in
  if is_empty s then None
  else match split_once s (lit "://") with
       | Some (_, rest) => let rest := trim rest in if is_empty rest then None else Some rest
       | None => Some s
       end.

(** The byte slice [&raw_id[..12]] is taken on a character boundary for the ids
    runtimes use, which are ASCII. *)
Definition child_matches_raw_id (child_name raw_id : bytes) : bool :=
  if is_empty raw_id then false
  else if bool_decide (child_name = raw_id) then true
  else if contains_sub child_name raw_id && ends_with child_name (lit ".scope") then true
  else if bool_decide (12 ≤ length raw_id)%nat && bool_decide (12 ≤ length child_name)%nat
          && starts_with raw_id child_name then true
  else if bool_decide (12 ≤ length child_name)%nat && bool_decide (12 ≤ length raw_id)%nat
          && starts_with child_name (take 12 raw_id) then true
  else false.

(** [Path::join]: an absolute argument replaces the path. *)
Definition path_join (p q : bytes) : bytes :=
  if starts_with q [47] then q
  else if is_empty p || ends_with p [47] then p ++ q
  else p ++ [47] ++ q.

Definition candidate_pod_dirs (cgroup_root pod_uid : bytes) : list bytes :=
  let uid := trim pod_uid in
  let uid_under := replace_byte 45 95 uid in
  let slice_root := path_join cgroup_root (lit "kubepods.slice") in
  [path_join (path_join cgroup_root (lit "kubepods")) (lit "pod" ++ uid);
   path_join (path_join (path_join cgroup_root (lit "kubepods")) (lit "burstable")) (lit "pod" ++ uid);
   path_join (path_join (path_join cgroup_root (lit "kubepods")) (lit "besteffort")) (lit "pod" ++ uid);
   path_join slice_root (lit "kubepods-pod" ++ uid_under ++ lit ".slice");
   path_join (path_join slice_root (lit "kubepods-burstable.slice"))
     (lit "kubepods-burstable-pod" ++ uid_under ++ lit ".slice");
   path_join (path_join slice_root (lit "kubepods-besteffort.slice"))
     (lit "kubepods-besteffort-pod" ++ uid_under ++ lit ".slice")].

(** ** The file system as the source sees it

    A snapshot that gives the node found at an absolute path. A directory entry
    may fail to be read while listing ([FBroken]); [stat] may fail ([None]). The
    cgroup file system has no symbolic links. *)
Inductive dir_access : Type := Readable | PermissionDenied | ReadError.

Inductive fsnode : Type :=
| FFile (stat : option Z)
| FBroken
| FDir (stat : option Z) (access : dir_access) (ents : list (bytes * fsnode)).

Definition Fs : Type := bytes → option fsnode.

(** [Path::is_dir], [Path::exists], [fs::metadata(..).ino()] and
    [fs::read_dir(..)] with its unreadable entries dropped by [flatten]. *)
Definition node_ino (n : fsnode) : option Z :=
  match n with FFile s | FDir s _ _ => s | FBroken => None end.
Definition fs_ino (fs : Fs) (p : bytes) : option Z := n ← fs p; node_ino n.
Definition fs_is_dir (fs : Fs) (p : bytes) : bool :=
  match fs p with Some (FDir (Some _) _ _) => true | _ => false end.
Definition fs_exists (fs : Fs) (p : bytes) : bool := bool_decide (is_Some (fs_ino fs p)).
Definition fs_read_dir (fs : Fs) (p : bytes) : option (list bytes) :=
  match fs p with
  | Some (FDir _ Readable ents) =>
      Some (omap (λ '(name, n), match n with FBroken => None | _ => Some name end) ents)
  | _ => None
  end.

Definition find_existing_pod_dir (fs : Fs) (cgroup_root pod_uid : bytes) : option bytes :=
  head (filter (λ p, fs_is_dir fs p = true) (candidate_pod_dirs cgroup_root pod_uid)).

(** [find_container_leaf]: the readable entries in directory order. *)
Definition find_container_leaf (fs : Fs) (pod_dir raw_id : bytes) : option bytes :=
  ents ← fs_read_dir fs pod_dir;
  head (omap (λ name,
    if child_matches_raw_id (from_utf8_lossy name) raw_id && fs_is_dir fs (path_join pod_dir name)
    then Some (path_join pod_dir name) else None) ents).

(** ** [cgroup_resolve.rs] *)
Definition inode_of_path (fs : Fs) (path : bytes) : result Z :=
  ok_or (EMsg "stat failed") (fs_ino fs path).

(** [find_inode] on the node found at [dir]. *)
Fixpoint find_inode (dir : bytes) (node : fsnode) (target : Z) : result (option bytes) :=
  match node with
  | FBroken | FFile None | FDir None _ _ => Err (EMsg "stat failed")
  | FFile (Some ino) =>
      if bool_decide (ino = target) then Ok (Some dir) else Err (EMsg "read_dir failed")
  | FDir (Some ino) access ents =>
      if bool_decide (ino = target) then Ok (Some dir)
      else
        match access with
        | PermissionDenied => Ok None
        | ReadError => Err (EMsg "read_dir failed")
        | Readable =>
            (fix go (ents : list (bytes * fsnode)) : result (option bytes) :=
               match ents with
               | [] => Ok None
               | (name, child) :: ents =>
                   match child with
                   | FBroken => Err (EMsg "readdir failed")
                   | FFile _ => go ents
                   | FDir _ _ _ =>
                       if bool_decide (from_utf8_lossy name = lit ".")
                          || bool_decide (from_utf8_lossy name = lit "..") then go ents
                       else
                         match find_inode (path_join dir name) child target with
                         | Err e => Err e
                         | Ok (Some found) => Ok (Some found)
                         | Ok None => go ents
                         end
                   end
               end) ents
        end
  end.

Definition path_for_cgroup_id (fs : Fs) (cgroup_root : bytes) (cgroup_id : Z) : result bytes :=
  if negb (fs_is_dir fs cgroup_root) then Err (EMsg "cgroup root is not a directory")
  else
    match fs cgroup_root with
    | None => Err (EMsg "stat failed")
    | Some node =>
        r ← find_inode cgroup_root node cgroup_id;
        ok_or (EMsg "no cgroup directory with that id") r
    end.

(** ** The walk *)

(** The directories the walk visits, in order, each with its inode; it stops with
    an error at the first node it cannot examine. *)
Fixpoint visits (dir : bytes) (node : fsnode) : list (bytes * option Z) :=
  match node with
  | FBroken | FFile None | FDir None _ _ => [(dir, None)]
  | FFile (Some ino) => [(dir, Some ino); (dir, None)]
  | FDir (Some ino) access ents =>
      (dir, Some ino) ::
      match access with
      | PermissionDenied => []
      | ReadError => [(dir, None)]
      | Readable =>
          (fix go (ents : list (bytes * fsnode)) : list (bytes * option Z) :=
             match ents with
             | [] => []
             | (name, child) :: ents =>
                 match child with
                 | FBroken => (dir, None) :: go ents
                 | FFile _ => go ents
                 | FDir _ _ _ =>
                     if bool_decide (from_utf8_lossy name = lit ".")
                        || bool_decide (from_utf8_lossy name = lit "..") then go ents
                     else visits (path_join dir name) child ++ go ents
                 end
             end) ents
      end
  end.

(** The outcome of looking for [target] along a sequence of visits. *)
Inductive search_outcome : Type := SFound (p : bytes) | SMissing | SFailed.
Fixpoint search (target : Z) (vs : list (bytes * option Z)) : search_outcome :=
  match vs with
  | [] => SMissing
  | (p, Some ino) :: vs => if bool_decide (ino = target) then SFound p else search target vs
  | (_, None) :: _ => SFailed
  end.
Definition outcome_of (r : result (option bytes)) : search_outcome :=
  match r with Ok (Some p) => SFound p | Ok None => SMissing | Err _ => SFailed end.

Lemma search_app target vs ws :
  search target (vs ++ ws) = match search target vs with SMissing => search target ws | o => o end.
Proof.
  induction vs as [|[p [i|]] vs IH]; simpl; [done| |done]. by case_bool_decide.
Qed.

(** Induction on the tree with the hypothesis for every entry. *)
Lemma fsnode_ind' (P : fsnode → Prop) :
  (∀ s, P (FFile s)) → P FBroken →
  (∀ s a ents, Forall (λ p, P p.2) ents → P (FDir s a ents)) → ∀ n, P n.
Proof.
  intros Hf Hb Hd. fix IH 1. intros [s| |s a ents]; [apply Hf|apply Hb|].
  apply Hd. induction ents as [|[name n] ents IHe]; constructor; [apply IH|apply IHe].
Qed.

Lemma find_inode_search node dir target :
  outcome_of (find_inode dir node target) = search target (visits dir node).
Proof.
  revert dir. induction node as [s| |s a ents IH] using fsnode_ind'; intros dir.
  - destruct s as [i|]; simpl; [|done]. by case_bool_decide.
  - done.
  - destruct s as [i|]; cbn [find_inode visits search]; [|done].
    case_bool_decide; [done|]. destruct a; [|done|done].
    induction IH as [|[name child] ents Hc _ IHe]; [done|]. simpl in Hc.
    destruct child as [s| |s a cents]; [done|done|].
    destruct (_ || _); [done|]. rewrite search_app, <- Hc.
    destruct (find_inode (path_join dir name) (FDir s a cents) target) as [[p|]|e]; simpl; done.
Qed.

(** The search for the directory of a cgroup id returns the first directory, in
    depth-first order, whose inode is the id; it reports a missing cgroup only
    when every directory it may read was visited, and fails when a node cannot
    be examined before the id is found. *)
Theorem cgroup_walk_spec fs root id :
  fs_is_dir fs root = true →
  ∃ node, fs root = Some node ∧
  match search id (visits root node) with
  | SFound p => path_for_cgroup_id fs root id = Ok p
  | SMissing => path_for_cgroup_id fs root id = Err (EMsg "no cgroup directory with that id")
  | SFailed => ∃ e, path_for_cgroup_id fs root id = Err e
  end.
Proof.
  intros Hd. unfold path_for_cgroup_id. rewrite Hd. cbn [negb]. unfold fs_is_dir in Hd.
  destruct (fs root) as [node|]; [|done]. exists node. split; [done|].
  rewrite <- find_inode_search. destruct (find_inode root node id) as [[p|]|e]; simpl; [done|done|].
  by exists e.
Qed.

(** A small tree. *)
Definition demo_tree : fsnode :=
  FDir (Some 1) Readable
    [(lit "cgroup.procs", FFile (Some 2));
     (lit "private", FDir (Some 3) PermissionDenied []);
     (lit "kubepods", FDir (Some 4) Readable [(lit "podabc", FDir (Some 5) Readable [])])].

Lemma cgroup_walk_spec_witness :
  path_for_cgroup_id (λ _, Some demo_tree) (lit "/sys/fs/cgroup") 5 = Ok (lit "/sys/fs/cgroup/kubepods/podabc").
Proof.
  destruct (cgroup_walk_spec (λ _, Some demo_tree) (lit "/sys/fs/cgroup") 5 eq_refl) as (node & Hn & H).
  injection Hn as <-. vm_compute in H. vm_compute. exact H.
Defined.

(** ** The two layouts round trip *)

(** A pod UID: lower-case hexadecimal digits and dashes. *)
Definition uid_byte (b : Z) : Prop := 48 ≤ b ≤ 57 ∨ 97 ≤ b ≤ 102 ∨ b = 45.
Definition pod_uid_ok (uid : bytes) : Prop := uid ≠ [] ∧ Forall uid_byte uid.

(** A component that is neither layout's marker. *)
Definition plain_component (c : bytes) : Prop :=
  c ≠ lit "kubepods" ∧ c ≠ lit "kubepods.slice" ∧ extract_systemd_pod_uid c = None.

(** A cgroup root: absolute, without backslash, outside any pod's cgroup. *)
Definition cgroup_root_ok (root : bytes) : Prop :=
  starts_with root [47] = true ∧ 92 ∉ root ∧ Forall plain_component (path_components root).

(** A single name to be joined to a path. *)
Definition name_ok (q : bytes) : Prop := 47 ∉ q ∧ skip_component q = false.

#[export] Instance plain_component_dec c : Decision (plain_component c).
Proof. unfold plain_component; apply _. Defined.
#[export] Instance cgroup_root_ok_dec root : Decision (cgroup_root_ok root).
Proof. unfold cgroup_root_ok; apply _. Defined.
#[export] Instance uid_byte_dec b : Decision (uid_byte b).
Proof. unfold uid_byte; apply _. Defined.
#[export] Instance pod_uid_ok_dec uid : Decision (pod_uid_ok uid).
Proof. unfold pod_uid_ok; apply _. Defined.
#[export] Instance name_ok_dec q : Decision (name_ok q).
Proof. unfold name_ok; apply _. Defined.

Lemma starts_with_slash p : starts_with p [47] = true → ∃ p', p = 47 :: p'.
Proof.
  destruct p as [|b p]; [done|]. rewrite starts_with_cons.
  intros [->%bool_decide_eq_true _]%andb_true_iff. by eexists.
Qed.

Lemma path_components_abs p' :
  path_components (47 :: p') = filter (λ c, skip_component c = false) (split_byte 47 p').
Proof. done. Qed.

Lemma path_components_join p q :
  starts_with p [47] = true → name_ok q →
  starts_with (path_join p q) [47] = true ∧
  path_components (path_join p q) = path_components p ++ [q].
Proof.
  intros [p' ->]%starts_with_slash [Hq Hskip]. unfold path_join.
  assert (starts_with q [47] = false) as ->.
  { destruct q as [|b q]; [done|]. rewrite starts_with_cons.
    rewrite bool_decide_eq_false_2 by set_solver. done. }
  assert (filter (λ c, skip_component c = false) (split_byte 47 q) = [q]) as Hsq.
  { rewrite split_byte_notin by done. by rewrite filter_cons_True, filter_nil. }
  cbn [is_empty bool_decide orb]. 
  destruct (is_empty (47 :: p') || ends_with (47 :: p') [47]) eqn:He.
  - split; [done|]. apply orb_true_iff in He as [He|He]; [by apply is_empty_true in He|].
    unfold ends_with in He. apply starts_with_slash in He as [r Hr].
    assert (47 :: p' = reverse r ++ [47]) as Hp.
    { rewrite <- (reverse_involutive (47 :: p')), Hr. by rewrite reverse_cons. }
    destruct (reverse r) as [|b r'] eqn:Er.
    + injection Hp as ->. simpl. rewrite !path_components_abs, Hsq. done.
    + injection Hp as <- ->. simpl. rewrite <- app_assoc. simpl.
      rewrite !path_components_abs, !split_byte_app, !filter_app, Hsq. simpl. by rewrite app_nil_r.
  - split; [done|]. simpl. rewrite !path_components_abs, split_byte_app, filter_app, Hsq. done.
Qed.

Lemma replace_byte_notin a b s : a ∉ s → replace_byte a b s = s.
Proof.
  induction s as [|c s IH]; intros H; [done|]. simpl.
  rewrite bool_decide_eq_false_2 by set_solver. by rewrite IH by set_solver.
Qed.

Lemma replace_byte_inverse a b s : a ∉ s → replace_byte a b (replace_byte b a s) = s.
Proof.
  induction s as [|c s IH]; intros H; [done|]. simpl. rewrite IH by set_solver.
  destruct (decide (c = b)) as [->|Hc].
  - rewrite (bool_decide_eq_true_2 (b = b)) by done. by rewrite bool_decide_eq_true_2.
  - by rewrite (bool_decide_eq_false_2 (c = b)), bool_decide_eq_false_2 by set_solver.
Qed.

Lemma elem_of_replace_byte x a b s : x ∈ replace_byte a b s → x = b ∨ x ∈ s.
Proof.
  unfold replace_byte. intros (c & -> & Hc)%list_elem_of_fmap. case_bool_decide; [by left|by right].
Qed.

Lemma strip_suffix_app s p : strip_suffix (s ++ p) p = Some s.
Proof.
  unfold strip_suffix, ends_with. rewrite reverse_app, starts_with_app.
  f_equal. rewrite length_app. replace (length s + length p - length p)%nat with (length s) by lia.
  apply take_app_length.
Qed.

Lemma position_of_plain m root rest :
  Forall (λ c, c ≠ m) root → position_of m (root ++ rest) = (λ i, length root + i)%nat <$> position_of m rest.
Proof.
  induction 1 as [|c root Hc _ IH]; simpl.
  - by destruct (position_of m rest).
  - rewrite bool_decide_eq_false_2 by done. rewrite IH. by destruct (position_of m rest).
Qed.

Lemma systemd_fold_plain root rest :
  Forall plain_component root →
  foldl systemd_step (None, None, None) (root ++ rest) = foldl systemd_step (None, None, None) rest.
Proof.
  induction 1 as [|c root (_ & _ & Hc) _ IH]; [done|]. simpl. by rewrite Hc.
Qed.

(** The components of a join of several names. *)
Definition joins (p : bytes) (names : list bytes) : bytes := foldl path_join p names.

Lemma path_components_joins p names :
  starts_with p [47] = true → Forall name_ok names →
  path_components (joins p names) = path_components p ++ names.
Proof.
  intros Hp Hn. revert p Hp. induction Hn as [|q names Hq _ IH]; intros p Hp; simpl; [by rewrite app_nil_r|].
  destruct (path_components_join p q Hp Hq) as [Hp' Hc].
  rewrite (IH _ Hp'), Hc. by rewrite <- app_assoc.
Qed.

Lemma joins_no_backslash p names :
  92 ∉ p → Forall (λ q, 92 ∉ q) names → 92 ∉ joins p names.
Proof.
  intros Hp Hn. revert p Hp. induction Hn as [|q names Hq _ IH]; intros p Hp; simpl; [done|].
  apply IH. unfold path_join. destruct (starts_with q [47]); [done|]. destruct (_ || _); set_solver.
Qed.

(** Parsing a path below a cgroup root only looks at the names below it. *)
Lemma parse_below_root root names :
  cgroup_root_ok root → Forall (λ q, name_ok q ∧ 92 ∉ q) names →
  parse_cgroup_path (joins root names) =
  match
    (_ ← position_of (lit "kubepods.slice") names;
     let '(qos, pod_uid, cid) := foldl systemd_step (None, None, None) names in
     uid ← pod_uid; Some (mkParsedCgroupPath uid cid qos Systemd)) with
  | Some p => Some p
  | None => parse_cgroupfs (joins root names)
  end.
Proof.
  intros (Habs & H92 & Hplain) [Hok Hn]%Forall_and. unfold parse_cgroup_path.
  rewrite replace_byte_notin by (by apply joins_no_backslash).
  unfold parse_systemd at 1. rewrite path_components_joins by done.
  rewrite position_of_plain, systemd_fold_plain; [|done|].
  - destruct (position_of _ names); [|done]. simpl. done.
  - eapply Forall_impl; [done|]. by intros c (_ & ? & _).
Qed.

Lemma parse_cgroupfs_below root names :
  cgroup_root_ok root → Forall name_ok names →
  parse_cgroupfs (joins root (lit "kubepods" :: names)) = parse_cgroupfs (joins [47] (lit "kubepods" :: names)).
Proof.
  intros (Habs & H92 & Hplain) Hok. unfold parse_cgroupfs.
  assert (name_ok (lit "kubepods")) as Hk by compute_done.
  rewrite !path_components_joins by (done || by constructor). change (path_components [47]) with (@nil bytes).
  rewrite position_of_plain; [|eapply Forall_impl; [done|]; by intros c (? & _ & _)].
  simpl. rewrite Nat.add_0_r, <- drop_drop, drop_app_length. done.
Qed.

Section candidates.
Context (root uid : bytes) (Hroot : cgroup_root_ok root) (Huid : pod_uid_ok uid).

Lemma uid_notin b : ¬ uid_byte b → b ∉ uid.
Proof. intros Hb Hin. destruct Huid as [_ HF]. rewrite Forall_forall in HF. by apply Hb, HF. Qed.

Lemma uid_trim : trim uid = uid.
Proof.
  apply trim_ascii. eapply Forall_impl; [apply Huid|]. unfold uid_byte. intros b. lia.
Qed.

Lemma uid_under_notin b : b ≠ 95 → ¬ uid_byte b → b ∉ replace_byte 45 95 uid.
Proof. intros Hb Hu [->|Hin]%elem_of_replace_byte; [done|]. by eapply uid_notin. Qed.

(** A name made of a fixed prefix, the pod id and a fixed suffix. *)
Lemma name_ok_wrap pre u suf :
  47 ∉ pre → 47 ∉ u → 47 ∉ suf → 92 ∉ pre → 92 ∉ u → 92 ∉ suf → (2 ≤ length pre)%nat →
  name_ok (pre ++ u ++ suf) ∧ 92 ∉ pre ++ u ++ suf.
Proof.
  intros H1 H2 H3 H4 H5 H6 Hl. split; [split; [set_solver|]|set_solver].
  unfold skip_component. destruct pre as [|a [|b pre]]; simpl in Hl; [lia|lia|].
  by rewrite !bool_decide_eq_false_2 by done.
Qed.

Lemma cgroupfs_name : name_ok (lit "pod" ++ uid) ∧ 92 ∉ lit "pod" ++ uid.
Proof.
  rewrite <- (app_nil_r uid). apply name_ok_wrap; try compute_done;
    apply uid_notin; unfold uid_byte; lia.
Qed.

Lemma systemd_name pre :
  47 ∉ pre → 92 ∉ pre → (2 ≤ length pre)%nat →
  name_ok (pre ++ replace_byte 45 95 uid ++ lit ".slice") ∧
  92 ∉ pre ++ replace_byte 45 95 uid ++ lit ".slice".
Proof.
  intros. apply name_ok_wrap; try done; try compute_done;
    apply uid_under_notin; unfold uid_byte; lia.
Qed.

(** A systemd slice name gives the pod id back. *)
Lemma systemd_uid pre i :
  find_sub (pre ++ replace_byte 45 95 uid) (lit "-pod") = Some i →
  (i + 4 = length pre)%nat →
  extract_systemd_pod_uid (pre ++ replace_byte 45 95 uid ++ lit ".slice") = Some uid.
Proof.
  intros Hf Hi. unfold extract_systemd_pod_uid. rewrite app_assoc, strip_suffix_app. simpl.
  rewrite Hf. simpl. rewrite Hi, drop_app_length.
  unfold contains_sub. change (lit "kubepods") with (107 :: lit "ubepods").
  rewrite find_sub_first_notin by (apply uid_under_notin; unfold uid_byte; lia).
  assert (is_empty (replace_byte 45 95 uid) = false) as ->.
  { apply is_empty_false. intros H%(f_equal length). unfold replace_byte in H. rewrite length_map in H.
    destruct Huid as [Hne _]. by apply length_zero_iff_nil in H. }
  simpl. unfold normalize_pod_uid. rewrite replace_byte_inverse; [done|].
  apply uid_notin. unfold uid_byte. lia.
Qed.

Lemma cgroupfs_candidate mid qos :
  mid = [] ∧ qos = None ∨ (∃ q, mid = [q] ∧ qos = Some q ∧ q ∈ [lit "burstable"; lit "besteffort"]) →
  parse_cgroup_path (joins root ([lit "kubepods"] ++ mid ++ [lit "pod" ++ uid])) =
  Some (mkParsedCgroupPath uid None qos Cgroupfs).
Proof.
  intros Hmid. destruct cgroupfs_name as [Hn H92].
  assert (Forall (λ q, name_ok q ∧ 92 ∉ q) mid) as Hm.
  { destruct Hmid as [[-> _]|(q & -> & _ & Hq)]; constructor; [|constructor].
    rewrite !elem_of_cons in Hq. destruct Hq as [->|[->|[]%not_elem_of_nil]]; split; compute_done. }
  rewrite parse_below_root; [|done|].
  2:{ apply Forall_app; split; [by constructor; [split; compute_done|]|].
      apply Forall_app. split; [done|]. by constructor. }
  assert (position_of (lit "kubepods.slice") ([lit "kubepods"] ++ mid ++ [lit "pod" ++ uid]) = None) as ->.
  { destruct Hmid as [[-> _]|(q & -> & _ & Hq)]; [by vm_compute|].
    rewrite !elem_of_cons in Hq. destruct Hq as [->|[->|[]%not_elem_of_nil]]; by vm_compute. }
  cbn [app mbind option_bind]. rewrite (parse_cgroupfs_below root (mid ++ [lit "pod" ++ uid])); [|done|].
  2:{ apply Forall_app. split; [|by constructor]. eapply Forall_impl; [done|]. by intros ? [? _]. }
  unfold parse_cgroupfs. rewrite path_components_joins; [|done|].
  2:{ constructor; [compute_done|]. apply Forall_app. split; [|by constructor].
      eapply Forall_impl; [done|]. by intros ? [? _]. }
  assert (is_empty uid = false) as He by (apply is_empty_false, Huid).
  assert (normalize_pod_uid uid = uid) as Hz.
  { apply replace_byte_notin, uid_notin. unfold uid_byte. lia. }
  change (path_components [47]) with (@nil bytes).
  assert (strip_prefix (lit "pod" ++ uid) (lit "pod") = Some uid) as Hs by (by vm_compute).
  assert (starts_with (lit "pod" ++ uid) (lit "pod") = true) as Hsw by (by vm_compute).
  remember (lit "pod" ++ uid) as pod eqn:Epod. clear Epod.
  destruct Hmid as [[-> ->]|(q & -> & -> & Hq)]; simpl.
  - rewrite Hsw. simpl. rewrite Hs. simpl. by rewrite He, Hz.
  - assert (starts_with q (lit "pod") = false) as ->.
    { rewrite !elem_of_cons in Hq. destruct Hq as [->|[->|[]%not_elem_of_nil]]; by vm_compute. }
    rewrite Hsw. simpl. rewrite Hs. simpl. by rewrite He, Hz.
Qed.

Lemma systemd_candidate mid pre i qos :
  Forall (λ q, name_ok q ∧ 92 ∉ q ∧ extract_systemd_pod_uid q = None ∧ ends_with q (lit ".scope") = false) mid →
  47 ∉ pre → 92 ∉ pre → (i + 4 = length pre)%nat →
  find_sub (pre ++ replace_byte 45 95 uid) (lit "-pod") = Some i →
  extract_systemd_qos (pre ++ replace_byte 45 95 uid ++ lit ".slice") = qos →
  parse_cgroup_path
    (joins root ([lit "kubepods.slice"] ++ mid ++ [pre ++ replace_byte 45 95 uid ++ lit ".slice"])) =
  Some (mkParsedCgroupPath uid None qos Systemd).
Proof.
  intros Hm H47 H92 Hi Hf Hq.
  destruct (systemd_name pre H47 H92) as [Hn Hb]; [lia|].
  rewrite parse_below_root; [|done|].
  2:{ apply Forall_app; split; [by constructor; [split; compute_done|]|].
      apply Forall_app. split; [|by constructor]. eapply Forall_impl; [done|]. by intros ? (? & ? & _). }
  assert (foldl systemd_step (None, None, None)
    ([lit "kubepods.slice"] ++ mid ++ [pre ++ replace_byte 45 95 uid ++ lit ".slice"]) =
    (qos, Some uid, None)) as ->.
  { rewrite !foldl_app.
    change (foldl systemd_step (None, None, None) [lit "kubepods.slice"]) with
      (@None bytes, @None bytes, @None bytes).
    assert (foldl systemd_step (None, None, None) mid = (None, None, None)) as ->.
    { clear -Hm. induction Hm as [|q mid (_ & _ & Hx & _) _ IH]; [done|]. simpl. by rewrite Hx. }
    simpl. rewrite (systemd_uid pre i Hf Hi). by rewrite Hq. }
  simpl. done.
Qed.

(** Each of the six directories that are tried for a pod parses back to that
    pod: the same UID in dashed form, the right layout and quality-of-service
    class, no container. *)
Theorem candidate_dirs_round_trip :
  map parse_cgroup_path (candidate_pod_dirs root uid) =
  [Some (mkParsedCgroupPath uid None None Cgroupfs);
   Some (mkParsedCgroupPath uid None (Some (lit "burstable")) Cgroupfs);
   Some (mkParsedCgroupPath uid None (Some (lit "besteffort")) Cgroupfs);
   Some (mkParsedCgroupPath uid None None Systemd);
   Some (mkParsedCgroupPath uid None (Some (lit "burstable")) Systemd);
   Some (mkParsedCgroupPath uid None (Some (lit "besteffort")) Systemd)].
Proof.
  unfold candidate_pod_dirs. rewrite uid_trim. cbv zeta. cbn [map].
  repeat f_equal.
  - by apply (cgroupfs_candidate [] None); left.
  - apply (cgroupfs_candidate [lit "burstable"] (Some (lit "burstable"))). right. eexists. split_and!; [done..|set_solver].
  - apply (cgroupfs_candidate [lit "besteffort"] (Some (lit "besteffort"))). right. eexists. split_and!; [done..|set_solver].
  - apply (systemd_candidate [] (lit "kubepods-pod") 8 None); [constructor|compute_done..|by vm_compute|].
    by unfold extract_systemd_qos; rewrite app_assoc, strip_suffix_app.
  - apply (systemd_candidate [lit "kubepods-burstable.slice"] (lit "kubepods-burstable-pod") 18 (Some (lit "burstable")));
      [repeat constructor; compute_done|compute_done..|by vm_compute|].
    by unfold extract_systemd_qos; rewrite app_assoc, strip_suffix_app.
  - apply (systemd_candidate [lit "kubepods-besteffort.slice"] (lit "kubepods-besteffort-pod") 19 (Some (lit "besteffort")));
      [repeat constructor; compute_done|compute_done..|by vm_compute|].
    by unfold extract_systemd_qos; rewrite app_assoc, strip_suffix_app.
Qed.
End candidates.

Lemma candidate_dirs_round_trip_witness :
  candidate_pod_dirs (lit "/sys/fs/cgroup") (lit "0a1b-2c") !! 1%nat =
    Some (lit "/sys/fs/cgroup/kubepods/burstable/pod0a1b-2c") ∧
  map parse_cgroup_path (candidate_pod_dirs (lit "/sys/fs/cgroup") (lit "0a1b-2c")) !! 1%nat =
    Some (Some (mkParsedCgroupPath (lit "0a1b-2c") None (Some (lit "burstable")) Cgroupfs)).
Proof.
  split; [vm_compute; reflexivity|].
  rewrite (candidate_dirs_round_trip (lit "/sys/fs/cgroup") (lit "0a1b-2c")
    ltac:(compute_done) ltac:(compute_done)).
  reflexivity.
Defined.
