(* ===== verification/PodWatch.v ===== *)
(** * The pod watch

    [identity_correlator/pod_watch.rs]: the configuration of the API client, the
    views of a pod, the decoding of the Kubernetes watch stream (newline-delimited
    JSON delivered in arbitrary chunks), the watch loop and the field selector.
    [serde_json] values and the HTTP client are third-party code: the first is the
    parameter [Json], the second gives the responses the loop is run on. *)

From S2P Require Import Prelude RustStd Common.

(** ** Views *)
Record ContainerStatusView : Type := mkContainerStatusView {
  cs_name : bytes;
  cs_container_id : option bytes;
  cs_running : bool
}.

Record PodView : Type := mkPodView {
  pv_uid : bytes;
  pv_namespace : bytes;
  pv_service_account : bytes;
  pv_containers : list ContainerStatusView
}.

Inductive PodWatchEvent : Type :=
| Upsert (pod : PodView)
| Deleted (uid : bytes).

(** ** JSON values as the source reads them

    [pointer], [get], [as_str], [as_array] of [serde_json::Value], the parse of
    one line into [WatchEvent] and of a list response into [PodList]. *)
Class Json (J : Type) : Type := {
  json_pointer : J → bytes → option J;
  json_get : J → bytes → option J;
  json_as_str : J → option bytes;
  json_as_array : J → option (list J);
  (** [serde_json::from_slice::<WatchEvent>]: type and object. *)
  json_watch_event : bytes → option (bytes * J);
  (** [serde_json::from_value::<PodList>]: items and resource version. *)
  json_pod_list : J → option (list J * option bytes)
}.

Section json.
Context {J : Type} `{Json J}.

Definition pointer_str (obj : J) (path : bytes) : option bytes := json_pointer obj path ≫= json_as_str.
Definition or_empty (o : option bytes) : bytes := default [] o.

Definition parse_container_status (c : J) : ContainerStatusView :=
  mkContainerStatusView
    (or_empty (json_get c (lit "name") ≫= json_as_str))
    (match json_get c (lit "containerID") ≫= json_as_str with
     | Some s => if negb (is_empty (trim s)) then Some s else None
     | None => None
     end)
    (bool_decide (is_Some (json_pointer c (lit "/state/running")))).

Definition status_keys : list bytes :=
  [lit "/status/containerStatuses"; lit "/status/initContainerStatuses";
   lit "/status/ephemeralContainerStatuses"].

Definition parse_pod_view (obj : J) : option PodView :=
  uid ← pointer_str obj (lit "/metadata/uid");
  let namespace := or_empty (pointer_str obj (lit "/metadata/namespace")) in
  let service_account := or_empty (pointer_str obj (lit "/spec/serviceAccountName")) in
  let containers :=
    concat (map (λ key,
      match json_pointer obj key ≫= json_as_array with
      | Some arr => map parse_container_status arr
      | None => []
      end) status_keys) in
  Some (mkPodView uid namespace service_account containers).

(** [list_pod_uids_on_node], given the outcome of its request. *)
Definition list_pod_uids_on_node (response : result J) : result (gset bytes) :=
  value ← response;
  list ← ok_or (EContext "decode PodList" (EMsg "json")) (json_pod_list value);
  Ok (list_to_set (omap (λ item, pointer_str item (lit "/metadata/uid")) list.1)).

(** ** Lines *)

(** [NdjsonLineBuf::push_chunk]: the lines completed and what stays in the
    buffer. The loop removes one line per turn, so the buffer's length bounds it. *)
Fixpoint take_lines (fuel : nat) (buf : bytes) : list bytes * bytes :=
  match fuel with
  | O => ([], buf)
  | S fuel =>
      let pos := position_or_len 10 buf in
      if bool_decide (pos < length buf)%nat then
        let line := take pos buf in
        let '(lines, rest) := take_lines fuel (drop (pos + 1) buf) in
        (if is_empty line then lines else line :: lines, rest)
      else ([], buf)
  end.
Definition push_chunk (buf chunk : bytes) : bytes * list bytes :=
  let buf := buf ++ chunk in
  let '(lines, rest) := take_lines (S (length buf)) buf in
  (rest, lines).

(** [decode_watch_line]. *)
Definition decode_watch_line (line : bytes) : option (option bytes * option PodWatchEvent) :=
  '(event_type, object) ← json_watch_event line;
  let rv := pointer_str object (lit "/metadata/resourceVersion") in
  let event :=
    if bool_decide (event_type = lit "ADDED") || bool_decide (event_type = lit "MODIFIED") then
      Upsert <$> parse_pod_view object
    else if bool_decide (event_type = lit "DELETED") then
      Deleted <$> pointer_str object (lit "/metadata/uid")
    else None in
  Some (rv, event).

(** The state of [consume_watch_byte_stream]: the line buffer, the resource
    version, the events sent, and how many more the receiver takes before the
    channel closes. *)
Record consume_state : Type := mkConsume {
  cw_buf : bytes;
  cw_rv : bytes;
  cw_sent : list PodWatchEvent;
  cw_room : option nat
}.

(** The outcome of a line or a chunk: go on, or return [Ok] (receiver gone). *)
Definition room_left (st : consume_state) : bool :=
  match cw_room st with Some O => false | _ => true end.

Definition consume_line (acc : consume_state * bool) (line : bytes) : consume_state * bool :=
  let '(st, stop) := acc in
  if stop then (st, true)
  else
    match decode_watch_line line with
    | None => (st, false)
    | Some (rv, event) =>
        let st := match rv with
                  | Some rv => mkConsume (cw_buf st) rv (cw_sent st) (cw_room st)
                  | None => st
                  end in
        match event with
        | None => (st, false)
        | Some ev =>
            if room_left st then
              (mkConsume (cw_buf st) (cw_rv st) (cw_sent st ++ [ev]) (pred <$> cw_room st), false)
            else (st, true)
        end
    end.

(** A chunk, or a transport error. *)
Fixpoint consume_watch_byte_stream (stream : list (option bytes)) (st : consume_state) :
    consume_state * result unit :=
  match stream with
  | [] => (st, Ok ())
  | None :: _ => (st, Err (EMsg "watch stream chunk"))
  | Some chunk :: stream =>
      let '(buf, lines) := push_chunk (cw_buf st) chunk in
      let '(st, stop) :=
        foldl consume_line (mkConsume buf (cw_rv st) (cw_sent st) (cw_room st), false) lines in
      if stop then (st, Ok ()) else consume_watch_byte_stream stream st
  end.

(** One request of [watch_loop] and what follows it. *)
Inductive watch_response : Type :=
| WSendError
| WStatus (code : Z)
| WStream (chunks : list (option bytes)).
Inductive watch_next : Type := WContinue | WExit (r : result unit).

Definition watch_iter (resp : watch_response) (rv : bytes) (sent : list PodWatchEvent) (room : option nat) :
    bytes * list PodWatchEvent * watch_next :=
  match resp with
  | WSendError => (rv, sent, WExit (Err (EMsg "watch GET")))
  | WStatus code =>
      if bool_decide (code = 410) then (lit "0", sent, WContinue)
      else (rv, sent, WExit (Err (EMsg "watch HTTP")))
  | WStream chunks =>
      let '(st, r) := consume_watch_byte_stream chunks (mkConsume [] rv sent room) in
      (cw_rv st, cw_sent st, match r with Ok _ => WContinue | Err e => WExit (Err e) end)
  end.

(** The resource version the loop starts from. *)
Definition initial_resource_version (response : result J) : result bytes :=
  value ← response;
  list ← ok_or (EContext "initial list for RV" (EMsg "json")) (json_pod_list value);
  Ok (default (lit "0") list.2).
End json.

(** ** Field selector, truncation, validation *)
Definition selector_char (b : Z) : bool :=
  bool_decide (65 ≤ b ≤ 90) || bool_decide (97 ≤ b ≤ 122) || bool_decide (48 ≤ b ≤ 57)
  || bool_decide (b = 45) || bool_decide (b = 95) || bool_decide (b = 46) || bool_decide (b = 61).
Definition hex_upper (d : Z) : Z := if bool_decide (d < 10) then 48 + d else 55 + d.
(** [urlencoding_field_selector]: [c as u8] keeps the low byte of the code point. *)
Definition urlencoding_field_selector (node_name : bytes) : bytes :=
  concat (map (λ c, if selector_char c then [c]
                    else let b := as_uint 8 c in [37; hex_upper (b / 16); hex_upper (b mod 16)])
            (str_chars (lit "spec.nodeName=" ++ node_name))).

(** [truncate]: the slice [&s[..max]] panics ([None]) off a character boundary;
    the ellipsis is three bytes. *)
Definition truncate (s : bytes) (max : nat) : option bytes :=
  if bool_decide (length s ≤ max)%nat then Some s
  else if is_char_boundary s max then Some (take max s ++ [226; 128; 166])
  else None.

(** [char::is_control]: U+0000..U+001F and U+007F..U+009F. *)
Definition is_control (c : Z) : bool := bool_decide (c < 32) || bool_decide (127 ≤ c < 160).
Definition validate_node_name (name : bytes) : result unit :=
  let name := trim name in
  if is_empty name then Err (EMsg "NEUROMESH_NODE_NAME is empty")
  else if existsb (λ c, is_control c || bool_decide (c = 44)) (str_chars name)
  then Err (EMsg "NEUROMESH_NODE_NAME contains illegal characters for fieldSelector")
  else Ok ().

(** ** The API client

    What [K8sClient::connect] reads: the variables, the files and whether a path is a
    file. [from_pem] and [build] are [reqwest]'s certificate parser and client builder. *)
Definition SA_TOKEN_PATH : bytes := lit "/var/run/secrets/kubernetes.io/serviceaccount/token".
Definition SA_CA_PATH : bytes := lit "/var/run/secrets/kubernetes.io/serviceaccount/ca.crt".

Record K8sClient : Type := mkK8sClient {
  kc_root_certificate : option bytes;
  kc_base_url : bytes;
  kc_token : bytes
}.

Record connect_env : Type := mkConnectEnv {
  ce_api_url : option bytes;
  ce_bearer_token : option bytes;
  ce_ca_file : option bytes;
  ce_service_host : option bytes;
  ce_service_port : option bytes;
  ce_read : bytes → option bytes;
  ce_is_file : bytes → bool
}.

Section connect.
Context (from_pem : bytes → bool) (build : option bytes → bool) (env : connect_env).

Definition read_certificate (what : string) (path : bytes) : result bytes :=
  ca ← ok_or (EContext what (EMsg "io")) (ce_read env path);
  if from_pem ca then Ok ca else Err (EContext what (EMsg "pem")).
Definition build_client (ca : option bytes) (base_url token : bytes) : result K8sClient :=
  if build ca then Ok (mkK8sClient ca base_url token) else Err (EContext "build reqwest client" (EMsg "builder")).

(** The explicit override. *)
Definition connect_override (url token : bytes) : result K8sClient :=
  let url := trim_end_matches 47 (trim url) in
  let token := trim token in
  if is_empty url || is_empty token then Err (EMsg "NEUROMESH_K8S_API_URL / NEUROMESH_K8S_BEARER_TOKEN empty")
  else
    ca ← (match trim <$> ce_ca_file env with
          | Some path => if is_empty path then Ok None else Some <$> read_certificate "NEUROMESH_K8S_CA_FILE" path
          | None => Ok None
          end);
    build_client ca url token.

(** The service account of the pod. *)
Definition connect_in_cluster : result K8sClient :=
  host ← ok_or (EContext "KUBERNETES_SERVICE_HOST unset (not in-cluster?)" (EMsg "env")) (ce_service_host env);
  let port := default (lit "443") (ce_service_port env) in
  let base_url := lit "https://" ++ host ++ [58] ++ port in
  raw ← ok_or (EContext "read SA token" (EMsg "io")) (ce_read env SA_TOKEN_PATH);
  _ ← (if utf8_valid raw then Ok () else Err (EContext "read SA token" (EMsg "utf-8")));
  let token := trim raw in
  if is_empty token then Err (EMsg "serviceaccount token is empty")
  else
    ca ← (if ce_is_file env SA_CA_PATH then Some <$> read_certificate "SA CA" SA_CA_PATH else Ok None);
    build_client ca base_url token.

Definition connect : result K8sClient :=
  match ce_api_url env, ce_bearer_token env with
  | Some url, Some token => connect_override url token
  | _, _ => connect_in_cluster
  end.
End connect.

(** [list_pod_uids_on_node] and [watch_loop] ask for. *)
Definition list_query (node_name limit : bytes) : bytes :=
  lit "/api/v1/pods?fieldSelector=" ++ urlencoding_field_selector node_name ++ lit "&limit=" ++ limit.
Definition watch_query (node_name resource_version : bytes) : bytes :=
  lit "/api/v1/pods?watch=1&allowWatchBookmarks=true&fieldSelector=" ++ urlencoding_field_selector node_name ++
  lit "&resourceVersion=" ++ resource_version ++ lit "&timeoutSeconds=30".

(** [get_json]: a request ends without an answer, without a body, or with both; [None]
    is the panic of [truncate]. *)
Inductive http_reply : Type :=
| NoAnswer
| NoBody (status : Z)
| Answer (status : Z) (body : bytes).
Definition get_json {J} (from_str : bytes → option J) (reply : http_reply) : option (result J) :=
  match reply with
  | NoAnswer => Some (Err (EContext "GET" (EMsg "request")))
  | NoBody _ => Some (Err (EContext "read response body" (EMsg "body")))
  | Answer status body =>
      if bool_decide (200 ≤ status < 300)
      then Some (ok_or (EContext "parse JSON response" (EMsg "json")) (from_str body))
      else (λ _, Err (EMsg "GET HTTP status")) <$> truncate body 500
  end.

(** ** [watch_loop]

    One turn: the shutdown is seen (at the head of the loop, while the request or the
    stream is awaited), or a response is consumed. [room] is [None] while the correlator
    listens. The loop's result is [None] while it runs. *)
Inductive watch_turn : Type :=
| TurnCancelled
| Turn (resp : watch_response) (room : option nat).

Section watch_loop.
Context {J : Type} `{Json J}.

Fixpoint watch_turns (turns : list watch_turn) (rv : bytes) (sent : list PodWatchEvent) :
    list PodWatchEvent * option (result unit) :=
  match turns with
  | [] => (sent, None)
  | TurnCancelled :: _ => (sent, Some (Ok ()))
  | Turn resp room :: turns =>
      match watch_iter resp rv sent room with
      | (rv, sent, WContinue) => watch_turns turns rv sent
      | (_, sent, WExit r) => (sent, Some r)
      end
  end.
Definition watch_loop (initial : result J) (turns : list watch_turn) : list PodWatchEvent * option (result unit) :=
  match initial_resource_version initial with
  | Ok rv => watch_turns turns rv []
  | Err e => ([], Some (Err e))
  end.
End watch_loop.

(** ** Lines do not depend on the chunking *)

(** What a buffer holds: its complete non-empty lines and the unfinished one. *)
Definition complete_lines (buf : bytes) : list bytes :=
  filter (λ l, is_empty l = false) (removelast (split_byte 10 buf)).
Definition last_line (buf : bytes) : bytes := List.last (split_byte 10 buf) [].

Lemma split_byte_nonempty c s : split_byte c s ≠ [].
Proof. destruct s; simpl; [done|]. case_bool_decide; [done|]. by destruct (split_byte c s). Qed.

Lemma split_byte_line a b : 10 ∉ a → split_byte 10 (a ++ 10 :: b) = a :: split_byte 10 b.
Proof. intros Ha. by rewrite split_byte_app, split_byte_notin. Qed.

Lemma position_split buf :
  let pos := position_or_len 10 buf in
  10 ∉ take pos buf ∧
  ((pos < length buf)%nat → buf = take pos buf ++ 10 :: drop (pos + 1) buf) ∧
  ((length buf ≤ pos)%nat → 10 ∉ buf).
Proof.
  cbv zeta. split_and!.
  - apply position_or_len_notin.
  - intros Hlt. induction buf as [|b buf IH]; simpl in *; [lia|].
    case_bool_decide; simpl; [by subst|]. f_equal. apply IH. lia.
  - intros Hge. pose proof (position_or_len_notin 10 buf) as Hn. by rewrite take_ge in Hn.
Qed.

Lemma take_lines_spec fuel buf :
  (length buf < fuel)%nat → take_lines fuel buf = (complete_lines buf, last_line buf).
Proof.
  revert buf. induction fuel as [|fuel IH]; intros buf Hf; [lia|]. cbn [take_lines].
  destruct (position_split buf) as (Hn & Hlt & Hge). set (pos := position_or_len 10 buf) in *.
  destruct (decide (pos < length buf)%nat) as [Hp|Hp].
  - rewrite bool_decide_eq_true_2 by done. rewrite IH by (rewrite length_drop; lia).
    assert (split_byte 10 buf = take pos buf :: split_byte 10 (drop (pos + 1) buf)) as Hsp.
    { rewrite (Hlt Hp) at 1. by apply split_byte_line. }
    unfold complete_lines, last_line. rewrite Hsp.
    pose proof (split_byte_nonempty 10 (drop (pos + 1) buf)) as Hs.
    destruct (split_byte 10 (drop (pos + 1) buf)) as [|w ws]; [done|].
    change (removelast (take pos buf :: w :: ws)) with (take pos buf :: removelast (w :: ws)).
    rewrite filter_cons. by destruct (is_empty (take pos buf)).
  - rewrite bool_decide_eq_false_2 by done. unfold complete_lines, last_line.
    rewrite split_byte_notin by (apply Hge; lia). done.
Qed.

Lemma split_byte_extend c a b :
  split_byte c (a ++ b) =
  removelast (split_byte c a) ++ split_byte c (List.last (split_byte c a) [] ++ b).
Proof.
  induction a as [|x a IH]; [done|]. simpl. pose proof (split_byte_nonempty c a) as Hs.
  case_bool_decide.
  - rewrite IH. destruct (split_byte c a) as [|w ws]; done.
  - rewrite IH. destruct (split_byte c a) as [|w [|w' ws]]; [done| |].
    + simpl. rewrite bool_decide_eq_false_2 by done. done.
    + done.
Qed.

(** Feeding a list of chunks. *)
Definition push_chunks (buf : bytes) (chunks : list bytes) : bytes * list bytes :=
  foldl (λ '(buf, lines) chunk, let '(buf, new) := push_chunk buf chunk in (buf, lines ++ new))
    (buf, []) chunks.

Lemma push_chunk_spec buf chunk :
  push_chunk buf chunk = (last_line (buf ++ chunk), complete_lines (buf ++ chunk)).
Proof. unfold push_chunk. by rewrite take_lines_spec by lia. Qed.

Lemma last_line_extend a b : last_line (last_line a ++ b) = last_line (a ++ b).
Proof.
  unfold last_line. rewrite (split_byte_extend 10 a b).
  pose proof (split_byte_nonempty 10 (List.last (split_byte 10 a) [] ++ b)) as Hs.
  destruct (exists_last Hs) as (ws & w & ->). rewrite app_assoc, !last_last. done.
Qed.

Lemma complete_lines_extend a b :
  complete_lines (a ++ b) = complete_lines a ++ complete_lines (last_line a ++ b).
Proof.
  unfold complete_lines, last_line. rewrite (split_byte_extend 10 a b).
  rewrite removelast_app by apply split_byte_nonempty. by rewrite filter_app.
Qed.

(** However the response body is cut into chunks, the lines handed on and the
    unfinished rest are those of the whole body: no event is lost, split or
    merged at a chunk boundary. *)
Theorem ndjson_chunking_independent chunks :
  push_chunks [] chunks = (last_line (concat chunks), complete_lines (concat chunks)).
Proof.
  unfold push_chunks.
  assert (∀ seen, foldl (λ '(buf, lines) chunk, let '(buf, new) := push_chunk buf chunk in (buf, lines ++ new))
    (last_line seen, complete_lines seen) chunks =
    (last_line (seen ++ concat chunks), complete_lines (seen ++ concat chunks))) as H.
  { induction chunks as [|c chunks IH]; intros seen; simpl; [by rewrite app_nil_r|].
    rewrite push_chunk_spec, <- complete_lines_extend, last_line_extend, IH. by rewrite <- app_assoc. }
  apply (H []).
Qed.

Section delivery.
Context {J : Type} `{Json J}.

Definition line_event (line : bytes) : option PodWatchEvent := decode_watch_line line ≫= snd.
(** The events of a response body: its complete lines, decoded. *)
Definition body_events (body : bytes) : list PodWatchEvent := omap line_event (complete_lines body).

(** The chunks before a transport error, and whether there was none. *)
Fixpoint received (stream : list (option bytes)) : list bytes :=
  match stream with Some chunk :: stream => chunk :: received stream | _ => [] end.
Definition no_error (stream : list (option bytes)) : bool := forallb (λ c, bool_decide (is_Some c)) stream.

Lemma consume_lines lines st :
  cw_room st = None →
  ∃ rv, foldl consume_line (st, false) lines = (mkConsume (cw_buf st) rv (cw_sent st ++ omap line_event lines) None, false).
Proof.
  revert st. induction lines as [|line lines IH]; intros [buf rv sent room]; cbn [cw_room cw_buf cw_sent]; intros ->.
  { exists rv. by rewrite app_nil_r. }
  cbn [foldl]. unfold consume_line at 2. cbn [omap list_omap]. unfold line_event at 1.
  destruct (decode_watch_line line) as [[rv' ev]|]; cbn [mbind option_bind snd]; [|by apply IH].
  destruct ev as [ev|]; [|by destruct rv' as [rv'|]; apply IH].
  destruct rv' as [rv'|]; cbn [room_left cw_room cw_buf cw_sent cw_rv fmap option_fmap option_map];
    match goal with |- context [foldl consume_line (?t, false) lines] => destruct (IH t eq_refl) as [rv'' ->] end;
    exists rv''; cbn [cw_buf cw_sent]; by rewrite <- app_assoc.
Qed.

(** One response: whatever its chunks, its events are sent once each, in order. *)
Lemma consume_stream stream rv sent :
  ∃ buf rv', consume_watch_byte_stream stream (mkConsume [] rv sent None) =
    (mkConsume buf rv' (sent ++ body_events (concat (received stream))) None,
     if no_error stream then Ok () else Err (EMsg "watch stream chunk")).
Proof.
  assert (∀ seen rv sent, ∃ buf rv',
    consume_watch_byte_stream stream (mkConsume (last_line seen) rv (sent ++ body_events seen) None) =
    (mkConsume buf rv' (sent ++ body_events (seen ++ concat (received stream))) None,
     if no_error stream then Ok () else Err (EMsg "watch stream chunk"))) as Hgen.
  { induction stream as [|[chunk|] stream IH]; intros seen rv0 sent0.
    - cbn. exists (last_line seen), rv0. by rewrite app_nil_r.
    - cbn [consume_watch_byte_stream cw_buf cw_rv cw_sent cw_room]. rewrite push_chunk_spec.
      destruct (consume_lines (complete_lines (last_line seen ++ chunk))
        (mkConsume (last_line (last_line seen ++ chunk)) rv0 (sent0 ++ body_events seen) None) eq_refl) as [rv1 ->].
      cbn [cw_buf cw_sent received concat]. rewrite last_line_extend.
      destruct (IH (seen ++ chunk) rv1 sent0) as (buf & rv' & E). exists buf, rv'.
      unfold body_events in E at 1. rewrite complete_lines_extend, omap_app in E. rewrite app_assoc in E.
      unfold body_events at 1. cbn [no_error forallb]. rewrite E. by rewrite <- (app_assoc seen).
    - cbn. exists (last_line seen), rv0. by rewrite app_nil_r. }
  destruct (Hgen [] rv sent) as (buf & rv' & E). exists buf, rv'. cbn [app] in E.
  change (body_events []) with (@nil PodWatchEvent) in E. rewrite app_nil_r in E. exact E.
Qed.

(** The specification of the loop while the correlator listens: the responses' events one
    after the other, up to the first failure; an expired version (410) asks again. *)
Fixpoint delivered (turns : list watch_turn) : list PodWatchEvent * option bool :=
  match turns with
  | [] => ([], None)
  | TurnCancelled :: _ => ([], Some true)
  | Turn WSendError _ :: _ => ([], Some false)
  | Turn (WStatus code) _ :: turns => if bool_decide (code = 410) then delivered turns else ([], Some false)
  | Turn (WStream stream) _ :: turns =>
      let evs := body_events (concat (received stream)) in
      if no_error stream then (evs ++ (delivered turns).1, (delivered turns).2) else (evs, Some false)
  end.
Definition listening (turn : watch_turn) : Prop := match turn with Turn _ room => room = None | _ => True end.

(** The pod watch delivers what the API server sent. While the correlator listens, the
    events handed to it are the decoded complete lines of the response bodies, once each
    and in order, however the bodies are cut into chunks and over however many requests,
    up to the first transport or status error, at which the loop ends; an expired
    resource version only makes it ask again. *)
Theorem watch_loop_delivers initial turns :
  Forall listening turns →
  let '(sent, r) := watch_loop initial turns in
  match initial_resource_version initial with
  | Ok _ => sent = (delivered turns).1 ∧ is_ok <$> r = (delivered turns).2
  | Err e => sent = [] ∧ r = Some (Err e)
  end.
Proof.
  intros Hl. unfold watch_loop. destruct (initial_resource_version initial) as [rv|e]; [|done].
  assert (∀ sent, (watch_turns turns rv sent).1 = sent ++ (delivered turns).1 ∧
    is_ok <$> (watch_turns turns rv sent).2 = (delivered turns).2) as Hgen.
  { revert rv. induction Hl as [|turn turns Ht Hl IH]; intros rv sent; [by cbn; rewrite app_nil_r|].
    destruct turn as [|resp room]; [by cbn; rewrite app_nil_r|]. cbn in Ht. subst room.
    cbn [watch_turns delivered]. destruct resp as [|code|stream]; cbn [watch_iter].
    - cbn. by rewrite app_nil_r.
    - case_bool_decide; [apply IH|]. cbn. by rewrite app_nil_r.
    - destruct (consume_stream stream rv sent) as (buf & rv' & ->). destruct (no_error stream); cbn [cw_rv cw_sent fst snd].
      + destruct (IH rv' (sent ++ body_events (concat (received stream)))) as [-> ->]. by rewrite <- app_assoc.
      + done. }
  specialize (Hgen []). by destruct (watch_turns turns rv []) as [sent r].
Qed.
End delivery.

(** An error body is cut at 500 bytes with a slice that panics inside a
    character: a body of 499 ASCII bytes and one two-byte character brings the
    request, and with it the correlator task, down. *)
Theorem truncate_panics_inside_character :
  (∀ s max, truncate s max = None ↔ (max < length s)%nat ∧ is_char_boundary s max = false) ∧
  let body := replicate 499 97 ++ [195; 169] in
  utf8_valid body = true ∧ truncate body 500 = None.
Proof.
  split.
  - intros s max. unfold truncate. case_bool_decide; [split; [done|intros [? _]; lia]|].
    destruct (is_char_boundary s max); split; try done; [by intros [_ ?]|]. intros _. split; [lia|done].
  - by vm_compute.
Qed.

(** A toy JSON in which a line is the uid of a deleted pod. *)
#[local] Instance demo_json : Json bytes := {
  json_pointer v _ := Some v;
  json_get v _ := Some v;
  json_as_str v := Some v;
  json_as_array _ := None;
  json_watch_event line := Some (lit "DELETED", line);
  json_pod_list _ := Some ([], Some (lit "7"))
}.

Lemma watch_loop_delivers_witness :
  watch_loop (Ok []) [Turn (WStream [Some (lit "u-"); Some [49; 10; 117]]) None; Turn (WStatus 410) None;
                      Turn (WStream [Some (lit "u-2" ++ [10]); None]) None; TurnCancelled] =
    ([Deleted (lit "u-1"); Deleted (lit "u-2")], Some (Err (EMsg "watch stream chunk"))) ∧
  (watch_loop (Ok []) [Turn (WStream [Some (lit "u-"); Some [49; 10; 117]]) None]).1 = [Deleted (lit "u-1")].
Proof.
  split; [vm_compute; reflexivity|].
  pose proof (watch_loop_delivers (Ok []) [Turn (WStream [Some (lit "u-"); Some [49; 10; 117]]) None]) as H.
  destruct (watch_loop (Ok []) _) as [sent r]. destruct H as [-> _]; [by repeat constructor|]. vm_compute. reflexivity.
Defined.

(** A client always carries a token, a base URL and only certificates that parse; without
    the explicit override it talks TLS. *)
Theorem connect_authenticated from_pem build env c :
  connect from_pem build env = Ok c →
  kc_token c ≠ [] ∧ kc_base_url c ≠ [] ∧ (∀ ca, kc_root_certificate c = Some ca → from_pem ca = true) ∧
  (ce_api_url env = None ∨ ce_bearer_token env = None → starts_with (kc_base_url c) (lit "https://") = true).
Proof.
  assert (∀ what path, match read_certificate from_pem env what path with Ok ca => from_pem ca = true | Err _ => True end) as Hcert.
  { intros what path. unfold read_certificate. destruct (ce_read env path) as [ca|]; [|done]. cbn. by destruct (from_pem ca) eqn:E. }
  assert (∀ ca url token, (∀ x, ca = Some x → from_pem x = true) → url ≠ [] → token ≠ [] →
    build_client build ca url token = Ok c →
    kc_token c ≠ [] ∧ kc_base_url c = url ∧ ∀ x, kc_root_certificate c = Some x → from_pem x = true) as Hbuild.
  { intros ca url token Hca Hu Ht. unfold build_client. destruct (build ca); [|done]. by intros [= <-]. }
  assert (connect_in_cluster from_pem build env = Ok c →
    kc_token c ≠ [] ∧ kc_base_url c ≠ [] ∧ (∀ ca, kc_root_certificate c = Some ca → from_pem ca = true) ∧
    starts_with (kc_base_url c) (lit "https://") = true) as Hin.
  { unfold connect_in_cluster. intros (host & _ & Hr)%bind_Ok. apply bind_Ok in Hr as (raw & _ & Hr).
    apply bind_Ok in Hr as (u & _ & Hr). cbv zeta in Hr. destruct (is_empty (trim raw)) eqn:He; [done|].
    apply is_empty_false in He. apply bind_Ok in Hr as (ca & Hca & Hr).
    apply Hbuild in Hr as (? & -> & ?); [split_and!; [done|done|done|apply starts_with_app]| |done|done].
    intros x ->. destruct (ce_is_file env SA_CA_PATH); [|done]. specialize (Hcert "SA CA"%string SA_CA_PATH).
    destruct (read_certificate _ _ _ _); [|done]. by injection Hca as ->. }
  unfold connect. destruct (ce_api_url env) as [url|]; [destruct (ce_bearer_token env) as [token|]|]; [|naive_solver..].
  unfold connect_override. destruct (is_empty (trim_end_matches 47 (trim url))) eqn:Hu; [done|].
  destruct (is_empty (trim token)) eqn:Ht; [done|]. apply is_empty_false in Hu, Ht. cbn [orb].
  intros (ca & Hca & Hr)%bind_Ok. apply Hbuild in Hr as (? & Hb & ?); [split_and!; [done|by rewrite Hb|done|by intros [|]]| |done|done].
  intros x ->. destruct (trim <$> ce_ca_file env) as [path|]; [|done]. destruct (is_empty path); [done|].
  specialize (Hcert "NEUROMESH_K8S_CA_FILE"%string path). destruct (read_certificate _ _ _ _); [|done]. by injection Hca as ->.
Qed.
