(* ===== verification/TeardownWatch.v ===== *)
(** * The teardown watch

    [identity_correlator/teardown_watch.rs]: cgroup directories are watched
    through their parents, because the cgroup file system reports a removal only
    there. The watcher keeps three maps (descriptor to parent, parent to its watched
    children, path to parent and child); [tw_wf] says they agree. The [inotify]
    crate is third-party code: its calls are the parameter [Inotify].

    A [PathBuf] is the value its equality compares: whether it is absolute, and
    its components ([path_key] in [SideTable]). *)

From S2P Require Import Prelude RustStd Common SideTable.

Abbreviation PathBuf := (bool * list bytes)%type.

(** [Path::parent], [Path::file_name] and [Path::join] of a single name. *)
Definition path_parent (p : PathBuf) : option PathBuf :=
  match p.2 with [] => None | _ => Some (p.1, removelast p.2) end.
Definition file_name (p : PathBuf) : option bytes :=
  match p.2 with
  | [] => None
  | cs => let c := List.last cs [] in if bool_decide (c = lit "..") then None else Some c
  end.
Definition join (p : PathBuf) (name : bytes) : PathBuf := (p.1, p.2 ++ [name]).

(** ** The kernel side *)
Class Inotify (I : Type) : Type := {
  ino_active : I → gset Z;
  ino_add : I → PathBuf → I * option Z;
  ino_remove : I → Z → I
}.

(** A new watch gets a descriptor that is not in use; the only other change to
    the descriptors in use is a removal. *)
Class InotifyLaws (I : Type) `{Inotify I} : Prop := {
  ino_add_some i p i' wd :
    ino_add i p = (i', Some wd) → wd ∉ ino_active i ∧ ino_active i' = ino_active i ∪ {[wd]};
  ino_add_none i p i' : ino_add i p = (i', None) → ino_active i' = ino_active i;
  ino_remove_active i wd : ino_active (ino_remove i wd) = ino_active i ∖ {[wd]}
}.

(** ** State *)
Record ParentWatch : Type := mkParentWatch {
  pw_wd : Z;
  pw_children : gset bytes
}.

Record TeardownBatch : Type := mkTeardownBatch {
  torn_down_paths : list PathBuf;
  overflow : bool
}.

Record TeardownWatcher (I : Type) : Type := mkTeardownWatcher {
  tw_inotify : I;
  tw_by_wd : gmap Z PathBuf;
  tw_by_parent : gmap PathBuf ParentWatch;
  tw_by_path : gmap PathBuf (PathBuf * bytes)
}.
Arguments mkTeardownWatcher {I}.
Arguments tw_inotify {I}.
Arguments tw_by_wd {I}.
Arguments tw_by_parent {I}.
Arguments tw_by_path {I}.

(** One event of [read_events]. *)
Record inotify_event : Type := mkEvent {
  ev_wd : Z;
  ev_name : option bytes;
  ev_delete : bool;
  ev_moved_from : bool;
  ev_q_overflow : bool
}.

(** One call of [read_events]; running out of reads is [WouldBlock]. *)
Inductive read_result : Type := RdEvents (evs : list inotify_event) | RdError.

Section watcher.
Context {I : Type} `{Inotify I}.
Abbreviation TW := (TeardownWatcher I).

(** [TeardownWatcher::new] on a fresh descriptor. *)
Definition tw_new (i : I) : TW := mkTeardownWatcher i ∅ ∅ ∅.

(** [watch_path]; [exists_] is [Path::exists]. *)
Definition watch_path (exists_ : PathBuf → bool) (path : PathBuf) : stm TW bool := λ w,
  if bool_decide (is_Some (tw_by_path w !! path)) then (w, Ok false)
  else if negb (exists_ path) then (w, Err (EMsg "cannot inotify-watch: path does not exist"))
  else
    match path_parent path with
    | None => (w, Err (EMsg "cannot inotify-watch: no parent directory"))
    | Some parent =>
        match file_name path with
        | None => (w, Err (EMsg "cannot inotify-watch: no file name component"))
        | Some child =>
            match tw_by_parent w !! parent with
            | Some pw =>
                (mkTeardownWatcher (tw_inotify w) (tw_by_wd w)
                   (<[parent := mkParentWatch (pw_wd pw) (pw_children pw ∪ {[child]})]> (tw_by_parent w))
                   (<[path := (parent, child)]> (tw_by_path w)), Ok true)
            | None =>
                match ino_add (tw_inotify w) parent with
                | (i, None) =>
                    (mkTeardownWatcher i (tw_by_wd w) (tw_by_parent w) (tw_by_path w),
                     Err (EMsg "inotify add_watch parent"))
                | (i, Some wd) =>
                    (mkTeardownWatcher i (<[wd := parent]> (tw_by_wd w))
                       (<[parent := mkParentWatch wd {[child]}]> (tw_by_parent w))
                       (<[path := (parent, child)]> (tw_by_path w)), Ok true)
                end
            end
        end
    end.

(** [unwatch_path] never fails. *)
Definition unwatch_path (path : PathBuf) (w : TW) : TW :=
  match tw_by_path w !! path with
  | None => w
  | Some (parent, child) =>
      let by_path := delete path (tw_by_path w) in
      match tw_by_parent w !! parent with
      | None => mkTeardownWatcher (tw_inotify w) (tw_by_wd w) (tw_by_parent w) by_path
      | Some pw =>
          let children := pw_children pw ∖ {[child]} in
          if bool_decide (children = ∅) then
            mkTeardownWatcher (ino_remove (tw_inotify w) (pw_wd pw)) (delete (pw_wd pw) (tw_by_wd w))
              (delete parent (tw_by_parent w)) by_path
          else
            mkTeardownWatcher (tw_inotify w) (tw_by_wd w)
              (<[parent := mkParentWatch (pw_wd pw) children]> (delete parent (tw_by_parent w))) by_path
      end
  end.

Definition clear_all_watches (w : TW) : TW :=
  foldl (λ w p, unwatch_path p w) w (map_to_list (tw_by_path w)).*1.

Definition rearm_paths (exists_ : PathBuf → bool) (paths : list PathBuf) : stm TW unit := λ w,
  match paths with
  | [] => (w, Ok ())
  | _ => for_each (λ p, watch_path exists_ p ≫= λ _, mret ()) paths (clear_all_watches w)
  end.

(** The treatment of one event in [drain_events]: a torn-down path, if any. *)
Definition drain_event (acc : TW * TeardownBatch) (ev : inotify_event) : TW * TeardownBatch :=
  let '(w, batch) := acc in
  let name := default [] (from_utf8_lossy <$> ev_name ev) in
  if ev_q_overflow ev then (w, mkTeardownBatch (torn_down_paths batch) true)
  else if negb (ev_delete ev || ev_moved_from ev) then (w, batch)
  else
    match tw_by_wd w !! ev_wd ev with
    | None => (w, batch)
    | Some parent =>
        if is_empty name then (w, batch)
        else
          match tw_by_parent w !! parent with
          | None => (w, batch)
          | Some pw =>
              if negb (bool_decide (name ∈ pw_children pw)) then (w, batch)
              else
                let children := pw_children pw ∖ {[name]} in
                let by_parent := <[parent := mkParentWatch (pw_wd pw) children]> (tw_by_parent w) in
                let full := join parent name in
                let by_path := delete full (tw_by_path w) in
                let w :=
                  if bool_decide (children = ∅) then
                    mkTeardownWatcher (ino_remove (tw_inotify w) (pw_wd pw))
                      (delete (pw_wd pw) (tw_by_wd w)) (delete parent by_parent) by_path
                  else mkTeardownWatcher (tw_inotify w) (tw_by_wd w) by_parent by_path in
                (w, mkTeardownBatch (torn_down_paths batch ++ [full]) (overflow batch))
          end
    end.

(** [drain_events]: reads until there is nothing more, an empty read or an overflow. *)
Fixpoint drain_reads (reads : list read_result) (w : TW) (batch : TeardownBatch) :
    TW * result TeardownBatch :=
  match reads with
  | [] => (w, Ok batch)
  | RdError :: _ => (w, Err (EMsg "inotify read_events"))
  | RdEvents evs :: reads =>
      let '(w, batch) := foldl drain_event (w, batch) evs in
      if bool_decide (evs = []) || overflow batch then (w, Ok batch) else drain_reads reads w batch
  end.
Definition drain_events (reads : list read_result) : stm TW TeardownBatch := λ w,
  drain_reads reads w (mkTeardownBatch [] false).

(** ** The three maps agree *)
Record tw_wf (w : TW) : Prop := mkTwWf {
  wf_path p par ch : tw_by_path w !! p = Some (par, ch) →
    p = join par ch ∧ ∃ pw, tw_by_parent w !! par = Some pw ∧ ch ∈ pw_children pw;
  wf_parent par pw : tw_by_parent w !! par = Some pw →
    pw_children pw ≠ ∅ ∧ tw_by_wd w !! pw_wd pw = Some par ∧
    ∀ ch, ch ∈ pw_children pw → tw_by_path w !! join par ch = Some (par, ch);
  wf_wd wd par : tw_by_wd w !! wd = Some par →
    wd ∈ ino_active (tw_inotify w) ∧ ∃ pw, tw_by_parent w !! par = Some pw ∧ pw_wd pw = wd
}.
End watcher.

(** ** Lemmas: paths *)
Lemma join_inj p q a b : join p a = join q b → p = q ∧ a = b.
Proof.
  unfold join. destruct p as [pa pc], q as [qa qc]. simpl. intros [= -> H].
  apply app_inj_tail in H as [-> ->]. done.
Qed.

Lemma parent_file_name p par ch :
  path_parent p = Some par → file_name p = Some ch → p = join par ch.
Proof.
  unfold path_parent, file_name, join. destruct p as [a cs]; simpl.
  destruct cs as [|c cs]; [done|]. intros [= <-]. simpl fst. simpl snd.
  case_bool_decide; [done|]. intros [= <-]. f_equal. by apply (@app_removelast_last bytes (c :: cs) []).
Qed.

Section proofs.
Context {I : Type} `{HI : Inotify I} `{!InotifyLaws I}.
Abbreviation TW := (TeardownWatcher I).
Implicit Types (w : TW).

Lemma tw_new_wf i : tw_wf (tw_new i).
Proof. split; intros *; cbn; by rewrite lookup_empty. Qed.

(** The state after one watched child is gone. *)
Definition remove_child (par : PathBuf) (ch : bytes) (pw : ParentWatch) w : TW :=
  let children := pw_children pw ∖ {[ch]} in
  let by_path := delete (join par ch) (tw_by_path w) in
  if bool_decide (children = ∅) then
    mkTeardownWatcher (ino_remove (tw_inotify w) (pw_wd pw)) (delete (pw_wd pw) (tw_by_wd w))
      (delete par (tw_by_parent w)) by_path
  else
    mkTeardownWatcher (tw_inotify w) (tw_by_wd w)
      (<[par := mkParentWatch (pw_wd pw) children]> (tw_by_parent w)) by_path.

Lemma unwatch_path_remove w path par ch pw :
  tw_wf w → tw_by_path w !! path = Some (par, ch) → tw_by_parent w !! par = Some pw →
  unwatch_path path w = remove_child par ch pw w.
Proof.
  intros Hwf Hp Hpw. unfold unwatch_path, remove_child. rewrite Hp, Hpw.
  destruct (wf_path _ Hwf _ _ _ Hp) as [-> _]. by rewrite insert_delete_eq.
Qed.

(** Two parents never share a descriptor. *)
Lemma wd_unique w par par' pw pw' :
  tw_wf w → tw_by_parent w !! par = Some pw → tw_by_parent w !! par' = Some pw' →
  pw_wd pw = pw_wd pw' → par = par'.
Proof.
  intros Hwf H1 H2 Hwd. destruct (wf_parent _ Hwf _ _ H1) as (_ & Hw1 & _).
  destruct (wf_parent _ Hwf _ _ H2) as (_ & Hw2 & _). congruence.
Qed.

Lemma remove_child_wf w par ch pw :
  tw_wf w → tw_by_parent w !! par = Some pw → ch ∈ pw_children pw → tw_wf (remove_child par ch pw w).
Proof.
  intros Hwf Hpw Hch. unfold remove_child. destruct (wf_parent _ Hwf _ _ Hpw) as (_ & Hwd & Hall).
  destruct (decide (pw_children pw ∖ {[ch]} = ∅)) as [He|He];
    [rewrite bool_decide_eq_true_2 by done|rewrite bool_decide_eq_false_2 by done];
    split; cbn [tw_by_path tw_by_parent tw_by_wd tw_inotify].
  - intros p par' ch' [Hn Hp]%lookup_delete_Some.
    destruct (wf_path _ Hwf _ _ _ Hp) as (-> & pw' & Hpw' & Hin). split; [done|].
    exists pw'. split; [|done]. apply lookup_delete_Some. split; [|done]. intros <-.
    rewrite Hpw in Hpw'. injection Hpw' as <-. apply Hn. f_equal. set_solver.
  - intros par' pw' [Hn Hp]%lookup_delete_Some. destruct (wf_parent _ Hwf _ _ Hp) as (Hne & Hw & Hc).
    split_and!; [done| |].
    + apply lookup_delete_Some. split; [|done]. intros Heq. apply Hn. by eapply wd_unique.
    + intros c Hc'. apply lookup_delete_Some. split; [|by apply Hc]. by intros [? _]%join_inj.
  - intros wd par' [Hn Hw]%lookup_delete_Some. destruct (wf_wd _ Hwf _ _ Hw) as (Hact & pw' & Hp & Hwd').
    rewrite ino_remove_active. split; [set_solver|]. exists pw'. split; [|done].
    apply lookup_delete_Some. split; [|done]. intros <-. congruence.
  - intros p par' ch' [Hn Hp]%lookup_delete_Some.
    destruct (wf_path _ Hwf _ _ _ Hp) as (-> & pw' & Hpw' & Hin). split; [done|].
    destruct (decide (par = par')) as [<-|Hpp].
    + rewrite Hpw in Hpw'. injection Hpw' as <-. rewrite lookup_insert_eq. eexists. split; [done|].
      simpl. apply elem_of_difference. split; [done|]. intros ->%elem_of_singleton. done.
    + rewrite lookup_insert_ne by done. by exists pw'.
  - intros par' pw' [[<- <-]|[Hn Hp]]%lookup_insert_Some.
    + split_and!; [done|done|]. simpl. intros c [Hc Hne]%elem_of_difference.
      apply lookup_delete_Some. split; [|by apply Hall]. intros [_ ->]%join_inj. set_solver.
    + destruct (wf_parent _ Hwf _ _ Hp) as (Hne & Hw & Hc). split_and!; [done|done|].
      intros c Hc'. apply lookup_delete_Some. split; [|by apply Hc]. by intros [? _]%join_inj.
  - intros wd par' Hw. destruct (wf_wd _ Hwf _ _ Hw) as (Hact & pw' & Hp & Hwd'). split; [done|].
    destruct (decide (par = par')) as [<-|Hpp].
    + rewrite lookup_insert_eq. eexists. split; [done|]. simpl. congruence.
    + rewrite lookup_insert_ne by done. by exists pw'.
Qed.

Lemma unwatch_path_wf path w : tw_wf w → tw_wf (unwatch_path path w).
Proof.
  intros Hwf. destruct (tw_by_path w !! path) as [[par ch]|] eqn:Hp.
  - destruct (wf_path _ Hwf _ _ _ Hp) as (_ & pw & Hpw & Hin).
    rewrite (unwatch_path_remove _ _ _ _ _ Hwf Hp Hpw). by apply remove_child_wf.
  - unfold unwatch_path. by rewrite Hp.
Qed.

(** One more child under a watched parent. *)
Lemma add_child_wf w par ch pw :
  tw_wf w → tw_by_path w !! join par ch = None → tw_by_parent w !! par = Some pw →
  tw_wf (mkTeardownWatcher (tw_inotify w) (tw_by_wd w)
    (<[par := mkParentWatch (pw_wd pw) (pw_children pw ∪ {[ch]})]> (tw_by_parent w))
    (<[join par ch := (par, ch)]> (tw_by_path w))).
Proof.
  intros Hwf Hnone Hpw. destruct (wf_parent _ Hwf _ _ Hpw) as (Hne & Hwd & Hall).
  split; cbn [tw_by_path tw_by_parent tw_by_wd tw_inotify].
  - intros p par' ch' [[<- [= <- <-]]|[Hn Hp]]%lookup_insert_Some.
    + split; [done|]. rewrite lookup_insert_eq. eexists. split; [done|]. set_solver.
    + destruct (wf_path _ Hwf _ _ _ Hp) as (-> & pw' & Hpw' & Hin). split; [done|].
      destruct (decide (par = par')) as [<-|Hpp].
      * rewrite Hpw in Hpw'. injection Hpw' as <-. rewrite lookup_insert_eq. eexists. split; [done|]. set_solver.
      * rewrite lookup_insert_ne by done. by exists pw'.
  - intros par' pw' [[<- <-]|[Hn Hp]]%lookup_insert_Some.
    + split_and!; [set_solver|done|]. simpl. intros c [Hc| ->%elem_of_singleton]%elem_of_union.
      * rewrite lookup_insert_ne; [by apply Hall|]. intros [_ ->]%join_inj.
        rewrite Hall in Hnone by done. done.
      * by rewrite lookup_insert_eq.
    + destruct (wf_parent _ Hwf _ _ Hp) as (Hne' & Hw & Hc). split_and!; [done|done|].
      intros c Hc'. rewrite lookup_insert_ne; [by apply Hc|]. by intros [? _]%join_inj.
  - intros wd par' Hw. destruct (wf_wd _ Hwf _ _ Hw) as (Hact & pw' & Hp & Hwd'). split; [done|].
    destruct (decide (par = par')) as [<-|Hpp].
    + rewrite lookup_insert_eq. eexists. split; [done|]. simpl. congruence.
    + rewrite lookup_insert_ne by done. by exists pw'.
Qed.

(** A first child under a new parent. *)
Lemma add_parent_wf w par ch i wd :
  tw_wf w → tw_by_parent w !! par = None → ino_add (tw_inotify w) par = (i, Some wd) →
  tw_wf (mkTeardownWatcher i (<[wd := par]> (tw_by_wd w))
    (<[par := mkParentWatch wd {[ch]}]> (tw_by_parent w))
    (<[join par ch := (par, ch)]> (tw_by_path w))).
Proof.
  intros Hwf Hpw Hadd. destruct (ino_add_some _ _ _ _ Hadd) as [Hfresh Hact].
  assert (∀ p, tw_by_wd w !! wd ≠ Some p) as Hwd by (intros p [? _]%(wf_wd _ Hwf); done).
  split; cbn [tw_by_path tw_by_parent tw_by_wd tw_inotify].
  - intros p par' ch' [[<- [= <- <-]]|[Hn Hp]]%lookup_insert_Some.
    + split; [done|]. rewrite lookup_insert_eq. eexists. split; [done|]. set_solver.
    + destruct (wf_path _ Hwf _ _ _ Hp) as (-> & pw' & Hpw' & Hin). split; [done|].
      rewrite lookup_insert_ne by congruence. by exists pw'.
  - intros par' pw' [[<- <-]|[Hn Hp]]%lookup_insert_Some; simpl.
    + split_and!; [set_solver|by rewrite lookup_insert_eq|].
      intros c ->%elem_of_singleton. by rewrite lookup_insert_eq.
    + destruct (wf_parent _ Hwf _ _ Hp) as (Hne' & Hw & Hc). split_and!; [done| |].
      * rewrite lookup_insert_ne; [done|]. intros ->. by eapply Hwd.
      * intros c Hc'. rewrite lookup_insert_ne; [by apply Hc|]. by intros [? _]%join_inj.
  - intros wd' par' [[<- <-]|[Hn Hw]]%lookup_insert_Some.
    + split; [set_solver|]. rewrite lookup_insert_eq. by eexists.
    + destruct (wf_wd _ Hwf _ _ Hw) as (Hact' & pw' & Hp & Hwd'). split; [set_solver|].
      exists pw'. split; [|done]. rewrite lookup_insert_ne; [done|]. congruence.
Qed.

Lemma watch_path_wf ex path w : tw_wf w → tw_wf (watch_path ex path w).1.
Proof.
  intros Hwf. unfold watch_path. case_bool_decide as Hnew; [done|].
  destruct (ex path); [|done]. cbn [negb].
  destruct (path_parent path) as [par|] eqn:Hpar; [|done].
  destruct (file_name path) as [ch|] eqn:Hfn; [|done].
  pose proof (parent_file_name _ _ _ Hpar Hfn) as ->.
  assert (tw_by_path w !! join par ch = None) as Hnone by (by apply eq_None_not_Some).
  destruct (tw_by_parent w !! par) as [pw|] eqn:Hpw; [by apply add_child_wf|].
  destruct (ino_add (tw_inotify w) par) as [i [wd|]] eqn:Hadd; [by apply add_parent_wf|].
  pose proof (ino_add_none _ _ _ Hadd) as Hact.
  split; cbn [fst tw_by_path tw_by_parent tw_by_wd tw_inotify]; [apply Hwf|apply Hwf|].
  rewrite Hact. apply Hwf.
Qed.

(** One event removes one child or changes nothing but the overflow flag. *)
Lemma drain_event_cases w batch ev :
  (∃ f, drain_event (w, batch) ev = (w, mkTeardownBatch (torn_down_paths batch) f)) ∨
  ∃ par pw name,
    ev_q_overflow ev = false ∧ ev_delete ev || ev_moved_from ev = true ∧
    tw_by_wd w !! ev_wd ev = Some par ∧ tw_by_parent w !! par = Some pw ∧
    from_utf8_lossy <$> ev_name ev = Some name ∧ name ∈ pw_children pw ∧
    drain_event (w, batch) ev =
      (remove_child par name pw w,
       mkTeardownBatch (torn_down_paths batch ++ [join par name]) (overflow batch)).
Proof.
  assert (∃ f, (w, batch) = (w, mkTeardownBatch (torn_down_paths batch) f)) as Hsame
    by (exists (overflow batch); by destruct batch).
  unfold drain_event. destruct (ev_q_overflow ev); [left; by eexists|].
  destruct (ev_delete ev || ev_moved_from ev) eqn:Hd; cbn [negb]; [|by left].
  destruct (tw_by_wd w !! ev_wd ev) as [par|] eqn:Hw; [|by left].
  destruct (is_empty _) eqn:He; [by left|].
  destruct (tw_by_parent w !! par) as [pw|] eqn:Hp; [|by left].
  destruct (decide (default [] (from_utf8_lossy <$> ev_name ev) ∈ pw_children pw)) as [Hin|Hin];
    [rewrite bool_decide_eq_true_2 by done|rewrite bool_decide_eq_false_2 by done; by left].
  cbn [negb]. right. destruct (ev_name ev) as [n|]; cbn in *; [|done].
  exists par, pw, (from_utf8_lossy n). split_and!; try done.
  unfold remove_child. case_bool_decide; [|done]. by rewrite delete_insert_eq.
Qed.

Lemma drain_event_wf w batch ev : tw_wf w → tw_wf (drain_event (w, batch) ev).1.
Proof.
  intros Hwf. destruct (drain_event_cases w batch ev) as [[f ->]|(par & pw & n & _ & _ & _ & Hp & _ & Hin & ->)];
    [done|]. by apply remove_child_wf.
Qed.

Lemma drain_list_wf evs w batch : tw_wf w → tw_wf (foldl drain_event (w, batch) evs).1.
Proof.
  revert w batch. induction evs as [|ev evs IH]; intros w batch Hwf; [done|]. cbn [foldl].
  pose proof (drain_event_wf w batch ev Hwf) as H1. destruct (drain_event (w, batch) ev) as [w' b'].
  by apply IH.
Qed.

Lemma drain_reads_wf reads w batch : tw_wf w → tw_wf (drain_reads reads w batch).1.
Proof.
  revert w batch. induction reads as [|[evs|] reads IH]; intros w batch Hwf; simpl; [done| |done].
  pose proof (drain_list_wf evs w batch Hwf) as H1. destruct (foldl drain_event _ _) as [w' b'].
  destruct (_ || _); [done|]. by apply IH.
Qed.

Lemma clear_all_wf w : tw_wf w → tw_wf (clear_all_watches w).
Proof.
  unfold clear_all_watches. generalize (map_to_list (tw_by_path w)).*1 as l.
  intros l. revert w. induction l as [|p l IH]; intros w Hwf; [done|]. by apply IH, unwatch_path_wf.
Qed.

Lemma rearm_paths_wf ex ps w : tw_wf w → tw_wf (rearm_paths ex ps w).1.
Proof.
  intros Hwf. unfold rearm_paths. destruct ps as [|p ps]; [done|].
  apply (for_each_inv tw_wf); [|by apply clear_all_wf]. intros q w' _ Hw'. rewrite stm_bind_run.
  pose proof (watch_path_wf ex q w' Hw') as Hq. by destruct (watch_path ex q w') as [w2 [|]].
Qed.

(** ** Runs of the watcher *)
Inductive tw_op : Type :=
| TWatch (ex : PathBuf → bool) (p : PathBuf)
| TUnwatch (p : PathBuf)
| TRearm (ex : PathBuf → bool) (ps : list PathBuf)
| TDrain (reads : list read_result).
Definition run_tw_op w (op : tw_op) : TW :=
  match op with
  | TWatch ex p => (watch_path ex p w).1
  | TUnwatch p => unwatch_path p w
  | TRearm ex ps => (rearm_paths ex ps w).1
  | TDrain reads => (drain_events reads w).1
  end.
Definition run_tw_ops (i : I) (ops : list tw_op) : TW := foldl run_tw_op (tw_new i) ops.

Lemma run_tw_ops_wf i ops : tw_wf (run_tw_ops i ops).
Proof.
  unfold run_tw_ops. generalize (tw_new_wf i). generalize (tw_new i) as w.
  induction ops as [|op ops IH]; intros w Hwf; [done|]. apply IH.
  destruct op; simpl; [by apply watch_path_wf|by apply unwatch_path_wf|by apply rearm_paths_wf|].
  by apply drain_reads_wf.
Qed.

(** The watched path an event is about: the descriptor's directory and the name. *)
Definition event_target w (ev : inotify_event) : option PathBuf :=
  par ← tw_by_wd w !! ev_wd ev;
  n ← ev_name ev;
  let p := join par (from_utf8_lossy n) in
  if bool_decide (is_Some (tw_by_path w !! p)) && negb (is_empty (from_utf8_lossy n)) then Some p else None.

(** In any state the watcher can reach, an event that says a child is gone
    reports the watched directory of that descriptor and name, exactly once, and
    stops watching exactly that path; an event about anything else reports
    nothing and changes nothing. The three maps of the watcher always agree. *)
Theorem teardown_event_exact i ops batch ev :
  let w := run_tw_ops i ops in
  tw_wf w ∧
  (ev_q_overflow ev = false → ev_delete ev || ev_moved_from ev = true →
   let '(w', batch') := drain_event (w, batch) ev in
   match event_target w ev with
   | Some p => torn_down_paths batch' = torn_down_paths batch ++ [p] ∧
               tw_by_path w' = delete p (tw_by_path w)
   | None => batch' = batch ∧ w' = w
   end).
Proof.
  intros w. pose proof (run_tw_ops_wf i ops) as Hwf. fold w in Hwf. split; [done|]. intros Hq Hd.
  unfold drain_event, event_target. rewrite Hq, Hd. cbn [negb].
  destruct (tw_by_wd w !! ev_wd ev) as [par|] eqn:Hw; [|done]. cbn [mbind option_bind].
  destruct (ev_name ev) as [n|]; cbn [fmap option_fmap option_map default mbind option_bind]; [|done].
  destruct (wf_wd _ Hwf _ _ Hw) as (_ & pw & Hp & Hwd). rewrite Hp.
  cbn [from_option]. unfold id. set (name := from_utf8_lossy n).
  destruct (is_empty name) eqn:He; cbn [negb]; [by rewrite andb_false_r|]. rewrite andb_true_r.
  destruct (decide (name ∈ pw_children pw)) as [Hin|Hin].
  - destruct (wf_parent _ Hwf _ _ Hp) as (_ & _ & Hall). rewrite (Hall _ Hin).
    rewrite (bool_decide_eq_true_2 (name ∈ _)) by done. rewrite (bool_decide_eq_true_2 (is_Some _)) by (by eexists).
    cbn [negb torn_down_paths]. split; [done|]. by case_bool_decide.
  - rewrite (bool_decide_eq_false_2 (name ∈ _)) by done. rewrite (bool_decide_eq_false_2 (is_Some _)); [done|].
    intros [[par' ch'] Hx]. destruct (wf_path _ Hwf _ _ _ Hx) as ([<- <-]%join_inj & pw' & Hp' & Hin').
    congruence.
Qed.
End proofs.

(** An executable descriptor table: numbers are handed out in order. *)
Record sim_inotify : Type := mkSimInotify { si_next : Z; si_live : gset Z }.
#[export] Instance sim_inotify_calls : Inotify sim_inotify := {
  ino_active i := filter (λ wd, wd < si_next i) (si_live i);
  ino_add i p := (mkSimInotify (si_next i + 1) (filter (λ wd, wd < si_next i) (si_live i) ∪ {[si_next i]}), Some (si_next i));
  ino_remove i wd := mkSimInotify (si_next i) (si_live i ∖ {[wd]})
}.
#[export] Instance sim_inotify_laws : InotifyLaws sim_inotify.
Proof.
  split; cbn.
  - intros i p i' wd [= <- <-]. cbn. split; [rewrite elem_of_filter; lia|].
    apply set_eq. intros x. rewrite !elem_of_filter, !elem_of_union, !elem_of_filter, elem_of_singleton.
    split; [tauto|]. intros [[? ?]| ->]; [|split; [lia|by right]]. split; [lia|by left].
  - done.
  - intros i wd. cbn. apply set_eq. intros x. rewrite !elem_of_filter, !elem_of_difference, !elem_of_filter. tauto.
Qed.

Lemma teardown_event_exact_witness :
  let leaf := path_key (lit "/sys/fs/cgroup/kubepods/pod1/c1") in
  let w := run_tw_ops (mkSimInotify 1 ∅) [TWatch (λ _, true) leaf] in
  torn_down_paths (drain_event (w, mkTeardownBatch [] false) (mkEvent 1 (Some (lit "c1")) true false false)).2 = [leaf].
Proof.
  cbv zeta. set (leaf := path_key _). set (ops := [_]). set (ev := mkEvent _ _ _ _ _).
  pose proof (teardown_event_exact (mkSimInotify 1 ∅) ops (mkTeardownBatch [] false) ev) as [_ H].
  specialize (H eq_refl eq_refl).
  assert (event_target (run_tw_ops (mkSimInotify 1 ∅) ops) ev = Some leaf) as Ht by (vm_compute; reflexivity).
  destruct (drain_event _ _) as [w' b']. rewrite Ht in H. apply H.
Defined.

(** Re-arming first drops every watch and then stops at the first path it
    cannot watch: when one directory vanished meanwhile, directories after it in
    the list that were watched before are no longer watched. *)
Theorem rearm_stops_at_missing_path :
  let a := path_key (lit "/sys/fs/cgroup/a") in
  let b := path_key (lit "/sys/fs/cgroup/b") in
  let ex := λ p, negb (bool_decide (p = a)) in
  let w := run_tw_ops (mkSimInotify 1 ∅) [TWatch (λ _, true) a; TWatch (λ _, true) b] in
  is_Some (tw_by_path w !! b) ∧
  let '(w', r) := rearm_paths ex [a; b] w in
  is_ok r = false ∧ ex b = true ∧ tw_by_path w' !! b = None.
Proof. vm_compute. split_and!; [by eexists|done..]. Qed.
