(* ===== verification/Correlator.v ===== *)
(** * The identity correlator

    [identity_correlator/mod.rs] and [reconcile.rs]: the handlers that put a
    container's cgroup into the BPF allow map when the policy engine allows the
    pod's SPIFFE id, and that take it out again when the pod is deleted, its
    directory goes away, the policy no longer allows it, or a resync finds it
    stale. Here each handler is one function of the shared state, in the order of its
    statements; [CorrelatorSteps] cuts it at its locks. Metrics and log lines are left
    out.

    Shown here: what a removal loop does to the allow map up to its first failure; that a
    failed delete, and a revocation between the two halves of a container's insert,
    leave an exception nobody takes back. *)

From S2P Require Import Prelude RustStd Common Bpf PathDeny IdentityAllow SideTable CgroupPath PodWatch TeardownWatch.

(** ** Configuration *)
Record IdentityCorrelatorConfig : Type := mkIdentityCorrelatorConfig {
  cfg_enabled : bool;
  cfg_node_name : bytes;
  cfg_cgroup_root : bytes;
  cfg_trust_domain : bytes
}.

(** [IdentityCorrelatorConfig::from_env], given the four variables. *)
Definition config_from_env (correlator node_name cgroup_root trust_domain : option bytes) :
    result IdentityCorrelatorConfig :=
  let enabled :=
    match correlator with
    | Some v =>
        let v := to_ascii_lowercase (trim v) in
        existsb (λ w, bool_decide (v = w)) [lit "1"; lit "true"; lit "yes"; lit "on"]
    | None => false
    end in
  let node_name := default [] node_name in
  let cgroup_root := default (lit "/sys/fs/cgroup") cgroup_root in
  let trust_domain := trust_domain_from_env trust_domain in
  _ ← (if enabled then
         if is_empty (trim node_name) then Err (EMsg "enabled but NEUROMESH_NODE_NAME is unset/empty")
         else validate_node_name node_name
       else Ok ());
  Ok (mkIdentityCorrelatorConfig enabled node_name cgroup_root trust_domain).

(** ** Shared state *)
Inductive TeardownCmd : Type :=
| Watch (p : bytes)
| Unwatch (p : bytes)
| Rearm (ps : list bytes).

(** The side table, the identity maps, the allowlist cache and the commands
    queued for the watcher; [co_open] is false once the watcher is gone. *)
Record corr (MH MV : Type) : Type := mkCorr {
  co_table : SideTable;
  co_maps : IdentityAllowMaps MH MV;
  co_allowlist : PeAllowlistCache;
  co_cmds : list TeardownCmd;
  co_open : bool
}.
Arguments mkCorr {MH MV}.
Arguments co_table {MH MV}.
Arguments co_maps {MH MV}.
Arguments co_allowlist {MH MV}.
Arguments co_cmds {MH MV}.
Arguments co_open {MH MV}.

(** ** Pure parts of [reconcile.rs] *)
Definition container_eligible (c : ContainerStatusView) : bool :=
  match cs_container_id c with
  | Some id => if negb (is_empty (trim id)) then true else cs_running c
  | None => cs_running c
  end.

Definition resolve_container_cgroup_path (fs : Fs) (cgroup_root pod_uid : bytes)
    (container : ContainerStatusView) : option bytes :=
  if negb (container_eligible container) then None
  else
    raw ← cs_container_id container ≫= strip_runtime_prefix;
    pod_dir ← find_existing_pod_dir fs cgroup_root pod_uid;
    find_container_leaf fs pod_dir raw.

Definition plan_revoke_ids (t : SideTable) (allowed : gset bytes) : list Z := plan_pe_allowlist_revoke t allowed.

Definition apply_revoke_plan (ids : list Z) (t : SideTable) : SideTable * list (Z * bytes) :=
  let '(t, out) := foldl remove_id (t, []) ids in
  (t, map (λ p, (p.1, sd_cgroup_path p.2)) out).

Definition take_pod_if_not_allowed (pod_uid spiffe : bytes) (allowlist : PeAllowlistCache) (t : SideTable) :
    SideTable * option (list Z * list bytes) :=
  if pe_contains allowlist spiffe then (t, None)
  else
    let '(t, removed) := remove_by_pod pod_uid t in
    match removed with
    | [] => (t, Some ([], []))
    | _ => (t, Some (removed.*1, map (λ p, sd_cgroup_path p.2) removed))
    end.

Definition side_entry_for_container (pod : PodView) (spiffe leaf : bytes) (inode : Z) : SideEntry :=
  mkSideEntry (pv_uid pod) (pv_namespace pod)
    (if is_empty (trim (pv_service_account pod)) then lit "default" else pv_service_account pod)
    spiffe leaf inode.

Section handlers.
Context {MH MV : Type} `{HashMap Z MH, ArrayMap Z MV}.
Abbreviation state := (corr MH MV).

Definition set_table (t : SideTable) (s : state) : state :=
  mkCorr t (co_maps s) (co_allowlist s) (co_cmds s) (co_open s).
Definition set_maps (m : IdentityAllowMaps MH MV) (s : state) : state :=
  mkCorr (co_table s) m (co_allowlist s) (co_cmds s) (co_open s).
Definition set_allowlist (a : PeAllowlistCache) (s : state) : state :=
  mkCorr (co_table s) (co_maps s) a (co_cmds s) (co_open s).

(** [let _ = tx.send(cmd)]. *)
Definition send (cmd : TeardownCmd) (s : state) : state :=
  if co_open s then mkCorr (co_table s) (co_maps s) (co_allowlist s) (co_cmds s ++ [cmd]) (co_open s) else s.
Definition send_all (cmds : list TeardownCmd) (s : state) : state := foldl (λ s c, send c s) s cmds.

(** A step on the maps alone. *)
Definition on_maps {A} (f : stm (IdentityAllowMaps MH MV) A) : stm state A := λ s,
  let '(m, r) := f (co_maps s) in (set_maps m s, r).

Definition apply_invalidations (ids : list Z) : stm state unit :=
  match ids with
  | [] => mret ()
  | _ => on_maps (for_each remove_allow_cgroup ids)
  end.

(** ** [register_seeded_cgroup] and [register_manual_seed_ids] *)
Definition register_seeded_cgroup (fs : Fs) (cgroup_root : bytes) (cgroup_id : Z) (tx : bool) :
    stm state SideEntry :=
  path ← st_of_result (path_for_cgroup_id fs cgroup_root cgroup_id);
  inode ← st_of_result (inode_of_path fs path);
  if negb (bool_decide (inode = cgroup_id)) then
    st_fail (EMsg "cgroup path inode differs from seeded cgroup_id")
  else
    let pod_uid := default [] (pc_pod_uid <$> parse_cgroup_path (from_utf8_lossy path)) in
    let entry := mkSideEntry pod_uid [] [] [] path inode in
    λ s,
      let '(t, outcome) := st_insert cgroup_id entry (co_table s) in
      let s := set_table t s in
      match outcome with
      | RejectedFull => (s, Err (EMsg "side table full"))
      | Inserted | Replaced =>
          if tx then
            if co_open s then (send (Watch path) s, Ok entry)
            else (s, Err (EMsg "inotify worker channel closed"))
          else (s, Ok entry)
      end.

Fixpoint register_manual_seed_ids (fs : Fs) (cgroup_root : bytes) (ids : list Z) : stm state (list SideEntry) :=
  match ids with
  | [] => mret []
  | id :: ids =>
      entry ← register_seeded_cgroup fs cgroup_root id true;
      rest ← register_manual_seed_ids fs cgroup_root ids;
      mret (entry :: rest)
  end.

(** ** [reconcile_pod] *)

(** First half of one container's turn: the side-table insert. *)
Definition reconcile_insert (pod : PodView) (spiffe leaf : bytes) (inode : Z) (s : state) : state * InsertOutcome :=
  let '(t, outcome) := st_insert inode (side_entry_for_container pod spiffe leaf inode) (co_table s) in
  (set_table t s, outcome).

(** Second half: the BPF insert, with the roll-back of the side table when it
    fails, and the watch command. *)
Definition reconcile_seed (leaf : bytes) (inode : Z) (s : state) : state :=
  match on_maps (seed_allow_cgroup inode) s with
  | (s, Ok _) => send (Watch leaf) s
  | (s, Err _) => set_table (remove_by_cgroup inode (co_table s)).1 s
  end.

Definition reconcile_container (fs : Fs) (cgroup_root : bytes) (pod : PodView) (spiffe : bytes)
    (s : state) (c : ContainerStatusView) : state :=
  match resolve_container_cgroup_path fs cgroup_root (pv_uid pod) c with
  | None => s
  | Some leaf =>
      match inode_of_path fs leaf with
      | Err _ => s
      | Ok inode =>
          match reconcile_insert pod spiffe leaf inode s with
          | (s, RejectedFull) => s
          | (s, Replaced) | (s, Inserted) => reconcile_seed leaf inode s
          end
      end
  end.

Definition reconcile_pod (fs : Fs) (cfg : IdentityCorrelatorConfig) (pod : PodView) : stm state unit := λ s,
  let spiffe := construct_spiffe_id (cfg_trust_domain cfg) (pv_namespace pod) (pv_service_account pod) in
  let '(t, purge) := take_pod_if_not_allowed (pv_uid pod) spiffe (co_allowlist s) (co_table s) in
  let s := set_table t s in
  match purge with
  | Some (ids, paths) => apply_invalidations ids (send_all (map Unwatch paths) s)
  | None =>
      (foldl (reconcile_container fs (cfg_cgroup_root cfg) pod spiffe) s (pv_containers pod), Ok ())
  end.

(** ** Revoke and hygiene *)
Definition revoke_not_in_allowlist : stm state unit := λ s,
  let allowed := pe_snapshot (co_allowlist s) in
  let ids := plan_revoke_ids (co_table s) allowed in
  let '(t, removed) := apply_revoke_plan ids (co_table s) in
  apply_invalidations removed.*1 (send_all (map Unwatch removed.*2) (set_table t s)).

Definition clear_side_table_hygiene : stm state unit := λ s,
  let '(t, cleared) := st_clear (co_table s) in
  apply_invalidations cleared.*1
    (send_all (map (λ p, Unwatch (sd_cgroup_path p.2)) cleared) (set_table t s)).

(** ** Resync *)

(** [sort_unstable] then [dedup]. *)
Fixpoint insert_unique (x : Z) (l : list Z) : list Z :=
  match l with
  | [] => [x]
  | y :: l => if bool_decide (x < y) then x :: y :: l
              else if bool_decide (x = y) then y :: l else y :: insert_unique x l
  end.
Definition sort_dedup (l : list Z) : list Z := foldr insert_unique [] l.

(** Plans the deletion of a list of pods, one after the other. *)
Definition plan_pods_delete (uids : list bytes) (t : SideTable) (acc : list Z) : SideTable * list Z :=
  foldl (λ '(t, acc) uid, let '(t, ids) := plan_pod_delete uid t in (t, acc ++ ids)) (t, acc) uids.

Definition stale_uids (t : SideTable) (live : gset bytes) : list bytes :=
  elements (list_to_set (omap (λ p,
    if negb (is_empty (sd_pod_uid p.2)) && negb (bool_decide (sd_pod_uid p.2 ∈ live))
    then Some (sd_pod_uid p.2) else None) (entries t)) : gset bytes).

Definition table_paths (t : SideTable) : list bytes := map (λ p, sd_cgroup_path p.2) (entries t).

(** [forced_resync]; [live_pods] is the outcome of [list_pod_uids_on_node]. *)
Definition forced_resync (fs : Fs) (live_pods : result (gset bytes)) : stm state unit := λ s,
  match live_pods with
  | Err e => (s, Err e)
  | Ok live =>
      let '(t, swept) := plan_missing_path_sweep (fs_exists fs) (co_table s) in
      let '(t, to_delete) := plan_pods_delete (stale_uids t live) t swept in
      let s := send (Rearm (table_paths t)) (set_table t s) in
      apply_invalidations (sort_dedup to_delete) s
  end.

(** The resync without an API client: missing paths only. *)
Definition local_resync (fs : Fs) : stm state unit := λ s,
  let '(t, swept) := plan_missing_path_sweep (fs_exists fs) (co_table s) in
  let s := send (Rearm (table_paths t)) (set_table t s) in
  apply_invalidations swept s.

(** ** The event loop of [run_correlator]

    [api] is [None] without a Kubernetes client, else the outcome of the listing. *)
Definition resync (fs : Fs) (api : option (result (gset bytes))) : stm state unit :=
  match api with Some live => forced_resync fs live | None => local_resync fs end.

(** One torn-down path of a batch. *)
Definition handle_teardown (s : state) (path : bytes) : state :=
  let '(t, id) :=
    match cgroup_id_for_path (co_table s) path with
    | Some cid => plan_teardown cid (co_table s)
    | None => (co_table s, None)
    end in
  let s := send (Unwatch path) (set_table t s) in
  match id with
  | Some id => (apply_invalidations [id] s).1
  | None => s
  end.

Definition handle_batch (fs : Fs) (api : option (result (gset bytes))) (paths : list bytes) (over : bool)
    (s : state) : state :=
  if over then (resync fs api s).1 else foldl handle_teardown s paths.

Definition handle_pod_event (fs : Fs) (cfg : IdentityCorrelatorConfig) (ev : PodWatchEvent) (s : state) : state :=
  match ev with
  | Upsert pod => (reconcile_pod fs cfg pod s).1
  | Deleted uid =>
      let '(t, removed) := remove_by_pod uid (co_table s) in
      let s := send_all (map (λ p, Unwatch (sd_cgroup_path p.2)) removed) (set_table t s) in
      (apply_invalidations removed.*1 s).1
  end.

(** A step of any task: the correlator's loop, the policy sync's follow-ups, or
    its update of the allowlist cache. *)
Inductive corr_event : Type :=
| CPod (fs : Fs) (cfg : IdentityCorrelatorConfig) (ev : PodWatchEvent)
| CBatch (fs : Fs) (api : option (result (gset bytes))) (paths : list bytes) (over : bool)
| CRevoke
| CHygiene
| CAllow (ids : list bytes)
| CDisallow.

Definition corr_step (s : state) (ev : corr_event) : state :=
  match ev with
  | CPod fs cfg ev => handle_pod_event fs cfg ev s
  | CBatch fs api paths over => handle_batch fs api paths over s
  | CRevoke => (revoke_not_in_allowlist s).1
  | CHygiene => (clear_side_table_hygiene s).1
  | CAllow ids => set_allowlist (pe_replace ids (co_allowlist s)) s
  | CDisallow => set_allowlist (pe_clear (co_allowlist s)) s
  end.
End handlers.

(** ** Lemmas: what the handlers take out of the table *)
(** [t'] differs from [t] only at [ids]. *)
Definition only_removed (ids : list Z) (t t' : SideTable) : Prop :=
  ∀ j, j ∉ ids → by_cgroup t' !! j = by_cgroup t !! j.

Lemma only_removed_trans ids ids' t1 t2 t3 :
  only_removed ids t1 t2 → only_removed ids' t2 t3 → only_removed (ids ++ ids') t1 t3.
Proof.
  intros H1 H2 j Hj. rewrite not_elem_of_app in Hj. destruct Hj as [Hj Hj'].
  by rewrite H2, H1.
Qed.

Lemma remove_by_pod_removed uid t :
  st_wf t → only_removed (remove_by_pod uid t).2.*1 t (remove_by_pod uid t).1.
Proof.
  intros Hwf j Hj. destruct (decide (uid = [])) as [->|Huid].
  { unfold remove_by_pod. destruct Hwf as [[Hne _] _].
    destruct (by_pod t !! []) as [ids|] eqn:E; [|done]. by destruct (Hne _ _ E). }
  destruct (remove_by_pod_spec uid t Hwf Huid) as (-> & _ & _ & Hout).
  rewrite Hout in Hj. apply option_eq. intros e. rewrite map_lookup_filter_Some. simpl.
  split; [by intros [? _]|]. intros He. split; [done|]. intros Hp. apply Hj.
  apply list_elem_of_fmap. exists (j, e). split; [done|]. apply list_elem_of_filter. split; [done|].
  by apply elem_of_map_to_list.
Qed.

Lemma remove_ids_out ids t :
  NoDup ids → ∀ j, j ∈ (foldl remove_id (t, []) ids).2.*1 ↔ j ∈ ids ∧ is_Some (by_cgroup t !! j).
Proof.
  intros Hnd j. destruct (remove_ids_spec ids t [] Hnd) as [_ ->]. simpl.
  rewrite list_elem_of_fmap. setoid_rewrite list_elem_of_omap. setoid_rewrite fmap_Some. split.
  - intros ([c e] & -> & x & Hx & e' & He & [= -> ->]). simpl. by eauto.
  - intros [Hj [e He]]. exists (j, e). split; [done|]. exists j. eauto.
Qed.

Lemma remove_ids_removed ids t :
  NoDup ids → only_removed (foldl remove_id (t, []) ids).2.*1 t (foldl remove_id (t, []) ids).1.
Proof.
  intros Hnd j Hj. rewrite remove_ids_out in Hj by done.
  destruct (remove_ids_spec ids t [] Hnd) as [-> _]. apply option_eq. intros e.
  rewrite map_lookup_filter_Some. simpl. split; [by intros [? _]|]. intros He.
  split; [done|]. intros Hin. apply Hj. eauto.
Qed.

Lemma nodup_filter_entries (P : Z * SideEntry → Prop) `{!∀ p, Decision (P p)} t :
  NoDup (filter P (entries t)).*1.
Proof.
  apply NoDup_fmap_fst; [|apply NoDup_filter, NoDup_map_to_list].
  intros c e1 e2 [_ H1%elem_of_map_to_list]%list_elem_of_filter [_ H2%elem_of_map_to_list]%list_elem_of_filter.
  congruence.
Qed.

Lemma sweep_removed ex t :
  only_removed (sweep_missing_paths ex t).2.*1 t (sweep_missing_paths ex t).1.
Proof. apply remove_ids_removed, nodup_filter_entries. Qed.

Lemma sort_dedup_elem x l : x ∈ sort_dedup l ↔ x ∈ l.
Proof.
  assert (∀ y k, x ∈ insert_unique y k ↔ x = y ∨ x ∈ k) as Hins.
  { intros y k. induction k as [|z k IH]; simpl; [set_solver|].
    destruct (decide (y < z)); [rewrite bool_decide_eq_true_2 by done; set_solver|].
    rewrite bool_decide_eq_false_2 by done. destruct (decide (y = z)) as [->|];
      [rewrite bool_decide_eq_true_2 by done; set_solver|].
    rewrite bool_decide_eq_false_2 by done. rewrite !elem_of_cons, IH. tauto. }
  induction l as [|y l IH]; [done|]. change (x ∈ insert_unique y (sort_dedup l) ↔ x ∈ y :: l).
  rewrite Hins, IH, elem_of_cons. done.
Qed.

Lemma plan_pods_removed uids t acc :
  st_wf t →
  let r := plan_pods_delete uids t acc in
  st_wf r.1 ∧ ∃ ids, r.2 = acc ++ ids ∧ only_removed ids t r.1.
Proof.
  unfold plan_pods_delete. revert t acc. induction uids as [|uid uids IH]; intros t acc Hwf; simpl.
  { split; [done|]. exists []. by rewrite app_nil_r. }
  unfold plan_pod_delete. pose proof (remove_by_pod_wf uid t Hwf) as Hwf'.
  pose proof (remove_by_pod_removed uid t Hwf) as Hr.
  destruct (remove_by_pod uid t) as [t' out]. cbn [fst snd] in *.
  destruct (IH t' (acc ++ out.*1) Hwf') as (Hwf2 & ids & Hids & Hrem). split; [done|].
  exists (out.*1 ++ ids). split; [by rewrite app_assoc|]. by eapply only_removed_trans.
Qed.

Lemma sweep_wf ex t : st_wf t → st_wf (sweep_missing_paths ex t).1.
Proof. apply remove_ids_wf. Qed.

Section proofs.
Context {MH MV : Type} `{HH : HashMap Z MH, HV : ArrayMap Z MV}.
Context `{!HashMapLaws Z MH}.
Abbreviation state := (corr MH MV).
Implicit Types (s : state).

Lemma send_same c s :
  co_table (send c s) = co_table s ∧ co_maps (send c s) = co_maps s ∧ co_allowlist (send c s) = co_allowlist s.
Proof. unfold send. by destruct (co_open s). Qed.

Lemma send_all_same cs s :
  co_table (send_all cs s) = co_table s ∧ co_maps (send_all cs s) = co_maps s ∧
  co_allowlist (send_all cs s) = co_allowlist s.
Proof.
  unfold send_all. revert s. induction cs as [|c cs IH]; intros s; simpl; [done|].
  destruct (IH (send c s)) as (-> & -> & ->). apply send_same.
Qed.

(** Every id on the list leaves the BPF map up to the first failure, and no other. *)
Lemma invalidate_loop ids (m m' : IdentityAllowMaps MH MV) r :
  for_each remove_allow_cgroup ids m = (m', r) →
  (∀ j, j ∉ ids → allowed_cgroup m' j = allowed_cgroup m j) ∧
  (∀ j, allowed_cgroup m' j = None ∨ allowed_cgroup m' j = allowed_cgroup m j) ∧
  (is_ok r = true → ∀ j, j ∈ ids → allowed_cgroup m' j = None).
Proof.
  revert m. induction ids as [|id ids IH]; intros m; simpl.
  { intros [= <- <-]. split_and!; [done|by right|]. intros _ j Hj. by apply not_elem_of_nil in Hj. }
  rewrite stm_bind_run. destruct (remove_allow_cgroup id m) as [m1 [u|e]] eqn:E;
    apply remove_allow_cgroup_spec in E as [_ E]; simpl in E.
  - intros Hr. destruct (IH m1 Hr) as (H1 & H2 & H3).
    assert (∀ j, allowed_cgroup m1 j = None ∨ allowed_cgroup m1 j = allowed_cgroup m j) as Hm1.
    { intros j. rewrite E. case_bool_decide; auto. }
    split_and!.
    + intros j [Hj Hj']%not_elem_of_cons. rewrite H1, E by done. by rewrite bool_decide_eq_false_2.
    + intros j. destruct (H2 j) as [Hj|Hj]; [by left|]. rewrite Hj. apply Hm1.
    + intros Hok j [->|Hj]%elem_of_cons; [|by apply H3].
      destruct (H2 id) as [Hj|Hj]; [done|]. rewrite Hj, E. by rewrite bool_decide_eq_true_2.
  - intros [= <- <-]. split_and!; [|by right; rewrite E|done]. intros j _. by rewrite E.
Qed.

Lemma apply_invalidations_spec ids s s' r :
  apply_invalidations ids s = (s', r) →
  co_table s' = co_table s ∧ co_allowlist s' = co_allowlist s ∧
  (∀ j, j ∉ ids → allowed_cgroup (co_maps s') j = allowed_cgroup (co_maps s) j) ∧
  (∀ j, allowed_cgroup (co_maps s') j = None ∨ allowed_cgroup (co_maps s') j = allowed_cgroup (co_maps s) j) ∧
  (is_ok r = true → ∀ j, j ∈ ids → allowed_cgroup (co_maps s') j = None).
Proof.
  destruct ids as [|id ids].
  - intros [= <- <-]. split_and!; [done..|by right|]. intros _ j Hj. by apply not_elem_of_nil in Hj.
  - unfold apply_invalidations, on_maps.
    destruct (for_each remove_allow_cgroup (id :: ids) (co_maps s)) as [m r'] eqn:E.
    intros [= <- <-]. apply invalidate_loop in E as (H1 & H2 & H3). by split_and!.
Qed.

End proofs.

(** ** Samples *)
Definition demo_cid : bytes := lit "0123456789abcdef".
Definition demo_pod (sa : bytes) : PodView :=
  mkPodView (lit "u-1") (lit "default") sa
    [mkContainerStatusView (lit "app") (Some (lit "containerd://" ++ demo_cid)) true].
Definition demo_cfg : IdentityCorrelatorConfig :=
  mkIdentityCorrelatorConfig true (lit "node-1") (lit "/sys/fs/cgroup") DEFAULT_SPIFFE_TRUST_DOMAIN.
Definition demo_pod_dir : bytes := lit "/sys/fs/cgroup/kubepods/podu-1".
Definition demo_fs : Fs := λ p,
  if bool_decide (p = demo_pod_dir) then
    Some (FDir (Some 40) Readable [(demo_cid, FDir (Some 42) Readable [])])
  else if bool_decide (p = demo_pod_dir ++ [47] ++ demo_cid) then Some (FDir (Some 42) Readable [])
  else None.
Definition demo_spiffe (sa : bytes) : bytes := construct_spiffe_id DEFAULT_SPIFFE_TRUST_DOMAIN (lit "default") sa.

(** An empty correlator over a given hash map. *)
Definition demo_corr {MH} (h : MH) : corr MH (sim_array Z 1) :=
  mkCorr st_new (mkIdentityAllowMaps h (sim_array_new 1 0 [])) ∅ [] true.
Definition demo_start : corr (rel_hash Z) (sim_array Z 1) := demo_corr (mkRelHash ∅ 1024).

(** The pod's container is allowed after the allowlist and the pod are seen. *)
Definition demo_evs : list corr_event :=
  [CAllow [demo_spiffe (lit "web")]; CPod demo_fs demo_cfg (Upsert (demo_pod (lit "web")))].

(** A failed delete leaves an exception nobody can take back. The side-table
    entry goes first, so when the BPF delete then fails the cgroup stays allowed
    although it is no longer tracked, and a later delete of the pod, a revocation
    with an empty allowlist, the hygiene pass and a resync all leave it there. *)
Theorem failed_delete_leaves_exception :
  let s := foldl corr_step (demo_corr (sim_hash_new 1024 [false; true])) demo_evs in
  let gone := handle_pod_event demo_fs demo_cfg (Deleted (lit "u-1")) s in
  let later := foldl corr_step gone
    [CPod demo_fs demo_cfg (Deleted (lit "u-1")); CDisallow; CRevoke; CHygiene;
     CBatch (λ _, None) (Some (Ok ∅)) [] true] in
  st_entry (co_table s) 42 ≠ None ∧ st_entry (co_table gone) 42 = None ∧
  allowed_cgroup (co_maps gone) 42 = Some IDENTITY_ALLOW_VALUE ∧
  allowed_cgroup (co_maps later) 42 = Some IDENTITY_ALLOW_VALUE.
Proof. vm_compute. by split_and!. Qed.

(** [reconcile_pod] checks the allowlist and inserts into the side table under
    one lock and writes the BPF map under another. When the policy sync's
    allowlist update and revocation run in between, the revoked pod's cgroup is
    allowed in the BPF map and tracked nowhere, and the next revocation does not
    remove it. *)
Theorem revoke_race_leaves_exception :
  let leaf := demo_pod_dir ++ [47] ++ demo_cid in
  let s0 := corr_step demo_start (CAllow [demo_spiffe (lit "web")]) in
  let '(s1, _) := reconcile_insert (demo_pod (lit "web")) (demo_spiffe (lit "web")) leaf 42 s0 in
  let s2 := corr_step (corr_step s1 (CAllow [])) CRevoke in
  let s3 := reconcile_seed leaf 42 s2 in
  let s4 := corr_step (corr_step s3 CRevoke) (CPod demo_fs demo_cfg (Upsert (demo_pod (lit "web")))) in
  pe_contains (co_allowlist s3) (demo_spiffe (lit "web")) = false ∧
  allowed_cgroup (co_maps s3) 42 = Some IDENTITY_ALLOW_VALUE ∧
  st_entry (co_table s3) 42 = None ∧
  allowed_cgroup (co_maps s4) 42 = Some IDENTITY_ALLOW_VALUE.
Proof. vm_compute. by split_and!. Qed.
