(* ===== verification/CorrelatorSteps.v ===== *)
(** * The lock sections of the identity correlator ([identity_correlator/])

    A handler of the correlator does not run in one piece. It changes the side table
    under one lock, releases it, sends its watch commands, and then changes the kernel
    map under another lock; in between, the handlers of other tasks run. This file cuts
    every handler of [Correlator] into those sections: a [micro] is one of them, and
    running it leaves the shared state and the sections that follow. Three tasks have
    work of this kind: the correlator's loop, the policy task with its follow-ups, and
    start-up, which registers the manual seeds. What a section sees of the world, the
    file system and the answer of the API, is given to it when it runs.

    A failed seed and the roll-back of its row are one section: the map lock is held
    across both, and a failed insert changes nothing another section could see.

    Shown: run without interruption, the sections of a handler are the handler of
    [Correlator]; which steps can leave an exception that nothing will take back, and
    that no other can; that only containers of pods whose identity was allowed when the
    pod was looked at are ever excepted; that what a section takes out of the table
    leaves the kernel map. *)

From stdpp Require Import functions.
From S2P Require Import Prelude RustStd Common Bpf PathDeny IdentityAllow SideTable CgroupPath PodWatch TeardownWatch Correlator.

(** ** Sections *)
Inductive micro : Type :=
| MPod (pod : PodView)
| MContainer (pod : PodView) (spiffe : bytes) (c : ContainerStatusView)
| MSeed (leaf : bytes) (inode : Z)
| MGone (uid : bytes)
| MTeardown (path : bytes)
| MResync (client : bool)
| MRevoke
| MHygiene
| MRegister (id : Z)
| MArm (path : bytes)
| MSend (cmd : TeardownCmd)
| MDelete (ids : list Z)
| MDeleting (ids : list Z).

(** The tasks with such work. *)
Inductive who : Type := Loop | Policy | Start.
#[export] Instance who_eq_dec : EqDecision who.
Proof. solve_decision. Defined.

Abbreviation worklists := (who → list micro).

Section steps.
Context {MH MV : Type} `{HashMap Z MH, ArrayMap Z MV}.
Context (cfg : IdentityCorrelatorConfig).
Abbreviation state := (corr MH MV).

(** The entry a start-up registration writes. *)
Definition seed_entry (path : bytes) (inode : Z) : SideEntry :=
  mkSideEntry (default [] (pc_pod_uid <$> parse_cgroup_path (from_utf8_lossy path))) [] [] [] path inode.

(** One section: the state it leaves, and the sections that follow or the error the
    handler ends with. [live] is the answer to the listing of the node's pods. *)
Definition micro_step (fs : Fs) (live : result (gset bytes)) (m : micro) (s : state) : state * result (list micro) :=
  match m with
  | MPod pod =>
      let spiffe := construct_spiffe_id (cfg_trust_domain cfg) (pv_namespace pod) (pv_service_account pod) in
      let '(t, purge) := take_pod_if_not_allowed (pv_uid pod) spiffe (co_allowlist s) (co_table s) in
      (set_table t s,
       Ok (match purge with
           | Some (ids, paths) => map (λ p, MSend (Unwatch p)) paths ++ [MDelete ids]
           | None => map (MContainer pod spiffe) (pv_containers pod)
           end))
  | MContainer pod spiffe c =>
      match resolve_container_cgroup_path fs (cfg_cgroup_root cfg) (pv_uid pod) c with
      | None => (s, Ok [])
      | Some leaf =>
          match inode_of_path fs leaf with
          | Err _ => (s, Ok [])
          | Ok inode =>
              match reconcile_insert pod spiffe leaf inode s with
              | (s, RejectedFull) => (s, Ok [])
              | (s, Replaced) | (s, Inserted) => (s, Ok [MSeed leaf inode])
              end
          end
      end
  | MSeed leaf inode =>
      match on_maps (seed_allow_cgroup inode) s with
      | (s, Ok _) => (s, Ok [MSend (Watch leaf)])
      | (s, Err _) => (set_table (remove_by_cgroup inode (co_table s)).1 s, Ok [])
      end
  | MGone uid =>
      let '(t, removed) := remove_by_pod uid (co_table s) in
      (set_table t s, Ok (map (λ p, MSend (Unwatch (sd_cgroup_path p.2))) removed ++ [MDelete removed.*1]))
  | MTeardown path =>
      let '(t, id) :=
        match cgroup_id_for_path (co_table s) path with
        | Some cid => plan_teardown cid (co_table s)
        | None => (co_table s, None)
        end in
      (set_table t s, Ok (MSend (Unwatch path) :: match id with Some id => [MDelete [id]] | None => [] end))
  | MResync client =>
      match (if client then Some live else None) with
      | Some (Err e) => (s, Err e)
      | Some (Ok live) =>
          let '(t, swept) := plan_missing_path_sweep (fs_exists fs) (co_table s) in
          let '(t, to_delete) := plan_pods_delete (stale_uids t live) t swept in
          (send (Rearm (table_paths t)) (set_table t s), Ok [MDelete (sort_dedup to_delete)])
      | None =>
          let '(t, swept) := plan_missing_path_sweep (fs_exists fs) (co_table s) in
          (send (Rearm (table_paths t)) (set_table t s), Ok [MDelete swept])
      end
  | MRevoke =>
      let ids := plan_revoke_ids (co_table s) (pe_snapshot (co_allowlist s)) in
      let '(t, removed) := apply_revoke_plan ids (co_table s) in
      (set_table t s, Ok (map (λ p, MSend (Unwatch p)) removed.*2 ++ [MDelete removed.*1]))
  | MHygiene =>
      let '(t, cleared) := st_clear (co_table s) in
      (set_table t s, Ok (map (λ p, MSend (Unwatch (sd_cgroup_path p.2))) cleared ++ [MDelete cleared.*1]))
  | MRegister id =>
      match path_for_cgroup_id fs (cfg_cgroup_root cfg) id with
      | Err e => (s, Err e)
      | Ok path =>
          match inode_of_path fs path with
          | Err e => (s, Err e)
          | Ok inode =>
              if negb (bool_decide (inode = id)) then (s, Err (EMsg "cgroup path inode differs from seeded cgroup_id"))
              else
                let '(t, outcome) := st_insert id (seed_entry path inode) (co_table s) in
                match outcome with
                | RejectedFull => (set_table t s, Err (EMsg "side table full"))
                | Inserted | Replaced => (set_table t s, Ok [MArm path])
                end
          end
      end
  | MArm path =>
      if co_open s then (send (Watch path) s, Ok []) else (s, Err (EMsg "inotify worker channel closed"))
  | MSend cmd => (send cmd s, Ok [])
  | MDelete ids => (s, Ok (match ids with [] => [] | _ => [MDeleting ids] end))
  | MDeleting [] => (s, Ok [])
  | MDeleting (id :: ids) =>
      match on_maps (remove_allow_cgroup id) s with
      | (s, Ok _) => (s, Ok [MDeleting ids])
      | (s, Err e) => (s, Err e)
      end
  end.

(** ** Tasks

    [MDeleting] is the loop of [apply_invalidations] with the map lock held. *)
Definition holds_maps (ms : list micro) : bool := match ms with MDeleting _ :: _ => true | _ => false end.
Definition needs_maps (m : micro) : bool :=
  match m with MSeed _ _ | MDelete (_ :: _) => true | _ => false end.
Definition others (w : who) : list who :=
  match w with Loop => [Policy; Start] | Policy => [Loop; Start] | Start => [Loop; Policy] end.
Definition locked_out (w : who) (m : micro) (W : worklists) : bool :=
  needs_maps m && existsb (λ w', holds_maps (W w')) (others w).

(** The next section of a task: an error ends start-up's registrations; the loop and
    the policy task log it and go on with what they still have to do. *)
Definition work_step (w : who) (fs : Fs) (live : result (gset bytes)) (s : state) (W : worklists) :
    option (state * worklists * result unit) :=
  match W w with
  | [] => None
  | m :: ms =>
      if locked_out w m W then None
      else
        match micro_step fs live m s with
        | (s, Ok more) => Some (s, <[w := more ++ ms]> W, Ok ())
        | (s, Err e) => Some (s, <[w := if bool_decide (w = Start) then [] else ms]> W, Err e)
        end
  end.

(** A task that is never interrupted and sees one state of the world. *)
Inductive alone (fs : Fs) (live : result (gset bytes)) : list micro → state → state → Prop :=
| alone_nil s : alone fs live [] s s
| alone_ok m ms more s s1 s2 :
    micro_step fs live m s = (s1, Ok more) → alone fs live (more ++ ms) s1 s2 → alone fs live (m :: ms) s s2
| alone_err m ms e s s1 s2 :
    micro_step fs live m s = (s1, Err e) → alone fs live ms s1 s2 → alone fs live (m :: ms) s s2.

(** The sections of the handlers of [Correlator]; the allowlist changes are one
    section each and have no work. *)
Definition sections (ev : corr_event) : list micro :=
  match ev with
  | CPod _ _ (Upsert pod) => [MPod pod]
  | CPod _ _ (Deleted uid) => [MGone uid]
  | CBatch _ api paths over =>
      if over then [MResync (match api with Some _ => true | None => false end)] else map MTeardown paths
  | CRevoke => [MRevoke]
  | CHygiene => [MHygiene]
  | CAllow _ | CDisallow => []
  end.
(** The world a handler of [Correlator] is given. *)
Definition event_fs (ev : corr_event) : Fs := match ev with CPod fs _ _ | CBatch fs _ _ _ => fs | _ => λ _, None end.
Definition event_live (ev : corr_event) : result (gset bytes) :=
  match ev with CBatch _ (Some live) _ _ => live | _ => Ok ∅ end.
Definition event_cfg (ev : corr_event) : Prop := match ev with CPod _ cfg' _ => cfg' = cfg | _ => True end.
Definition is_allowlist_event (ev : corr_event) : bool := match ev with CAllow _ | CDisallow => true | _ => false end.
End steps.

(** ** Lemmas: uninterrupted handlers *)
Section alone.
Context {MH MV : Type} `{HH : HashMap Z MH, HV : ArrayMap Z MV}.
Context (cfg : IdentityCorrelatorConfig) (fs : Fs) (live : result (gset bytes)).
Abbreviation state := (corr MH MV).
Abbreviation alone := (alone cfg fs live).
Implicit Types (s : state).

Lemma alone_app ms ms' s s1 s2 : alone ms s s1 → alone ms' s1 s2 → alone (ms ++ ms') s s2.
Proof.
  intros Ha Hb. induction Ha as [s|m ms more s s1 s3 Hm _ IH|m ms e s s1 s3 Hm _ IH]; [done| |]; simpl.
  - eapply alone_ok; [exact Hm|]. rewrite app_assoc. by apply IH.
  - eapply alone_err; [exact Hm|]. by apply IH.
Qed.

Lemma alone_section m more s s1 s2 :
  micro_step cfg fs live m s = (s1, Ok more) → alone more s1 s2 → alone [m] s s2.
Proof. intros Hm Ha. eapply alone_ok; [exact Hm|]. by rewrite app_nil_r. Qed.

Lemma alone_sends {A} (f : A → TeardownCmd) l s : alone (map (λ x, MSend (f x)) l) s (send_all (map f l) s).
Proof.
  revert s. induction l as [|x l IH]; intros s; simpl; [constructor|].
  eapply (alone_ok _ _ _ _ _ []); [done|]. apply IH.
Qed.

Lemma alone_deleting ids s : alone [MDeleting ids] s (on_maps (for_each remove_allow_cgroup ids) s).1.
Proof.
  revert s. induction ids as [|id ids IH]; intros s.
  - eapply (alone_ok _ _ _ _ _ []); [done|]. destruct s. constructor.
  - unfold on_maps. simpl. rewrite stm_bind_run.
    destruct (remove_allow_cgroup id (co_maps s)) as [m [u|e]] eqn:E; cbn [fst].
    + eapply (alone_ok _ _ _ _ _ [MDeleting ids]); [unfold micro_step, on_maps; by rewrite E|].
      pose proof (IH (set_maps m s)) as Hi. unfold on_maps in Hi. cbn [set_maps co_maps] in Hi.
      destruct (for_each remove_allow_cgroup ids m) as [m' r]. exact Hi.
    + eapply alone_err; [unfold micro_step, on_maps; by rewrite E|]. constructor.
Qed.

Lemma alone_delete ids s : alone [MDelete ids] s (apply_invalidations ids s).1.
Proof.
  destruct ids as [|id ids]; [eapply alone_section; [done|constructor]|].
  eapply alone_section; [done|]. apply alone_deleting.
Qed.

(** Sending, then deleting. *)
Lemma alone_removal {A} (f : A → TeardownCmd) l ids s :
  alone (map (λ x, MSend (f x)) l ++ [MDelete ids]) s (apply_invalidations ids (send_all (map f l) s)).1.
Proof. eapply alone_app; [apply alone_sends|apply alone_delete]. Qed.

Lemma alone_container pod spiffe c s :
  alone [MContainer pod spiffe c] s (reconcile_container fs (cfg_cgroup_root cfg) pod spiffe s c).
Proof.
  unfold reconcile_container. destruct (resolve_container_cgroup_path fs _ _ c) as [leaf|] eqn:Hl;
    [|eapply alone_section; [simpl; by rewrite Hl|constructor]].
  destruct (inode_of_path fs leaf) as [inode|] eqn:Hi; [|eapply alone_section; [simpl; by rewrite Hl, Hi|constructor]].
  destruct (reconcile_insert pod spiffe leaf inode s) as [s1 o] eqn:Hr.
  destruct o; [| |eapply alone_section; [simpl; by rewrite Hl, Hi, Hr|constructor]].
  all: (eapply alone_section; [simpl; by rewrite Hl, Hi, Hr|]); unfold reconcile_seed.
  all: destruct (on_maps (seed_allow_cgroup inode) s1) as [s2 [u|e]] eqn:Hs;
    (eapply alone_section; [simpl; by rewrite Hs|]); [|constructor]; eapply alone_section; [done|constructor].
Qed.

Lemma alone_containers pod spiffe cs s :
  alone (map (MContainer pod spiffe) cs) s (foldl (reconcile_container fs (cfg_cgroup_root cfg) pod spiffe) s cs).
Proof.
  revert s. induction cs as [|c cs IH]; intros s; [constructor|]. simpl.
  apply (alone_app [MContainer pod spiffe c] _ _ _ _ (alone_container pod spiffe c s)), IH.
Qed.

Lemma alone_teardown path s : alone [MTeardown path] s (handle_teardown s path).
Proof.
  unfold handle_teardown. destruct (match cgroup_id_for_path _ _ with Some _ => _ | None => _ end) as [t o] eqn:E.
  eapply alone_section; [simpl; by rewrite E|]. destruct o as [id|].
  - apply (alone_app [MSend (Unwatch path)] [MDelete [id]] _ (send (Unwatch path) (set_table t s)));
      [eapply alone_section; [done|constructor]|apply alone_delete].
  - eapply alone_section; [done|constructor].
Qed.
Lemma alone_teardowns paths s : alone (map MTeardown paths) s (foldl handle_teardown s paths).
Proof.
  revert s. induction paths as [|p paths IH]; intros s; [constructor|]. simpl.
  apply (alone_app [MTeardown p] _ _ _ _ (alone_teardown p s)), IH.
Qed.

Lemma alone_pod pod s : alone [MPod pod] s (reconcile_pod fs cfg pod s).1.
Proof.
  unfold reconcile_pod. set (spiffe := construct_spiffe_id _ _ _).
  destruct (take_pod_if_not_allowed (pv_uid pod) spiffe _ _) as [t [[ids paths]|]] eqn:E.
  - eapply alone_section; [simpl; fold spiffe; by rewrite E|]. apply (alone_removal Unwatch).
  - eapply alone_section; [simpl; fold spiffe; by rewrite E|]. apply alone_containers.
Qed.

End alone.

Lemma alone_resync {MH MV : Type} `{HashMap Z MH, ArrayMap Z MV} (cfg : IdentityCorrelatorConfig) (fs : Fs) (api : option (result (gset bytes))) (live : result (gset bytes)) (s : corr MH MV) :
  (∀ l, api = Some l → l = live) →
  alone cfg fs live [MResync (match api with Some _ => true | None => false end)] s (resync fs api s).1.
Proof.
  intros Hl. unfold resync, forced_resync, local_resync. destruct api as [l|].
  - rewrite (Hl l eq_refl). clear Hl. destruct live as [lv|e].
    + destruct (plan_missing_path_sweep (fs_exists fs) (co_table s)) as [t swept] eqn:E1.
      destruct (plan_pods_delete (stale_uids t lv) t swept) as [t' del] eqn:E2.
      eapply alone_section; [simpl; by rewrite E1, E2|]. apply alone_delete.
    + eapply alone_err; [done|]. constructor.
  - destruct (plan_missing_path_sweep (fs_exists fs) (co_table s)) as [t swept] eqn:E1.
    eapply alone_section; [simpl; by rewrite E1|]. apply alone_delete.
Qed.


(** ** What a section does to the table and to the map *)

(** A delete of [c] that is still to come. *)
Definition deletes (c : Z) (m : micro) : Prop :=
  match m with MDelete ids | MDeleting ids => c ∈ ids | _ => False end.
Definition pending (c : Z) (ms : list micro) : Prop := ∃ m, m ∈ ms ∧ deletes c m.

Lemma pending_app c ms ms' : pending c (ms ++ ms') ↔ pending c ms ∨ pending c ms'.
Proof. unfold pending. set_solver. Qed.
Lemma pending_cons c m ms : pending c (m :: ms) ↔ deletes c m ∨ pending c ms.
Proof. unfold pending. set_solver. Qed.
Lemma pending_last c ids ms : c ∈ ids → pending c (ms ++ [MDelete ids]).
Proof. intros Hc. exists (MDelete ids). split; [set_solver|done]. Qed.

(** A work list no step of which seeds the map. *)
Definition seeds (c : Z) (m : micro) : Prop := match m with MSeed _ i => i = c | _ => False end.

Section sections.
Context {MH MV : Type} `{HH : HashMap Z MH, HV : ArrayMap Z MV}.
Context (cfg : IdentityCorrelatorConfig).
Abbreviation state := (corr MH MV).
Implicit Types (s : state).

Definition tracked (c : Z) s : Prop := is_Some (by_cgroup (co_table s) !! c).
Definition excepted_cgroup (c : Z) s : Prop := is_Some (allowed_cgroup (co_maps s) c).

(** A section of the table: it leaves the maps and the allowlist, and what it takes out
    of the table it leaves as a delete to come. *)
Definition table_section s s' (r : result (list micro)) : Prop :=
  co_maps s' = co_maps s ∧ co_allowlist s' = co_allowlist s ∧
  (st_wf (co_table s) →
   st_wf (co_table s') ∧ ∀ c, tracked c s → tracked c s' ∨ ∃ more, r = Ok more ∧ pending c more).

Lemma removal_section ids more t s s' :
  co_table s' = t → co_maps s' = co_maps s → co_allowlist s' = co_allowlist s →
  (st_wf (co_table s) → st_wf t ∧ only_removed ids (co_table s) t) → (∀ c, c ∈ ids → pending c more) →
  table_section s s' (Ok more).
Proof.
  intros Ht Hm Ha Hr Hp. split_and!; [done..|]. intros Hwf. destruct (Hr Hwf) as [Hwf' Ho]. rewrite Ht. split; [done|].
  intros c Hc. destruct (decide (c ∈ ids)) as [Hin|Hin]; [right; exists more; split; [done|by apply Hp]|left].
  unfold tracked. by rewrite Ht, Ho.
Qed.

Lemma insert_section c e s (r : result (list micro)) : table_section s (set_table (st_insert c e (co_table s)).1 s) r.
Proof.
  split_and!; [done..|]. intros Hwf. split; [by apply insert_wf|]. intros c' Hc'. left. unfold tracked in *. cbn.
  pose proof (insert_spec c e (co_table s)) as ->. destruct (st_insert c e (co_table s)).2; try done.
  all: rewrite lookup_insert_is_Some; destruct (decide (c = c')); auto.
Qed.

Lemma same_section s s' r :
  co_table s' = co_table s → co_maps s' = co_maps s → co_allowlist s' = co_allowlist s → table_section s s' r.
Proof. intros Ht Hm Ha. split_and!; [done..|]. rewrite Ht. intros Hwf. split; [done|]. intros c Hc. left. unfold tracked. by rewrite Ht. Qed.

Lemma sweep_section fs t s : (* the missing paths alone *)
  (sweep_missing_paths (fs_exists fs) (co_table s)).1 = t → st_wf (co_table s) →
  st_wf t ∧ only_removed (sweep_missing_paths (fs_exists fs) (co_table s)).2.*1 (co_table s) t.
Proof. intros <- Hwf. split; [by apply sweep_wf|apply sweep_removed]. Qed.

Lemma resync_section fs live client s s' r :
  micro_step cfg fs live (MResync client) s = (s', r) → table_section s s' r.
Proof.
  simpl. pose proof (sweep_section fs _ s eq_refl) as Hsw. unfold plan_missing_path_sweep.
  destruct (if client then Some live else None) as [[lv|e]|]; [|by intros [= <- <-]; apply same_section|];
    destruct (sweep_missing_paths (fs_exists fs) (co_table s)) as [t swept]; cbn [fst snd] in *.
  - pose proof (plan_pods_removed (stale_uids t lv) t swept.*1) as Hp.
    destruct (plan_pods_delete _ _ _) as [t2 del]. intros [= <- <-].
    destruct (send_same (Rearm (table_paths t2)) (set_table t2 s)) as (E1 & E2 & E3).
    apply (removal_section (sort_dedup del) _ t2); [by rewrite ?E1, ?E2, ?E3..| |by intros c Hc; apply (pending_last c _ [])].
    intros Hwf. destruct (Hsw Hwf) as [Hwf1 H1]. destruct (Hp Hwf1) as (Hwf2 & ids & Hids & H2). cbn [fst snd] in *. subst del.
    split; [done|]. intros j Hj. rewrite sort_dedup_elem in Hj. by apply (only_removed_trans _ _ _ _ _ H1 H2).
  - intros [= <- <-]. destruct (send_same (Rearm (table_paths t)) (set_table t s)) as (E1 & E2 & E3).
    apply (removal_section swept.*1 _ t); [by rewrite ?E1, ?E2, ?E3..|done|by intros c Hc; apply (pending_last c _ [])].
Qed.

Lemma remove_pod_section uid more s :
  (∀ c, c ∈ (remove_by_pod uid (co_table s)).2.*1 → pending c more) →
  table_section s (set_table (remove_by_pod uid (co_table s)).1 s) (Ok more).
Proof.
  intros Hp. apply (removal_section (remove_by_pod uid (co_table s)).2.*1 more (remove_by_pod uid (co_table s)).1); try done.
  intros Hwf. split; [by apply remove_by_pod_wf|by apply remove_by_pod_removed].
Qed.

Lemma revoke_section fs live s s' r : micro_step cfg fs live MRevoke s = (s', r) → table_section s s' r.
Proof.
  simpl. unfold apply_revoke_plan. set (ids := plan_revoke_ids _ _).
  assert (NoDup ids) as Hnd by apply nodup_filter_entries.
  pose proof (remove_ids_wf ids (co_table s) []) as Hwf. pose proof (remove_ids_removed ids (co_table s) Hnd) as Hrem.
  destruct (foldl remove_id (co_table s, []) ids) as [t out]. intros [= <- <-]. cbn [fst snd] in *.
  apply (removal_section out.*1 _ t); try done; [by intros H; split; [apply Hwf|]|].
  intros c Hc. apply pending_last. by rewrite <- list_fmap_compose.
Qed.

Lemma teardown_section fs live path s s' r : micro_step cfg fs live (MTeardown path) s = (s', r) → table_section s s' r.
Proof.
  simpl. destruct (cgroup_id_for_path (co_table s) path) as [cid|]; [|by intros [= <- <-]; apply same_section].
  unfold plan_teardown. pose proof (remove_by_cgroup_wf cid (co_table s)) as Hwf.
  destruct (remove_by_cgroup_spec cid (co_table s)) as [Hb Ho].
  destruct (remove_by_cgroup cid (co_table s)) as [t o]. cbn [fst snd] in *. intros [= <- <-].
  destruct o as [e|]; cbn [fmap option_fmap option_map].
  - apply (removal_section [cid] _ t); try done; [|by intros c Hc; apply (pending_last c _ [_])].
    intros H. split; [by apply Hwf|]. intros j Hj. rewrite Hb. apply lookup_delete_ne. set_solver.
  - apply (removal_section [] _ t); try done; [|by intros c Hc; apply not_elem_of_nil in Hc].
    intros H. split; [by apply Hwf|]. intros j _. rewrite Hb. by rewrite delete_id.
Qed.

Lemma hygiene_section fs live s s' r : micro_step cfg fs live MHygiene s = (s', r) → table_section s s' r.
Proof.
  intros [= <- <-]. apply (removal_section (entries (co_table s)).*1 _ st_new); try done; [|intros c; apply pending_last].
  intros _. split; [apply st_new_wf|]. intros j Hj. cbn [st_new by_cgroup]. rewrite lookup_empty. symmetry.
  apply eq_None_not_Some. intros [e He]. apply Hj, list_elem_of_fmap. exists (j, e). split; [done|]. by apply elem_of_map_to_list.
Qed.

(** Every section but a seed and a delete is a section of the table. *)
Definition is_map_section (m : micro) : bool := match m with MSeed _ _ | MDeleting (_ :: _) => true | _ => false end.

Lemma micro_table fs live m s s' r :
  is_map_section m = false → micro_step cfg fs live m s = (s', r) → table_section s s' r.
Proof.
  destruct m as [pod|pod spiffe c|leaf inode|uid|path|client| | |id|path|cmd|ids|[|id ids]]; intros Hm; try done.
  - simpl. unfold take_pod_if_not_allowed. destruct (pe_contains _ _); [by intros [= <- <-]; apply same_section|].
    pose proof (λ more, remove_pod_section (pv_uid pod) more s) as Hp.
    destruct (remove_by_pod (pv_uid pod) (co_table s)) as [t [|p removed]]; cbn [fst snd] in *; intros [= <- <-]; apply Hp.
    + by intros c Hc%not_elem_of_nil.
    + intros c Hc. by apply (pending_last c _ (_ :: _)).
  - simpl. destruct (resolve_container_cgroup_path _ _ _ _) as [leaf|]; [|by intros [= <- <-]; apply same_section].
    destruct (inode_of_path fs leaf) as [inode|]; [|by intros [= <- <-]; apply same_section]. unfold reconcile_insert.
    set (e := side_entry_for_container _ _ _ _). pose proof (λ r, insert_section inode e s r) as Hi.
    destruct (st_insert inode e (co_table s)) as [t []]; cbn [fst] in *; intros [= <- <-]; apply Hi.
  - simpl. pose proof (λ more, remove_pod_section uid more s) as Hp.
    destruct (remove_by_pod uid (co_table s)) as [t removed]. cbn [fst snd] in *. intros [= <- <-]. apply Hp.
    intros c Hc. by apply pending_last.
  - apply teardown_section.
  - apply resync_section.
  - apply revoke_section.
  - apply hygiene_section.
  - simpl. destruct (path_for_cgroup_id _ _ _) as [path|]; [|by intros [= <- <-]; apply same_section].
    destruct (inode_of_path fs path) as [inode|]; [|by intros [= <- <-]; apply same_section].
    destruct (negb _); [by intros [= <- <-]; apply same_section|]. pose proof (λ r, insert_section id (seed_entry path inode) s r) as Hi.
    destruct (st_insert id _ (co_table s)) as [t []]; cbn [fst] in *; intros [= <- <-]; apply Hi.
  - simpl. destruct (co_open s); intros [= <- <-]; [|by apply same_section].
    destruct (send_same (Watch path) s) as (? & ? & ?). by apply same_section.
  - intros [= <- <-]. destruct (send_same cmd s) as (? & ? & ?). by apply same_section.
  - intros [= <- <-]. by apply same_section.
  - intros [= <- <-]. by apply same_section.
Qed.
End sections.

(** ** Custody of the exceptions *)
Section custody.
Context {MH MV : Type} `{HH : HashMap Z MH, HV : ArrayMap Z MV}.
Context `{!HashMapLaws Z MH}.
Context (cfg : IdentityCorrelatorConfig).
Abbreviation state := (corr MH MV).
Implicit Types (s : state) (W : worklists).

(** What a section does to the maps: it keeps the allowlist and the validity flag, and
    the only thing it can allow is the cgroup it seeds. *)
Lemma micro_maps fs live m s s' r :
  micro_step cfg fs live m s = (s', r) →
  co_allowlist s' = co_allowlist s ∧ iam_exceptions_valid (co_maps s') = iam_exceptions_valid (co_maps s) ∧
  ∀ c, excepted_cgroup c s' →
    excepted_cgroup c s ∨ (seeds c m ∧ is_ok (seed_allow_cgroup c (co_maps s)).2 = true).
Proof.
  destruct (is_map_section m) eqn:Hm.
  2:{ intros Hs. destruct (micro_table cfg fs live m s s' r Hm Hs) as (E1 & E2 & _).
      unfold excepted_cgroup. rewrite E1. split_and!; [done..|]. by left. }
  unfold excepted_cgroup. destruct m as [| |leaf inode| | | | | | | | | |[|id ids]]; try done; simpl; unfold on_maps.
  - destruct (seed_allow_cgroup inode (co_maps s)) as [m [u|e]] eqn:E; intros [= <- <-]; cbn;
      pose proof (seed_allow_cgroup_spec _ _ _ _ E) as [E1 E2]; (split_and!; [done..|]); intros c; rewrite E2; cbn; [|by left].
    case_bool_decide; [subst; right; by rewrite E|by left].
  - destruct (remove_allow_cgroup id (co_maps s)) as [m [u|e]] eqn:E; intros [= <- <-]; cbn;
      pose proof (remove_allow_cgroup_spec _ _ _ _ E) as [E1 E2]; (split_and!; [done..|]); intros c; rewrite E2; cbn; [|by left].
    case_bool_decide; [by intros [? ?]|by left].
Qed.

(** The three steps after which nobody may be responsible for an exception: a seed of a
    cgroup whose row another task has taken out of the table meanwhile, a failed seed
    of a cgroup that is allowed already, and a failed delete, which also drops the
    deletes behind it. *)
Definition seed_lapses (c : Z) (ms : list micro) s : Prop :=
  match ms with
  | MSeed _ i :: _ =>
      i = c ∧ (by_cgroup (co_table s) !! c = None ∨ is_ok (seed_allow_cgroup c (co_maps s)).2 = false)
  | _ => False
  end.
Definition delete_fails (c : Z) (ms : list micro) s : Prop :=
  match ms with
  | MDeleting (id :: ids) :: _ => c ∈ id :: ids ∧ is_ok (remove_allow_cgroup id (co_maps s)).2 = false
  | _ => False
  end.
Definition lapse (c : Z) (ms : list micro) s : Prop := seed_lapses c ms s ∨ delete_fails c ms s.

(** Somebody is responsible for [c]: it is tracked, or a task is about to delete it. *)
Definition accounted (c : Z) s W : Prop := tracked c s ∨ ∃ w, pending c (W w).

(** Start-up only registers. *)
Definition is_start (m : micro) : Prop := match m with MRegister _ | MArm _ => True | _ => False end.
Definition start_clean W : Prop := ∀ m, m ∈ W Start → is_start m.

Lemma fn_insert_eq W w ms : <[w := ms]> W w = ms.
Proof. apply fn_lookup_insert. Qed.
Lemma fn_insert_ne W w w' ms : w' ≠ w → <[w := ms]> W w' = W w'.
Proof. intros Hw. by apply fn_lookup_insert_ne. Qed.

Lemma work_step_inv w fs live s W s' W' r :
  work_step cfg w fs live s W = Some (s', W', r) →
  ∃ m ms r', W w = m :: ms ∧ locked_out w m W = false ∧ micro_step cfg fs live m s = (s', r') ∧
    W' = <[w := match r' with Ok more => more ++ ms | Err _ => if bool_decide (w = Start) then [] else ms end]> W ∧
    (r = Ok () ↔ is_ok r' = true).
Proof.
  unfold work_step. destruct (W w) as [|m ms]; [done|]. destruct (locked_out w m W) eqn:Hl; [done|].
  destruct (micro_step cfg fs live m s) as [s1 [more|e]] eqn:E; intros [= <- <- <-]; by eexists m, ms, _.
Qed.

Lemma work_start_clean w fs live s W s' W' r :
  work_step cfg w fs live s W = Some (s', W', r) → start_clean W → start_clean W'.
Proof.
  intros (m & ms & r' & Hw & _ & Hm & -> & _)%work_step_inv Hc x. destruct (decide (w = Start)) as [->|Hne].
  2:{ rewrite fn_insert_ne by done. apply Hc. }
  rewrite fn_insert_eq. destruct r' as [more|e]; [|rewrite bool_decide_eq_true_2 by done; by intros ?%not_elem_of_nil].
  rewrite elem_of_app. intros [Hx|Hx]; [|apply Hc; rewrite Hw; by right].
  assert (is_start m) as His by (apply Hc; rewrite Hw; by left). destruct m as [| | | | | | | |id|path| | |]; try done; simpl in Hm.
  - destruct (path_for_cgroup_id _ _ _) as [p|]; [|done]. destruct (inode_of_path fs p) as [i|]; [|done]. destruct (negb _); [done|].
    destruct (st_insert _ _ _) as [t []]; try done; injection Hm as <- <-; by apply list_elem_of_singleton in Hx as ->.
  - destruct (co_open s); [|done]. injection Hm as <- <-. by apply not_elem_of_nil in Hx.
Qed.

(** A delete to come stays to come, is done, or lapses. *)
Lemma work_pending c w fs live s W s' W' r :
  work_step cfg w fs live s W = Some (s', W', r) → start_clean W →
  ∀ v, pending c (W v) → pending c (W' v) ∨ allowed_cgroup (co_maps s') c = None ∨ delete_fails c (W w) s.
Proof.
  intros (m & ms & r' & Hw & _ & Hm & -> & _)%work_step_inv Hc v Hp.
  destruct (decide (v = w)) as [->|Hne]; [|left; by rewrite fn_insert_ne]. rewrite fn_insert_eq.
  destruct (decide (w = Start)) as [->|Hst].
  { destruct Hp as (x & Hx & Hd). by destruct x; specialize (Hc _ Hx). }
  rewrite (bool_decide_eq_false_2 (w = Start)) by done. rewrite Hw in Hp |- *.
  apply pending_cons in Hp as [Hd|Hp]; [|left; destruct r'; [apply pending_app; by right|done]].
  destruct m as [| | | | | | | | | | |ids|[|id ids]]; try done.
  - injection Hm as <- <-. left. destruct ids; [by apply not_elem_of_nil in Hd|]. apply pending_cons. by left.
  - by apply not_elem_of_nil in Hd.
  - simpl in Hm. unfold on_maps in Hm. destruct (remove_allow_cgroup id (co_maps s)) as [m [u|e]] eqn:E; injection Hm as <- <-.
    + apply remove_allow_cgroup_spec in E as [_ E]. cbn. cbn in Hd. rewrite elem_of_cons in Hd. destruct Hd as [->|Hd].
      * right; left. rewrite E. cbn. by rewrite bool_decide_eq_true_2.
      * left. apply pending_cons. by left.
    + right; right. cbn. by rewrite E.
Qed.

Lemma work_tracked c w fs live s W s' W' r :
  work_step cfg w fs live s W = Some (s', W', r) → st_wf (co_table s) →
  tracked c s → tracked c s' ∨ pending c (W' w) ∨ seed_lapses c (W w) s.
Proof.
  intros (m & ms & r' & Hw & _ & Hm & -> & _)%work_step_inv Hwf Ht. rewrite fn_insert_eq.
  destruct (is_map_section m) eqn:Hmap.
  - destruct m as [| |leaf inode| | | | | | | | | |[|id ids]]; try done; simpl in Hm; unfold on_maps in Hm.
    + destruct (seed_allow_cgroup inode (co_maps s)) as [m [u|e]] eqn:E; injection Hm as <- <-; [by left|].
      destruct (decide (inode = c)) as [->|Hne]; [right; right; rewrite Hw; cbn; rewrite E; split; [done|by right]|left].
      unfold tracked in *. cbn. destruct (remove_by_cgroup_spec inode (co_table s)) as [-> _]. by rewrite lookup_delete_ne.
    + destruct (remove_allow_cgroup id (co_maps s)) as [m [u|e]]; injection Hm as <- <-; by left.
  - destruct (micro_table cfg fs live m s s' r' Hmap Hm) as (_ & _ & Hsec).
    destruct (Hsec Hwf) as [_ Hs]. destruct (Hs c Ht) as [|(more & -> & Hp)]; [by left|].
    right; left. apply pending_app. by left.
Qed.

(** What is excepted stays accounted for, but for a lapse. *)
Definition in_custody (c : Z) s W : Prop := excepted_cgroup c s → accounted c s W.

Lemma work_custody c w fs live s W s' W' r :
  work_step cfg w fs live s W = Some (s', W', r) → st_wf (co_table s) → start_clean W →
  in_custody c s W → lapse c (W w) s ∨ in_custody c s' W'.
Proof.
  intros Hs Hwf Hc Hcu. pose proof (work_tracked c _ _ _ _ _ _ _ _ Hs Hwf) as Ht.
  pose proof (work_pending c _ _ _ _ _ _ _ _ Hs Hc) as Hp.
  pose proof (work_step_inv _ _ _ _ _ _ _ _ Hs) as (m & ms & r' & Hw & _ & Hm & HW' & _).
  destruct (micro_maps fs live m s s' r' Hm) as (_ & _ & Hex).
  destruct (decide (is_Some (allowed_cgroup (co_maps s') c))) as [Hal|Hal]; [|right; by intros ?].
  destruct (Hex c Hal) as [Hold|[Hseed Hok]].
  - destruct (Hcu Hold) as [Htr|[v Hv]].
    + destruct (Ht Htr) as [?|[?|?]]; [right; intros _; by left|right; intros _; right; by exists w|left; by left].
    + destruct (Hp v Hv) as [?|[Hn|?]]; [right; intros _; right; by exists v| |left; by right]. rewrite Hn in Hal. by destruct Hal.
  - destruct m as [| |leaf inode| | | | | | | | | |]; try done. simpl in Hseed. subst inode.
    destruct (by_cgroup (co_table s) !! c) as [e|] eqn:He; [|left; left; rewrite Hw; split; [done|by left]].
    right. intros _. left. simpl in Hm. unfold on_maps in Hm.
    destruct (seed_allow_cgroup c (co_maps s)) as [m [u|err]]; [|done]. injection Hm as <- <-. unfold tracked. cbn. by rewrite He.
Qed.

Lemma work_wf w fs live s W s' W' r :
  work_step cfg w fs live s W = Some (s', W', r) → st_wf (co_table s) → st_wf (co_table s').
Proof.
  intros (m & ms & r' & Hw & _ & Hm & -> & _)%work_step_inv Hwf. destruct (is_map_section m) eqn:Hmap.
  - destruct m as [| |leaf inode| | | | | | | | | |[|id ids]]; try done; simpl in Hm; unfold on_maps in Hm.
    + destruct (seed_allow_cgroup inode (co_maps s)) as [m [u|e]]; injection Hm as <- <-; [done|]. by apply remove_by_cgroup_wf.
    + destruct (remove_allow_cgroup id (co_maps s)) as [m [u|e]]; by injection Hm as <- <-.
  - destruct (micro_table cfg fs live m s s' r' Hmap Hm) as (_ & _ & Hsec). by apply Hsec.
Qed.

(** ** Removals reach the map *)

(** A cgroup whose delete is to come, or done, stays that way until the delete fails or
    the cgroup is seeded again. *)
Definition seeded (c : Z) (ms : list micro) s : Prop :=
  match ms with MSeed _ i :: _ => i = c ∧ is_ok (seed_allow_cgroup c (co_maps s)).2 = true | _ => False end.
Definition removing (c : Z) (w : who) s W : Prop := pending c (W w) ∨ allowed_cgroup (co_maps s) c = None.

Lemma work_removing c w v fs live s W s' W' r :
  work_step cfg v fs live s W = Some (s', W', r) → start_clean W → removing c w s W →
  removing c w s' W' ∨ delete_fails c (W v) s ∨ seeded c (W v) s.
Proof.
  intros Hs Hc Hr. destruct Hr as [Hp|Hn].
  - destruct (work_pending c _ _ _ _ _ _ _ _ Hs Hc w Hp) as [?|[?|?]]; [left; by left|left; by right|right; by left].
  - pose proof (work_step_inv _ _ _ _ _ _ _ _ Hs) as (m & ms & r' & Hw & _ & Hm & _).
    destruct (micro_maps fs live m s s' r' Hm) as (_ & _ & Hex).
    destruct (allowed_cgroup (co_maps s') c) as [x|] eqn:E; [|left; by right].
    destruct (Hex c) as [Hx|[Hseed Hok]]; [by exists x|unfold excepted_cgroup in Hx; rewrite Hn in Hx; by destruct Hx|].
    right; right. rewrite Hw. by destruct m.
Qed.

(** The section that takes [c] out of the table leaves its delete. *)
Lemma work_takes c w fs live s W s' W' r :
  work_step cfg w fs live s W = Some (s', W', r) → st_wf (co_table s) →
  tracked c s → ¬ tracked c s' → ¬ seed_lapses c (W w) s → removing c w s' W'.
Proof.
  intros Hs Hwf Ht Hn Hl. destruct (work_tracked c _ _ _ _ _ _ _ _ Hs Hwf Ht) as [?|[?|?]]; [done|by left|done].
Qed.

(** ** Where exceptions come from *)
Definition pod_spiffe (pod : PodView) : bytes :=
  construct_spiffe_id (cfg_trust_domain cfg) (pv_namespace pod) (pv_service_account pod).
(** A container of the pod has the cgroup [c]. *)
Definition resolves (fs : Fs) (pod : PodView) (c : Z) : Prop :=
  ∃ cont leaf, cont ∈ pv_containers pod ∧
    resolve_container_cgroup_path fs (cfg_cgroup_root cfg) (pv_uid pod) cont = Some leaf ∧ inode_of_path fs leaf = Ok c.

(** The pods that were looked at and found allowed, and the cgroups their containers
    had: everything excepted, or about to be, is among the latter. *)
Definition provenance (Checked : PodView → Prop) (Granted : Z → Prop) s W : Prop :=
  (∀ w pod spiffe cont, MContainer pod spiffe cont ∈ W w → Checked pod ∧ cont ∈ pv_containers pod) ∧
  (∀ w leaf c, MSeed leaf c ∈ W w → Granted c) ∧
  (∀ c, excepted_cgroup c s → Granted c).

Lemma provenance_mono (C C' : PodView → Prop) (G G' : Z → Prop) s W :
  (∀ pod, C pod → C' pod) → (∀ c, G c → G' c) → provenance C G s W → provenance C' G' s W.
Proof. intros HC HG (H1 & H2 & H3). split_and!; [intros w pod sp ct Hin; destruct (H1 _ _ _ _ Hin); auto|eauto..]. Qed.

(** What a section leaves to do: commands and deletes; the containers of a pod that was
    found allowed; the seed of a container's cgroup. *)
Definition origin (fs : Fs) (m : micro) s (x : micro) : Prop :=
  match x with
  | MContainer pod _ cont => m = MPod pod ∧ pod_spiffe pod ∈ co_allowlist s ∧ cont ∈ pv_containers pod
  | MSeed leaf c => ∃ pod spiffe cont, m = MContainer pod spiffe cont ∧
      resolve_container_cgroup_path fs (cfg_cgroup_root cfg) (pv_uid pod) cont = Some leaf ∧ inode_of_path fs leaf = Ok c
  | MSend _ | MArm _ | MDelete _ | MDeleting _ => True
  | _ => False
  end.

Lemma origin_sends {A} fs m s (f : A → TeardownCmd) l ids :
  Forall (origin fs m s) (map (λ x, MSend (f x)) l ++ [MDelete ids]).
Proof. apply Forall_app. split; [|by repeat constructor]. apply Forall_map, Forall_true. by intros. Qed.

Lemma micro_origin fs live m s s' more :
  micro_step cfg fs live m s = (s', Ok more) → Forall (origin fs m s) more.
Proof.
  destruct m as [pod|pod sp c|leaf inode|uid|path|client| | |id|path|cmd|ids|[|id ids]]; cbn [micro_step].
  - unfold take_pod_if_not_allowed, pe_contains. fold (pod_spiffe pod). case_bool_decide as Hal.
    + intros [= <- <-]. apply Forall_map, Forall_forall. by intros x Hx.
    + destruct (remove_by_pod _ _) as [t [|p removed]]; intros [= <- <-]; [by repeat constructor|].
      constructor; [done|]. apply origin_sends.
  - destruct (resolve_container_cgroup_path _ _ _ _) as [leaf|] eqn:Hl; [|by intros [= <- <-]].
    destruct (inode_of_path fs leaf) as [inode|] eqn:Hi; [|by intros [= <- <-]].
    destruct (reconcile_insert _ _ _ _ _) as [s1 []]; intros [= <- <-]; repeat constructor; by exists pod, sp, c.
  - destruct (on_maps _ _) as [s1 []]; intros [= <- <-]; by repeat constructor.
  - destruct (remove_by_pod _ _) as [t removed]. intros [= <- <-]. apply (origin_sends _ _ _ (λ p, Unwatch (sd_cgroup_path p.2))).
  - destruct (match cgroup_id_for_path _ _ with Some _ => _ | None => _ end) as [t [id|]]; intros [= <- <-]; by repeat constructor.
  - destruct (if client then _ else _) as [[lv|e]|]; [|done|]; destruct (plan_missing_path_sweep _ _) as [t sw];
      [destruct (plan_pods_delete _ _ _)|]; intros [= <- <-]; by repeat constructor.
  - destruct (apply_revoke_plan _ _) as [t removed]. intros [= <- <-]. apply (origin_sends _ _ _ Unwatch).
  - destruct (st_clear _) as [t cleared]. intros [= <- <-]. apply (origin_sends _ _ _ (λ p, Unwatch (sd_cgroup_path p.2))).
  - destruct (path_for_cgroup_id _ _ _) as [p|]; [|done]. destruct (inode_of_path fs p) as [i|]; [|done]. destruct (negb _); [done|].
    destruct (st_insert _ _ _) as [t []]; intros [= <- <-]; by repeat constructor.
  - destruct (co_open s); [|done]. intros [= <- <-]. constructor.
  - intros [= <- <-]. constructor.
  - intros [= <- <-]. destruct ids; by repeat constructor.
  - intros [= <- <-]. constructor.
  - destruct (on_maps _ _) as [s1 []]; [|done]. intros [= <- <-]. by repeat constructor.
Qed.

Lemma work_origin w fs live s W s' W' r v x :
  work_step cfg w fs live s W = Some (s', W', r) → x ∈ W' v →
  x ∈ W v ∨ ∃ m ms, W w = m :: ms ∧ origin fs m s x.
Proof.
  intros (m & ms & r' & Hw & _ & Hm & -> & _)%work_step_inv. destruct (decide (v = w)) as [->|Hne]; [|rewrite fn_insert_ne by done; auto].
  rewrite fn_insert_eq. destruct r' as [more|e].
  - rewrite elem_of_app. intros [Hx|Hx]; [right|left; rewrite Hw; by right]. exists m, ms. split; [done|].
    pose proof (micro_origin _ _ _ _ _ _ Hm) as Ho. rewrite Forall_forall in Ho. by apply Ho.
  - case_bool_decide; [by intros ?%not_elem_of_nil|]. intros Hx. left. rewrite Hw. by right.
Qed.

Lemma work_provenance (C C' : PodView → Prop) (G G' : Z → Prop) w fs live s W s' W' r :
  work_step cfg w fs live s W = Some (s', W', r) → provenance C G s W →
  (∀ pod, C pod → C' pod) → (∀ c, G c → G' c) →
  (∀ pod ms, W w = MPod pod :: ms → pod_spiffe pod ∈ co_allowlist s → C' pod) →
  (∀ pod c, C pod → resolves fs pod c → G' c) →
  provenance C' G' s' W'.
Proof.
  intros Hs (H1 & H2 & H3) HC HG Hpod Hres. split_and!.
  - intros v pod sp ct Hin. destruct (work_origin _ _ _ _ _ _ _ _ _ _ Hs Hin) as [Hold|(m & ms & Hw & Ho)].
    + destruct (H1 _ _ _ _ Hold). auto.
    + destruct Ho as (-> & Hal & Hct). split; [by eapply Hpod|done].
  - intros v leaf c Hin. destruct (work_origin _ _ _ _ _ _ _ _ _ _ Hs Hin) as [Hold|(m & ms & Hw & Ho)]; [eauto|].
    destruct Ho as (pod & sp & ct & -> & Hl & Hi). destruct (H1 w pod sp ct) as [Hp Hct]; [rewrite Hw; by left|].
    apply (Hres pod); [done|]. by exists ct, leaf.
  - pose proof (work_step_inv _ _ _ _ _ _ _ _ Hs) as (m & ms & r' & Hw & _ & Hm & _).
    destruct (micro_maps fs live m s s' r' Hm) as (_ & _ & Hex). intros c Hc.
    destruct (Hex c Hc) as [Hold|[Hseed _]]; [by apply HG, H3|]. destruct m as [| |leaf inode| | | | | | | | | |]; try done.
    simpl in Hseed. subst inode. apply HG, (H2 w leaf). rewrite Hw. by left.
Qed.
End custody.

