(* ===== verification/CorrelatorTasks.v ===== *)
(** * The tasks of the identity correlator ([identity_correlator/mod.rs])

    [spawn_identity_correlator] starts two tasks: a thread that owns the inotify
    watcher ([inotify_worker_loop]) and the correlator's loop ([run_correlator]), which
    starts a third, the pod watch, when it has an API client. They share the side table
    and the maps, and talk through unbounded channels: commands to the worker, batches
    from it, pod events from the watch. The policy task revokes and clears, and start-up
    registers the manual seeds, on the same table and maps.

    A behaviour is the list of the tasks' actions in the order they happen. The loop, the
    policy task and start-up work section by section ([CorrelatorSteps]): taking an event
    gives a task the sections of its handler, [AWork] runs the next one, and any action of
    any other task may come in between, as far as the map lock allows. What a task sees of
    the world is carried by its action. Logging and metrics are left out.

    Shown, for every interleaving and whatever the map calls return: an exception that no
    task is responsible for comes from one of three named steps; a deleted pod, a revoked
    identity and a removed directory leave the kernel map unless a delete fails or the
    cgroup is seeded again. The interleavings and logged failures that break the
    stronger expectations are given as runs. *)

From stdpp Require Import functions.
From S2P Require Import Prelude RustStd Common Bpf PathDeny IdentityAllow SideTable CgroupPath PodWatch TeardownWatch Correlator CorrelatorSteps.

(** The text of a path the watcher has put together from its components. *)
Fixpoint join_slash (cs : list bytes) : bytes :=
  match cs with [] => [] | [c] => c | c :: cs => c ++ 47 :: join_slash cs end.
Definition path_text (p : PathBuf) : bytes := (if p.1 then [47] else []) ++ join_slash p.2.

(** ** State *)

(** The worker: not yet at [TeardownWatcher::new], at the head of its loop, receiving
    commands, about to poll, or returned, which drops both its channel ends. *)
Inductive worker (I : Type) : Type :=
| WorkerNew
| WorkerHead (w : TeardownWatcher I)
| WorkerCmds (w : TeardownWatcher I)
| WorkerPoll (w : TeardownWatcher I)
| WorkerGone.
Arguments WorkerNew {I}.
Arguments WorkerHead {I}.
Arguments WorkerCmds {I}.
Arguments WorkerPoll {I}.
Arguments WorkerGone {I}.

(** [run_correlator]: before [K8sClient::connect], in the resync of its start, in the loop
    (each with or without a client), or returned. *)
Inductive loop_phase : Type :=
| LoopNew
| LoopConnect (client : bool)
| LoopRun (client : bool)
| LoopDone (r : result unit).

(** [ts_pods] is [rx_pod]: the events in the channel, and whether the watch still holds
    the other end. [ts_work] is what each task has left of the handler it is in. *)
Record tasks (I MH MV : Type) : Type := mkTasks {
  ts_corr : corr MH MV;
  ts_work : worklists;
  ts_worker : worker I;
  ts_batches : list TeardownBatch;
  ts_loop : loop_phase;
  ts_pods : option (list PodWatchEvent * bool);
  ts_shutdown : bool
}.
Arguments mkTasks {I MH MV}.
Arguments ts_corr {I MH MV}.
Arguments ts_work {I MH MV}.
Arguments ts_worker {I MH MV}.
Arguments ts_batches {I MH MV}.
Arguments ts_loop {I MH MV}.
Arguments ts_pods {I MH MV}.
Arguments ts_shutdown {I MH MV}.

(** What a task does next. The policy task changes the allowlist or starts a follow-up;
    start-up starts to register its seeds. *)
Inductive task_action (I : Type) : Type :=
| ANew (init : option I)
| AHead
| ACmd (exists_ : PathBuf → bool)
| APoll (reads : option (list read_result))
| AConnect (client : bool)
| ABatch
| APod
| AStop
| APodSend (ev : PodWatchEvent)
| APodExit
| APolicy (ev : corr_event)
| ASeeds (ids : list Z)
| ACancel
| AWork (w : who) (fs : Fs) (live : result (gset bytes)).
Arguments ANew {I}.
Arguments AHead {I}.
Arguments ACmd {I}.
Arguments APoll {I}.
Arguments AConnect {I}.
Arguments ABatch {I}.
Arguments APod {I}.
Arguments AStop {I}.
Arguments APodSend {I}.
Arguments APodExit {I}.
Arguments APolicy {I}.
Arguments ASeeds {I}.
Arguments ACancel {I}.
Arguments AWork {I}.

Section tasks.
Context {I : Type} `{Inotify I} {MH MV : Type} `{HashMap Z MH, ArrayMap Z MV}.
Context (cfg : IdentityCorrelatorConfig).
Abbreviation state := (corr MH MV).
Abbreviation TW := (TeardownWatcher I).
Abbreviation tasks := (tasks I MH MV).
Abbreviation task_action := (task_action I).

(** ** Channels *)
Definition set_cmds (cmds : list TeardownCmd) (s : state) : state :=
  mkCorr (co_table s) (co_maps s) (co_allowlist s) cmds (co_open s).
(** The receiver of the commands is dropped, with what is in the channel. *)
Definition close_cmds (s : state) : state :=
  mkCorr (co_table s) (co_maps s) (co_allowlist s) [] false.
(** The worker's end of the batch channel. *)
Definition worker_alive (w : worker I) : bool := match w with WorkerGone => false | _ => true end.
Definition loop_alive (l : loop_phase) : bool := match l with LoopDone _ => false | _ => true end.

(** ** [inotify_worker_loop] *)

(** One command: the watcher it leaves, and whether it succeeded. *)
Definition run_cmd (exists_ : PathBuf → bool) (cmd : TeardownCmd) (w : TW) : TW * bool :=
  match cmd with
  | Watch path => let '(w, r) := watch_path exists_ (path_key path) w in (w, is_ok r)
  | Unwatch path => (unwatch_path (path_key path) w, true)
  | Rearm paths => let '(w, r) := rearm_paths exists_ (map path_key paths) w in (w, is_ok r)
  end.

(** What a poll sends, if anything: [reads] is [None] when [poll] reports nothing. *)
Definition poll_batch (reads : option (list read_result)) (w : TW) : TW * option TeardownBatch :=
  match reads with
  | None => (w, None)
  | Some reads =>
      match drain_events reads w with
      | (w, Ok batch) =>
          (w, if overflow batch || negb (bool_decide (torn_down_paths batch = [])) then Some batch else None)
      | (w, Err _) => (w, None)
      end
  end.

Definition worker_step (a : task_action) (s : tasks) : option tasks :=
  let '(mkTasks c W w batches l pods stop) := s in
  match a, w with
  | ANew (Some i), WorkerNew => Some (mkTasks c W (WorkerHead (tw_new i)) batches l pods stop)
  | ANew None, WorkerNew => Some (mkTasks (close_cmds c) W WorkerGone batches l pods stop)
  | AHead, WorkerHead w =>
      Some (if stop then mkTasks (close_cmds c) W WorkerGone batches l pods stop
            else mkTasks c W (WorkerCmds w) batches l pods stop)
  | ACmd exists_, WorkerCmds w =>
      Some (match co_cmds c with
            | [] => mkTasks c W (WorkerPoll w) batches l pods stop
            | cmd :: cmds => mkTasks (set_cmds cmds c) W (WorkerCmds (run_cmd exists_ cmd w).1) batches l pods stop
            end)
  | APoll reads, WorkerPoll w =>
      let '(w, batch) := poll_batch reads w in
      Some (mkTasks c W (WorkerHead w) (if loop_alive l then batches ++ option_list batch else []) l pods stop)
  | _, _ => None
  end.

(** ** [run_correlator] *)

(** The loop returns: its ends of the batch and pod channels are dropped. *)
Definition loop_exit (r : result unit) (s : tasks) : tasks :=
  mkTasks (ts_corr s) (ts_work s) (ts_worker s) [] (LoopDone r) None (ts_shutdown s).

(** The loop takes an event when it has finished the last one. *)
Definition loop_step (a : task_action) (s : tasks) : option tasks :=
  let '(mkTasks c W w batches l pods stop) := s in
  match a, l, W Loop with
  | AConnect client, LoopNew, [] =>
      Some (mkTasks c (<[Loop := [MResync client]]> W) w batches (LoopConnect client) pods stop)
  | ABatch, LoopRun client, [] =>
      match batches with
      | b :: batches =>
          Some (mkTasks c
            (<[Loop := if overflow b then [MResync client] else map (λ p, MTeardown (path_text p)) (torn_down_paths b)]> W)
            w batches l pods stop)
      | [] => if worker_alive w then None else Some (loop_exit (Ok ()) s)
      end
  | APod, LoopRun _, [] =>
      match pods with
      | Some (ev :: evs, open) =>
          Some (mkTasks c (<[Loop := match ev with Upsert pod => [MPod pod] | Deleted uid => [MGone uid] end]> W)
            w batches l (Some (evs, open)) stop)
      | Some ([], false) => Some (mkTasks c W w batches l None stop)
      | _ => None
      end
  | AStop, LoopRun _, [] => if stop then Some (loop_exit (Ok ()) s) else None
  | _, _, _ => None
  end.

(** ** Sections

    The resync of the start ends in the loop, with the pod watch started when there is
    a client, or in the return of its error. *)
Definition connected (w : who) (r : result unit) (s : tasks) : tasks :=
  match w, ts_loop s, r with
  | Loop, LoopConnect _, Err e => loop_exit (Err e) s
  | Loop, LoopConnect client, Ok _ =>
      match ts_work s Loop with
      | [] => mkTasks (ts_corr s) (ts_work s) (ts_worker s) (ts_batches s) (LoopRun client)
                (if client then Some ([], true) else None) (ts_shutdown s)
      | _ => s
      end
  | _, _, _ => s
  end.

Definition section_step (w : who) (fs : Fs) (live : result (gset bytes)) (s : tasks) : option tasks :=
  '(c, W, r) ← work_step cfg w fs live (ts_corr s) (ts_work s);
  Some (connected w r (mkTasks c W (ts_worker s) (ts_batches s) (ts_loop s) (ts_pods s) (ts_shutdown s))).

(** ** The other tasks: pod watch, policy, start-up, shutdown *)
Definition other_step (a : task_action) (s : tasks) : option tasks :=
  let '(mkTasks c W w batches l pods stop) := s in
  match a with
  | APodSend ev =>
      match pods with
      | Some (evs, true) => Some (mkTasks c W w batches l (Some (evs ++ [ev], true)) stop)
      | _ => None
      end
  | APodExit =>
      match pods with
      | Some (evs, true) => Some (mkTasks c W w batches l (Some (evs, false)) stop)
      | _ => None
      end
  | APolicy ev =>
      match W Policy, ev with
      | [], (CAllow _ | CDisallow) => Some (mkTasks (corr_step c ev) W w batches l pods stop)
      | [], CRevoke => Some (mkTasks c (<[Policy := [MRevoke]]> W) w batches l pods stop)
      | [], CHygiene => Some (mkTasks c (<[Policy := [MHygiene]]> W) w batches l pods stop)
      | _, _ => None
      end
  | ASeeds ids =>
      match W Start with
      | [] => Some (mkTasks c (<[Start := map MRegister ids]> W) w batches l pods stop)
      | _ => None
      end
  | ACancel => Some (mkTasks c W w batches l pods true)
  | _ => None
  end.

Definition task_step (a : task_action) (s : tasks) : option tasks :=
  match a with
  | ANew _ | AHead | ACmd _ | APoll _ => worker_step a s
  | AConnect _ | ABatch | APod | AStop => loop_step a s
  | AWork w fs live => section_step w fs live s
  | _ => other_step a s
  end.

Fixpoint task_run (acts : list task_action) (s : tasks) : option tasks :=
  match acts with
  | [] => Some s
  | a :: acts => s' ← task_step a s; task_run acts s'
  end.

(** [spawn_identity_correlator] over the state it is given; the command channel is new. *)
Definition spawn_identity_correlator (c : state) : option tasks :=
  if cfg_enabled cfg
  then Some (mkTasks (mkCorr (co_table c) (co_maps c) (co_allowlist c) [] true) (λ _, []) WorkerNew [] LoopNew None false)
  else None.
End tasks.

(** ** Paths

    The text of a path's components is a path with those components. *)
Lemma split_byte_elem c s x : x ∈ split_byte c s → c ∉ x.
Proof.
  revert x. induction s as [|b s IH]; intros x; simpl; [intros ->%list_elem_of_singleton; apply not_elem_of_nil|].
  case_bool_decide; [rewrite elem_of_cons; intros [->|Hx]; [apply not_elem_of_nil|by apply IH]|].
  destruct (split_byte c s) as [|y ys]; [intros ->%list_elem_of_singleton; apply not_elem_of_cons; split; [congruence|apply not_elem_of_nil]|]. rewrite elem_of_cons. intros [->|Hx].
  - apply not_elem_of_cons. split; [congruence|]. apply IH. by left.
  - apply IH. by right.
Qed.

Lemma split_join_slash cs : cs ≠ [] → (∀ c, c ∈ cs → 47 ∉ c) → split_byte 47 (join_slash cs) = cs.
Proof.
  induction cs as [|c cs IH]; intros Hne Hcs; [done|]. destruct cs as [|c' cs].
  - simpl. apply split_byte_notin, Hcs. set_solver.
  - change (join_slash (c :: c' :: cs)) with (c ++ 47 :: join_slash (c' :: cs)).
    rewrite split_byte_app, split_byte_notin by (apply Hcs; set_solver).
    rewrite IH; [done..|]. intros x Hx. apply Hcs. set_solver.
Qed.

Lemma split_byte_head c s : ∃ x xs, split_byte c s = x :: xs ∧ (x = [] → s = [] ∨ starts_with s [c] = true).
Proof.
  destruct s as [|b s]; simpl; [by exists [], []; auto|].
  case_bool_decide as Hb; [|destruct (split_byte c s); by eexists _, _].
  exists [], (split_byte c s). split; [done|]. intros _. right. subst b. apply (starts_with_app [c]).
Qed.

Lemma path_key_text p : path_key (path_text (path_key p)) = path_key p.
Proof.
  destruct (split_byte_head 47 p) as (first & rest & Hs & Hf). unfold path_key at 2 3. rewrite Hs.
  set (rest' := filter _ rest).
  assert (∀ c, c ∈ rest' → 47 ∉ c) as Hrest.
  { intros c [_ Hc]%list_elem_of_filter. apply (split_byte_elem 47 p). rewrite Hs. set_solver. }
  assert (filter (λ c, skip_component c = false) rest' = rest') as Hid.
  { by apply list_filter_filter_l. }
  case_bool_decide as Hfirst.
  - destruct (starts_with p [47]) eqn:Hst; unfold path_text; cbn [fst snd].
    + destruct (decide (rest' = [])) as [->|Hne]; [done|].
      unfold path_key. change ([47] ++ ?x) with ([] ++ 47 :: x). rewrite split_byte_app, split_join_slash by done.
      cbn [split_byte app]. rewrite bool_decide_eq_true_2, Hid by done. done.
    + destruct Hf as [->|]; [done| |done]. injection Hs as <- <-. done.
  - unfold path_text, path_key. cbn [fst snd app]. rewrite split_join_slash; [|done|].
    + rewrite bool_decide_eq_false_2, Hid by done. done.
    + intros c [->|Hc]%elem_of_cons; [|by apply Hrest]. apply (split_byte_elem 47 p). rewrite Hs. set_solver.
Qed.

(** ** Runs *)

(** The sections a task starts a handler with. *)
Definition is_entry (w : who) (m : micro) : bool :=
  match m, w with
  | MPod _, Loop | MGone _, Loop | MTeardown _, Loop | MResync _, Loop => true
  | MRevoke, Policy | MHygiene, Policy | MRegister _, Start => true
  | _, _ => false
  end.

Section runs.
Context {I : Type} `{Inotify I} {MH MV : Type} `{HH : HashMap Z MH, HV : ArrayMap Z MV}.
Context (cfg : IdentityCorrelatorConfig).
Abbreviation tasks := (tasks I MH MV).
Implicit Types (s : tasks).

(** An action that is not a section leaves the table and the maps; it gives a handler
    only to a task that has finished its last one. *)
Definition between s s' : Prop :=
  co_table (ts_corr s') = co_table (ts_corr s) ∧ co_maps (ts_corr s') = co_maps (ts_corr s) ∧
  ∀ w, ts_work s' w = ts_work s w ∨ (ts_work s w = [] ∧ ∀ m, m ∈ ts_work s' w → is_entry w m = true).

Lemma between_same s s' :
  co_table (ts_corr s') = co_table (ts_corr s) → co_maps (ts_corr s') = co_maps (ts_corr s) → ts_work s' = ts_work s →
  between s s'.
Proof. intros Ht Hm HW. split_and!; [done..|]. rewrite HW. by left. Qed.

Lemma between_given w ms (c : corr MH MV) W wk wk' b b' l l' p p' st :
  W w = [] → (∀ m, m ∈ ms → is_entry w m = true) →
  between (mkTasks c W wk b l p st) (mkTasks c (<[w := ms]> W) wk' b' l' p' st).
Proof.
  intros HW He. split_and!; [done..|]. intros v. cbn. destruct (decide (v = w)) as [->|Hne].
  - right. by rewrite fn_insert_eq.
  - left. by apply fn_insert_ne.
Qed.

Lemma connected_corr w r s : ts_corr (connected w r s) = ts_corr s ∧ ts_work (connected w r s) = ts_work s.
Proof. unfold connected. destruct w, (ts_loop s), r; try done. by destruct (ts_work s Loop). Qed.

Lemma worker_step_between a s s' : worker_step a s = Some s' → between s s'.
Proof.
  destruct s as [c W w batches l pods stop]. unfold worker_step.
  destruct a as [[i|]| |ex|reads|cl| | | |ev| |ev|ids| |v fs live], w; try done.
  - by intros [= <-]; apply between_same.
  - by intros [= <-]; apply between_same.
  - destruct stop; by intros [= <-]; apply between_same.
  - destruct (co_cmds c); by intros [= <-]; apply between_same.
  - destruct (poll_batch reads _). by intros [= <-]; apply between_same.
Qed.

Lemma loop_step_between a s s' : loop_step a s = Some s' → between s s'.
Proof.
  destruct s as [c W w batches l pods stop]. unfold loop_step.
  destruct a as [| | | |cl| | | | | | | | |]; try done; destruct l as [|cl'|cl'|]; try done; destruct (W Loop) eqn:HW; try done.
  - intros [= <-]. apply between_given; [done|]. by intros m ->%list_elem_of_singleton.
  - destruct batches as [|b bs]; [destruct (worker_alive w); [done|]; by intros [= <-]; apply between_same|].
    intros [= <-]. apply between_given; [done|]. intros m Hm. destruct (overflow b).
    + by apply list_elem_of_singleton in Hm as ->.
    + by apply list_elem_of_fmap in Hm as (p & -> & _).
  - destruct pods as [[[|ev evs] []]|]; try done; intros [= <-]; try (by apply between_same);
      (apply between_given; [done|]); intros m Hm; destruct ev; by apply list_elem_of_singleton in Hm as ->.
  - destruct stop; [|done]. by intros [= <-]; apply between_same.
Qed.

Lemma other_step_between a s s' : other_step a s = Some s' → between s s'.
Proof.
  destruct s as [c W w batches l pods stop]. unfold other_step. destruct a as [| | | | | | | |ev| |ev|ids| |]; try done.
  - destruct pods as [[evs []]|]; try done. by intros [= <-]; apply between_same.
  - destruct pods as [[evs []]|]; try done. by intros [= <-]; apply between_same.
  - destruct (W Policy) eqn:HW; [|done]. destruct ev; try done; intros [= <-]; try (by apply between_same).
    all: apply between_given; [done|]; by intros m ->%list_elem_of_singleton.
  - destruct (W Start) eqn:HW; [|done]. intros [= <-]. apply between_given; [done|].
    intros m Hm. by apply list_elem_of_fmap in Hm as (p & -> & _).
  - by intros [= <-]; apply between_same.
Qed.

Lemma task_step_cases a s s' :
  task_step cfg a s = Some s' →
  between s s' ∨
  ∃ w fs live r, a = AWork w fs live ∧
    work_step cfg w fs live (ts_corr s) (ts_work s) = Some (ts_corr s', ts_work s', r).
Proof.
  destruct a; cbn [task_step]; try (left; by eapply worker_step_between); try (left; by eapply loop_step_between);
    try (left; by eapply other_step_between).
  unfold section_step. destruct (work_step _ _ _ _ _ _) as [[[c W] r]|] eqn:E; [|done]. intros [= <-]. right.
  exists w, fs, live, r. destruct (connected_corr w r
    (mkTasks c W (ts_worker s) (ts_batches s) (ts_loop s) (ts_pods s) (ts_shutdown s))) as [-> ->]. done.
Qed.

(** ** Every state the spawned tasks can reach *)
Definition reachable s : Prop :=
  ∃ c0 s0 acts, spawn_identity_correlator cfg c0 = Some s0 ∧ st_wf (co_table c0) ∧ task_run cfg acts s0 = Some s.

Definition sound s : Prop := st_wf (co_table (ts_corr s)) ∧ start_clean (ts_work s).

Lemma between_pending c w s s' : between s s' → pending c (ts_work s w) ↔ pending c (ts_work s' w).
Proof.
  intros (_ & _ & HW). destruct (HW w) as [->|[-> He]]; [done|]. split.
  - by intros (m & Hm%not_elem_of_nil & _).
  - intros (m & Hm & Hd). specialize (He m Hm). by destruct m.
Qed.

Lemma task_step_sound a s s' : task_step cfg a s = Some s' → sound s → sound s'.
Proof.
  intros [Hb|(w & fs & live & r & -> & Hw)]%task_step_cases [Hwf Hc].
  - destruct Hb as (Ht & _ & HW). split; [by rewrite Ht|]. intros m Hm. destruct (HW Start) as [E|[_ He]].
    + apply Hc. by rewrite <- E.
    + specialize (He m Hm). by destruct m.
  - split; [by eapply work_wf|by eapply work_start_clean].
Qed.

Lemma task_run_sound acts s s' : task_run cfg acts s = Some s' → sound s → sound s'.
Proof.
  revert s. induction acts as [|a acts IH]; intros s; simpl; [by intros [= <-]|].
  destruct (task_step cfg a s) as [s1|] eqn:E; [|done]. cbn [mbind option_bind]. intros Hr Hs.
  apply (IH s1 Hr). by eapply task_step_sound.
Qed.

Lemma spawn_sound c0 s0 : spawn_identity_correlator cfg c0 = Some s0 → st_wf (co_table c0) → sound s0.
Proof.
  unfold spawn_identity_correlator. destruct (cfg_enabled cfg); [|done]. intros [= <-] Hwf.
  split; [done|]. by intros m Hm%not_elem_of_nil.
Qed.
Lemma reachable_sound s : reachable s → sound s.
Proof. intros (c0 & s0 & acts & Hs & Hwf & Hr). by eapply task_run_sound, spawn_sound. Qed.

(** Some task runs, during [acts], a section of which [P] holds: [P] is given what the
    task has left to do and the shared state just before. *)
Definition happens (acts : list (task_action I)) s (P : list micro → corr MH MV → Prop) : Prop :=
  ∃ pre w fs live post s1, acts = pre ++ AWork w fs live :: post ∧ task_run cfg pre s = Some s1 ∧
    P (ts_work s1 w) (ts_corr s1).

Lemma happens_cons a acts s s1 P : task_step cfg a s = Some s1 → happens acts s1 P → happens (a :: acts) s P.
Proof.
  intros E (pre & w & fs & live & post & s2 & -> & Hp & HP). exists (a :: pre), w, fs, live, post, s2.
  split_and!; [done| |done]. simpl. by rewrite E.
Qed.
Lemma happens_now w fs live acts s P : P (ts_work s w) (ts_corr s) → happens (AWork w fs live :: acts) s P.
Proof. intros HP. by exists [], w, fs, live, acts, s. Qed.
End runs.

(** ** Custody and removal over runs *)
Section properties.
Context {I : Type} `{Inotify I} {MH MV : Type} `{HH : HashMap Z MH, HV : ArrayMap Z MV}.
Context `{!HashMapLaws Z MH}.
Context (cfg : IdentityCorrelatorConfig).
Abbreviation tasks := (tasks I MH MV).
Abbreviation happens := (happens cfg).
Implicit Types (s : tasks).

Lemma step_custody c a s s' :
  task_step cfg a s = Some s' → sound s → in_custody c (ts_corr s) (ts_work s) →
  in_custody c (ts_corr s') (ts_work s') ∨
  ∃ w fs live, a = AWork w fs live ∧ lapse c (ts_work s w) (ts_corr s).
Proof.
  intros [Hb|(w & fs & live & r & -> & Hw)]%task_step_cases [Hwf Hc] Hcu.
  - left. pose proof (λ w, between_pending c w s s' Hb) as Hp. destruct Hb as (Ht & Hm & _).
    unfold in_custody, excepted_cgroup, accounted, tracked in *. rewrite Ht, Hm. intros Hal.
    destruct (Hcu Hal) as [?|[w Hw]]; [by left|right]. exists w. by apply Hp.
  - destruct (work_custody cfg c _ _ _ _ _ _ _ _ Hw Hwf Hc Hcu); [right|by left]. by exists w, fs, live.
Qed.

Lemma run_custody c acts s s' :
  task_run cfg acts s = Some s' → sound s → in_custody c (ts_corr s) (ts_work s) →
  in_custody c (ts_corr s') (ts_work s') ∨ happens acts s (lapse c).
Proof.
  revert s. induction acts as [|a acts IH]; intros s; simpl; [intros [= <-]; by left|].
  destruct (task_step cfg a s) as [s1|] eqn:E; [|done]. cbn [mbind option_bind]. intros Hr Hs Hcu.
  destruct (step_custody c a s s1 E Hs Hcu) as [Hcu1|(w & fs & live & -> & Hl)]; [|right; by apply happens_now].
  destruct (IH s1 Hr (task_step_sound cfg a s s1 E Hs) Hcu1); [by left|right]. by eapply happens_cons.
Qed.

(** C6: no exception is forgotten but by three steps. In every state that any interleaving
    of the correlator's worker and loop, the policy task's revocations and start-up can
    reach, and whatever the map calls return, a cgroup in the kernel's allow map is in
    the side table, or a task is about to delete it, or it was allowed without a row
    before the tasks were started, or one of these steps happened to it on the way: it
    was seeded after another task had taken its row out, its re-seed failed and took the
    row away, or its delete failed or came behind one that did. The table's indexes
    agree with each other. *)
Theorem exceptions_in_custody c0 s0 acts s c :
  spawn_identity_correlator cfg c0 = Some s0 → st_wf (co_table c0) → task_run cfg acts s0 = Some s →
  st_wf (co_table (ts_corr s)) ∧
  (excepted_cgroup c (ts_corr s) →
   tracked c (ts_corr s) ∨ (∃ w, pending c (ts_work s w)) ∨
   (excepted_cgroup c c0 ∧ ¬ tracked c c0) ∨ happens acts s0 (lapse c)).
Proof.
  intros Hsp Hwf Hr. pose proof (spawn_sound cfg c0 s0 Hsp Hwf) as Hs0.
  split; [by apply (task_run_sound cfg acts s0 s Hr Hs0)|]. intros Hal.
  assert (co_table (ts_corr s0) = co_table c0 ∧ co_maps (ts_corr s0) = co_maps c0) as [Ht Hm].
  { unfold spawn_identity_correlator in Hsp. destruct (cfg_enabled cfg); [|done]. by injection Hsp as <-. }
  destruct (decide (is_Some (by_cgroup (co_table c0) !! c))) as [Htr|Hntr].
  - destruct (run_custody c acts s0 s Hr Hs0) as [Hcu|Hl]; [|destruct (Hcu Hal); auto|auto].
    intros _. left. unfold tracked. by rewrite Ht.
  - destruct (decide (is_Some (allowed_cgroup (co_maps c0) c))) as [Ha|Hna]; [auto|].
    destruct (run_custody c acts s0 s Hr Hs0) as [Hcu|Hl]; [|destruct (Hcu Hal); auto|auto].
    intros Hex. unfold excepted_cgroup in Hex. by rewrite Hm in Hex.
Qed.

(** A removal on its way arrives. *)
Lemma run_removing c w acts s s' :
  task_run cfg acts s = Some s' → sound s → removing c w (ts_corr s) (ts_work s) →
  removing c w (ts_corr s') (ts_work s') ∨ happens acts s (λ ms x, delete_fails c ms x ∨ seeded c ms x).
Proof.
  revert s. induction acts as [|a acts IH]; intros s; simpl; [intros [= <-]; by left|].
  destruct (task_step cfg a s) as [s1|] eqn:E; [|done]. cbn [mbind option_bind]. intros Hr Hs Hre.
  pose proof (task_step_sound cfg a s s1 E Hs) as Hs1.
  destruct (task_step_cases cfg a s s1 E) as [Hb|(v & fs & live & r & -> & Hw)].
  - assert (removing c w (ts_corr s1) (ts_work s1)) as Hre1.
    { destruct Hre as [Hp|Hn]; [left; by apply (between_pending c w s s1 Hb)|right]. destruct Hb as (_ & -> & _). done. }
    destruct (IH s1 Hr Hs1 Hre1); [by left|right]. by eapply happens_cons.
  - destruct (work_removing cfg c w _ _ _ _ _ _ _ _ Hw (proj2 Hs) Hre) as [Hre1|Hbad]; [|right; by apply happens_now].
    destruct (IH s1 Hr Hs1 Hre1); [by left|right]. by eapply happens_cons.
Qed.

(** Once a section has taken [c] out of the table and its task has nothing left to do. *)
Definition deleted_or_excused (c : Z) (acts : list (task_action I)) s s' : Prop :=
  allowed_cgroup (co_maps (ts_corr s')) c = None ∨
  happens acts s (λ ms x, delete_fails c ms x ∨ seeded c ms x).

Lemma section_work w fs live s s' :
  task_step cfg (AWork w fs live) s = Some s' →
  ∃ r, work_step cfg w fs live (ts_corr s) (ts_work s) = Some (ts_corr s', ts_work s', r).
Proof.
  cbn [task_step]. unfold section_step. destruct (work_step _ _ _ _ _ _) as [[[c W] r]|]; [|done]. intros [= <-]. exists r.
  destruct (connected_corr w r
    (mkTasks c W (ts_worker s) (ts_batches s) (ts_loop s) (ts_pods s) (ts_shutdown s))) as [-> ->]. done.
Qed.

Lemma taken_leaves w fs live s s1 acts s2 c :
  sound s → task_step cfg (AWork w fs live) s = Some s1 → tracked c (ts_corr s) → ¬ tracked c (ts_corr s1) →
  ¬ seed_lapses c (ts_work s w) (ts_corr s) →
  task_run cfg acts s1 = Some s2 → ts_work s2 w = [] → deleted_or_excused c acts s1 s2.
Proof.
  intros Hs E Ht Hn Hl Hr Hw. destruct (section_work _ _ _ _ _ E) as [r Hws].
  pose proof (work_takes cfg c _ _ _ _ _ _ _ _ Hws (proj1 Hs) Ht Hn Hl) as Hre.
  destruct (run_removing c w acts s1 s2 Hr (task_step_sound cfg _ s s1 E Hs) Hre) as [[Hp|Hno]|Hbad]; [|by left|by right].
  rewrite Hw in Hp. by destruct Hp as (m & Hm%not_elem_of_nil & _).
Qed.

(** The section itself, seen from the task's work. *)
Lemma section_micro w fs live s s1 m ms :
  task_step cfg (AWork w fs live) s = Some s1 → ts_work s w = m :: ms →
  ∃ r, micro_step cfg fs live m (ts_corr s) = (ts_corr s1, r).
Proof.
  intros [r Hw]%section_work Hm. apply work_step_inv in Hw as (m' & ms' & r' & Hw & _ & Hstep & _).
  rewrite Hm in Hw. injection Hw as <- <-. by exists r'.
Qed.

(** C27: a pod that is gone leaves the kernel map. When the loop, in any state the tasks can
    reach, runs the table section of a deleted pod, or of a pod seen with an identity
    that the allowlist does not have at that moment, every cgroup the table has for the
    pod leaves the table; and whatever the other tasks do, when the loop has finished
    its handler the cgroup is not in the allow map, unless its delete failed or came
    behind one that did, or the loop has seeded the cgroup again since. *)
Theorem pod_gone_leaves_kernel fs live s s1 acts s2 uid ms c e :
  reachable cfg s → uid ≠ [] →
  (ts_work s Loop = MGone uid :: ms ∨
   ∃ pod, ts_work s Loop = MPod pod :: ms ∧ pv_uid pod = uid ∧ pod_spiffe cfg pod ∉ co_allowlist (ts_corr s)) →
  st_entry (co_table (ts_corr s)) c = Some e → sd_pod_uid e = uid →
  task_run cfg (AWork Loop fs live :: acts) s = Some s2 → task_step cfg (AWork Loop fs live) s = Some s1 →
  ¬ tracked c (ts_corr s1) ∧ (ts_work s2 Loop = [] → deleted_or_excused c acts s1 s2).
Proof.
  intros Hre Huid Hev He Hp Hr E. pose proof (reachable_sound cfg s Hre) as Hs. cbn [task_run] in Hr. rewrite E in Hr.
  cbn [mbind option_bind] in Hr.
  assert (co_table (ts_corr s1) = (remove_by_pod uid (co_table (ts_corr s))).1 ∧ ¬ seed_lapses c (ts_work s Loop) (ts_corr s)) as [Ht Hl].
  { destruct Hev as [Hw|(pod & Hw & Hu & Hn)]; destruct (section_micro _ _ _ _ _ _ _ E Hw) as [r Hm]; rewrite Hw; (split; [|intros []]); cbn [micro_step] in Hm.
    - destruct (remove_by_pod uid _) as [t removed]. by injection Hm as <- _.
    - fold (pod_spiffe cfg pod) in Hm. unfold take_pod_if_not_allowed, pe_contains in Hm. rewrite Hu, bool_decide_eq_false_2 in Hm by done.
      destruct (remove_by_pod uid _) as [t [|p removed]]; by injection Hm as <- _. }
  assert (¬ tracked c (ts_corr s1)) as Hn.
  { unfold tracked. rewrite Ht. destruct (remove_by_pod_spec uid _ (proj1 Hs) Huid) as (-> & _).
    intros [e' [He' Hne]%map_lookup_filter_Some]. unfold st_entry in He. simpl in *. congruence. }
  split; [done|]. intros Hw. eapply taken_leaves; try done. unfold tracked, st_entry in *. by rewrite He.
Qed.

(** C26: a revoked identity leaves the kernel map. When the policy task, in any state the
    tasks can reach, runs the table section of a revocation, exactly the entries whose
    identity is set and not in the allowlist leave the table; and whatever the other
    tasks do, when the policy task has finished the revocation the cgroup of such an
    entry is not in the allow map, unless its delete failed or came behind one that did,
    or the loop has seeded the cgroup in between. *)
Theorem revoked_leaves_kernel fs live s s1 acts s2 ms c e :
  reachable cfg s → ts_work s Policy = MRevoke :: ms → st_entry (co_table (ts_corr s)) c = Some e →
  task_run cfg (AWork Policy fs live :: acts) s = Some s2 → task_step cfg (AWork Policy fs live) s = Some s1 →
  if decide (sd_spiffe_id e = [] ∨ sd_spiffe_id e ∈ co_allowlist (ts_corr s))
  then st_entry (co_table (ts_corr s1)) c = Some e
  else ¬ tracked c (ts_corr s1) ∧ (ts_work s2 Policy = [] → deleted_or_excused c acts s1 s2).
Proof.
  intros Hre Hw He Hr E. pose proof (reachable_sound cfg s Hre) as Hs. cbn [task_run] in Hr. rewrite E in Hr.
  cbn [mbind option_bind] in Hr. destruct (section_micro _ _ _ _ _ _ _ E Hw) as [r Hm]. cbn [micro_step] in Hm.
  unfold apply_revoke_plan, pe_snapshot in Hm. set (ids := plan_revoke_ids _ _) in Hm.
  assert (NoDup ids) as Hnd by apply nodup_filter_entries.
  destruct (remove_ids_spec ids (co_table (ts_corr s)) [] Hnd) as [Hby _].
  assert (co_table (ts_corr s1) = (foldl remove_id (co_table (ts_corr s), []) ids).1) as Ht.
  { destruct (foldl remove_id _ ids) as [t out]. by injection Hm as <- _. }
  assert (c ∈ ids ↔ ¬ (sd_spiffe_id e = [] ∨ sd_spiffe_id e ∈ co_allowlist (ts_corr s))) as Hin.
  { unfold ids, plan_revoke_ids, plan_pe_allowlist_revoke. rewrite list_elem_of_fmap. unfold st_entry in He. split.
    - intros ([c' e'] & -> & [Hf He'%elem_of_map_to_list]%list_elem_of_filter). simpl in *. rewrite He in He'.
      injection He' as <-. bool_split. intros [Hz|?]; [|done]. by apply is_empty_false in H0.
    - intros Hn. exists (c, e). split; [done|]. apply list_elem_of_filter. split; [|by apply elem_of_map_to_list]. simpl.
      rewrite (proj2 (is_empty_false _)) by tauto. rewrite bool_decide_eq_false_2 by tauto. done. }
  unfold st_entry, tracked in *. rewrite Ht, Hby. case_decide as Hd.
  - apply map_lookup_filter_Some. split; [done|]. simpl. tauto.
  - assert (¬ tracked c (ts_corr s1)) as Hn.
    { unfold tracked. rewrite Ht, Hby. intros [e' [_ Hx]%map_lookup_filter_Some]. simpl in Hx. tauto. }
    split; [by unfold tracked in Hn; rewrite Ht, Hby in Hn|]. intros Hw2. eapply taken_leaves; try done.
    + unfold tracked. by rewrite He.
    + rewrite Hw. by intros [].
Qed.

(** ** Teardowns *)
Lemma teardown_micro fs live p (x x' : corr MH MV) r :
  st_wf (co_table x) → micro_step cfg fs live (MTeardown p) x = (x', r) →
  by_path (co_table x') = delete (path_key p) (by_path (co_table x)) ∧
  ∀ c, by_path (co_table x) !! path_key p = Some c → tracked c x ∧ ¬ tracked c x'.
Proof.
  intros (_ & Hix & _). cbn [micro_step]. unfold cgroup_id_for_path.
  destruct (by_path (co_table x) !! path_key p) as [c|] eqn:Hc.
  - destruct (Hix _ _ Hc) as (e & He & Hk). unfold plan_teardown, remove_by_cgroup. rewrite He.
    cbn [fmap option_fmap option_map]. intros [= <- _]. unfold set_table, unlink_indexes, tracked. cbn. rewrite Hk. split; [done|].
    intros c' [= <-]. rewrite He, lookup_delete_eq. split; [by eexists|by intros [? ?]].
  - intros [= <- _]. cbn. split; [by rewrite delete_id|done].
Qed.

(** A teardown that is waiting in the loop's work is run before the work is done. *)
Lemma teardown_runs k acts s s' :
  task_run cfg acts s = Some s' → MTeardown k ∈ ts_work s Loop → ts_work s' Loop = [] →
  ∃ pre fs live post s1 s2 ms, acts = pre ++ AWork Loop fs live :: post ∧ task_run cfg pre s = Some s1 ∧
    task_step cfg (AWork Loop fs live) s1 = Some s2 ∧ task_run cfg post s2 = Some s' ∧ ts_work s1 Loop = MTeardown k :: ms.
Proof.
  revert s. induction acts as [|a acts IH]; intros s; simpl.
  { intros [= <-] Hin Hw. rewrite Hw in Hin. by apply not_elem_of_nil in Hin. }
  destruct (task_step cfg a s) as [s1|] eqn:E; [|done]. cbn [mbind option_bind]. intros Hr Hin Hw.
  assert (MTeardown k ∈ ts_work s1 Loop ∨ ∃ fs live ms, a = AWork Loop fs live ∧ ts_work s Loop = MTeardown k :: ms)
    as [Hin1|(fs & live & ms & -> & Hms)].
  { destruct (task_step_cases cfg a s s1 E) as [Hb|(v & fs & live & r & -> & Hws)].
    - destruct Hb as (_ & _ & HW). destruct (HW Loop) as [->|[Hn _]]; [by left|]. rewrite Hn in Hin. by apply not_elem_of_nil in Hin.
    - apply work_step_inv in Hws as (m & ms & r' & Hv & _ & _ & -> & _). destruct (decide (v = Loop)) as [->|Hne].
      + rewrite Hv in Hin. apply elem_of_cons in Hin as [<-|Hin]; [right; by exists fs, live, ms|left]. rewrite fn_insert_eq.
        rewrite bool_decide_eq_false_2 by done. destruct r'; [apply elem_of_app; by right|done].
      + left. by rewrite fn_insert_ne. }
  - destruct (IH s1 Hr Hin1 Hw) as (pre & fs & live & post & t1 & t2 & ms & -> & H1 & H2 & H3 & H4).
    exists (a :: pre), fs, live, post, t1, t2, ms. split_and!; try done. simpl. by rewrite E.
  - by exists [], fs, live, acts, s, s1, ms.
Qed.

(** C8: a directory that was reported gone leaves the kernel map. When the loop, in any
    state the tasks can reach, takes a batch that is no overflow and names the directory
    [k], then, whatever the tasks do next and in whatever order, when the loop has
    finished the batch there was a section of it that took the index of [k] and the
    cgroup it had there out of the side table, and that cgroup is not in the allow map,
    unless its delete failed or came behind one that did, or it was seeded again since.
    A batch reports what the worker's poll could read: teardowns lost to an overflow or
    a read error are not in one. *)
Theorem teardown_reaches_kernel s acts s' b batches k :
  reachable cfg s → ts_batches s = b :: batches → overflow b = false → k ∈ torn_down_paths b →
  task_run cfg (ABatch :: acts) s = Some s' → ts_work s' Loop = [] →
  ∃ s0 pre fs live post s1 s2, task_step cfg ABatch s = Some s0 ∧ acts = pre ++ AWork Loop fs live :: post ∧
    task_run cfg pre s0 = Some s1 ∧ task_step cfg (AWork Loop fs live) s1 = Some s2 ∧
    by_path (co_table (ts_corr s2)) !! k = None ∧
    ∀ c, by_path (co_table (ts_corr s1)) !! k = Some c →
      ¬ tracked c (ts_corr s2) ∧ deleted_or_excused c post s2 s'.
Proof.
  intros Hre Hb Ho Hk Hr Hw. pose proof (reachable_sound cfg s Hre) as Hs. cbn [task_run] in Hr.
  destruct (task_step cfg ABatch s) as [s0|] eqn:E; [|done]. cbn [mbind option_bind] in Hr.
  pose proof (task_step_sound cfg _ _ _ E Hs) as Hs0.
  assert (MTeardown (path_text k) ∈ ts_work s0 Loop) as Hin.
  { destruct s as [c W w bs l pods stop]. cbn in Hb. subst bs. cbn [task_step loop_step] in E.
    destruct l, (W Loop); try done. injection E as <-. cbn. rewrite fn_insert_eq, Ho.
    apply list_elem_of_fmap. by exists k. }
  destruct (teardown_runs (path_text k) acts s0 s' Hr Hin Hw) as (pre & fs & live & post & s1 & s2 & ms & -> & H1 & H2 & H3 & H4).
  pose proof (task_run_sound cfg _ _ _ H1 Hs0) as Hs1. destruct (section_micro _ _ _ _ _ _ _ H2 H4) as [r Hm].
  destruct (teardown_micro _ _ _ _ _ _ (proj1 Hs1) Hm) as [Hby Hc].
  assert (∀ c, by_path (co_table (ts_corr s1)) !! k = Some c → path_key (path_text k) = k) as Hkey.
  { intros c Hkc. destruct (proj1 Hs1) as (_ & Hix & _). destruct (Hix _ _ Hkc) as (e & _ & <-). apply path_key_text. }
  exists s0, pre, fs, live, post, s1, s2. split_and!; try done.
  { rewrite Hby. destruct (by_path (co_table (ts_corr s1)) !! k) as [c|] eqn:Hkc.
    - rewrite (Hkey c eq_refl). apply lookup_delete_eq.
    - apply lookup_delete_None. by right. }
  intros c Hkc. rewrite (Hkey c Hkc) in Hc. destruct (Hc c Hkc) as [Ht Hn]. split; [done|]. eapply taken_leaves; try done. rewrite H4. by intros [].
Qed.
End properties.

(** ** Runs *)
Definition demo_leaf : bytes := demo_pod_dir ++ [47] ++ demo_cid.
Abbreviation demo_tasks := (tasks sim_inotify (rel_hash Z) (sim_array Z 1)).
Abbreviation demo_action := (task_action sim_inotify).
Definition demo_tasks_new : demo_tasks := mkTasks demo_start (λ _, []) WorkerNew [] LoopNew None false.

(** [n] sections of a task, with the demo pod's directories there, or none left. *)
Definition demo_work (w : who) (n : nat) : list demo_action := replicate n (AWork w demo_fs (Ok ∅)).
Definition demo_work_gone (w : who) (n : nat) : list demo_action := replicate n (AWork w (λ _, None) (Ok ∅)).
(** Start-up, the allowlist, and the pod's event taken. *)
Definition demo_start_acts : list demo_action :=
  [ANew (Some (mkSimInotify 1 ∅)); AHead; AConnect true] ++ demo_work Loop 2 ++
  [APolicy (CAllow [demo_spiffe (lit "web")]); APodSend (Upsert (demo_pod (lit "web"))); APod].
(** Its four sections: the check, the insert, the seed and the watch command. *)
Definition demo_seeded_acts : list demo_action := demo_start_acts ++ demo_work Loop 4.
(** The worker runs its commands and reaches its poll. *)
Definition demo_arm (exists_ : PathBuf → bool) : list demo_action := [ACmd exists_; ACmd exists_; ACmd exists_].
Definition demo_run (acts : list demo_action) : demo_tasks :=
  default demo_tasks_new (task_run demo_cfg acts demo_tasks_new).
(** The kernel's event for the removal of the container's directory. *)
Definition demo_gone : inotify_event := mkEvent 1 (Some demo_cid) true false false.
Definition demo_overflow : inotify_event := mkEvent (-1) None false false true.

Lemma demo_run_some (acts : list demo_action) :
  bool_decide (is_Some (task_run demo_cfg acts demo_tasks_new)) = true →
  task_run demo_cfg acts demo_tasks_new = Some (demo_run acts).
Proof. intros [s Hs]%bool_decide_eq_true. unfold demo_run. by rewrite Hs. Qed.
Lemma demo_reachable (acts : list demo_action) :
  bool_decide (is_Some (task_run demo_cfg acts demo_tasks_new)) = true → reachable demo_cfg (demo_run acts).
Proof.
  intros Hr%demo_run_some. exists demo_start, demo_tasks_new, acts. split_and!; [done|apply st_new_wf|done].
Qed.
Lemma task_run_app {I} `{Inotify I} {MH MV} `{HashMap Z MH, ArrayMap Z MV} cfg acts acts' (s : tasks I MH MV) :
  task_run cfg (acts ++ acts') s = (s1 ← task_run cfg acts s; task_run cfg acts' s1).
Proof.
  revert s. induction acts as [|a acts IH]; intros s; simpl; [done|]. destruct (task_step cfg a s); [apply IH|done].
Qed.
Lemma demo_run_from (acts acts' : list demo_action) :
  bool_decide (is_Some (task_run demo_cfg (acts ++ acts') demo_tasks_new)) = true →
  task_run demo_cfg acts' (demo_run acts) = Some (demo_run (acts ++ acts')).
Proof.
  intros Hr%demo_run_some. rewrite task_run_app in Hr. unfold demo_run at 1.
  destruct (task_run demo_cfg acts demo_tasks_new); [done|done].
Qed.

(** ** Witnesses *)
Lemma exceptions_in_custody_witness :
  excepted_cgroup 42 (ts_corr (demo_run demo_seeded_acts)) ∧
  (tracked 42 (ts_corr (demo_run demo_seeded_acts)) ∨ (∃ w, pending 42 (ts_work (demo_run demo_seeded_acts) w)) ∨
   (excepted_cgroup 42 demo_start ∧ ¬ tracked 42 demo_start) ∨
   happens demo_cfg demo_seeded_acts demo_tasks_new (lapse 42)).
Proof.
  assert (excepted_cgroup 42 (ts_corr (demo_run demo_seeded_acts))) as Hx.
  { apply (bool_decide_eq_true_1 (is_Some _)). vm_compute. reflexivity. }
  split; [exact Hx|].
  refine (proj2 (exceptions_in_custody demo_cfg demo_start demo_tasks_new demo_seeded_acts (demo_run demo_seeded_acts) 42 _ _ _) Hx).
  - reflexivity.
  - apply st_new_wf.
  - apply demo_run_some. vm_compute. reflexivity.
Defined.

Definition demo_gone_acts : list demo_action :=
  demo_seeded_acts ++ [APodSend (Deleted (lit "u-1")); APod].
Lemma pod_gone_leaves_kernel_witness :
  deleted_or_excused demo_cfg 42 (demo_work Loop 4) (demo_run (demo_gone_acts ++ demo_work Loop 1))
    (demo_run (demo_gone_acts ++ demo_work Loop 5)).
Proof.
  refine (proj2 (pod_gone_leaves_kernel demo_cfg demo_fs (Ok ∅) (demo_run demo_gone_acts)
    (demo_run (demo_gone_acts ++ demo_work Loop 1)) (demo_work Loop 4) (demo_run (demo_gone_acts ++ demo_work Loop 5))
    (lit "u-1") [] 42 (side_entry_for_container (demo_pod (lit "web")) (demo_spiffe (lit "web")) demo_leaf 42)
    _ _ _ _ _ _ _) _).
  - apply demo_reachable. vm_compute. reflexivity.
  - vm_compute. discriminate.
  - left. vm_compute. reflexivity.
  - vm_compute. reflexivity.
  - vm_compute. reflexivity.
  - apply (demo_run_from demo_gone_acts (demo_work Loop 5)). vm_compute. reflexivity.
  - pose proof (demo_run_from demo_gone_acts (demo_work Loop 1)) as Hr. cbn [task_run demo_work replicate] in Hr.
    destruct (task_step _ _ _); [|discriminate Hr; vm_compute; reflexivity]. apply Hr. vm_compute. reflexivity.
  - vm_compute. reflexivity.
Defined.

Definition demo_revoke_acts : list demo_action := demo_seeded_acts ++ [APolicy (CAllow []); APolicy CRevoke].
Lemma revoked_leaves_kernel_witness :
  ¬ tracked 42 (ts_corr (demo_run (demo_revoke_acts ++ demo_work Policy 1))) ∧
  deleted_or_excused demo_cfg 42 (demo_work Policy 4) (demo_run (demo_revoke_acts ++ demo_work Policy 1))
    (demo_run (demo_revoke_acts ++ demo_work Policy 5)).
Proof.
  pose proof (revoked_leaves_kernel demo_cfg demo_fs (Ok ∅) (demo_run demo_revoke_acts)
    (demo_run (demo_revoke_acts ++ demo_work Policy 1)) (demo_work Policy 4) (demo_run (demo_revoke_acts ++ demo_work Policy 5))
    [] 42 (side_entry_for_container (demo_pod (lit "web")) (demo_spiffe (lit "web")) demo_leaf 42)) as H.
  rewrite decide_False in H.
  - destruct H as [H1 H2].
    + apply demo_reachable. vm_compute. reflexivity.
    + vm_compute. reflexivity.
    + vm_compute. reflexivity.
    + apply (demo_run_from demo_revoke_acts (demo_work Policy 5)). vm_compute. reflexivity.
    + pose proof (demo_run_from demo_revoke_acts (demo_work Policy 1)) as Hr. cbn [task_run demo_work replicate] in Hr.
      destruct (task_step _ _ _); [|discriminate Hr; vm_compute; reflexivity]. apply Hr. vm_compute. reflexivity.
    + split; [exact H1|]. apply H2. vm_compute. reflexivity.
  - apply (bool_decide_eq_false_1 (_ ∨ _)). vm_compute. reflexivity.
Defined.

Definition demo_batch_acts : list demo_action :=
  demo_seeded_acts ++ demo_arm (λ _, true) ++ [APoll (Some [RdEvents [demo_gone]])].
Lemma teardown_reaches_kernel_witness :
  ∃ s0 pre fs live post s1 s2, task_step demo_cfg ABatch (demo_run demo_batch_acts) = Some s0 ∧
    demo_work Loop 5 = pre ++ AWork Loop fs live :: post ∧
    task_run demo_cfg pre s0 = Some s1 ∧ task_step demo_cfg (AWork Loop fs live) s1 = Some s2 ∧
    by_path (co_table (ts_corr s2)) !! path_key demo_leaf = None ∧
    ∀ c, by_path (co_table (ts_corr s1)) !! path_key demo_leaf = Some c →
      ¬ tracked c (ts_corr s2) ∧
      deleted_or_excused demo_cfg c post s2 (demo_run (demo_batch_acts ++ ABatch :: demo_work Loop 5)).
Proof.
  refine (teardown_reaches_kernel demo_cfg (demo_run demo_batch_acts) (demo_work Loop 5)
    (demo_run (demo_batch_acts ++ ABatch :: demo_work Loop 5)) (mkTeardownBatch [path_key demo_leaf] false) []
    (path_key demo_leaf) _ _ eq_refl _ _ _).
  - apply demo_reachable. vm_compute. reflexivity.
  - vm_compute. reflexivity.
  - by left.
  - apply (demo_run_from demo_batch_acts (ABatch :: demo_work Loop 5)). vm_compute. reflexivity.
  - vm_compute. reflexivity.
Defined.

(** ** Interleavings and failures that are only logged *)
Definition watched (w : worker sim_inotify) : gset PathBuf :=
  match w with WorkerHead w | WorkerCmds w | WorkerPoll w => dom (tw_by_path w) | _ => ∅ end.

(** The state a lost teardown ends in: the directory is gone, its cgroup is still an
    exception, nothing watches the directory, and nothing is on its way to the loop. *)
Definition exception_left (s : demo_tasks) : Prop :=
  allowed_cgroup (co_maps (ts_corr s)) 42 = Some IDENTITY_ALLOW_VALUE ∧
  watched (ts_worker s) = ∅ ∧ co_cmds (ts_corr s) = [] ∧ ts_batches s = [] ∧ ts_work s Loop = [].

(** When the event queue overflows, the batch's own teardowns are dropped in favour of a
    resync, and the resync lists the pods first: when that request fails it returns
    before the sweep, and the exception of the removed directory stays. *)
Theorem overflow_resync_error_keeps_exception :
  exception_left (demo_run (demo_seeded_acts ++ demo_arm (λ _, true) ++
    [APoll (Some [RdEvents [demo_gone; demo_overflow]]); ABatch; AWork Loop (λ _, None) (Err (EMsg "GET /api/v1/pods"))])).
Proof. vm_compute. by split_and!. Qed.

(** A read error after a first read discards the teardowns of that read. *)
Theorem read_error_loses_teardown :
  exception_left (demo_run (demo_seeded_acts ++ demo_arm (λ _, true) ++ [APoll (Some [RdEvents [demo_gone]; RdError])])).
Proof. vm_compute. by split_and!. Qed.

(** A directory that is removed before its watch is armed is never noticed. *)
Theorem late_watch_keeps_exception :
  exception_left (demo_run (demo_seeded_acts ++ demo_arm (λ _, false) ++ [APoll None])).
Proof. vm_compute. by split_and!. Qed.

(** A revocation that runs between the insert and the seed of a container: the loop then
    allows a cgroup that is in no table, whose identity is revoked, and which no task is
    going to delete. *)
Theorem revoke_between_insert_and_seed :
  let s := demo_run (demo_start_acts ++ demo_work Loop 2 ++ [APolicy (CAllow []); APolicy CRevoke] ++
    demo_work Policy 5 ++ demo_work Loop 2) in
  allowed_cgroup (co_maps (ts_corr s)) 42 = Some IDENTITY_ALLOW_VALUE ∧ st_entry (co_table (ts_corr s)) 42 = None ∧
  pe_contains (co_allowlist (ts_corr s)) (demo_spiffe (lit "web")) = false ∧
  ts_work s Loop = [] ∧ ts_work s Policy = [].
Proof. vm_compute. by split_and!. Qed.

(** The watch commands are sent after the table's lock is released. When the loop puts a
    row back between the table section of a revocation and its commands, the watch is
    armed first and taken away after it: the row stays, its directory is not watched. *)
Theorem unwatch_follows_watch :
  let s := demo_run (demo_seeded_acts ++ demo_arm (λ _, true) ++ [APoll None; AHead] ++
    [APodSend (Upsert (demo_pod (lit "web"))); APod] ++ demo_work Loop 1 ++ [APolicy (CAllow []); APolicy CRevoke] ++
    demo_work Policy 1 ++ demo_work Loop 3 ++ demo_work Policy 4 ++ demo_arm (λ _, true)) in
  st_entry (co_table (ts_corr s)) 42 ≠ None ∧ watched (ts_worker s) = ∅ ∧ co_cmds (ts_corr s) = [] ∧
  ts_batches s = [] ∧ ts_work s Loop = [] ∧ ts_work s Policy = [] ∧
  allowed_cgroup (co_maps (ts_corr s)) 42 = None.
Proof. vm_compute. by split_and!. Qed.

(** The pod watch is not started again: once the loop is running, the watch has ended and
    the loop has noticed, no further behaviour of the tasks has a pod event in it. *)
Definition loop_started (l : loop_phase) : bool := match l with LoopNew | LoopConnect _ => false | _ => true end.

Lemma watch_end_step {I} `{Inotify I} {MH MV} `{HashMap Z MH, ArrayMap Z MV} cfg a (s s1 : tasks I MH MV) :
  task_step cfg a s = Some s1 → loop_started (ts_loop s) = true → ts_pods s = None →
  loop_started (ts_loop s1) = true ∧ ts_pods s1 = None ∧ a ≠ APod.
Proof.
  intros E Hl Hp. destruct s as [c W w batches l pods stop]. cbn in Hl, Hp. subst pods.
  destruct a as [[i|]| |ex|reads|cl| | | |ev| |ev|ids| |v fs live]; cbn [task_step worker_step loop_step other_step] in E.
  - destruct w; try done. by injection E as <-.
  - destruct w; try done. by injection E as <-.
  - destruct w; try done. destruct stop; by injection E as <-.
  - destruct w; try done. destruct (co_cmds c); by injection E as <-.
  - destruct w; try done. destruct (poll_batch _ _). by injection E as <-.
  - by destruct l.
  - destruct l, (W Loop); try done. destruct batches; [destruct (worker_alive w); [done|]|]; by injection E as <-.
  - by destruct l, (W Loop).
  - destruct l, (W Loop); try done. destruct stop; [|done]. by injection E as <-.
  - done.
  - done.
  - destruct (W Policy), ev; try done; by injection E as <-.
  - destruct (W Start); [|done]. by injection E as <-.
  - by injection E as <-.
  - unfold section_step in E. destruct (work_step _ _ _ _ _ _) as [[[c' W'] r]|]; [|done]. injection E as <-.
    unfold connected. destruct v, l, r; done.
Qed.

Theorem pod_watch_end_is_final {I} `{Inotify I} {MH MV} `{HashMap Z MH, ArrayMap Z MV} cfg acts (s s' : tasks I MH MV) :
  task_run cfg acts s = Some s' → loop_started (ts_loop s) = true → ts_pods s = None →
  ts_pods s' = None ∧ APod ∉ acts.
Proof.
  revert s. induction acts as [|a acts IH]; intros s; simpl; [intros [= <-] _ Hp; split; [done|apply not_elem_of_nil]|].
  destruct (task_step cfg a s) as [s1|] eqn:E; [|done]. cbn [mbind option_bind]. intros Hr Hl Hp.
  destruct (watch_end_step cfg a s s1 E Hl Hp) as (Hl1 & Hp1 & Ha). destruct (IH s1 Hr Hl1 Hp1) as [Hend Hno].
  split; [done|]. apply not_elem_of_cons. by split.
Qed.
