(* ===== verification/PolicySync.v ===== *)
(** * Policy synchronisation

    [apps/agent-ebpf-sensor/src/policy_sync.rs]: the authenticated fetch of the
    policy bundle, its signature and validity window, the application of its two
    halves (path deny list, identity exceptions), and one turn of the background
    loop with its rate-limit back-off and its follow-up on the correlator.

    The HTTP client, the JSON and RFC 3339 parsers and the signature primitives are
    parameters; environment variables and file contents are arguments. Every clock
    reading of a turn is its own argument. *)

From S2P Require Import Prelude RustStd Common Bpf PathDeny LsmHook DenyRefine IdentityAllow Attestation SideTable CgroupPath Correlator.

(** ** Constants *)
Definition POLICY_BUNDLE_SIGNATURE_HEADER : bytes := lit "X-Neuromesh-Policy-Bundle-Signature".
Definition BUNDLE_VALIDITY_WINDOW : Z := secs 300.
Definition BUNDLE_CLOCK_SKEW : Z := secs 5.
Definition DEFAULT_RATE_LIMIT_BACKOFF : Z := secs 1.

(** ** Configuration *)
Definition clock_skew_from_env (var : option bytes) : Z :=
  match var with
  | Some raw =>
      let raw := trim raw in
      if is_empty raw then BUNDLE_CLOCK_SKEW
      else match parse_u64 raw with Some s => secs s | None => BUNDLE_CLOCK_SKEW end
  | None => BUNDLE_CLOCK_SKEW
  end.

Definition parse_retry_after_secs (raw : option bytes) : option Z :=
  s ← raw;
  n ← parse_u64 (trim s);
  Some (secs (Z.min n 300)).

(** [load_bundle_token]: the two variables and [fs::read_to_string]. *)
Definition is_absolute (p : bytes) : bool := starts_with p [47].

Definition load_bundle_token (file_var token_var : option bytes) (read_to_string : bytes → option bytes) :
    result bytes :=
  let from_env :=
    match token_var with
    | Some t =>
        let token := trim t in
        if is_empty token then Err (EMsg "NEUROMESH_POLICY_BUNDLE_TOKEN is empty") else Ok token
    | None => Err (EMsg "policy-bundle auth required when sync is enabled")
    end in
  match file_var with
  | Some path =>
      let path := trim path in
      if negb (is_empty path) then
        if negb (is_absolute path) then Err (EMsg "token file must be an absolute path")
        else
          raw ← ok_or (EMsg "read token file") (read_to_string path);
          let token := trim raw in
          if is_empty token then Err (EMsg "token file is empty") else Ok token
      else from_env
  | None => from_env
  end.

Definition fallback_cosign_pubkey_path (cosign_var : option bytes) : bytes :=
  match cosign_var with
  | Some p => if negb (is_empty (trim p)) then trim p else DEFAULT_COSIGN_PUBLIC_KEY_PATH
  | None => DEFAULT_COSIGN_PUBLIC_KEY_PATH
  end.

Definition load_bundle_public_key_pem (bundle_var cosign_var : option bytes) (read : bytes → option bytes) :
    result bytes :=
  let path :=
    match bundle_var with
    | Some p =>
        let p := trim p in
        if negb (is_empty p) then p else fallback_cosign_pubkey_path cosign_var
    | None => fallback_cosign_pubkey_path cosign_var
    end in
  if negb (is_absolute path) then Err (EMsg "policy-bundle public key path must be absolute")
  else
    pem ← ok_or (EMsg "read policy-bundle public key") (read path);
    if is_empty pem then Err (EMsg "policy-bundle public key is empty") else Ok pem.

(** ** Fetch *)
Record FetchedBundle : Type := mkFetchedBundle {
  fb_body : bytes;
  fb_signature_b64 : option bytes
}.

(** A response as the source reads it: status, the two headers as [to_str] gives
    them, and the body ([None] when reading it fails). *)
Record http_response : Type := mkHttpResponse {
  hr_status : Z;
  hr_retry_after : option bytes;
  hr_signature : option bytes;
  hr_body : option bytes
}.

(** [fetch_policy_bundle]; [get] sends a GET with an [Authorization] value, [None]
    is a transport error. *)
Definition fetch_policy_bundle (get : bytes → bytes → option http_response) (base_url bearer_token : bytes) :
    result FetchedBundle :=
  if is_empty (trim bearer_token) then Err (EMsg "refusing policy-bundle sync with empty bearer token")
  else
    let url := trim_end_matches 47 base_url ++ lit "/v1/policy-bundle" in
    response ← ok_or (EMsg "GET failed") (get url (lit "Bearer " ++ bearer_token));
    let status := hr_status response in
    if bool_decide (status = 429) then Err (ERateLimited url (parse_retry_after_secs (hr_retry_after response)))
    else if bool_decide (status = 401) || bool_decide (status = 403) then Err (EMsg "policy-bundle authentication rejected (no unauthenticated retry), retaining last-known-good")
    else if negb (bool_decide (200 ≤ status < 300)) then Err (EMsg "returned HTTP status")
    else
      let signature_b64 :=
        match hr_signature response with
        | Some s => let s := trim s in if is_empty s then None else Some s
        | None => None
        end in
      body ← ok_or (EMsg "failed to read policy-bundle body") (hr_body response);
      Ok (mkFetchedBundle body signature_b64).

(** ** Verification *)
Section verify.
Context `{Cosign}.

Definition verify_bundle_signature (public_key_pem body : bytes) (signature_b64 : option bytes) : result unit :=
  match signature_b64 with
  | Some s =>
      let sig := trim s in
      if is_empty sig then Err (EMsg "policy-bundle signature_missing")
      else match verify_cosign_blob_signature public_key_pem body sig with
           | AOk _ => Ok ()
           | AErr _ => Err (EMsg "policy-bundle signature_invalid")
           end
  | None => Err (EMsg "policy-bundle signature_missing")
  end.
End verify.

(** [SystemTime::checked_add]: seconds are an [i64]. *)
Definition systime_checked_add (t d : Z) : option Z :=
  if bool_decide (t + d < secs (2 ^ 63)) then Some (t + d) else None.

Definition verify_bundle_temporal_with_skew (parsed : ParsedPolicyBundle) (now skew : Z) : result unit :=
  if negb (bool_decide (pb_schema_version parsed = 3)) then Err (EMsg "bundle_temporal_missing")
  else
    match pb_not_before parsed, pb_not_after parsed with
    | Some not_before, Some not_after =>
        match systime_checked_add now skew with
        | None => Err (EMsg "bundle_not_yet_valid")
        | Some earliest_ok =>
            if bool_decide (earliest_ok < not_before) then Err (EMsg "bundle_not_yet_valid")
            else
              match systime_checked_add not_after skew with
              | None => Err (EMsg "bundle_expired")
              | Some latest_ok =>
                  if bool_decide (latest_ok < now) then Err (EMsg "bundle_expired") else Ok ()
              end
        end
    | _, _ => Err (EMsg "bundle_temporal_missing")
    end.

(** [verify_bundle_temporal], with the skew the environment asks for. *)
Definition verify_bundle_temporal (skew_var : option bytes) (parsed : ParsedPolicyBundle) (now : Z) : result unit :=
  verify_bundle_temporal_with_skew parsed now (clock_skew_from_env skew_var).

(** ** The synchronised state *)
Record sync_state (ML MC MH MV : Type) : Type := mkSyncState {
  ss_deny : PathDenyMaps ML MC;
  ss_corr : corr MH MV;
  ss_state : PolicySyncState;
  ss_expires : option Z
}.
Arguments mkSyncState {ML MC MH MV}.
Arguments ss_deny {ML MC MH MV}.
Arguments ss_corr {ML MC MH MV}.
Arguments ss_state {ML MC MH MV}.
Arguments ss_expires {ML MC MH MV}.

(** What one sync is run with. [sc_hooks] says whether the correlator is wired in. *)
Record sync_config : Type := mkSyncConfig {
  sc_get : bytes → bytes → option http_response;
  sc_base_url : bytes;
  sc_token : bytes;
  sc_pem : bytes;
  sc_skew : option bytes;
  sc_hooks : bool
}.

(** The clock readings of one turn: the expiry gate, the parse, the validity
    check, the gate after a failure ([SystemTime]), and the monotonic clock. *)
Record clocks : Type := mkClocks {
  ck_gate : Z;
  ck_parse : Z;
  ck_temporal : Z;
  ck_after : Z;
  ck_instant : Z
}.

Section sync.
Context {ML MC MH MV : Type}.
Context `{ArrayMap PathDenyEntry ML, ArrayMap Z MC, HashMap Z MH, ArrayMap Z MV}.
Context `{Cosign} (from_str : bytes → option BundleDoc) (rfc3339 : bytes → option Z).
Abbreviation state := (sync_state ML MC MH MV).

(** Steps on one part of the state. *)
Definition on_deny {A} (f : stm (PathDenyMaps ML MC) A) : stm state A := λ s,
  let '(d, r) := f (ss_deny s) in (mkSyncState d (ss_corr s) (ss_state s) (ss_expires s), r).
Definition on_corr {A} (f : stm (corr MH MV) A) : stm state A := λ s,
  let '(c, r) := f (ss_corr s) in (mkSyncState (ss_deny s) c (ss_state s) (ss_expires s), r).
Definition on_identity {A} (f : stm (IdentityAllowMaps MH MV) A) : stm state A := on_corr (on_maps f).
Definition set_state (st : PolicySyncState) : stm state unit := λ s,
  (mkSyncState (ss_deny s) (ss_corr s) st (ss_expires s), Ok ()).
Definition set_expires (e : option Z) : stm state unit := λ s,
  (mkSyncState (ss_deny s) (ss_corr s) (ss_state s) e, Ok ()).

(** The allowlist update of [sync_once] through the hooks. *)
Definition update_allowlist (hooks : bool) (identity : IdentitySectionValidity) : stm state unit :=
  if hooks then
    on_corr (λ c, (set_allowlist (match identity with
                                  | Fresh s => pe_replace (ias_spiffe_ids s) (co_allowlist c)
                                  | Invalid _ => pe_clear (co_allowlist c)
                                  end) c, Ok ()))
  else mret ().

(** The checks that come before any map is written. *)
Definition verified_bundle (cfg : sync_config) (ck : clocks) : result ParsedPolicyBundle :=
  fetched ← fetch_policy_bundle (sc_get cfg) (sc_base_url cfg) (sc_token cfg);
  _ ← verify_bundle_signature (sc_pem cfg) (fb_body fetched) (fb_signature_b64 fetched);
  parsed ← parse_policy_bundle_json_at from_str rfc3339 (fb_body fetched) (ck_parse ck);
  _ ← verify_bundle_temporal (sc_skew cfg) parsed (ck_temporal ck);
  Ok parsed.

(** The application of a verified bundle: first the identity half, always; then
    the deny half, when the version changed. *)
Definition apply_identity_half (cfg : sync_config) (parsed : ParsedPolicyBundle) : stm state unit :=
  _ ← on_identity (apply_identity_validity (pb_identity parsed));
  _ ← set_expires (match pb_identity parsed with Fresh s => Some (ias_expires_at s) | Invalid _ => None end);
  update_allowlist (sc_hooks cfg) (pb_identity parsed).

Definition apply_deny_half (ck : clocks) (parsed : ParsedPolicyBundle) : stm state unit :=
  s ← st_get;
  if bool_decide (pb_version parsed = ps_last_version (ss_state s)) then
    set_state (mark_success (ck_instant ck) (pb_version parsed) (ss_state s))
  else
    entries ← st_of_result (try_map (λ p, ok_or (EMsg "bundle prefix empty or too long") (from_prefix p))
                              (pb_deny_path_prefixes parsed));
    _ ← st_context "failed to apply policy bundle to BPF maps" (on_deny (apply_deny_entries entries));
    set_state (mark_success (ck_instant ck) (pb_version parsed) (ss_state s)).

Definition apply_bundle (cfg : sync_config) (ck : clocks) (parsed : ParsedPolicyBundle) :
    stm state IdentitySectionValidity :=
  _ ← apply_identity_half cfg parsed;
  _ ← apply_deny_half ck parsed;
  mret (pb_identity parsed).

Definition sync_once (cfg : sync_config) (ck : clocks) : stm state IdentitySectionValidity :=
  parsed ← st_of_result (verified_bundle cfg ck);
  apply_bundle cfg ck parsed.

(** [run_allowlist_followup]: its own failures are logged. *)
Definition run_allowlist_followup (identity : IdentitySectionValidity) (s : state) : state :=
  match identity with
  | Fresh _ => (on_corr revoke_not_in_allowlist s).1
  | Invalid _ => (on_corr clear_side_table_hygiene s).1
  end.

(** ** The loop *)

(** One turn: the state afterwards and the extra sleep before the next one. *)
Definition sync_tick (cfg : sync_config) (ck : clocks) (s : state) : state * Z :=
  let s := (on_identity (invalidate_if_expired (ss_expires s) (ck_gate ck)) s).1 in
  match sync_once cfg ck s with
  | (s, Ok identity) => (if sc_hooks cfg then run_allowlist_followup identity s else s, 0)
  | (s, Err error) =>
      let s := (set_state (refresh_stale_flag (ck_instant ck) (ss_state s)) s).1 in
      let s := (on_identity (invalidate_if_expired (ss_expires s) (ck_after ck)) s).1 in
      match downcast_rate_limited error with
      | Some (_, retry_after) => (s, default DEFAULT_RATE_LIMIT_BACKOFF retry_after)
      | None => (s, 0)
      end
  end.

(** The branches of [spawn_policy_sync] that do not sync: no URL, no token or no
    key. Exceptions are switched off and the correlator's entries dropped. *)
Definition disable_identity (hooks : bool) (reason : string) (s : state) : state :=
  let s := (on_identity (apply_identity_validity (Invalid reason)) s).1 in
  if hooks then
    run_allowlist_followup (Invalid reason)
      (on_corr (λ c, (set_allowlist (pe_clear (co_allowlist c)) c, Ok ())) s).1
  else s.

Inductive sync_start : Type :=
| StartDisabled (reason : string)
| StartRunning (base_url token pem : bytes).

(** Which branch is taken; an empty URL counts as unset. *)
Definition sync_startup (url : option bytes) (token pem : result bytes) : sync_start :=
  match url with
  | Some url =>
      if is_empty url then StartDisabled "policy sync disabled"
      else
        match token with
        | Err _ => StartDisabled "token unavailable"
        | Ok token =>
            match pem with
            | Err _ => StartDisabled "public key unavailable"
            | Ok pem => StartRunning url token pem
            end
        end
  | None => StartDisabled "policy sync disabled"
  end.

(** The idle loop of a disabled sync: without a URL the bootstrap list counts as
    current, otherwise it goes stale. *)
Definition idle_tick (reason : string) (now : Z) (s : state) : state :=
  if bool_decide (reason = "policy sync disabled"%string) then
    (set_state (mark_success now (lit "bootstrap") (ss_state s)) s).1
  else (set_state (refresh_stale_flag now (ss_state s)) s).1.
End sync.

(** ** Lemmas: the checks *)
Lemma temporal_ok parsed now skew :
  verify_bundle_temporal_with_skew parsed now skew = Ok () ↔
  pb_schema_version parsed = 3 ∧
  ∃ nb na, pb_not_before parsed = Some nb ∧ pb_not_after parsed = Some na ∧
    nb ≤ now + skew ∧ now ≤ na + skew ∧ now + skew < secs (2 ^ 63) ∧ na + skew < secs (2 ^ 63).
Proof.
  unfold verify_bundle_temporal_with_skew, systime_checked_add. split.
  - case_bool_decide as Hs; cbn [negb]; [|done].
    destruct (pb_not_before parsed) as [nb|]; [|done]. destruct (pb_not_after parsed) as [na|]; [|done].
    case_bool_decide; [|done]. case_bool_decide; [done|]. case_bool_decide; [|done].
    case_bool_decide; [done|]. intros _. split; [done|]. exists nb, na. split_and!; try done; lia.
  - intros (Hs & nb & na & -> & -> & ? & ? & ? & ?).
    rewrite bool_decide_eq_true_2 by done. cbn [negb].
    rewrite bool_decide_eq_true_2 by lia. rewrite bool_decide_eq_false_2 by lia.
    rewrite bool_decide_eq_true_2 by lia. by rewrite bool_decide_eq_false_2 by lia.
Qed.

Lemma fetch_ok get base token fb :
  fetch_policy_bundle get base token = Ok fb →
  trim token ≠ [] ∧
  ∃ resp, get (trim_end_matches 47 base ++ lit "/v1/policy-bundle") (lit "Bearer " ++ token) = Some resp ∧
    200 ≤ hr_status resp < 300 ∧ hr_body resp = Some (fb_body fb) ∧
    fb_signature_b64 fb = (s ← hr_signature resp; if is_empty (trim s) then None else Some (trim s)).
Proof.
  unfold fetch_policy_bundle. destruct (is_empty (trim token)) eqn:Ht; [done|]. intros Hf. ok_inv Hf.
  apply ok_or_Ok in H. rename x into resp. apply is_empty_false in Ht. split; [done|]. exists resp.
  split; [done|]. case_bool_decide; [done|]. destruct (_ || _); [done|].
  case_bool_decide; [|done]. cbn [negb] in Hf. ok_inv Hf. apply ok_or_Ok in H2. injection Hf as <-.
  split_and!; [lia|lia|done|]. simpl. by destruct (hr_signature resp).
Qed.

Lemma signature_ok `{Cosign} pem body sig :
  verify_bundle_signature pem body sig = Ok () →
  ∃ s, sig = Some s ∧ verify_cosign_blob_signature pem body (trim s) = AOk ().
Proof.
  unfold verify_bundle_signature. destruct sig as [s|]; [|done]. destruct (is_empty (trim s)); [done|].
  destruct (verify_cosign_blob_signature pem body (trim s)) as [[]|] eqn:E; [|done]. by eexists.
Qed.

Section theorems.
Context {ML MC MH MV : Type}.
Context `{HL : ArrayMap PathDenyEntry ML, HC : ArrayMap Z MC, HH : HashMap Z MH, HV : ArrayMap Z MV}.
Context `{!ArrayMapLaws PathDenyEntry ML PATH_DENY_MAX_ENTRIES, !ArrayMapLaws Z MC 1, !ArrayMapLaws Z MV 1}.
Context `{Cosign} (from_str : bytes → option BundleDoc) (rfc3339 : bytes → option Z).
Abbreviation state := (sync_state ML MC MH MV).
Implicit Types (s : state).

(** What the identity half leaves, on either outcome. *)
Lemma identity_half_spec cfg parsed s s' r :
  apply_identity_half cfg parsed s = (s', r) →
  ss_deny s' = ss_deny s ∧ ss_state s' = ss_state s ∧
  co_table (ss_corr s') = co_table (ss_corr s) ∧
  iam_allow_cgroups (co_maps (ss_corr s')) = iam_allow_cgroups (co_maps (ss_corr s)) ∧
  match r with
  | Ok _ =>
      ss_expires s' = (match pb_identity parsed with Fresh i => Some (ias_expires_at i) | Invalid _ => None end) ∧
      valid_flag (co_maps (ss_corr s')) =
        Some (match pb_identity parsed with Fresh _ => IDENTITY_EXCEPTIONS_VALID_FRESH
                                          | Invalid _ => IDENTITY_EXCEPTIONS_VALID_STALE end) ∧
      co_allowlist (ss_corr s') =
        (if sc_hooks cfg then
           match pb_identity parsed with Fresh i => list_to_set (ias_spiffe_ids i) | Invalid _ => ∅ end
         else co_allowlist (ss_corr s))
  | Err _ => ss_expires s' = ss_expires s ∧ valid_flag (co_maps (ss_corr s')) = valid_flag (co_maps (ss_corr s))
  end.
Proof.
  unfold apply_identity_half. rewrite stm_bind_run. unfold on_identity, on_corr at 1, on_maps.
  destruct (apply_identity_validity (pb_identity parsed) (co_maps (ss_corr s))) as [m res] eqn:Hid.
  assert (iam_allow_cgroups m = iam_allow_cgroups (co_maps (ss_corr s)) ∧
    match res with
    | Ok _ => valid_flag m = Some (match pb_identity parsed with Fresh _ => IDENTITY_EXCEPTIONS_VALID_FRESH
                            | Invalid _ => IDENTITY_EXCEPTIONS_VALID_STALE end)
    | Err _ => valid_flag m = valid_flag (co_maps (ss_corr s)) end) as [Hal Hflag].
  { unfold apply_identity_validity in Hid. by destruct (pb_identity parsed);
      apply set_exceptions_valid_spec in Hid. }
  destruct res as [[]|e]; [|intros [= <- <-]; cbn; by split_and!].
  rewrite stm_bind_run. unfold set_expires, update_allowlist, on_corr.
  destruct (sc_hooks cfg); intros [= <- <-]; cbn; split_and!; try done; by destruct (pb_identity parsed).
Qed.

(** The deny half, evaluated. *)
Lemma deny_half_run ck parsed s :
  apply_deny_half ck parsed s =
  if bool_decide (pb_version parsed = ps_last_version (ss_state s)) then
    (mkSyncState (ss_deny s) (ss_corr s) (ps_fresh (ck_instant ck) (pb_version parsed)) (ss_expires s), Ok ())
  else
    match try_map (λ p, ok_or (EMsg "bundle prefix empty or too long") (from_prefix p))
            (pb_deny_path_prefixes parsed) with
    | Err e => (s, Err e)
    | Ok es =>
        match apply_deny_entries es (ss_deny s) with
        | (d, Ok _) =>
            (mkSyncState d (ss_corr s) (ps_fresh (ck_instant ck) (pb_version parsed)) (ss_expires s), Ok ())
        | (d, Err e) =>
            (mkSyncState d (ss_corr s) (ss_state s) (ss_expires s),
             Err (EContext "failed to apply policy bundle to BPF maps" e))
        end
    end.
Proof.
  unfold apply_deny_half. rewrite stm_bind_run. unfold st_get. cbn beta iota.
  case_bool_decide; [done|]. rewrite stm_bind_run. unfold st_of_result.
  destruct (try_map _ _) as [es|e]; [|done]. rewrite stm_bind_run. unfold st_context, on_deny.
  by destruct (apply_deny_entries es (ss_deny s)) as [d [[]|e]].
Qed.

(** Unfolds the checks of a verified bundle. *)
Lemma verified_bundle_ok cfg ck parsed :
  verified_bundle from_str rfc3339 cfg ck = Ok parsed →
  ∃ fb, fetch_policy_bundle (sc_get cfg) (sc_base_url cfg) (sc_token cfg) = Ok fb ∧
    verify_bundle_signature (sc_pem cfg) (fb_body fb) (fb_signature_b64 fb) = Ok () ∧
    parse_policy_bundle_json_at from_str rfc3339 (fb_body fb) (ck_parse ck) = Ok parsed ∧
    verify_bundle_temporal_with_skew parsed (ck_temporal ck) (clock_skew_from_env (sc_skew cfg)) = Ok ().
Proof.
  unfold verified_bundle. intros Hv. ok_inv Hv. injection Hv as ->.
  repeat match goal with u : () |- _ => destruct u end. by eexists.
Qed.

(** C4: a sync changes any state only with a bundle that was fetched with the
    bearer token over a successful response, whose detached signature verifies
    over the exact body, that parses, and whose schema-3 validity window contains
    the current time up to the skew; otherwise every map and record stays as it
    was and the call fails. *)
Theorem sync_applies_only_verified cfg ck s s' r :
  sync_once from_str rfc3339 cfg ck s = (s', r) →
  (∃ e, s' = s ∧ r = Err e) ∨
  ∃ resp body sig parsed nb na,
    let skew := clock_skew_from_env (sc_skew cfg) in
    sc_get cfg (trim_end_matches 47 (sc_base_url cfg) ++ lit "/v1/policy-bundle")
      (lit "Bearer " ++ sc_token cfg) = Some resp ∧
    200 ≤ hr_status resp < 300 ∧ hr_body resp = Some body ∧ hr_signature resp = Some sig ∧
    verify_cosign_blob_signature (sc_pem cfg) body (trim (trim sig)) = AOk () ∧
    parse_policy_bundle_json_at from_str rfc3339 body (ck_parse ck) = Ok parsed ∧
    pb_schema_version parsed = 3 ∧ pb_not_before parsed = Some nb ∧ pb_not_after parsed = Some na ∧
    nb ≤ ck_temporal ck + skew ∧ ck_temporal ck ≤ na + skew.
Proof.
  unfold sync_once. rewrite stm_bind_run. unfold st_of_result.
  destruct (verified_bundle from_str rfc3339 cfg ck) as [parsed|e] eqn:Hv;
    [|intros [= <- <-]; left; by exists e].
  intros _. right.
  apply verified_bundle_ok in Hv as (fb & (_ & resp & Hget & Hst & Hbody & Hsig)%fetch_ok & Hver & Hp & Ht).
  apply signature_ok in Hver as (sg & Hsg & Hver). apply temporal_ok in Ht as (Hs & nb & na & ? & ? & ? & ? & _).
  rewrite Hsg in Hsig. destruct (hr_signature resp) as [sig|] eqn:Hsr; [|done]. cbn in Hsig.
  destruct (is_empty (trim sig)); [done|]. injection Hsig as ->.
  exists resp, (fb_body fb), sig, parsed, nb, na. split_and!; try done; lia.
Qed.

(** C13: a sync that succeeds has applied the whole bundle. The recorded version is
    the bundle's and not stale; the expiry, the validity flag and the allowlist
    are the identity section's; and when the version is new, the LSM program
    denies exactly the paths under the bundle's prefixes, otherwise the deny
    arrays were not touched. *)
Theorem sync_success_enforces_bundle cfg ck s s' identity :
  sync_once from_str rfc3339 cfg ck s = (s', Ok identity) →
  ∃ parsed, verified_bundle from_str rfc3339 cfg ck = Ok parsed ∧ identity = pb_identity parsed ∧
  ps_last_version (ss_state s') = pb_version parsed ∧ ps_stale (ss_state s') = false ∧
  ss_expires s' = (match identity with Fresh i => Some (ias_expires_at i) | Invalid _ => None end) ∧
  valid_flag (co_maps (ss_corr s')) =
    Some (match identity with Fresh _ => IDENTITY_EXCEPTIONS_VALID_FRESH
                            | Invalid _ => IDENTITY_EXCEPTIONS_VALID_STALE end) ∧
  (sc_hooks cfg = true → co_allowlist (ss_corr s') =
    match identity with Fresh i => list_to_set (ias_spiffe_ids i) | Invalid _ => ∅ end) ∧
  if bool_decide (pb_version parsed = ps_last_version (ss_state s)) then ss_deny s' = ss_deny s
  else ∀ path, is_blacklisted_path (ss_deny s') path = existsb (starts_with path) (pb_deny_path_prefixes parsed).
Proof.
  unfold sync_once. rewrite stm_bind_run. unfold st_of_result.
  destruct (verified_bundle from_str rfc3339 cfg ck) as [parsed|e]; [|done].
  unfold apply_bundle. rewrite stm_bind_run.
  destruct (apply_identity_half cfg parsed s) as [s1 [[]|]] eqn:Hi; [|done].
  apply identity_half_spec in Hi as (Hd1 & Hst1 & _ & _ & He & Hf & Ha).
  rewrite stm_bind_run, deny_half_run, Hst1, Hd1. intros Hrun. exists parsed. revert Hrun.
  case_bool_decide as Hver.
  - intros [= <- <-]. cbn. rewrite He, Hf, Ha. split_and!; try done. by intros ->.
  - destruct (try_map _ _) as [es|] eqn:Hes; [|done].
    destruct (apply_deny_entries es (ss_deny s)) as [d [[]|]] eqn:Hap; [|done].
    intros [= <- <-]. cbn. rewrite He, Hf, Ha. split_and!; try done; [by intros ->|].
    intros path. destruct (try_map_from_prefix _ _ _ Hes) as [Hw Hm].
    rewrite <- Hm. eapply apply_ok_hook; [by apply wf_array_typed|done].
Qed.

(** ** Expiry *)
Context `{!ArrayMapReliable Z MV 1, !HashMapLaws Z MH}.

Lemma set_exceptions_valid_ok fresh (m : IdentityAllowMaps MH MV) :
  (set_exceptions_valid fresh m).2 = Ok ().
Proof.
  unfold set_exceptions_valid.
  pose proof (am_set_ok (iam_exceptions_valid m) 0
    (if fresh then IDENTITY_EXCEPTIONS_VALID_FRESH else IDENTITY_EXCEPTIONS_VALID_STALE)) as Hok.
  destruct (am_set _ _ _) as [a b]. cbn in *. by rewrite Hok by lia.
Qed.

(** The expiry gate with a flag that can always be written. *)
Lemma gate_spec e now s c :
  let s' := (on_identity (invalidate_if_expired e now) s).1 in
  ss_expires s' = ss_expires s ∧
  (exception_active (co_maps (ss_corr s')) c = true → ∃ x, e = Some x ∧ now < x).
Proof.
  assert (∀ (m : IdentityAllowMaps MH MV),
    exception_active ((set_exceptions_valid false ≫= λ _, mret true : stm _ bool) m).1 c = false) as Hoff.
  { intros m. rewrite stm_bind_run. pose proof (set_exceptions_valid_ok false m) as Hok.
    destruct (set_exceptions_valid false m) as [m' r] eqn:E. cbn in Hok. subst r. cbn.
    apply set_exceptions_valid_spec in E as [_ E]. unfold exception_active. by rewrite E. }
  unfold on_identity, on_corr, on_maps, invalidate_if_expired. cbv zeta.
  destruct e as [x|].
  - case_bool_decide as Hx.
    + specialize (Hoff (co_maps (ss_corr s))). 
    destruct ((set_exceptions_valid false ≫= λ _, mret true : stm (IdentityAllowMaps MH MV) bool)
      (co_maps (ss_corr s))) as [m r]. cbn in *.
      split; [done|]. by rewrite Hoff.
    + cbn. split; [done|]. intros _. exists x. split; [done|lia].
  - specialize (Hoff (co_maps (ss_corr s))). 
    destruct ((set_exceptions_valid false ≫= λ _, mret true : stm (IdentityAllowMaps MH MV) bool)
      (co_maps (ss_corr s))) as [m r]. cbn in *.
    split; [done|]. by rewrite Hoff.
Qed.

Lemma apply_invalidations_valid ids (c : corr MH MV) :
  iam_exceptions_valid (co_maps (apply_invalidations ids c).1) = iam_exceptions_valid (co_maps c).
Proof.
  destruct ids as [|id ids]; [done|]. unfold apply_invalidations, on_maps.
  assert (iam_exceptions_valid (for_each remove_allow_cgroup (id :: ids) (co_maps c)).1 =
          iam_exceptions_valid (co_maps c)) as Hv.
  { apply (for_each_inv (λ m, iam_exceptions_valid m = iam_exceptions_valid (co_maps c))); [|done].
    intros x m _ Hm. destruct (remove_allow_cgroup x m) as [m' r] eqn:E.
    apply remove_allow_cgroup_spec in E as [E _]. cbn. by rewrite E. }
  by destruct (for_each remove_allow_cgroup (id :: ids) (co_maps c)).
Qed.

Lemma followup_keeps identity s :
  ss_expires (run_allowlist_followup identity s) = ss_expires s ∧
  valid_flag (co_maps (ss_corr (run_allowlist_followup identity s))) = valid_flag (co_maps (ss_corr s)).
Proof.
  assert (∀ ids cmds t, valid_flag (co_maps (apply_invalidations ids
     (send_all cmds (set_table t (ss_corr s)))).1) = valid_flag (co_maps (ss_corr s))) as Hkeep.
  { intros ids cmds t. unfold valid_flag. rewrite apply_invalidations_valid.
    by destruct (send_all_same cmds (set_table t (ss_corr s))) as (_ & -> & _). }
  unfold run_allowlist_followup, on_corr.
  destruct identity; cbv [revoke_not_in_allowlist clear_side_table_hygiene].
  - destruct (apply_revoke_plan _ _) as [t removed]. specialize (Hkeep removed.*1 (map Unwatch removed.*2) t).
    by destruct (apply_invalidations _ _) as [c r].
  - destruct (st_clear _) as [t cleared].
    specialize (Hkeep cleared.*1 (map (λ p, Unwatch (sd_cgroup_path p.2)) cleared) t).
    by destruct (apply_invalidations _ _) as [c r].
Qed.

(** After every turn of the loop, whatever the policy engine answered, an
    exception is in force only if an expiry is recorded and it lies after the
    turn's clock reading: an outage past the expiry switches off all exceptions
    at the next turn, laboratory seeds included. *)
Theorem tick_exceptions_unexpired cfg ck s c :
  ck_parse ck ≤ ck_after ck →
  let s' := (sync_tick from_str rfc3339 cfg ck s).1 in
  exception_active (co_maps (ss_corr s')) c = true →
  ∃ e, ss_expires s' = Some e ∧ ck_parse ck < e.
Proof.
  intros Hck. unfold sync_tick. set (s1 := (on_identity _ s).1). cbv zeta.
  destruct (sync_once from_str rfc3339 cfg ck s1) as [s2 [identity|error]] eqn:Hsync.
  - cbn [fst]. revert Hsync. unfold sync_once. rewrite stm_bind_run. unfold st_of_result.
    destruct (verified_bundle from_str rfc3339 cfg ck) as [parsed|e] eqn:Hv; [|done].
    unfold apply_bundle. rewrite stm_bind_run.
    destruct (apply_identity_half cfg parsed s1) as [s3 [[]|]] eqn:Hi; [|done].
    apply identity_half_spec in Hi as (_ & _ & _ & _ & He & Hf & _).
    rewrite stm_bind_run, deny_half_run. intros Hrun.
    assert (ss_expires s2 = ss_expires s3 ∧ ss_corr s2 = ss_corr s3 ∧ identity = pb_identity parsed) as (He2 & Hc2 & ->).
    { revert Hrun. case_bool_decide; [by intros [= <- <-]|]. destruct (try_map _ _) as [es|]; [|done].
      destruct (apply_deny_entries es (ss_deny s3)) as [d [[]|]]; [|done]. by intros [= <- <-]. }
    assert (∀ s4 : state, ss_expires s4 = ss_expires s2 →
      valid_flag (co_maps (ss_corr s4)) = valid_flag (co_maps (ss_corr s2)) →
      exception_active (co_maps (ss_corr s4)) c = true → ∃ e, ss_expires s4 = Some e ∧ ck_parse ck < e) as Hgoal.
    { intros s4 H4 Hv4. unfold exception_active. rewrite Hv4, Hc2, Hf, H4, He2, He.
      destruct (pb_identity parsed) as [i|] eqn:Hid; [|done]. intros _. eexists. split; [done|].
      apply verified_bundle_ok in Hv as (fb & _ & _ & Hp & _). by eapply parse_fresh_unexpired. }
    destruct (sc_hooks cfg); [|by apply Hgoal].
    destruct (followup_keeps (pb_identity parsed) s2) as [H1 H2]. by apply Hgoal.
  - intros Hact.
    destruct (gate_spec (ss_expires s2) (ck_after ck)
      (mkSyncState (ss_deny s2) (ss_corr s2) (refresh_stale_flag (ck_instant ck) (ss_state s2)) (ss_expires s2)) c)
      as [He Hg].
    cbn [set_state fst ss_expires] in *. destruct (downcast_rate_limited error) as [[u ra]|]; cbn [fst] in *;
      destruct (Hg Hact) as (x & Hx & Hlt); exists x; (split; [congruence|lia]).
Qed.
End theorems.

(** ** Samples

    A toy signature scheme (a signature is the message itself), one policy engine
    and an agent that has just booted. *)
#[local] Instance demo_cosign : Cosign := {
  p256_key := unit; ecdsa_sig := bytes; ed25519_key := unit;
  base64_decode s := Some s;
  p256_from_pem _ := Some (); ecdsa_from_der s := Some s; ecdsa_from_slice s := Some s;
  p256_verify _ msg sig := bool_decide (msg = sig);
  ed25519_from_pem _ := None; ed25519_verify_strict _ _ _ := false;
  sha256 b := b
}.

Definition demo_response (status : Z) (retry sig : option bytes) : http_response :=
  mkHttpResponse status retry sig (Some (lit "bundle")).
Definition demo_sync_cfg (resp : http_response) : sync_config :=
  mkSyncConfig (λ _ _, Some resp) (lit "http://127.0.0.1:8080/") (lit "token") (lit "pem") None true.
Definition demo_clocks (t : Z) : clocks := mkClocks t t t t t.

Definition demo_sync (deny_faults : list bool) :
    sync_state (sim_array PathDenyEntry 64) (sim_array Z 1) (rel_hash Z) (rel_array Z 1) :=
  mkSyncState
    (let m := (bootstrap_deny_maps 0 (mkPathDenyMaps (sim_array_new 64 PathDenyEntry_default [])
                                        (sim_array_new 1 0 []))).1 in
     mkPathDenyMaps (mkSimArray PathDenyEntry_default (sa_written (pdm_list m)) deny_faults) (pdm_count m))
    (mkCorr st_new (mkIdentityAllowMaps (mkRelHash {[ 42 := IDENTITY_ALLOW_VALUE ]} 1024) (mkRelArray 0 ∅)) ∅ [] true)
    (ps_fresh 0 (lit "bootstrap")) None.

Definition demo_from_str (prefixes : list bytes) (expires : bytes) (body : bytes) : option BundleDoc :=
  if bool_decide (body = lit "bundle") then
    let d := demo_doc (lit "/tmp/") expires in
    Some (mkBundleDoc (bd_schema_version d) (bd_version d) prefixes (bd_identity_allow_exceptions d)
            (bd_not_before d) (bd_not_after d))
  else None.
Definition demo_prefixes : list bytes := [lit "/tmp/"; lit "/opt/x/"].
Definition demo_ok_cfg : sync_config := demo_sync_cfg (demo_response 200 None (Some (lit "bundle"))).

Lemma sync_applies_only_verified_witness :
  let r := sync_once (demo_from_str demo_prefixes (lit "190")) demo_rfc3339
             (demo_sync_cfg (demo_response 200 None (Some (lit "forged")))) (demo_clocks (secs 120)) (demo_sync []) in
  r.1 = demo_sync [] ∧ is_ok r.2 = false.
Proof.
  cbv zeta. set (cfg := demo_sync_cfg _).
  destruct (sync_once (demo_from_str demo_prefixes (lit "190")) demo_rfc3339 cfg (demo_clocks (secs 120)) (demo_sync []))
    as [s' r] eqn:E.
  destruct (sync_applies_only_verified _ _ _ _ _ _ _ E) as [(e & -> & ->)|(resp & body & sig & p & nb & na & Hg & _ & Hb & Hs & Hv & _)];
    [by split|].
  exfalso. vm_compute in Hg. injection Hg as <-. cbn in Hb, Hs. injection Hb as <-. injection Hs as <-.
  vm_compute in Hv. discriminate.
Defined.

Lemma sync_success_enforces_bundle_witness :
  is_blacklisted_path
    (ss_deny (sync_once (demo_from_str demo_prefixes (lit "190")) demo_rfc3339 demo_ok_cfg (demo_clocks (secs 120)) (demo_sync [])).1)
    (lit "/opt/x/payload") = true.
Proof.
  destruct (sync_once (demo_from_str demo_prefixes (lit "190")) demo_rfc3339 demo_ok_cfg (demo_clocks (secs 120)) (demo_sync []))
    as [s' r] eqn:E.
  assert (∃ i, r = Ok i) as [i ->].
  { apply (f_equal (λ p, p.2)) in E. vm_compute in E. eexists. symmetry. exact E. }
  destruct (sync_success_enforces_bundle _ _ _ _ _ _ _ E) as (parsed & Hp & _ & _ & _ & _ & _ & _ & Hd).
  vm_compute in Hp. injection Hp as <-. cbn [fst]. vm_compute bool_decide in Hd. rewrite Hd. vm_compute. reflexivity.
Defined.

Lemma tick_exceptions_unexpired_witness :
  let s := (sync_tick (demo_from_str demo_prefixes (lit "190")) demo_rfc3339 demo_ok_cfg (demo_clocks (secs 120)) (demo_sync [])).1 in
  exception_active (co_maps (ss_corr s)) 42 = true ∧ ∃ e, ss_expires s = Some e ∧ secs 120 < e.
Proof.
  cbv zeta. split; [vm_compute; reflexivity|].
  apply (tick_exceptions_unexpired _ _ demo_ok_cfg (demo_clocks (secs 120)) (demo_sync []) 42).
  - cbn. lia.
  - vm_compute. reflexivity.
Defined.

(** A rate-limit answer can stretch an exception past its expiry. With a
    [Retry-After] of 300 seconds the loop sleeps that long without looking at the
    expiry, which is 90 seconds away at most: the recorded expiry passes during
    the sleep while the LSM program still sees the flag as fresh. *)
Theorem rate_limit_backoff_outlives_ttl :
  let fs := demo_from_str demo_prefixes (lit "190") in
  let s1 := (sync_tick fs demo_rfc3339 demo_ok_cfg (demo_clocks (secs 120)) (demo_sync [])).1 in
  let limited := demo_sync_cfg (demo_response 429 (Some (lit "300")) None) in
  let '(s2, sleep) := sync_tick fs demo_rfc3339 limited (demo_clocks (secs 150)) s1 in
  exception_active (co_maps (ss_corr s2)) 42 = true ∧
  ss_expires s2 = Some (secs 190) ∧ sleep = secs 300 ∧ secs 190 < secs 150 + sleep ∧
  IDENTITY_EXCEPTION_TTL < sleep.
Proof. vm_compute. by split_and!. Qed.

(** A bundle is not applied as a whole. When one deny prefix is too long, or a
    slot write fails, the sync fails, yet the new expiry, validity flag and
    allowlist are already in force; and a failing slot write leaves the deny
    array with part of the new list. *)
Theorem failed_sync_applies_identity_half :
  let long := lit "/" ++ replicate 40 97 in
  let run prefixes faults :=
    sync_once (demo_from_str prefixes (lit "190")) demo_rfc3339 demo_ok_cfg (demo_clocks (secs 120)) (demo_sync faults) in
  (let '(s', r) := run [long] [] in
   is_ok r = false ∧ ss_deny s' = ss_deny (demo_sync []) ∧
   exception_active (co_maps (ss_corr (demo_sync []))) 42 = false ∧
   exception_active (co_maps (ss_corr s')) 42 = true ∧ ss_expires s' = Some (secs 190)) ∧
  (let '(s', r) := run [lit "/opt/x/"; lit "/opt/y/"] [false; true] in
   is_ok r = false ∧
   is_blacklisted_path (ss_deny (demo_sync [])) (lit "/tmp/x") = true ∧
   is_blacklisted_path (ss_deny s') (lit "/tmp/x") = false).
Proof. vm_compute. by split_and!. Qed.
