(* ===== verification/PolicySteps.v ===== *)
(** * A turn of the policy loop, step by step ([policy_sync.rs], [path_deny.rs])

    [spawn_policy_sync]'s loop holds the locks of the deny maps, the identity maps and
    the record while it gates, requests, verifies and applies; the LSM program takes no
    lock and runs between any two of its map updates. This file cuts the locked part of
    a turn at those updates: a [turn] is what the policy task still has to do, one step
    does at most one map update, and the deny list is written slot by slot. The variable
    with the expiry belongs to the policy task alone and is set in the step of the flag;
    the allowlist is shared with the correlator and has a step of its own.

    Shown: without interruption the steps are the locked part of [sync_tick], which with
    its follow-up is the whole turn; the hook's list at every point of a rewrite. *)

From S2P Require Import Prelude RustStd Common Bpf PathDeny LsmHook DenyRefine IdentityAllow Attestation SideTable CgroupPath Correlator PolicySync.

(** ** Steps *)
Inductive turn : Type :=
| TGate (cfg : sync_config) (ck : clocks)
| TRequest (cfg : sync_config) (ck : clocks)
| TIdentity (cfg : sync_config) (ck : clocks) (parsed : ParsedPolicyBundle)
| TAllow (cfg : sync_config) (ck : clocks) (parsed : ParsedPolicyBundle)
| TVersion (cfg : sync_config) (ck : clocks) (parsed : ParsedPolicyBundle)
| TWrite (cfg : sync_config) (ck : clocks) (parsed : ParsedPolicyBundle) (ops : list write_op)
| TFail (cfg : sync_config) (ck : clocks) (error : error).

(** The end of the locked part: the sleep asked for and the outcome to follow up. *)
Record turn_end : Type := mkTurnEnd {
  te_sleep : Z;
  te_outcome : option IdentitySectionValidity
}.

Definition turn_clocks (t : turn) : clocks :=
  match t with
  | TGate _ ck | TRequest _ ck | TIdentity _ ck _ | TAllow _ ck _ | TVersion _ ck _ | TWrite _ ck _ _ | TFail _ ck _ => ck
  end.
Definition turn_config (t : turn) : sync_config :=
  match t with
  | TGate c _ | TRequest c _ | TIdentity c _ _ | TAllow c _ _ | TVersion c _ _ | TWrite c _ _ _ | TFail c _ _ => c
  end.

Section turn.
Context {ML MC MH MV : Type}.
Context `{ArrayMap PathDenyEntry ML, ArrayMap Z MC, HashMap Z MH, ArrayMap Z MV}.
Context `{Cosign} (from_str : bytes → option BundleDoc) (rfc3339 : bytes → option Z).
Abbreviation state := (sync_state ML MC MH MV).

Definition turn_done (cfg : sync_config) (ck : clocks) (parsed : ParsedPolicyBundle) (s : state) : state * turn_end :=
  ((set_state (mark_success (ck_instant ck) (pb_version parsed) (ss_state s)) s).1,
   mkTurnEnd 0 (if sc_hooks cfg then Some (pb_identity parsed) else None)).

(** The checks of [apply_deny_entries] before its first write. *)
Definition deny_sizes (es : list PathDenyEntry) : result unit :=
  if bool_decide (es = []) then Err (EMsg "refusing to apply empty deny list (would fail-open)")
  else if bool_decide (PATH_DENY_MAX_ENTRIES < as_uint 32 (Z.of_nat (length es)))
  then Err (EMsg "deny list has too many entries") else Ok ().

Definition turn_step (t : turn) (s : state) : state * (turn + turn_end) :=
  match t with
  | TGate cfg ck => ((on_identity (invalidate_if_expired (ss_expires s) (ck_gate ck)) s).1, inl (TRequest cfg ck))
  | TRequest cfg ck =>
      (s, inl (match verified_bundle from_str rfc3339 cfg ck with
               | Ok parsed => TIdentity cfg ck parsed
               | Err e => TFail cfg ck e
               end))
  | TIdentity cfg ck parsed =>
      match on_identity (apply_identity_validity (pb_identity parsed)) s with
      | (s, Ok _) =>
          ((set_expires (match pb_identity parsed with Fresh i => Some (ias_expires_at i) | Invalid _ => None end) s).1,
           inl (TAllow cfg ck parsed))
      | (s, Err e) => (s, inl (TFail cfg ck e))
      end
  | TAllow cfg ck parsed => ((update_allowlist (sc_hooks cfg) (pb_identity parsed) s).1, inl (TVersion cfg ck parsed))
  | TVersion cfg ck parsed =>
      if bool_decide (pb_version parsed = ps_last_version (ss_state s)) then
        let '(s, e) := turn_done cfg ck parsed s in (s, inr e)
      else
        match try_map (λ p, ok_or (EMsg "bundle prefix empty or too long") (from_prefix p)) (pb_deny_path_prefixes parsed) with
        | Err e => (s, inl (TFail cfg ck e))
        | Ok es =>
            (s, inl (match deny_sizes es with
                     | Ok _ => TWrite cfg ck parsed (deny_ops es)
                     | Err e => TFail cfg ck (EContext "failed to apply policy bundle to BPF maps" e)
                     end))
        end
  | TWrite cfg ck parsed [] => let '(s, e) := turn_done cfg ck parsed s in (s, inr e)
  | TWrite cfg ck parsed (op :: ops) =>
      match on_deny (run_op op) s with
      | (s, Ok _) => (s, inl (TWrite cfg ck parsed ops))
      | (s, Err e) => (s, inl (TFail cfg ck (EContext "failed to apply policy bundle to BPF maps" e)))
      end
  | TFail cfg ck error =>
      let s := (set_state (refresh_stale_flag (ck_instant ck) (ss_state s)) s).1 in
      let s := (on_identity (invalidate_if_expired (ss_expires s) (ck_after ck)) s).1 in
      (s, inr (mkTurnEnd (match downcast_rate_limited error with
                          | Some (_, retry_after) => default DEFAULT_RATE_LIMIT_BACKOFF retry_after
                          | None => 0
                          end) None))
  end.

(** The locked part in one piece, as [sync_tick] has it. *)
Definition sync_locked (cfg : sync_config) (ck : clocks) (s : state) : state * turn_end :=
  let s := (on_identity (invalidate_if_expired (ss_expires s) (ck_gate ck)) s).1 in
  match sync_once from_str rfc3339 cfg ck s with
  | (s, Ok identity) => (s, mkTurnEnd 0 (if sc_hooks cfg then Some identity else None))
  | (s, Err error) =>
      let s := (set_state (refresh_stale_flag (ck_instant ck) (ss_state s)) s).1 in
      let s := (on_identity (invalidate_if_expired (ss_expires s) (ck_after ck)) s).1 in
      (s, mkTurnEnd (match downcast_rate_limited error with
                     | Some (_, retry_after) => default DEFAULT_RATE_LIMIT_BACKOFF retry_after
                     | None => 0
                     end) None)
  end.

(** A turn that is not interrupted. *)
Inductive turn_alone : turn → state → state → turn_end → Prop :=
| turn_last t s s' e : turn_step t s = (s', inr e) → turn_alone t s s' e
| turn_next t s s1 t' s' e : turn_step t s = (s1, inl t') → turn_alone t' s1 s' e → turn_alone t s s' e.
End turn.

(** ** Lemmas: the uninterrupted turn *)
Section alone.
Context {ML MC MH MV : Type}.
Context `{HL : ArrayMap PathDenyEntry ML, HC : ArrayMap Z MC, HH : HashMap Z MH, HV : ArrayMap Z MV}.
Context `{Cosign} (from_str : bytes → option BundleDoc) (rfc3339 : bytes → option Z).
Abbreviation state := (sync_state ML MC MH MV).
Abbreviation turn_alone := (turn_alone from_str rfc3339).
Implicit Types (s : state).

Definition fail_end cfg ck error s : state * turn_end :=
  match turn_step from_str rfc3339 (TFail cfg ck error) s with (s, inr e) => (s, e) | (s, inl _) => (s, mkTurnEnd 0 None) end.
Lemma fail_alone cfg ck error s : turn_alone (TFail cfg ck error) s (fail_end cfg ck error s).1 (fail_end cfg ck error s).2.
Proof. by apply turn_last. Qed.

Lemma write_alone cfg ck parsed ops s :
  turn_alone (TWrite cfg ck parsed ops) s
    (match on_deny (for_each run_op ops) s with
     | (s, Ok _) => turn_done cfg ck parsed s
     | (s, Err e) => fail_end cfg ck (EContext "failed to apply policy bundle to BPF maps" e) s
     end).1
    (match on_deny (for_each run_op ops) s with
     | (s, Ok _) => turn_done cfg ck parsed s
     | (s, Err e) => fail_end cfg ck (EContext "failed to apply policy bundle to BPF maps" e) s
     end).2.
Proof.
  revert s. induction ops as [|op ops IH]; intros s.
  - destruct s. by apply turn_last.
  - unfold on_deny. cbn [for_each]. rewrite stm_bind_run. destruct (run_op op (ss_deny s)) as [d [[]|e]] eqn:E.
    + eapply turn_next; [cbn [turn_step]; unfold on_deny; by rewrite E|].
      match goal with |- turn_alone _ ?s1 _ _ => specialize (IH s1) end. unfold on_deny in IH. cbn [ss_deny ss_corr ss_state ss_expires] in IH.
      destruct (for_each run_op ops d) as [d' [u|e]]; exact IH.
    + eapply turn_next; [cbn [turn_step]; unfold on_deny; by rewrite E|]. apply fail_alone.
Qed.

Lemma write_sizes es (m : PathDenyMaps ML MC) e : deny_sizes es = Err e → apply_deny_entries es m = (m, Err e).
Proof.
  unfold deny_sizes, apply_deny_entries. destruct (decide (es = [])) as [He|Hne];
    [rewrite !(bool_decide_eq_true_2 (es = [])) by done; by intros [= <-]|].
  rewrite !(bool_decide_eq_false_2 (es = [])) by done. case_bool_decide; [by intros [= <-]|done].
Qed.
Lemma write_ops es (m : PathDenyMaps ML MC) :
  deny_sizes es = Ok () → apply_deny_entries es m = for_each run_op (deny_ops es) m.
Proof. unfold deny_sizes. case_bool_decide; [done|]. case_bool_decide; [done|]. intros _. apply apply_deny_entries_ops; [done|lia]. Qed.

Lemma sync_locked_alone cfg ck s :
  turn_alone (TGate cfg ck) s (sync_locked from_str rfc3339 cfg ck s).1 (sync_locked from_str rfc3339 cfg ck s).2.
Proof.
  unfold sync_locked. eapply turn_next; [done|]. set (s1 := (on_identity _ s).1). clearbody s1. clear s.
  unfold sync_once. rewrite stm_bind_run. unfold st_of_result.
  destruct (verified_bundle from_str rfc3339 cfg ck) as [parsed|e] eqn:Hv;
    (eapply turn_next; [cbn [turn_step]; by rewrite Hv|]); [|apply fail_alone].
  unfold apply_bundle, apply_identity_half. rewrite !stm_bind_run.
  destruct (on_identity (apply_identity_validity (pb_identity parsed)) s1) as [s2 [u|e]] eqn:Hi;
    (eapply turn_next; [cbn [turn_step]; by rewrite Hi|]); [|apply fail_alone].
  rewrite stm_bind_run. unfold set_expires. cbn [fst]. set (s3 := mkSyncState _ _ _ _). clearbody s3. clear s2 Hi.
  eapply turn_next; [done|].
  assert ((update_allowlist (sc_hooks cfg) (pb_identity parsed) s3).2 = Ok ()) as Hok by (unfold update_allowlist; by destruct (sc_hooks cfg)).
  destruct (update_allowlist _ _ s3) as [s4 r]. cbn in Hok. subst r. cbn [fst]. rewrite stm_bind_run, deny_half_run.
  case_bool_decide as Hver; [by apply turn_last; cbn [turn_step]; rewrite bool_decide_eq_true_2|].
  destruct (try_map _ _) as [es|e] eqn:Hes.
  2:{ eapply turn_next; [cbn [turn_step]; rewrite bool_decide_eq_false_2 by done; by rewrite Hes|]. apply fail_alone. }
  destruct (deny_sizes es) as [[]|e] eqn:Hsz;
    (eapply turn_next; [cbn [turn_step]; rewrite bool_decide_eq_false_2 by done; by rewrite Hes, Hsz|]).
  - rewrite write_ops by done. pose proof (write_alone cfg ck parsed (deny_ops es) s4) as Hw. unfold on_deny in Hw.
    destruct (for_each run_op (deny_ops es) (ss_deny s4)) as [d [v|e]]; exact Hw.
  - rewrite (write_sizes _ _ _ Hsz). destruct s4. apply fail_alone.
Qed.
End alone.


(** ** The hook's list during a rewrite *)

(** After [k] of the new entries: they are in the first slots, the old ones behind them,
    and the count is still the old one. *)
Definition splice (k : nat) (es old : list PathDenyEntry) : list PathDenyEntry :=
  take (length old) (take k es ++ drop k old).

Section rewrite.
Context {ML MC : Type} `{HL : ArrayMap PathDenyEntry ML, HC : ArrayMap Z MC}.
Context `{!ArrayMapLaws PathDenyEntry ML PATH_DENY_MAX_ENTRIES, !ArrayMapLaws Z MC 1}.
Implicit Types (d : PathDenyMaps ML MC) (es : list PathDenyEntry).

Lemma active_eq d l :
  (∀ k, Z.of_nat k < deny_count d → (k < length l)%nat ∧ am_get (pdm_list d) (Z.of_nat k) = l !! k) →
  Z.of_nat (length l) ≤ Z.max 0 (deny_count d) → active_entries d = l.
Proof.
  intros Hs Hl. unfold active_entries. assert (Z.to_nat (deny_count d) = length l) as Hn.
  { destruct (decide (length l < Z.to_nat (deny_count d))%nat) as [Hlt|]; [|lia].
    destruct (Hs (length l)) as [? _]; lia. }
  rewrite Hn. apply omap_seq_lookup. intros k Hk. apply Hs. lia.
Qed.

Lemma slots_list d n :
  Z.of_nat n ≤ PATH_DENY_MAX_ENTRIES →
  ∃ l, length l = n ∧ ∀ j, (j < n)%nat → am_get (pdm_list d) (Z.of_nat j) = l !! j.
Proof.
  induction n as [|n IH]; intros Hn; [exists []; split; [done|lia]|]. destruct IH as (l & Hl & Hs); [lia|].
  destruct (proj2 (am_get_range (pdm_list d) (Z.of_nat n))) as [e He]; [lia|]. exists (l ++ [e]).
  split; [rewrite length_app; cbn; lia|]. intros j Hj. destruct (decide (j = n)) as [->|].
  - rewrite He, lookup_app_r, Hl, Nat.sub_diag by lia. done.
  - rewrite lookup_app_l by lia. apply Hs. lia.
Qed.

Lemma active_slots d :
  length (active_entries d) = Z.to_nat (deny_count d) ∧
  ∀ k, Z.of_nat k < deny_count d → am_get (pdm_list d) (Z.of_nat k) = active_entries d !! k.
Proof.
  pose proof (deny_count_le d) as Hle.
  destruct (slots_list d (Z.to_nat (deny_count d))) as (l & Hl & Hs); [unfold PATH_DENY_MAX_ENTRIES in *; lia|].
  rewrite (active_eq d l); [|intros j Hj; split; [lia|apply Hs; lia]|lia]. split; [done|]. intros k Hk. apply Hs. lia.
Qed.
Lemma length_active d : length (active_entries d) = Z.to_nat (deny_count d).
Proof. apply active_slots. Qed.

Lemma splice_lookup k es old j :
  (j < length old)%nat → (k ≤ length es)%nat →
  splice k es old !! j = if decide (j < k)%nat then es !! j else old !! j.
Proof.
  intros Hj Hk. unfold splice. rewrite lookup_take_lt by done. case_decide.
  - rewrite lookup_app_l by (rewrite length_take; lia). by rewrite lookup_take_lt.
  - rewrite lookup_app_r by (rewrite length_take; lia). rewrite length_take, lookup_drop. f_equal. lia.
Qed.
Lemma length_splice k es old : (k ≤ length es)%nat → length (splice k es old) = length old.
Proof. intros Hk. unfold splice. rewrite length_take, length_app, length_take, length_drop. lia. Qed.

(** What the hook scans after [k] successful updates. *)
Lemma written_active es d0 k d :
  Z.of_nat (length es) ≤ PATH_DENY_MAX_ENTRIES →
  written es (λ j, am_get (pdm_list d0) j) (am_get (pdm_count d0) 0) k d →
  active_entries d = if decide (k ≤ length es)%nat then splice k es (active_entries d0) else es.
Proof.
  intros Hlen [H1 H2]. pose proof (length_active d0) as Hl0. case_decide as Hk.
  - destruct (H1 Hk) as (Ha & Hb & Hc). assert (deny_count d = deny_count d0) as Hdc by (unfold deny_count; by rewrite Hc).
    apply active_eq; rewrite ?Hdc, ?length_splice by done; [|lia]. intros j Hj. split; [lia|].
    rewrite splice_lookup by lia. case_decide.
    + rewrite Ha by lia. by rewrite Nat2Z.id.
    + rewrite Hb by lia. by apply (active_slots d0).
  - destruct (H2 ltac:(lia)) as [Ha Hc].
    assert (deny_count d = Z.of_nat (length es)) as Hdc by (unfold deny_count; rewrite Hc; case_bool_decide; lia).
    apply active_eq; rewrite ?Hdc; [|lia]. intros j Hj. split; [lia|]. rewrite Ha by lia. by rewrite Nat2Z.id.
Qed.
End rewrite.
