(* ===== verification/ExecMapper.v ===== *)
(** * Decoding kernel records and mapping them for detection and export

    [apps/agent-ebpf-sensor/src/monitoring/exec_mapper.rs], [event.rs],
    [ringbuf_decode.rs], [network_event.rs] and [correlation.rs]: the decoder of
    the packed [ExecEvent], the canonical [SecurityTelemetryEvent] and the OTel
    attributes built from it, the decoder of the 14-byte [NetworkEvent], the
    observers' counters and the process/network correlation cache.

    Shown here: the decoder inverts the packed layout and accepts nothing else,
    the slot formatters print exactly the non-empty slots, the exported
    environment is the redacted one. *)

From S2P Require Import Prelude RustStd Common EnvCapture.

(** ** Decoding the exec record *)

(** [ptr::read_unaligned(bytes.as_ptr() as *const ExecEvent)]: the fields of the
    packed struct at their offsets. *)
Definition read_exec_event (s : bytes) : ExecEvent :=
  {| ee_schema_version := le_decode (slice 0 2 s);
     ee_event_type := le_decode (slice 2 1 s);
     ee_flags := le_decode (slice 3 1 s);
     ee_struct_size := le_decode (slice 4 2 s);
     ee_header_reserved := le_decode (slice 6 2 s);
     ee_header_pad := slice 8 8 s;
     ee_pid := le_decode (slice 16 4 s);
     ee_ppid := le_decode (slice 20 4 s);
     ee_tgid := le_decode (slice 24 4 s);
     ee_uid := le_decode (slice 28 4 s);
     ee_euid := le_decode (slice 32 4 s);
     ee_gid := le_decode (slice 36 4 s);
     ee_comm := slice 40 16 s;
     ee_filename := slice 56 256 s;
     ee_args_count := le_decode (slice 312 4 s);
     ee_argv_len := le_decode (slice 316 2 s);
     ee_argv_trunc_mask := le_decode (slice 318 1 s);
     ee_argv_flags := le_decode (slice 319 1 s);
     ee_argv := slice 320 256 s;
     ee_env_len := le_decode (slice 576 2 s);
     ee_env_trunc_mask := le_decode (slice 578 1 s);
     ee_env_flags := le_decode (slice 579 1 s);
     ee_env_ptr_count := le_decode (slice 580 2 s);
     ee_env_header_pad := le_decode (slice 582 2 s);
     ee_env := slice 584 256 s;
     ee_container_id := slice 840 64 s;
     ee_align_pad := slice 904 4 s;
     ee_namespace_id := le_decode (slice 908 8 s);
     ee_timestamp_ns := le_decode (slice 916 8 s);
     ee_enforcement_action := le_decode (slice 924 1 s);
     ee_capture_status := le_decode (slice 925 2 s);
     ee_status_reserved := slice 927 5 s |}.

Definition decode_exec_event (s : bytes) : option ExecEvent :=
  if bool_decide (Z.of_nat (length s) < EXEC_EVENT_STRUCT_SIZE) then None
  else
    let event := read_exec_event s in
    if negb (is_valid event) then None else Some event.

(** [event::decode_process_event] and [ringbuf_decode::decode_exec_event]. *)
Definition decode_process_event (s : bytes) : option ExecEvent := decode_exec_event s.
Definition ringbuf_decode_exec_event (s : bytes) : option ExecEvent := decode_process_event s.

(** ** Slot formatting *)

(** The loop of [format_argv_cmdline] and [format_env_slots] over slots
    [i], [i + 1], ... of [width] bytes. *)
Fixpoint format_loop (width slots i : nat) (buf out : bytes) : bytes :=
  match slots with
  | O => out
  | S slots =>
      let start := (i * width)%nat in
      let stop := Nat.min (start + width) (length buf) in
      if bool_decide (stop ≤ start)%nat then out
      else
        let slot := slice start (stop - start) buf in
        let nul := position_or_len 0 slot in
        if bool_decide (nul = 0%nat) then format_loop width slots (S i) buf out
        else
          let out := if is_empty out then out else out ++ [32] in
          format_loop width slots (S i) buf (out ++ from_utf8_lossy (take nul slot))
  end.

Definition format_argv_cmdline (argv : bytes) (argv_len : Z) : bytes :=
  let slots := Nat.min (Z.to_nat argv_len) MAX_ARGS_CAPTURE in
  let buf := if bool_decide (MAX_ARGV_LEN ≤ length argv)%nat then take MAX_ARGV_LEN argv else argv in
  format_loop MAX_ARG_STR_LEN slots 0 buf [].

Definition format_env_slots (env : bytes) (env_len : Z) : bytes :=
  let slots := Nat.min (Z.to_nat env_len) MAX_ENV_CAPTURE in
  let buf := if bool_decide (MAX_ENV_LEN ≤ length env)%nat then take MAX_ENV_LEN env else env in
  format_loop MAX_ENV_STR_LEN slots 0 buf [].

(** ** The canonical telemetry event *)
Definition scalar_or_zero (value : Z) (unknown : bool) : Z := if unknown then 0 else value.

Definition cstr_bytes (s : bytes) : bytes := take (position_or_len 0 s) s.

Definition write_unknown (buf : bytes) : bytes :=
  let len := Nat.min (length UNKNOWN_SENTINEL) (length buf) in
  copy_into buf (take len UNKNOWN_SENTINEL).

(** [status & bit != 0]. *)
Definition status_bit (status bit : Z) : bool := negb (bool_decide (Z.land status bit = 0)).

(** [string_field] on an [N]-byte buffer. *)
Definition string_field (s : bytes) (bit status : Z) : bytes :=
  let out := zeroed (length s) in
  if status_bit status bit then write_unknown out
  else
    let src := cstr_bytes s in
    let len := Nat.min (length src) (length out) in
    copy_into out (take len src).

Definition argv_field (e : ExecEvent) : Z * bytes :=
  let slots := Nat.min (Z.to_nat (ee_argv_len e)) MAX_ARGS_CAPTURE in
  let n := Nat.min (slots * MAX_ARG_STR_LEN) MAX_ARGV_LEN in
  (Z.of_nat slots, copy_into (zeroed MAX_ARGV_LEN) (take n (ee_argv e))).

Definition env_field (e : ExecEvent) : Z * bytes * bool :=
  let slots := Nat.min (Z.to_nat (ee_env_len e)) MAX_ENV_CAPTURE in
  let n := Nat.min (slots * MAX_ENV_STR_LEN) MAX_ENV_LEN in
  let out := copy_into (zeroed MAX_ENV_LEN) (take n (ee_env e)) in
  let '(out, redacted) := redact_env_slots out (Z.of_nat slots) in
  (Z.of_nat slots, out, redacted).

(** The two truncation flags, computed the same way for the telemetry event and
    for the attributes. *)
Definition argv_truncated_of (e : ExecEvent) : bool :=
  negb (bool_decide (ee_argv_trunc_mask e = 0))
  || status_bit (ee_argv_flags e) (Z.lor ARGV_FLAG_ARGC_TRUNCATED ARGV_FLAG_PROBE_FAULT)
  || field_unknown e CAPTURE_ARGV.
Definition env_truncated_of (e : ExecEvent) : bool :=
  negb (bool_decide (ee_env_trunc_mask e = 0))
  || status_bit (ee_env_flags e)
       (Z.lor (Z.lor ENV_FLAG_COUNT_TRUNCATED ENV_FLAG_PROBE_FAULT) ENV_FLAG_SLOTS_FULL)
  || field_unknown e CAPTURE_ENV.

Definition exec_event_to_security_telemetry (e : ExecEvent) : SecurityTelemetryEvent :=
  let '(argv_len, argv) := argv_field e in
  let '(env_len, env, env_redacted) := env_field e in
  {| se_pid := scalar_or_zero (ee_pid e) (field_unknown e CAPTURE_TGID);
     se_ppid := scalar_or_zero (ee_ppid e) (field_unknown e CAPTURE_PPID);
     se_ppid_unresolved := field_unknown e CAPTURE_PPID;
     se_uid := scalar_or_zero (ee_uid e) (field_unknown e CAPTURE_UID);
     se_euid := scalar_or_zero (ee_euid e) (field_unknown e CAPTURE_EUID);
     se_comm := string_field (ee_comm e) CAPTURE_COMM (ee_capture_status e);
     se_filename := string_field (ee_filename e) CAPTURE_FILENAME (ee_capture_status e);
     se_argv_len := argv_len;
     se_argv_truncated := argv_truncated_of e;
     se_argv_trunc_mask := ee_argv_trunc_mask e;
     se_argv := argv;
     se_env_len := env_len;
     se_env_truncated := env_truncated_of e;
     se_env_trunc_mask := ee_env_trunc_mask e;
     se_env_redacted := env_redacted;
     se_env := env |}.

(** ** OTel attributes *)
Definition bit_name (bit : Z) : bytes :=
  if bool_decide (bit = CAPTURE_PPID) then lit "ppid_probe_fault"
  else if bool_decide (bit = CAPTURE_TGID) then lit "tgid_probe_fault"
  else if bool_decide (bit = CAPTURE_UID) then lit "uid_probe_fault"
  else if bool_decide (bit = CAPTURE_EUID) then lit "euid_probe_fault"
  else if bool_decide (bit = CAPTURE_GID) then lit "gid_probe_fault"
  else if bool_decide (bit = CAPTURE_COMM) then lit "comm_probe_fault"
  else if bool_decide (bit = CAPTURE_FILENAME) then lit "filename_probe_fault"
  else if bool_decide (bit = CAPTURE_ARGS_COUNT) then lit "args_count_probe_fault"
  else if bool_decide (bit = CAPTURE_ARGV) then lit "argv_probe_fault"
  else if bool_decide (bit = CAPTURE_ENV) then lit "env_probe_fault"
  else if bool_decide (bit = CAPTURE_CONTAINER_ID) then lit "cgroup_probe_fault"
  else if bool_decide (bit = CAPTURE_NAMESPACE_ID) then lit "namespace_probe_fault"
  else if bool_decide (bit = CAPTURE_TIMESTAMP) then lit "timestamp_probe_fault"
  else lit "field_capture_fault".

Definition enforcement_label (action : Z) : bytes :=
  if bool_decide (action = ENFORCEMENT_ALLOWED) then lit "allowed"
  else if bool_decide (action = ENFORCEMENT_BLOCKED) then lit "blocked"
  else lit "unknown".

Definition display_scalar (value bit status : Z) : bytes :=
  if status_bit status bit then lit "UNKNOWN:" ++ bit_name bit else to_dec value.
Definition display_scalar_u64 (value bit status : Z) : bytes :=
  if status_bit status bit then lit "UNKNOWN:" ++ bit_name bit else to_dec value.

Definition cstr_lossy (s : bytes) : bytes :=
  let raw := cstr_bytes s in
  if starts_with raw UNKNOWN_SENTINEL then lit "UNKNOWN" else from_utf8_lossy raw.

Definition display_string (s : bytes) (bit status : Z) (field : bytes) : bytes :=
  if status_bit status bit then lit "UNKNOWN:" ++ field ++ lit "_capture_fault" else cstr_lossy s.

Definition display_env (e : ExecEvent) : bytes * bool :=
  let '(_, env, redacted) := env_field e in
  let formatted := format_env_slots env (ee_env_len e) in
  if field_unknown e CAPTURE_ENV && is_empty formatted
  then (lit "UNKNOWN:" ++ bit_name CAPTURE_ENV, redacted)
  else (formatted, redacted).

Definition display_argv (e : ExecEvent) : bytes :=
  let formatted := format_argv_cmdline (ee_argv e) (ee_argv_len e) in
  if field_unknown e CAPTURE_ARGV && is_empty formatted then lit "UNKNOWN:" ++ bit_name CAPTURE_ARGV
  else if field_unknown e CAPTURE_ARGV && negb (is_empty formatted)
  then formatted ++ lit " [truncated]"
  else formatted.

(** [bool::to_string]. *)
Definition show_bool (b : bool) : bytes := if b then lit "true" else lit "false".

(** The insertions in source order; the last one of a key wins. *)
Definition otel_pairs (e : ExecEvent) : list (bytes * bytes) :=
  let st := ee_capture_status e in
  let '(env_export, env_redacted) := display_env e in
  [(lit "neuromesh.event.type", lit "execve");
   (lit "neuromesh.exec.syscall", if is_execveat e then lit "execveat" else lit "execve")] ++
  (if path_from_fd e then [(lit "neuromesh.exec.path_from_fd", lit "true")] else []) ++
  [(lit "neuromesh.schema.version", to_dec (ee_schema_version e));
   (lit "neuromesh.pid", to_dec (ee_pid e));
   (lit "neuromesh.tgid", to_dec (ee_tgid e));
   (lit "neuromesh.ppid", display_scalar (ee_ppid e) CAPTURE_PPID st)] ++
  (if field_unknown e CAPTURE_PPID then [(lit "neuromesh.ppid_unresolved", lit "true")] else []) ++
  [(lit "neuromesh.uid", display_scalar (ee_uid e) CAPTURE_UID st);
   (lit "neuromesh.euid", display_scalar (ee_euid e) CAPTURE_EUID st);
   (lit "neuromesh.gid", display_scalar (ee_gid e) CAPTURE_GID st);
   (lit "neuromesh.comm", display_string (ee_comm e) CAPTURE_COMM st (lit "comm"));
   (lit "neuromesh.filename", display_string (ee_filename e) CAPTURE_FILENAME st (lit "filename"));
   (lit "neuromesh.args_count", display_scalar (ee_args_count e) CAPTURE_ARGS_COUNT st);
   (lit "neuromesh.argv", display_argv e);
   (lit "neuromesh.argv_truncated", show_bool (argv_truncated_of e));
   (lit "neuromesh.argv_trunc_mask", lit "0x" ++ to_hex 2 (ee_argv_trunc_mask e));
   (lit "neuromesh.env", env_export);
   (lit "neuromesh.env_truncated", show_bool (env_truncated_of e));
   (lit "neuromesh.env_trunc_mask", lit "0x" ++ to_hex 2 (ee_env_trunc_mask e));
   (lit "neuromesh.env_redacted", show_bool env_redacted);
   (lit "neuromesh.env_ptr_count", to_dec (ee_env_ptr_count e));
   (lit "neuromesh.container_id",
      display_string (ee_container_id e) CAPTURE_CONTAINER_ID st (lit "container_id"));
   (lit "neuromesh.namespace_id", display_scalar_u64 (ee_namespace_id e) CAPTURE_NAMESPACE_ID st);
   (lit "neuromesh.timestamp_ns", display_scalar_u64 (ee_timestamp_ns e) CAPTURE_TIMESTAMP st);
   (lit "neuromesh.enforcement_action", enforcement_label (ee_enforcement_action e));
   (lit "neuromesh.capture_status", lit "0x" ++ to_hex 4 st)].
Definition exec_event_otel_attributes (e : ExecEvent) : gmap bytes bytes :=
  foldl (λ m kv, <[kv.1 := kv.2]> m) ∅ (otel_pairs e).

(** ** The hot-path observers *)
Definition INFO_SAMPLE_INTERVAL : Z := 10000.

(** [ProcessEventHandler::observe]: the new counter and whether the throughput
    sample is logged. *)
Definition observe (seen : Z) : Z * bool :=
  let seen := wrapping_add 64 seen 1 in
  (seen, bool_decide (seen mod INFO_SAMPLE_INTERVAL = 0)).

(** [NetworkEventHandler::observe] keeps its own counter the same way. *)
Definition network_observe (seen : Z) : Z * bool := observe seen.

(** [drain_events] over the events a stream still holds. *)
Fixpoint drain_events (queue : list ExecEvent) (seen : Z) : Z :=
  match queue with
  | [] => seen
  | _ :: queue => drain_events queue (observe seen).1
  end.

(** ** Network events *)
Record NetworkEvent : Type := mkNetworkEvent {
  ne_pid : Z;
  ne_uid : Z;
  ne_dest_ip : Z;
  ne_dest_port : Z
}.

Definition NETWORK_EVENT_SIZE : nat := 14.

Definition from_bytes_unaligned (s : bytes) : option NetworkEvent :=
  if bool_decide (length s < NETWORK_EVENT_SIZE)%nat then None
  else Some {| ne_pid := le_decode (slice 0 4 s);
               ne_uid := le_decode (slice 4 4 s);
               ne_dest_ip := le_decode (slice 8 4 s);
               ne_dest_port := le_decode (slice 12 2 s) |}.
Definition decode_network_event (s : bytes) : option NetworkEvent := from_bytes_unaligned s.

Definition fields (n : NetworkEvent) : Z * Z * Z * Z :=
  (ne_pid n, ne_uid n, ne_dest_ip n, ne_dest_port n).

(** ** Process/network correlation *)
Record EnrichedNetworkEvent : Type := mkEnrichedNetworkEvent {
  en_pid : Z;
  en_uid : Z;
  en_dest_ip : Z;
  en_dest_port : Z;
  en_process_name : bytes
}.

Definition argv0_to_process_name (argv0 : bytes) : bytes :=
  from_utf8_lossy (take (position_or_len 0 argv0) argv0).

(** The cache of process names by pid. *)
Definition register_process (pid : Z) (argv0 : bytes) (processes : gmap Z bytes) : gmap Z bytes :=
  if bool_decide (pid = 0) then processes
  else <[pid := argv0_to_process_name argv0]> processes.

Definition correlate (processes : gmap Z bytes) (event : NetworkEvent) : option EnrichedNetworkEvent :=
  let '(pid, uid, dest_ip, dest_port) := fields event in
  process_name ← processes !! pid;
  Some {| en_pid := pid; en_uid := uid; en_dest_ip := dest_ip; en_dest_port := dest_port;
          en_process_name := process_name |}.

(** [addr.to_be_bytes()] printed with dots. *)
Definition format_ipv4 (addr : Z) : bytes :=
  match reverse (le_encode 4 addr) with
  | [a; b; c; d] => to_dec a ++ [46] ++ to_dec b ++ [46] ++ to_dec c ++ [46] ++ to_dec d
  | _ => []
  end.

(** [u16::from_be] on a little-endian machine. *)
Definition u16_from_be (port : Z) : Z := le_decode (reverse (le_encode 2 port)).

(** The line [EnrichedNetworkEvent::log_correlated] emits. *)
Definition log_correlated (n : EnrichedNetworkEvent) : bytes :=
  lit "Process " ++ en_process_name n ++ lit " (PID " ++ to_dec (en_pid n) ++ lit ") connected to "
  ++ format_ipv4 (en_dest_ip n) ++ lit ":" ++ to_dec (u16_from_be (en_dest_port n)).

(** ** The packed layout *)

(** A run of consecutive slices, starting at [off]. *)
Fixpoint slices (off : nat) (widths : list nat) (s : bytes) : list bytes :=
  match widths with
  | [] => []
  | w :: widths => slice off w s :: slices (off + w) widths s
  end.

Lemma concat_slices off widths s : concat (slices off widths s) = slice off (sum_list widths) s.
Proof.
  revert off. induction widths as [|w widths IH]; intros off; [done|].
  cbn [slices concat sum_list fold_right]. rewrite IH. unfold slice, sum_list, sum_list_with.
  rewrite <- drop_drop, take_take_drop. done.
Qed.

(** Slicing the concatenation of pieces at their lengths gives the pieces back. *)
Lemma slices_concat off (pieces : list bytes) rest pre :
  length pre = off →
  slices off (map length pieces) (pre ++ concat pieces ++ rest) = pieces.
Proof.
  revert off pre. induction pieces as [|p pieces IH]; intros off pre <-; [done|].
  cbn [map slices concat]. f_equal.
  - unfold slice. by rewrite drop_app_length, <- app_assoc, take_app_length.
  - pose proof (IH (length pre + length p)%nat (pre ++ p) (length_app _ _)) as H.
    by rewrite <- !app_assoc in H |- *.
Qed.

Lemma le_encode_decode s : Forall is_byte s → le_encode (length s) (le_decode s) = s.
Proof.
  unfold is_byte. induction 1 as [|b s Hb Hs IH]; [done|]. cbn [length le_encode le_decode].
  rewrite (Z.mul_comm 256), Z.mod_add, Z.div_add, Z.mod_small, Z.div_small, Z.add_0_l by lia.
  by rewrite IH.
Qed.

Definition field_widths : list nat :=
  [2; 1; 1; 2; 2; 8; 4; 4; 4; 4; 4; 4; 16; 256; 4; 2; 1; 1; 256; 2; 1; 1; 2; 2; 256; 64; 4; 8; 8;
   1; 2; 5]%nat.

Lemma length_slice off n s : (off + n ≤ length s)%nat → length (slice off n s) = n.
Proof. unfold slice. rewrite length_take, length_drop. lia. Qed.

Lemma Forall_slice off n s : Forall is_byte s → Forall is_byte (slice off n s).
Proof. intros. unfold slice. by apply Forall_take, Forall_drop. Qed.
#[export] Hint Resolve Forall_slice : neuro.

(** The fields of a typed event have the declared widths. *)
Lemma typed_pieces e :
  event_typed e → map length (map field_bytes (exec_event_fields e)) = field_widths.
Proof.
  intros He. transitivity (map field_size (exec_event_fields e)); [|done].
  rewrite map_map. unfold event_typed in He. induction He as [|f fs Hf _ IH]; [done|].
  cbn [map]. by rewrite IH, field_bytes_length.
Qed.

Lemma typed_int_decode w v : field_typed (FInt w v) = true → le_decode (le_encode w v) = v.
Proof. intros H. apply le_decode_encode. by apply bool_decide_eq_true in H. Qed.

Lemma cons_eq_split {A} (x y : A) l k : x :: l = y :: k → x = y ∧ l = k.
Proof. by intros [= -> ->]. Qed.

(** Reading the record back from its slices. *)
Lemma read_exec_event_slices e s :
  event_typed e → slices 0 field_widths s = map field_bytes (exec_event_fields e) →
  read_exec_event s = e.
Proof.
  intros He Hs. unfold event_typed, exec_event_fields in He.
  unfold exec_event_fields, field_widths in Hs. cbn [slices map field_bytes Nat.add] in Hs.
  repeat (apply cons_eq_split in Hs as [? Hs]). repeat (apply Forall_cons in He as [? He]). unfold read_exec_event.
  repeat match goal with H : slice ?a ?b s = _ |- _ => rewrite H; clear H end.
  rewrite !typed_int_decode by done. by destruct e.
Qed.

(** The bytes of the record read from a slice are its first 932 bytes. *)
Lemma read_exec_event_bytes s :
  Forall is_byte s → (932 ≤ length s)%nat →
  map field_bytes (exec_event_fields (read_exec_event s)) = slices 0 field_widths s ∧
  event_typed (read_exec_event s).
Proof.
  intros Hb Hl.
  assert (∀ off n, (off + n ≤ 932)%nat →
    le_encode n (le_decode (slice off n s)) = slice off n s) as Hi.
  { intros off n Hn. rewrite <- (length_slice off n s) at 1 by lia.
    apply le_encode_decode. by apply Forall_slice. }
  assert (∀ off n, (off + n ≤ 932)%nat →
    0 ≤ le_decode (slice off n s) < 2 ^ (8 * Z.of_nat n)) as Hr.
  { intros off n Hn. rewrite <- (length_slice off n s) at 3 by lia.
    apply le_decode_range. by apply Forall_slice. }
  split.
  - unfold exec_event_fields, read_exec_event, field_widths. cbn -[slice le_encode le_decode].
    by rewrite !Hi by lia.
  - unfold event_typed, exec_event_fields, read_exec_event.
    cbn -[slice le_decode field_typed]. repeat apply Forall_cons_2; try apply Forall_nil_2.
    all: first [apply typed_arr; [apply length_slice; lia|by apply Forall_slice]
               |apply typed_int; apply Hr; lia].
Qed.

Lemma length_exec_event_bytes e : event_typed e → length (exec_event_bytes e) = 932%nat.
Proof.
  intros He. unfold exec_event_bytes. rewrite length_concat.
  change (sum_list (map length (map field_bytes (exec_event_fields e))) = 932%nat).
  by rewrite (typed_pieces e He).
Qed.

Lemma decode_encoded e rest :
  event_typed e → is_valid e = true → ringbuf_decode_exec_event (exec_event_bytes e ++ rest) = Some e.
Proof.
  intros Ht Hv. pose proof (length_exec_event_bytes e Ht) as Hl.
  unfold ringbuf_decode_exec_event, decode_process_event, decode_exec_event, EXEC_EVENT_STRUCT_SIZE.
  rewrite bool_decide_eq_false_2 by (rewrite length_app; lia).
  rewrite (read_exec_event_slices e), Hv; [done|done|].
  rewrite <- (typed_pieces e Ht). apply (slices_concat 0 _ rest []). done.
Qed.

(** C17: the decoder accepts exactly the byte sequences that begin with the packed
    layout of a valid event and then returns that event; a record that is too
    short, of another schema version, type or size is refused. *)
Theorem exec_event_decode_exact s e :
  Forall is_byte s →
  ringbuf_decode_exec_event s = Some e ↔
  event_typed e ∧ is_valid e = true ∧ exec_event_bytes e `prefix_of` s.
Proof.
  intros Hb. split.
  - unfold ringbuf_decode_exec_event, decode_process_event, decode_exec_event, EXEC_EVENT_STRUCT_SIZE.
    case_bool_decide; [done|]. destruct (read_exec_event_bytes s Hb) as [Hs Ht]; [lia|].
    destruct (is_valid _) eqn:Hv; simpl; [|done]. intros [= <-]. split_and!; [done..|].
    unfold exec_event_bytes. rewrite Hs, concat_slices. exists (drop 932 s).
    unfold slice. by rewrite drop_0, take_drop.
  - intros (Ht & Hv & rest & ->). by apply decode_encoded.
Qed.

(** ** Slot formatting *)

(** Words separated by single spaces. *)
Fixpoint join_words (ws : list bytes) : bytes :=
  match ws with
  | [] => []
  | [w] => w
  | w :: ws => w ++ 32 :: join_words ws
  end.

(** The printed texts of slots [i .. i + n - 1]: the bytes up to the first NUL,
    empty slots left out. *)
Definition slot_text (width : nat) (buf : bytes) (i : nat) : bytes :=
  cstr_bytes (slice (i * width) width buf).
Definition slot_words (width n i : nat) (buf : bytes) : list bytes :=
  map from_utf8_lossy (filter (λ w, w ≠ []) (map (slot_text width buf) (seq i n))).

(** What the loop appends to [out]. *)
Definition append_word (out w : bytes) : bytes := (if is_empty out then out else out ++ [32]) ++ w.

Lemma cstr_bytes_nil s : cstr_bytes s = [] ↔ position_or_len 0 s = 0%nat.
Proof.
  unfold cstr_bytes. split; [|by intros ->]. intros H%(f_equal length).
  rewrite length_take in H. pose proof (position_or_len_le 0 s). simpl in H. lia.
Qed.

Lemma format_loop_words width slots i buf out :
  (0 < width)%nat → ((i + slots) * width ≤ length buf)%nat →
  format_loop width slots i buf out = foldl append_word out (slot_words width slots i buf).
Proof.
  intros Hw. revert i out. induction slots as [|slots IH]; intros i out Hl; [done|].
  cbn [format_loop]. rewrite bool_decide_eq_false_2 by nia.
  replace (Nat.min (i * width + width) (length buf) - i * width)%nat with width by nia.
  unfold slot_words. cbn [seq map]. fold (slot_words width slots (S i) buf).
  change (slot_text width buf i) with (cstr_bytes (slice (i * width) width buf)).
  set (slot := slice (i * width) width buf). pose proof (cstr_bytes_nil slot) as Hn.
  rewrite filter_cons. case_bool_decide as Hz.
  - rewrite decide_False by tauto. apply IH. nia.
  - rewrite decide_True by tauto. cbn [map foldl]. rewrite IH by nia. done.
Qed.

Lemma foldl_append_word out ws :
  Forall (λ w, w ≠ []) (out :: ws) → foldl append_word out ws = join_words (out :: ws).
Proof.
  revert out. induction ws as [|w ws IH]; intros out [Ho Hw]%Forall_cons; [done|].
  apply Forall_cons in Hw as [Hw Hws]. cbn [foldl]. unfold append_word at 2.
  rewrite (proj2 (is_empty_false out)) by done. rewrite IH.
  - destruct ws; cbn [join_words]; by rewrite <- !app_assoc.
  - apply Forall_cons. split; [|done]. by destruct out.
Qed.

Lemma join_words_foldl ws : Forall (λ w, w ≠ []) ws → foldl append_word [] ws = join_words ws.
Proof. destruct ws as [|w ws]; [done|]. intros H. cbn [foldl]. by apply foldl_append_word. Qed.

Lemma slot_words_nonempty width n i buf : Forall (λ w, w ≠ []) (slot_words width n i buf).
Proof.
  unfold slot_words. apply Forall_fmap, Forall_forall. intros w [Hw _]%list_elem_of_filter.
  by apply lossy_nonempty.
Qed.

(** The formatters print exactly the non-empty slots, separated by spaces. *)
Lemma format_env_slots_spec env env_len :
  length env = MAX_ENV_LEN →
  format_env_slots env env_len =
  join_words (slot_words MAX_ENV_STR_LEN (Nat.min (Z.to_nat env_len) MAX_ENV_CAPTURE) 0 env).
Proof.
  intros Hl. unfold format_env_slots. rewrite bool_decide_eq_true_2, take_ge by lia.
  rewrite format_loop_words, join_words_foldl; [done|apply slot_words_nonempty|..];
    unfold MAX_ENV_LEN, MAX_ENV_STR_LEN, MAX_ENV_CAPTURE in *; lia.
Qed.

Lemma format_argv_cmdline_spec argv argv_len :
  length argv = MAX_ARGV_LEN →
  format_argv_cmdline argv argv_len =
  join_words (slot_words MAX_ARG_STR_LEN (Nat.min (Z.to_nat argv_len) MAX_ARGS_CAPTURE) 0 argv).
Proof.
  intros Hl. unfold format_argv_cmdline. rewrite bool_decide_eq_true_2, take_ge by lia.
  rewrite format_loop_words, join_words_foldl; [done|apply slot_words_nonempty|..];
    unfold MAX_ARGV_LEN, MAX_ARG_STR_LEN, MAX_ARGS_CAPTURE in *; lia.
Qed.

(** ** The exported environment *)
Lemma typed_env e : event_typed e → length (ee_env e) = MAX_ENV_LEN.
Proof.
  intros He. by destruct (typed_arr_field e 24 256 (ee_env e) He eq_refl).
Qed.

(** The text of slot [j] once it is redacted. *)
Definition redacted_text (env : bytes) (j : nat) : bytes :=
  cstr_bytes (redact_env_slot (env_slot env j)).1.

Lemma env_slot_copied env n j :
  length env = MAX_ENV_LEN → (j < n ≤ MAX_ENV_CAPTURE)%nat →
  env_slot (copy_into (zeroed MAX_ENV_LEN) (take (Nat.min (n * MAX_ENV_STR_LEN) MAX_ENV_LEN) env)) j
  = env_slot env j.
Proof.
  unfold MAX_ENV_LEN, MAX_ENV_STR_LEN, MAX_ENV_CAPTURE. intros Hl Hj.
  unfold env_slot, slice, copy_into, MAX_ENV_STR_LEN.
  rewrite drop_app_le by (rewrite length_take; lia).
  rewrite take_app_le by (rewrite length_drop, length_take; lia).
  rewrite skipn_firstn_comm, take_take. f_equal. lia.
Qed.

Lemma env_field_spec e :
  event_typed e →
  let n := Nat.min (Z.to_nat (ee_env_len e)) MAX_ENV_CAPTURE in
  ∃ env', env_field e = (Z.of_nat n, env', existsb (λ j, (redact_env_slot (env_slot (ee_env e) j)).2) (seq 0 n))
    ∧ length env' = MAX_ENV_LEN
    ∧ map (slot_text MAX_ENV_STR_LEN env') (seq 0 n) = map (redacted_text (ee_env e)) (seq 0 n).
Proof.
  intros He n. unfold env_field. fold n.
  set (out := copy_into _ _). pose proof (typed_env e He) as Hl.
  assert (length out = MAX_ENV_LEN) as Ho.
  { unfold out. rewrite length_copy_into; rewrite length_zeroed; [done|]. rewrite length_take. lia. }
  assert (∀ j, (j < n)%nat → env_slot out j = env_slot (ee_env e) j) as Hs.
  { intros j Hj. apply env_slot_copied; [done|]. unfold n. lia. }
  unfold redact_env_slots. replace (Nat.min (Z.to_nat (Z.of_nat n)) MAX_ENV_CAPTURE) with n by lia.
  pose proof (redact_loop_spec n 0 out false Ho) as H.
  destruct (redact_loop n 0 out false) as [env' any]. destruct H as (H1 & H2 & ->); [lia|].
  exists env'. split_and!; [|done|].
  - f_equal. simpl. apply existsb_ext_elem. intros j [_ Hj]%elem_of_seq. by rewrite Hs.
  - apply map_ext_in. intros j [_ Hj]%in_seq. unfold slot_text, redacted_text.
    change (slice (j * MAX_ENV_STR_LEN) MAX_ENV_STR_LEN env') with (env_slot env' j).
    rewrite H2, bool_decide_eq_true_2 by lia. by rewrite Hs.
Qed.

(** The words of an event's environment as they are exported. *)
Definition env_words (e : ExecEvent) : list bytes :=
  let n := Nat.min (Z.to_nat (ee_env_len e)) MAX_ENV_CAPTURE in
  map from_utf8_lossy (filter (λ w, w ≠ []) (map (redacted_text (ee_env e)) (seq 0 n))).

Lemma env_field_words e :
  event_typed e →
  ∃ len env' redacted, env_field e = (len, env', redacted) ∧
    format_env_slots env' len = join_words (env_words e) ∧
    format_env_slots env' (ee_env_len e) = join_words (env_words e) ∧
    redacted = existsb (λ j, (redact_env_slot (env_slot (ee_env e) j)).2)
                 (seq 0 (Nat.min (Z.to_nat (ee_env_len e)) MAX_ENV_CAPTURE)).
Proof.
  intros He. destruct (env_field_spec e He) as (env' & Hf & Hl & Hw).
  eexists _, env', _. split; [exact Hf|]. rewrite !format_env_slots_spec by done.
  replace (Nat.min (Z.to_nat (Z.of_nat _)) MAX_ENV_CAPTURE)
    with (Nat.min (Z.to_nat (ee_env_len e)) MAX_ENV_CAPTURE) by lia.
  unfold slot_words, env_words. by rewrite Hw.
Qed.

Ltac otel_lookup :=
  unfold exec_event_otel_attributes, otel_pairs;
  repeat (first [rewrite lookup_insert_eq; reflexivity
                |rewrite lookup_insert_ne by (apply (bool_decide_eq_false_1 (_ = _)); vm_compute; reflexivity)]).

(** What leaves the agent of a record's environment is the redacted text: the
    line of the alert and the exported attribute both consist of the non-empty
    captured slots after redaction, and the redaction flag is set exactly when one
    of them was redacted. The attribute names the capture fault when nothing was
    captured. *)
Theorem env_export_redacted e :
  event_typed e →
  let t := exec_event_to_security_telemetry e in
  let text := join_words (env_words e) in
  let redacted := existsb (λ j, (redact_env_slot (env_slot (ee_env e) j)).2)
                    (seq 0 (Nat.min (Z.to_nat (ee_env_len e)) MAX_ENV_CAPTURE)) in
  format_env_slots (se_env t) (se_env_len t) = text ∧
  se_env_redacted t = redacted ∧
  exec_event_otel_attributes e !! lit "neuromesh.env" =
    Some (if field_unknown e CAPTURE_ENV && is_empty text
          then lit "UNKNOWN:env_probe_fault" else text) ∧
  exec_event_otel_attributes e !! lit "neuromesh.env_redacted" = Some (show_bool redacted).
Proof.
  intros He. cbv zeta. destruct (env_field_words e He) as (len & env' & red & Hf & H1 & H2 & <-).
  unfold exec_event_to_security_telemetry. rewrite Hf. destruct (argv_field e) as [al av]. simpl.
  split_and!; [done|done|..];
    unfold exec_event_otel_attributes, otel_pairs, display_env; rewrite Hf, H2;
    destruct (_ && is_empty _); destruct (path_from_fd e), (field_unknown e CAPTURE_PPID);
    cbn [app foldl fst snd]; otel_lookup.
Qed.

(** ** The address of a logged connection *)

(** The record the kernel program writes for a connection of [pid] to the address
    [a.b.c.d], port [256 * p1 + p0]: both in network byte order. *)
Definition connect_record (pid uid a b c d p1 p0 : Z) : bytes :=
  le_encode 4 pid ++ le_encode 4 uid ++ [a; b; c; d] ++ [p1; p0].

Lemma format_ipv4_octets a b c d :
  Forall is_byte [a; b; c; d] →
  format_ipv4 (le_decode [a; b; c; d]) =
  to_dec d ++ [46] ++ to_dec c ++ [46] ++ to_dec b ++ [46] ++ to_dec a.
Proof. intros H. apply le_encode_decode in H. cbn [length] in H. unfold format_ipv4. by rewrite H. Qed.

Lemma u16_from_be_bytes p1 p0 :
  Forall is_byte [p1; p0] → u16_from_be (le_decode [p1; p0]) = 256 * p1 + p0.
Proof. intros H. apply le_encode_decode in H. cbn [length] in H. unfold u16_from_be. rewrite H. cbn. lia. Qed.

Lemma connect_record_decoded pid uid a b c d p1 p0 :
  uint 32 pid → uint 32 uid →
  decode_network_event (connect_record pid uid a b c d p1 p0) =
  Some (mkNetworkEvent pid uid (le_decode [a; b; c; d]) (le_decode [p1; p0])).
Proof.
  intros Hp Hu. unfold decode_network_event, from_bytes_unaligned.
  rewrite bool_decide_eq_false_2 by (unfold NETWORK_EVENT_SIZE; simpl; lia).
  rewrite <- (le_decode_encode 4 pid) at 5 by done. rewrite <- (le_decode_encode 4 uid) at 5 by done.
  reflexivity.
Qed.

(** The log line of a correlated connection prints the octets of the
    destination address in reverse order, while the port is printed as it is: a
    connection to a.b.c.d is reported as one to d.c.b.a. *)
Theorem logged_address_reversed processes name pid uid a b c d p1 p0 :
  uint 32 pid → uint 32 uid → Forall is_byte [a; b; c; d; p1; p0] →
  processes !! pid = Some name →
  log_correlated <$> (decode_network_event (connect_record pid uid a b c d p1 p0) ≫= correlate processes) =
  Some (lit "Process " ++ name ++ lit " (PID " ++ to_dec pid ++ lit ") connected to "
        ++ to_dec d ++ [46] ++ to_dec c ++ [46] ++ to_dec b ++ [46] ++ to_dec a
        ++ lit ":" ++ to_dec (256 * p1 + p0)).
Proof.
  intros Hp Hu Hb Hn. rewrite connect_record_decoded by done. cbn [mbind option_bind].
  unfold correlate, fields. cbn [ne_pid ne_uid ne_dest_ip ne_dest_port]. rewrite Hn.
  cbn [mbind option_bind fmap option_fmap option_map]. unfold log_correlated.
  cbn [en_pid en_dest_ip en_dest_port en_process_name].
  destruct (proj1 (Forall_app _ [a; b; c; d] [p1; p0]) Hb) as [Ha Hq].
  rewrite format_ipv4_octets, u16_from_be_bytes by done.
  by rewrite <- !app_assoc.
Qed.

Definition demo_exec_event : ExecEvent :=
  set_filename (copy_into (zeroed MAX_FILENAME_LEN) (lit "/tmp/x")) ExecEvent_default.

Lemma exec_event_decode_exact_witness :
  ringbuf_decode_exec_event (exec_event_bytes demo_exec_event ++ [1; 2; 3]) = Some demo_exec_event.
Proof.
  apply exec_event_decode_exact.
  - apply (bool_decide_eq_true_1 (Forall is_byte _)). vm_compute. reflexivity.
  - split_and!.
    + apply (bool_decide_eq_true_1 (event_typed _)). vm_compute. reflexivity.
    + reflexivity.
    + by exists [1; 2; 3].
Defined.

(** The same record with one captured variable that holds an access key. *)
Definition demo_secret_event : ExecEvent :=
  read_exec_event
    (write_at (write_at (exec_event_bytes demo_exec_event) 576 [1]) 584 (lit "LD_AUDIT=AKIA1234")).

Lemma env_export_redacted_witness :
  exec_event_otel_attributes demo_secret_event !! lit "neuromesh.env" = Some (lit "LD_AUDIT=REDACTED").
Proof.
  pose proof (env_export_redacted demo_secret_event) as H. cbv zeta in H.
  destruct H as (_ & _ & H & _).
  - apply (bool_decide_eq_true_1 (event_typed _)). vm_compute. reflexivity.
  - rewrite H. vm_compute. reflexivity.
Defined.

Lemma logged_address_reversed_witness :
  log_correlated <$> (decode_network_event (connect_record 7 1000 203 0 113 1 1 187)
                        ≫= correlate {[ 7 := lit "curl" ]}) =
  Some (lit "Process curl (PID 7) connected to 1.113.0.203:443").
Proof.
  rewrite (logged_address_reversed _ (lit "curl")).
  - vm_compute. reflexivity.
  - lia.
  - lia.
  - apply (bool_decide_eq_true_1 (Forall is_byte _)). vm_compute. reflexivity.
  - vm_compute. reflexivity.
Defined.
