(* ===== verification/Detection.v ===== *)
(** * Detection: rules, burst detector, pipeline and alert stream

    [apps/agent-ebpf-sensor/src/rules.rs], [normalizer.rs], [pipeline.rs],
    [telemetry_stream.rs] and the ring-buffer arm of [event_loop.rs]: a decoded
    kernel record becomes a telemetry event, runs through the spawn-burst detector
    and the path rules, and its alerts are printed and queued for the exporter.

    Clock readings are arguments, one per reading; the JSON serialiser, the
    RFC 3339 parser and the Kafka client are parameters. *)

From stdpp Require Import sorting.
From S2P Require Import Prelude RustStd Common Bpf PathDeny LsmHook EnvCapture ExecMapper.

(** ** [rules.rs] *)
Definition SEVERITY_CRITICAL_ALERT : bytes := lit "CRITICAL_ALERT".
Definition WHITELIST_PATHS : list bytes :=
  [lit "/bin/ls"; lit "/bin/cat"; lit "/usr/bin/git"; lit "/usr/bin/bash"].
Definition BLACKLIST_PREFIXES : list bytes := [lit "/tmp/"; lit "/dev/shm/"; lit "/var/tmp/"].

Record SiemAlert : Type := mkSiemAlert {
  sa_timestamp : bytes;
  sa_severity : bytes;
  sa_rule_id : bytes;
  sa_rule_name : bytes;
  sa_pid : Z;
  sa_ppid : Z;
  sa_uid : Z;
  sa_euid : Z;
  sa_comm : bytes;
  sa_binary_path : bytes;
  sa_argv : bytes;
  sa_argv_truncated : bool;
  sa_argv_trunc_mask : Z;
  sa_env : bytes;
  sa_env_truncated : bool;
  sa_env_redacted : bool;
  sa_matched_pattern : bytes
}.

Inductive RuleVerdict : Type :=
| Suppressed
| Alert (a : SiemAlert).

Definition extract_filename (e : SecurityTelemetryEvent) : bytes :=
  match cstr_until_nul (se_filename e) with
  | Some s => from_utf8_lossy s
  | None => lit "[Invalid Path]"
  end.
Definition extract_comm (e : SecurityTelemetryEvent) : bytes :=
  match cstr_until_nul (se_comm e) with
  | Some s => from_utf8_lossy s
  | None => lit "[Unknown]"
  end.

(** The copy of [format_argv_cmdline] private to [rules.rs] is the same text as
    the one of [exec_mapper.rs]. *)
Definition rules_format_argv_cmdline : bytes → Z → bytes := format_argv_cmdline.

Definition is_whitelisted (path : bytes) : bool := bool_decide (path ∈ WHITELIST_PATHS).
Definition blacklist_match (path : bytes) : option bytes :=
  List.find (λ prefix, starts_with path prefix) BLACKLIST_PREFIXES.

(** [RuleEngine::evaluate]; [now] is [Utc::now().to_rfc3339()]. *)
Definition evaluate (now : bytes) (e : SecurityTelemetryEvent) : RuleVerdict :=
  let path := extract_filename e in
  if is_whitelisted path then Suppressed
  else match blacklist_match path with
       | Some prefix =>
           Alert {| sa_timestamp := now;
                    sa_severity := SEVERITY_CRITICAL_ALERT;
                    sa_rule_id := lit "NEUROMESH-EXEC-BLACKLIST-PATH";
                    sa_rule_name := lit "Execution from ephemeral malware staging directory";
                    sa_pid := se_pid e;
                    sa_ppid := se_ppid e;
                    sa_uid := se_uid e;
                    sa_euid := se_euid e;
                    sa_comm := extract_comm e;
                    sa_binary_path := path;
                    sa_argv := rules_format_argv_cmdline (se_argv e) (se_argv_len e);
                    sa_argv_truncated := se_argv_truncated e;
                    sa_argv_trunc_mask := se_argv_trunc_mask e;
                    sa_env := format_env_slots (se_env e) (se_env_len e);
                    sa_env_truncated := se_env_truncated e;
                    sa_env_redacted := se_env_redacted e;
                    sa_matched_pattern := prefix |}
       | None => Suppressed
       end.

(** ** [normalizer.rs] *)
Definition SEVERITY_BEHAVIOR_ALERT : bytes := lit "BEHAVIOR_ALERT".

Record BehaviorAlert : Type := mkBehaviorAlert {
  ba_timestamp : bytes;
  ba_severity : bytes;
  ba_rule_id : bytes;
  ba_rule_name : bytes;
  ba_ppid : Z;
  ba_ppid_unresolved : bool;
  ba_spawn_count : nat;
  ba_window_secs : Z;
  ba_last_pid : Z;
  ba_last_comm : bytes;
  ba_last_binary_path : bytes
}.

(** A [Duration] or an [Instant] is a number of nanoseconds. *)
Record DataNormalizer : Type := mkDataNormalizer {
  dn_window : Z;
  dn_burst_threshold : nat;
  dn_parent_spawns : gmap Z (list Z);
  dn_unresolved_comm_spawns : gmap bytes (list Z);
  dn_batch : list SecurityTelemetryEvent;
  dn_batch_limit : nat
}.

Definition NANOS : Z := 1000000000.

Definition with_config (window : Z) (burst_threshold batch_limit : nat) : DataNormalizer :=
  {| dn_window := window;
     dn_burst_threshold := burst_threshold;
     dn_parent_spawns := ∅;
     dn_unresolved_comm_spawns := ∅;
     dn_batch := [];
     dn_batch_limit := batch_limit |}.
Definition DataNormalizer_new : DataNormalizer := with_config (2 * NANOS) 8 64.

(** One reading of the monotonic and of the wall clock. *)
Record Tick : Type := mkTick { tk_now : Z; tk_utc : bytes }.

(** [now.duration_since(earlier)], zero for a later [earlier]. *)
Definition duration_since (now earlier : Z) : Z := Z.max 0 (now - earlier).

(** [entries.retain(...); entries.push(now)]. *)
Definition touch (now window : Z) (entries : list Z) : list Z :=
  filter (λ t, duration_since now t < window) entries ++ [now].

Definition set_parent_spawns (m : gmap Z (list Z)) (d : DataNormalizer) : DataNormalizer :=
  {| dn_window := dn_window d; dn_burst_threshold := dn_burst_threshold d;
     dn_parent_spawns := m; dn_unresolved_comm_spawns := dn_unresolved_comm_spawns d;
     dn_batch := dn_batch d; dn_batch_limit := dn_batch_limit d |}.
Definition set_unresolved_comm_spawns (m : gmap bytes (list Z)) (d : DataNormalizer) : DataNormalizer :=
  {| dn_window := dn_window d; dn_burst_threshold := dn_burst_threshold d;
     dn_parent_spawns := dn_parent_spawns d; dn_unresolved_comm_spawns := m;
     dn_batch := dn_batch d; dn_batch_limit := dn_batch_limit d |}.
Definition set_batch (b : list SecurityTelemetryEvent) (d : DataNormalizer) : DataNormalizer :=
  {| dn_window := dn_window d; dn_burst_threshold := dn_burst_threshold d;
     dn_parent_spawns := dn_parent_spawns d;
     dn_unresolved_comm_spawns := dn_unresolved_comm_spawns d;
     dn_batch := b; dn_batch_limit := dn_batch_limit d |}.

Definition behavior_alert (utc : bytes) (window : Z) (e : SecurityTelemetryEvent)
    (spawn_count : nat) (ppid_unresolved : bool) : BehaviorAlert :=
  {| ba_timestamp := utc;
     ba_severity := SEVERITY_BEHAVIOR_ALERT;
     ba_rule_id := lit "NEUROMESH-EXEC-SPAWN-BURST";
     ba_rule_name :=
       if ppid_unresolved
       then lit "Abnormal process execution burst (ppid unresolved; correlated by comm)"
       else lit "Abnormal process execution burst from single parent";
     ba_ppid := if ppid_unresolved then 0 else se_ppid e;
     ba_ppid_unresolved := ppid_unresolved;
     ba_spawn_count := spawn_count;
     ba_window_secs := window / NANOS;
     ba_last_pid := se_pid e;
     ba_last_comm := extract_comm e;
     ba_last_binary_path := extract_filename e |}.

(** The end of [analyze_parent_frequency]: the threshold test and the alert. *)
Definition burst_verdict (tick : Tick) (d : DataNormalizer) (e : SecurityTelemetryEvent)
    (spawn_count : nat) (ppid_unresolved : bool) : option BehaviorAlert :=
  if bool_decide (spawn_count < dn_burst_threshold d)%nat then None
  else Some (behavior_alert (tk_utc tick) (dn_window d) e spawn_count ppid_unresolved).

Definition analyze_parent_frequency (tick : Tick) (e : SecurityTelemetryEvent) (d : DataNormalizer) :
    DataNormalizer * option BehaviorAlert :=
  let now := tk_now tick in
  if se_ppid_unresolved e then
    let entries := touch now (dn_window d) (default [] (dn_unresolved_comm_spawns d !! se_comm e)) in
    let d := set_unresolved_comm_spawns (<[se_comm e := entries]> (dn_unresolved_comm_spawns d)) d in
    (d, burst_verdict tick d e (length entries) true)
  else if bool_decide (se_ppid e = 0) then (d, None)
  else
    let entries := touch now (dn_window d) (default [] (dn_parent_spawns d !! se_ppid e)) in
    let d := set_parent_spawns (<[se_ppid e := entries]> (dn_parent_spawns d)) d in
    (d, burst_verdict tick d e (length entries) false).

Definition flush (tick : Tick) (d : DataNormalizer) : DataNormalizer * option BehaviorAlert :=
  let last_event := last (dn_batch d) in
  let d := set_batch [] d in
  match last_event with
  | Some e => analyze_parent_frequency tick e d
  | None => (d, None)
  end.

Definition ingest (tick : Tick) (e : SecurityTelemetryEvent) (d : DataNormalizer) :
    DataNormalizer * option BehaviorAlert :=
  let d := set_batch (dn_batch d ++ [e]) d in
  if bool_decide (dn_batch_limit d ≤ length (dn_batch d))%nat then flush tick d
  else analyze_parent_frequency tick e d.

(** ** [pipeline.rs] *)
Record PipelineOutput : Type := mkPipelineOutput {
  po_behavior_alerts : list BehaviorAlert;
  po_siem_alerts : list SiemAlert
}.

(** The pipeline's only state is the normaliser; [siem_now] is the wall-clock
    reading of [evaluate]. *)
Definition process (tick : Tick) (siem_now : bytes) (e : SecurityTelemetryEvent) (d : DataNormalizer) :
    DataNormalizer * PipelineOutput :=
  let '(d, behavior) := ingest tick e d in
  (d, {| po_behavior_alerts := option_list behavior;
         po_siem_alerts := match evaluate siem_now e with Alert a => [a] | Suppressed => [] end |}).

Fixpoint process_batch (events : list (Tick * bytes * SecurityTelemetryEvent)) (d : DataNormalizer)
    (combined : PipelineOutput) : DataNormalizer * PipelineOutput :=
  match events with
  | [] => (d, combined)
  | (tick, siem_now, e) :: events =>
      let '(d, partial) := process tick siem_now e d in
      process_batch events d
        {| po_behavior_alerts := po_behavior_alerts combined ++ po_behavior_alerts partial;
           po_siem_alerts := po_siem_alerts combined ++ po_siem_alerts partial |}
  end.

(** ** [telemetry_stream.rs] *)
Definition DEFAULT_TOPIC : bytes := lit "neuromesh.telemetry.v1".
Definition SCHEMA_VERSION : bytes := lit "neuromesh.telemetry.v1".
Definition DEFAULT_CHANNEL_CAPACITY : Z := 8192.

Inductive StreamAlert : Type :=
| Behavior (a : BehaviorAlert)
| Critical (a : SiemAlert).

Record TelemetryStreamConfig : Type := mkTelemetryStreamConfig {
  tc_brokers : list bytes;
  tc_topic : bytes;
  tc_node_name : bytes;
  tc_channel_capacity : Z
}.

(** [TelemetryStreamConfig::from_env] over the five variables it reads. *)
Definition stream_config_from_env (brokers_var topic_var node_var hostname_var capacity_var : option bytes) :
    option TelemetryStreamConfig :=
  raw ← brokers_var;
  let brokers := filter (λ b, is_empty b = false) (map trim (split_byte 44 raw)) in
  if bool_decide (brokers = []) then None
  else Some {| tc_brokers := brokers;
               tc_topic := default DEFAULT_TOPIC topic_var;
               tc_node_name :=
                 match node_var with
                 | Some n => n
                 | None => default (lit "unknown-node") hostname_var
                 end;
               tc_channel_capacity := default DEFAULT_CHANNEL_CAPACITY (capacity_var ≫= parse_u64) |}.

(** The bounded channel and the counters behind [TelemetryStreamHandle]. *)
Record TelemetryStream : Type := mkTelemetryStream {
  ts_queue : list StreamAlert;
  ts_capacity : nat;
  ts_open : bool;
  ts_enqueued : Z;
  ts_dropped : Z
}.

(** [try_enqueue]: [try_send] succeeds on an open channel with room. *)
Definition try_enqueue (a : StreamAlert) (s : TelemetryStream) : TelemetryStream :=
  if ts_open s && bool_decide (length (ts_queue s) < ts_capacity s)%nat then
    {| ts_queue := ts_queue s ++ [a]; ts_capacity := ts_capacity s; ts_open := ts_open s;
       ts_enqueued := wrapping_add 64 (ts_enqueued s) 1; ts_dropped := ts_dropped s |}
  else
    {| ts_queue := ts_queue s; ts_capacity := ts_capacity s; ts_open := ts_open s;
       ts_enqueued := ts_enqueued s; ts_dropped := wrapping_add 64 (ts_dropped s) 1 |}.
Definition try_enqueue_behavior (a : BehaviorAlert) : TelemetryStream → TelemetryStream :=
  try_enqueue (Behavior a).
Definition try_enqueue_critical (a : SiemAlert) : TelemetryStream → TelemetryStream :=
  try_enqueue (Critical a).

(** The Kafka envelope; [J] is the type of JSON values. *)
Record TelemetryKafkaMessage (J : Type) : Type := mkTelemetryKafkaMessage {
  km_event_id : bytes;
  km_timestamp_ns : Z;
  km_node_name : bytes;
  km_schema_version : bytes;
  km_alert_type : bytes;
  km_payload : J
}.
Arguments mkTelemetryKafkaMessage {J}.

(** The publisher's client and counters. *)
Record Publisher : Type := mkPublisher {
  pb_connected : bool;
  pb_published : Z;
  pb_failed : Z
}.

(** What the Kafka client answers while one alert is handled: to the connection
    attempt (made only when there is no client) and to [produce]. *)
Record KafkaAnswer : Type := mkKafkaAnswer { ka_connect : bool; ka_produce : bool }.

Section encode.
Context {J : Type} (behavior_to_value : BehaviorAlert → result J)
  (siem_to_value : SiemAlert → result J)
  (message_to_vec : TelemetryKafkaMessage J → result bytes)
  (parse_from_rfc3339_ns : bytes → option (option Z)).

(** [parse_rfc3339_ns]: the parser's nanoseconds, zero when the text does not
    parse or the nanoseconds do not fit. *)
Definition parse_rfc3339_ns (timestamp : bytes) : Z :=
  match parse_from_rfc3339_ns timestamp with
  | Some ns => default 0 ns
  | None => 0
  end.

Definition encode_behavior_alert (node_name : bytes) (a : BehaviorAlert) :
    result (TelemetryKafkaMessage J) :=
  payload ← behavior_to_value a;
  Ok {| km_event_id := ba_rule_id a ++ lit "-" ++ to_dec (ba_ppid a) ++ lit "-" ++ to_dec (ba_last_pid a);
        km_timestamp_ns := parse_rfc3339_ns (ba_timestamp a);
        km_node_name := node_name;
        km_schema_version := SCHEMA_VERSION;
        km_alert_type := ba_severity a;
        km_payload := payload |}.

Definition encode_critical_alert (node_name : bytes) (a : SiemAlert) :
    result (TelemetryKafkaMessage J) :=
  payload ← siem_to_value a;
  Ok {| km_event_id := sa_rule_id a ++ lit "-" ++ to_dec (sa_pid a) ++ lit "-" ++ to_dec (sa_ppid a);
        km_timestamp_ns := parse_rfc3339_ns (sa_timestamp a);
        km_node_name := node_name;
        km_schema_version := SCHEMA_VERSION;
        km_alert_type := sa_severity a;
        km_payload := payload |}.

Definition encode_alert (node_name : bytes) (a : StreamAlert) : result (TelemetryKafkaMessage J) :=
  match a with
  | Behavior a => encode_behavior_alert node_name a
  | Critical a => encode_critical_alert node_name a
  end.

(** One turn of [kafka_publisher_loop]: the publisher afterwards and the record
    (key and value) handed to the broker, if one was accepted. *)
Definition publish_step (node_name : bytes) (a : StreamAlert) (k : KafkaAnswer) (p : Publisher) :
    Publisher * option (bytes * bytes) :=
  let fail (connected : bool) :=
    ({| pb_connected := connected; pb_published := pb_published p;
        pb_failed := wrapping_add 64 (pb_failed p) 1 |}, None) in
  if negb (pb_connected p) && negb (ka_connect k) then fail false
  else
    match encode_alert node_name a with
    | Err _ => fail true
    | Ok message =>
        match message_to_vec message with
        | Err _ => fail true
        | Ok payload =>
            if ka_produce k then
              ({| pb_connected := true; pb_published := wrapping_add 64 (pb_published p) 1;
                  pb_failed := pb_failed p |}, Some (km_event_id _ message, payload))
            else fail false
        end
    end.
End encode.

(** One alert received by the no-op drain of [spawn_noop]. *)
Definition noop_step (p : Publisher) : Publisher :=
  {| pb_connected := pb_connected p; pb_published := wrapping_add 64 (pb_published p) 1;
     pb_failed := pb_failed p |}.

(** ** The ring-buffer arm of [event_loop.rs] *)

(** [emit_pipeline_output]: printed lines and queued alerts; an alert that does
    not serialise ends the turn. *)
Section emit.
Context (behavior_json : BehaviorAlert → result bytes) (siem_json : SiemAlert → result bytes).

Record LoopState : Type := mkLoopState {
  ls_pipeline : DataNormalizer;
  ls_stream : TelemetryStream;
  ls_stdout : list bytes
}.

Definition emit_behavior (a : BehaviorAlert) (s : LoopState) : LoopState * result () :=
  match behavior_json a with
  | Ok line => ({| ls_pipeline := ls_pipeline s;
                   ls_stream := try_enqueue_behavior a (ls_stream s);
                   ls_stdout := ls_stdout s ++ [line] |}, Ok ())
  | Err e => (s, Err e)
  end.
Definition emit_siem (a : SiemAlert) (s : LoopState) : LoopState * result () :=
  match siem_json a with
  | Ok line => ({| ls_pipeline := ls_pipeline s;
                   ls_stream := try_enqueue_critical a (ls_stream s);
                   ls_stdout := ls_stdout s ++ [line] |}, Ok ())
  | Err e => (s, Err e)
  end.

(** A [for] loop that stops at the first error. *)
Fixpoint emit_all {A} (f : A → LoopState → LoopState * result ()) (l : list A) (s : LoopState) :
    LoopState * result () :=
  match l with
  | [] => (s, Ok ())
  | a :: l => match f a s with
              | (s, Ok _) => emit_all f l s
              | (s, Err e) => (s, Err e)
              end
  end.

Definition emit_pipeline_output (tick : Tick) (siem_now : bytes) (e : SecurityTelemetryEvent)
    (s : LoopState) : LoopState * result () :=
  let '(d, output) := process tick siem_now e (ls_pipeline s) in
  let s := {| ls_pipeline := d; ls_stream := ls_stream s; ls_stdout := ls_stdout s |} in
  match emit_all emit_behavior (po_behavior_alerts output) s with
  | (s, Ok _) => emit_all emit_siem (po_siem_alerts output) s
  | (s, Err err) => (s, Err err)
  end.

(** The drain closure over the records the ring holds, each with the clock
    readings made while it is handled; an undecodable record is skipped and a
    failed emission only logged. The result says whether [WouldBlock] is returned. *)
Fixpoint drain_records (records : list (Tick * bytes * bytes)) (s : LoopState) : LoopState :=
  match records with
  | [] => s
  | (tick, siem_now, record) :: records =>
      match ringbuf_decode_exec_event record with
      | None => drain_records records s
      | Some exec =>
          drain_records records
            (emit_pipeline_output tick siem_now (exec_event_to_security_telemetry exec) s).1
      end
  end.
(** [ringbuf_drain_outcome]. *)
Definition ringbuf_drain_outcome (drained_any : bool) : result () :=
  if drained_any then Ok () else Err (EMsg "WouldBlock").
Definition drain_ring (records : list (Tick * bytes * bytes)) (s : LoopState) : LoopState * result () :=
  (drain_records records s, ringbuf_drain_outcome (negb (bool_decide (records = [])))).
End emit.

(** ** The burst detector *)

(** The bucket an event is counted in; an orphan has none. *)
Inductive bucket : Type :=
| ByParent (ppid : Z)
| ByComm (comm : bytes).

#[export] Instance bucket_eq_dec : EqDecision bucket.
Proof. solve_decision. Defined.

Definition bucket_of (e : SecurityTelemetryEvent) : option bucket :=
  if se_ppid_unresolved e then Some (ByComm (se_comm e))
  else if bool_decide (se_ppid e = 0) then None
  else Some (ByParent (se_ppid e)).

Definition entries_of (d : DataNormalizer) (b : bucket) : list Z :=
  match b with
  | ByParent p => default [] (dn_parent_spawns d !! p)
  | ByComm c => default [] (dn_unresolved_comm_spawns d !! c)
  end.

Definition run_ingest (history : list (Tick * SecurityTelemetryEvent)) (d : DataNormalizer) : DataNormalizer :=
  foldl (λ d te, (ingest te.1 te.2 d).1) d history.

(** Events of bucket [b] in [history] less than [window] before [now]. *)
Definition in_window (b : bucket) (now window : Z) (te : Tick * SecurityTelemetryEvent) : Prop :=
  bucket_of te.2 = Some b ∧ now - tk_now te.1 < window.
#[export] Instance in_window_dec b now window te : Decision (in_window b now window te).
Proof. unfold in_window; apply _. Defined.

Definition unresolved_bucket (b : bucket) : bool := match b with ByComm _ => true | ByParent _ => false end.

(** [ingest] analyses the event itself, whatever the batch holds. *)
Lemma ingest_analyzes tick e d :
  ∃ batch, ingest tick e d = analyze_parent_frequency tick e (set_batch batch d).
Proof.
  unfold ingest, flush. case_bool_decide; [|by eexists].
  exists []. cbn [dn_batch set_batch]. by rewrite last_snoc.
Qed.

Lemma analyze_bucket tick e d b :
  bucket_of e = Some b →
  let entries := touch (tk_now tick) (dn_window d) (entries_of d b) in
  let '(d', alert) := analyze_parent_frequency tick e d in
  dn_window d' = dn_window d ∧ dn_burst_threshold d' = dn_burst_threshold d ∧
  (∀ b', entries_of d' b' = if bool_decide (b' = b) then entries else entries_of d b') ∧
  alert = burst_verdict tick d e (length entries) (unresolved_bucket b).
Proof.
  unfold bucket_of, analyze_parent_frequency. destruct (se_ppid_unresolved e).
  - intros [= <-]. split_and!; [done|done| |done]. intros [p|c]; cbn.
    + by rewrite bool_decide_eq_false_2.
    + rewrite lookup_insert. case_decide; subst.
      * by rewrite bool_decide_eq_true_2.
      * rewrite bool_decide_eq_false_2; [done|congruence].
  - case_bool_decide; [done|]. intros [= <-]. split_and!; [done|done| |done]. intros [p|c]; cbn.
    + rewrite lookup_insert. case_decide; subst.
      * by rewrite bool_decide_eq_true_2.
      * rewrite bool_decide_eq_false_2; [done|congruence].
    + by rewrite bool_decide_eq_false_2.
Qed.

Lemma analyze_orphan tick e d : bucket_of e = None → analyze_parent_frequency tick e d = (d, None).
Proof.
  unfold bucket_of, analyze_parent_frequency. destruct (se_ppid_unresolved e); [done|].
  by case_bool_decide.
Qed.

(** What the state remembers of a history: for any later instant, the entries of
    a bucket inside the window are the history's. *)
Definition remembers (window : Z) (threshold : nat) (history : list (Tick * SecurityTelemetryEvent))
    (d : DataNormalizer) : Prop :=
  dn_window d = window ∧ dn_burst_threshold d = threshold ∧
  ∀ b now, Forall (λ te, tk_now te.1 ≤ now) history →
    filter (λ t, duration_since now t < window) (entries_of d b) =
    (λ te, tk_now te.1) <$> filter (in_window b now window) history.

Lemma filter_touch now' now window l :
  now ≤ now' →
  filter (λ t, duration_since now' t < window) (touch now window l) =
  filter (λ t, duration_since now' t < window) (l ++ [now]).
Proof.
  intros Hn. unfold touch. rewrite !filter_app. f_equal.
  apply list_filter_filter_l. unfold duration_since. lia.
Qed.

Lemma remembers_ingest window threshold history d tick e :
  Forall (λ te, tk_now te.1 ≤ tk_now tick) history →
  remembers window threshold history d →
  remembers window threshold (history ++ [(tick, e)]) (ingest tick e d).1.
Proof.
  intros Ht (Hw & Hth & Hf). destruct (ingest_analyzes tick e d) as [batch ->].
  destruct (bucket_of e) as [b|] eqn:Hb.
  - pose proof (analyze_bucket tick e (set_batch batch d) b Hb) as H. cbv zeta in H.
    destruct (analyze_parent_frequency _ _ _) as [d' alert]. destruct H as (H1 & H2 & H3 & _).
    cbn [fst]. split_and!; [by rewrite H1|by rewrite H2|].
    intros b' now [Hn [Hn' _]%Forall_cons]%Forall_app. cbn in Hn'.
    rewrite H3, filter_app, fmap_app, <- Hf by done.
    rewrite filter_cons, filter_nil. unfold in_window at 1. cbn [fst snd].
    case_bool_decide as Hbb.
    + subst b'. change (dn_window (set_batch batch d)) with (dn_window d). rewrite Hw.
      rewrite filter_touch, filter_app by done. f_equal. rewrite filter_cons, filter_nil.
      unfold duration_since. repeat case_decide; try done; exfalso; intuition lia.
    + rewrite decide_False by (intros [? _]; cbn in *; congruence). cbn. by rewrite app_nil_r.
  - rewrite analyze_orphan by done. split_and!; [done|done|]. cbn [fst].
    intros b' now [Hn _]%Forall_app. rewrite filter_app, fmap_app, <- Hf by done.
    rewrite filter_cons, filter_nil. unfold in_window at 1. cbn [fst snd].
    rewrite decide_False by (intros [? _]; cbn in *; congruence). cbn. by rewrite app_nil_r.
Qed.

(** Instants in the order they were read. *)
Definition ordered (history : list (Tick * SecurityTelemetryEvent)) : Prop :=
  StronglySorted Z.le ((λ te, tk_now te.1) <$> history).

Lemma ordered_snoc history te :
  ordered (history ++ [te]) →
  ordered history ∧ Forall (λ te', tk_now te'.1 ≤ tk_now te.1) history.
Proof.
  unfold ordered. rewrite fmap_app, StronglySorted_app. intros (H & Ho & _). split; [done|].
  apply Forall_forall. intros te' Hte. apply H; [by apply (list_elem_of_fmap_2 (λ te, tk_now te.1))|].
  by apply list_elem_of_singleton.
Qed.

Lemma run_ingest_remembers window threshold limit history :
  ordered history →
  remembers window threshold history (run_ingest history (with_config window threshold limit)).
Proof.
  induction history as [|[tick e] history IH] using rev_ind.
  - intros _. split_and!; [done|done|]. intros [p|c] now _; cbn; by rewrite lookup_empty.
  - intros [Ho Ht]%ordered_snoc. unfold run_ingest. rewrite foldl_app.
    apply remembers_ingest; [done|]. by apply IH.
Qed.

(** C37: the burst detector alerts on an event exactly when the event and its
    predecessors of the same bucket (same parent, or same command name when the
    parent is unknown) less than a window earlier reach the threshold, and the
    alert carries that number; an orphan is never counted. The batch size has no
    influence. *)
Theorem burst_alert_exact window threshold limit history tick e :
  ordered (history ++ [(tick, e)]) →
  (ingest tick e (run_ingest history (with_config window threshold limit))).2 =
  match bucket_of e with
  | None => None
  | Some b =>
      let count := S (length (filter (in_window b (tk_now tick) window) history)) in
      if bool_decide (count < threshold)%nat then None
      else Some (behavior_alert (tk_utc tick) window e count (unresolved_bucket b))
  end.
Proof.
  intros [Ho Ht]%ordered_snoc.
  destruct (run_ingest_remembers window threshold limit history Ho) as (Hw & Hth & Hf).
  set (d := run_ingest _ _) in *. destruct (ingest_analyzes tick e d) as [batch ->].
  destruct (bucket_of e) as [b|] eqn:Hb; [|by rewrite analyze_orphan].
  pose proof (analyze_bucket tick e (set_batch batch d) b Hb) as H. cbv zeta in H.
  destruct (analyze_parent_frequency _ _ _) as [d' alert]. destruct H as (_ & _ & _ & ->).
  cbn [snd]. unfold burst_verdict, touch. cbn [dn_window dn_burst_threshold set_batch].
  change (entries_of (set_batch batch d) b) with (entries_of d b).
  rewrite Hw, Hth, Hf by done. rewrite length_app, length_fmap, Nat.add_1_r. done.
Qed.

(** ** The path rules *)
Lemma blacklist_match_lossy path :
  blacklist_match (from_utf8_lossy path) = List.find (starts_with path) BLACKLIST_PREFIXES.
Proof.
  unfold blacklist_match, BLACKLIST_PREFIXES. cbn [List.find].
  rewrite !lossy_starts_with by (apply (bool_decide_eq_true_1 (Forall _ _)); vm_compute; reflexivity).
  done.
Qed.

(** No whitelisted path lies under a blacklisted directory. *)
Lemma whitelist_disjoint path prefix : blacklist_match path = Some prefix → is_whitelisted path = false.
Proof.
  intros H. apply bool_decide_eq_false. intros Hin. revert H.
  repeat (apply elem_of_cons in Hin as [->|Hin]; [vm_compute; done|]). by apply elem_of_nil in Hin.
Qed.

(** A NUL-terminated path field, as the mapper leaves it. *)
Lemma cstr_padded n path :
  0 ∉ path → (length path < n)%nat → cstr_until_nul (copy_into (zeroed n) path) = Some path.
Proof.
  intros Hz Hl. assert (0 ∈ copy_into (zeroed n) path) as Hin.
  { unfold copy_into, zeroed. rewrite drop_replicate. apply elem_of_app. right.
    destruct (n - length path)%nat eqn:E; [lia|]. cbn. apply elem_of_cons. by left. }
  rewrite position_or_len_cstr, bool_decide_eq_true_2 by done. f_equal.
  unfold copy_into, zeroed in *. rewrite drop_replicate in *.
  destruct (n - length path)%nat eqn:E; [lia|]. cbn [replicate].
  rewrite position_or_len_app by done. rewrite position_or_len_cons_eq, Nat.add_0_r.
  by rewrite take_app_length.
Qed.

(** ** From a denied execution to its alert *)

Lemma cstr_bytes_padded n path :
  0 ∉ path → (length path < n)%nat → cstr_bytes (copy_into (zeroed n) path) = path.
Proof.
  intros Hz Hl. pose proof (cstr_padded n path Hz Hl) as H. rewrite position_or_len_cstr in H.
  case_bool_decide; [|done]. by injection H.
Qed.

(** The path bytes the helper returned, as the record and the telemetry event
    hold them. *)
Lemma blocked_filename env off p path :
  read_bprm_filename_ptr env off = inl p →
  probe_read_str env p MAX_FILENAME_LEN = inl path →
  ee_filename (blocked_exec_event env off) = copy_into (zeroed MAX_FILENAME_LEN) path ∧
  field_unknown (blocked_exec_event env off) CAPTURE_FILENAME = false ∧
  field_unknown (blocked_exec_event env off) CAPTURE_TGID = false ∧
  field_unknown (blocked_exec_event env off) CAPTURE_EUID = true ∧
  ee_pid (blocked_exec_event env off) = as_uint 32 (Z.shiftr (current_pid_tgid env) 32).
Proof.
  intros Hp Hs. unfold blocked_exec_event, populate_lineage, read_ppid_best_effort, mark_unknown.
  rewrite Hp, Hs. destruct (current_comm env), (bool_decide (current_task env = 0)); try (by split_and!).
  all: destruct (probe_read_ptr env _) as [parent|]; [|by split_and!].
  all: destruct (bool_decide (parent = 0)); [by split_and!|].
  all: destruct (probe_read_u32 env _); by split_and!.
Qed.

Lemma blocked_telemetry env off p path :
  read_bprm_filename_ptr env off = inl p →
  probe_read_str env p MAX_FILENAME_LEN = inl path →
  0 ∉ path → (length path < MAX_FILENAME_LEN)%nat →
  let t := exec_event_to_security_telemetry (blocked_exec_event env off) in
  extract_filename t = from_utf8_lossy path ∧
  se_pid t = as_uint 32 (Z.shiftr (current_pid_tgid env) 32) ∧ se_euid t = 0.
Proof.
  intros Hp Hs Hz Hl. destruct (blocked_filename env off p path Hp Hs) as (Hf & Hu & Ht & He & Hpid).
  unfold exec_event_to_security_telemetry. destruct (argv_field _) as [al av].
  destruct (env_field _) as [[el ev] er]. cbn [se_pid se_euid extract_filename]. cbv zeta.
  rewrite Ht, He, Hpid. split_and!; [|done|done]. unfold extract_filename. cbn [se_filename].
  unfold string_field. change (status_bit _ CAPTURE_FILENAME) with
    (field_unknown (blocked_exec_event env off) CAPTURE_FILENAME). rewrite Hu, Hf.
  rewrite cstr_bytes_padded, length_copy_into, !length_zeroed
    by (rewrite ?length_zeroed; first [done|lia]).
  rewrite firstn_all2 by lia. by rewrite cstr_padded.
Qed.

Section alert.
Context (behavior_json : BehaviorAlert → result bytes) (siem_json : SiemAlert → result bytes).

(** One event whose path the rules flag, when its alerts serialise: at most one
    behaviour alert, then the critical alert. *)
Lemma emit_flagged tick siem_now e a s :
  (∀ b, ∃ line, behavior_json b = Ok line) → (∀ a, ∃ line, siem_json a = Ok line) →
  evaluate siem_now e = Alert a →
  ∃ behavior line, siem_json a = Ok line ∧
    let s1 := foldl (λ s b, (emit_behavior behavior_json b s).1)
                {| ls_pipeline := (ingest tick e (ls_pipeline s)).1; ls_stream := ls_stream s;
                   ls_stdout := ls_stdout s |} (option_list behavior) in
    emit_pipeline_output behavior_json siem_json tick siem_now e s =
    ({| ls_pipeline := ls_pipeline s1;
        ls_stream := try_enqueue_critical a (ls_stream s1);
        ls_stdout := ls_stdout s1 ++ [line] |}, Ok ()).
Proof.
  intros Hb Hs He. destruct (Hs a) as [line Hl].
  exists (ingest tick e (ls_pipeline s)).2, line. split; [done|]. cbv zeta.
  unfold emit_pipeline_output, process. rewrite He.
  destruct (ingest tick e (ls_pipeline s)) as [d [b|]]; cbn [fst snd option_list po_behavior_alerts po_siem_alerts].
  - destruct (Hb b) as [lb Hlb]. unfold emit_behavior, emit_siem. cbn. by rewrite Hlb, Hl.
  - unfold emit_siem. cbn. by rewrite Hl.
Qed.
End alert.

(** The places left in a channel: none once it is closed. *)
Definition stream_room (s : TelemetryStream) : nat :=
  if ts_open s then ts_capacity s - length (ts_queue s) else 0.

(** Alerts offered one after the other: the channel takes as many as it has room for, and
    the others are counted. *)
Lemma try_enqueue_all l s :
  uint 64 (ts_enqueued s) → uint 64 (ts_dropped s) →
  let k := Nat.min (length l) (stream_room s) in
  let s' := foldl (λ s a, try_enqueue a s) s l in
  ts_queue s' = ts_queue s ++ take k l ∧
  ts_enqueued s' = wrapping_add 64 (ts_enqueued s) (Z.of_nat k) ∧
  ts_dropped s' = wrapping_add 64 (ts_dropped s) (Z.of_nat (length l - k)).
Proof.
  unfold wrapping_add. revert s. induction l as [|a l IH]; intros s He Hd; cbv zeta.
  { cbn. rewrite app_nil_r, !Z.add_0_r, !Z.mod_small by done. done. }
  cbn [foldl]. set (s1 := try_enqueue a s). specialize (IH s1). cbv zeta in IH. revert IH.
  subst s1. unfold try_enqueue, stream_room. destruct (ts_open s) eqn:Ho; cbn [andb];
    [case_bool_decide as Hroom|]; cbn [ts_queue ts_open ts_capacity ts_enqueued ts_dropped length]; rewrite ?Ho.
  - rewrite length_app. cbn [length]. intros (-> & -> & ->); [apply Z.mod_pos_bound; lia|done|].
    set (r := (ts_capacity s - length (ts_queue s))%nat) in *.
    replace (ts_capacity s - (length (ts_queue s) + 1))%nat with (Nat.pred r) by lia.
    replace (Nat.min (S (length l)) r) with (S (Nat.min (length l) (Nat.pred r))) by lia.
    unfold wrapping_add. rewrite <- app_assoc. cbn [take app]. split_and!; [done| |do 2 f_equal; lia].
    rewrite Zplus_mod_idemp_l. f_equal. lia.
  - intros (-> & -> & ->); [done|apply Z.mod_pos_bound; lia|].
    replace (ts_capacity s - length (ts_queue s))%nat with 0%nat by lia. rewrite !Nat.min_0_r.
    unfold wrapping_add. split_and!; [done..|]. rewrite Zplus_mod_idemp_l. f_equal. lia.
  - intros (-> & -> & ->); [done|apply Z.mod_pos_bound; lia|]. rewrite !Nat.min_0_r.
    unfold wrapping_add. split_and!; [done..|]. rewrite Zplus_mod_idemp_l. f_equal. lia.
Qed.

(** The rules flag a path exactly when it lies under a bootstrap deny prefix. *)
Lemma evaluate_flagged siem_now e path :
  extract_filename e = from_utf8_lossy path →
  existsb (starts_with path) BOOTSTRAP_PATH_DENY_PREFIXES = true →
  ∃ a, evaluate siem_now e = Alert a ∧ sa_severity a = SEVERITY_CRITICAL_ALERT ∧
    sa_binary_path a = from_utf8_lossy path ∧ sa_pid a = se_pid e ∧ sa_euid a = se_euid e ∧
    sa_matched_pattern a ∈ BOOTSTRAP_PATH_DENY_PREFIXES ∧
    starts_with path (sa_matched_pattern a) = true.
Proof.
  intros Hp Hex. unfold evaluate. rewrite Hp.
  change BOOTSTRAP_PATH_DENY_PREFIXES with BLACKLIST_PREFIXES in *.
  destruct (List.find (starts_with path) BLACKLIST_PREFIXES) as [pfx|] eqn:Hf.
  - pose proof Hf as Hm. rewrite <- blacklist_match_lossy in Hm.
    rewrite (whitelist_disjoint _ _ Hm), Hm. eexists. split; [reflexivity|]. cbn.
    apply List.find_some in Hf as [Hin Hs]. apply list_elem_of_In in Hin. by split_and!.
  - apply existsb_exists in Hex as (q & Hq & Hs).
    by rewrite (List.find_none _ _ Hf q Hq) in Hs.
Qed.

(** C18: an execution that the kernel program denies, of a path under one of the bootstrap
    directories, reaches the operator. The path prefix was read, the ring buffer has room,
    the read of the whole path for the record succeeds too and gives one of less than 256
    bytes, and the alerts serialise. Then the program adds one record; when the agent drains
    it, the last line it prints is a critical alert with that path, the process id of the
    caller and the directory; and what it offers the export channel for this record is at
    most one burst alert and then this alert, of which the channel takes as many as it has
    room for, none when it is closed, and counts every other one as dropped. *)
Theorem denied_exec_raises_alert {ML MC MH MV R : Type}
    `{HL : ArrayMap PathDenyEntry ML, HC : ArrayMap Z MC, HH : HashMap Z MH, HV : ArrayMap Z MV}
    `{HR : RingBuf ExecEvent R, !RingBufLaws ExecEvent R}
    behavior_json siem_json env off (m : LsmMaps ML MC MH MV R) p prefix path tick siem_now s :
  env_typed env →
  read_bprm_filename_ptr env off = inl p → probe_read_prefix env p = inl prefix →
  probe_read_str env p MAX_FILENAME_LEN = inl path →
  0 ∉ path → (length path < MAX_FILENAME_LEN)%nat →
  (nm_lsm_bprm env off m).2 = LSM_DENY → rb_reserve (lm_ring m) = true →
  existsb (starts_with path) BOOTSTRAP_PATH_DENY_PREFIXES = true →
  (∀ b, ∃ line, behavior_json b = Ok line) → (∀ a, ∃ line, siem_json a = Ok line) →
  uint 64 (ts_enqueued (ls_stream s)) → uint 64 (ts_dropped (ls_stream s)) →
  ∃ e, rb_events (lm_ring (nm_lsm_bprm env off m).1) = rb_events (lm_ring m) ++ [e] ∧
  let s' := (drain_ring behavior_json siem_json [(tick, siem_now, exec_event_bytes e)] s).1 in
  ∃ a line bursts,
    sa_severity a = SEVERITY_CRITICAL_ALERT ∧
    sa_binary_path a = from_utf8_lossy path ∧
    sa_pid a = as_uint 32 (Z.shiftr (current_pid_tgid env) 32) ∧
    sa_matched_pattern a ∈ BOOTSTRAP_PATH_DENY_PREFIXES ∧
    starts_with path (sa_matched_pattern a) = true ∧
    siem_json a = Ok line ∧ last (ls_stdout s') = Some line ∧
    (length bursts ≤ 1)%nat ∧
    let offered := map Behavior bursts ++ [Critical a] in
    let taken := Nat.min (length offered) (stream_room (ls_stream s)) in
    ts_queue (ls_stream s') = ts_queue (ls_stream s) ++ take taken offered ∧
    ts_enqueued (ls_stream s') = wrapping_add 64 (ts_enqueued (ls_stream s)) (Z.of_nat taken) ∧
    ts_dropped (ls_stream s') = wrapping_add 64 (ts_dropped (ls_stream s)) (Z.of_nat (length offered - taken)).
Proof.
  intros Henv Hp Hpre Hs Hz Hl Hdeny Hroom Hex Hb Hj He64 Hd64.
  exists (blocked_exec_event env off). split.
  { rewrite hook_cases in Hdeny |- *. unfold read_bprm_path_prefix in *. rewrite Hp, Hpre in Hdeny |- *.
    destruct (negb _); [done|]. destruct (_ && _); [done|]. cbn [fst]. unfold emit_blocked_exec_event. rewrite Hroom.
    apply rb_submit_events. }
  cbv zeta. destruct (blocked_telemetry env off p path Hp Hs Hz Hl) as (Hf & Hpid & _).
  destruct (evaluate_flagged siem_now _ path Hf Hex) as (a & He & Hsev & Hbp & Hap & _ & Hm & Hst).
  assert (ringbuf_decode_exec_event (exec_event_bytes (blocked_exec_event env off)) =
          Some (blocked_exec_event env off)) as Hd.
  { rewrite <- (app_nil_r (exec_event_bytes _)).
    apply decode_encoded; [by apply blocked_exec_event_typed|apply blocked_exec_event_header]. }
  unfold drain_ring, drain_records. rewrite Hd. cbn [fst].
  destruct (emit_flagged behavior_json siem_json tick siem_now _ a s Hb Hj He)
    as (behavior & line & Hline & ->). cbn [fst ls_stream ls_stdout].
  exists a, line, (option_list behavior). rewrite Hap, Hpid, last_snoc.
  do 7 (split; [done|]). split; [by destruct behavior; cbn; lia|].
  pose proof (try_enqueue_all (map Behavior (option_list behavior) ++ [Critical a]) (ls_stream s) He64 Hd64) as Hall.
  cbv zeta in Hall. rewrite foldl_app in Hall. cbn [foldl] in Hall.
  assert (foldl (λ s a, try_enqueue a s) (ls_stream s) (map Behavior (option_list behavior)) =
    ls_stream (foldl (λ s b, (emit_behavior behavior_json b s).1)
      {| ls_pipeline := (ingest tick (exec_event_to_security_telemetry (blocked_exec_event env off)) (ls_pipeline s)).1;
         ls_stream := ls_stream s; ls_stdout := ls_stdout s |} (option_list behavior))) as Hb1.
  { destruct behavior as [b|]; [|done]. destruct (Hb b) as [lb Hlb]. simpl. unfold emit_behavior. by rewrite Hlb. }
  rewrite Hb1 in Hall. exact Hall.
Qed.

(** ** The ring buffer holds well-typed records *)
Section ring_typed.
Context {ML MC MH MV R : Type}.
Context `{ArrayMap PathDenyEntry ML, ArrayMap Z MC, HashMap Z MH, ArrayMap Z MV}.
Context `{RingBuf ExecEvent R, !RingBufLaws ExecEvent R}.

(** The maps after a sequence of executions on the node. *)
Definition run_hook (off : LsmOffsets) (envs : list LsmEnv) (m : LsmMaps ML MC MH MV R) : LsmMaps ML MC MH MV R :=
  foldl (λ m env, (nm_lsm_bprm env off m).1) m envs.

(** A record every field of which is in its width, of the packed size, that user space
    reads back unchanged. *)
Definition readable (e : ExecEvent) : Prop :=
  event_typed e ∧ length (exec_event_bytes e) = Z.to_nat EXEC_EVENT_STRUCT_SIZE ∧
  ringbuf_decode_exec_event (exec_event_bytes e) = Some e.

Lemma blocked_readable env off : env_typed env → readable (blocked_exec_event env off).
Proof.
  intros Henv. pose proof (blocked_exec_event_typed env off Henv) as Ht. split_and!; [done|by apply length_exec_event_bytes|].
  rewrite <- (app_nil_r (exec_event_bytes _)). apply decode_encoded; [done|apply blocked_exec_event_header].
Qed.

Lemma hook_readable env off (m : LsmMaps ML MC MH MV R) : env_typed env →
  Forall readable (rb_events (lm_ring m)) → Forall readable (rb_events (lm_ring (nm_lsm_bprm env off m).1)).
Proof.
  intros Henv Hr. rewrite hook_cases. destruct (read_bprm_path_prefix env off); [|done].
  destruct (negb _); [done|]. destruct (_ && _); [done|]. cbn [fst]. unfold emit_blocked_exec_event.
  destruct (rb_reserve (lm_ring m)); [|done]. cbn. rewrite rb_submit_events. apply Forall_app_2; [done|].
  apply Forall_singleton. by apply blocked_readable.
Qed.

(** C36: the kernel program writes only well-typed records: over any sequence of
    executions, whatever the kernel helpers answer within their types, every record in
    the ring buffer has each field in its width and the packed size of the contract, and
    the agent's decoder reads it back as written. *)
Theorem ring_records_typed off envs (m : LsmMaps ML MC MH MV R) :
  Forall env_typed envs → Forall readable (rb_events (lm_ring m)) →
  Forall readable (rb_events (lm_ring (run_hook off envs m))).
Proof.
  intros Henvs. revert m. induction Henvs as [|env envs Henv _ IH]; intros m Hr; [done|].
  cbn [run_hook foldl]. apply IH. by apply hook_readable.
Qed.
End ring_typed.

(** Every denied execution is reported as run by effective user 0, whoever ran
    it: the program marks the effective user as unknown and the mapper turns an
    unknown user into 0 without a flag in the telemetry event. *)
Theorem denied_exec_reported_as_root env off p path siem_now a :
  read_bprm_filename_ptr env off = inl p →
  probe_read_str env p MAX_FILENAME_LEN = inl path →
  0 ∉ path → (length path < MAX_FILENAME_LEN)%nat →
  evaluate siem_now (exec_event_to_security_telemetry (blocked_exec_event env off)) = Alert a →
  sa_euid a = 0.
Proof.
  intros Hp Hs Hz Hl. destruct (blocked_telemetry env off p path Hp Hs Hz Hl) as (_ & _ & He).
  unfold evaluate. destruct (is_whitelisted _); [done|]. destruct (blacklist_match _); [|done].
  intros [= <-]. exact He.
Qed.

(** ** Concrete runs *)
Definition demo_event (ppid pid : Z) : SecurityTelemetryEvent :=
  {| se_pid := pid; se_ppid := ppid; se_ppid_unresolved := false; se_uid := 1000; se_euid := 1000;
     se_comm := copy_into (zeroed MAX_COMM_LEN) (lit "bash");
     se_filename := copy_into (zeroed MAX_FILENAME_LEN) (lit "/usr/bin/true");
     se_argv_len := 0; se_argv_truncated := false; se_argv_trunc_mask := 0;
     se_argv := zeroed MAX_ARGV_LEN; se_env_len := 0; se_env_truncated := false;
     se_env_trunc_mask := 0; se_env_redacted := false; se_env := zeroed MAX_ENV_LEN |}.

(** Three spawns of parent 42 and one of parent 43, the first one out of the
    two-second window of the last. *)
Definition demo_history : list (Tick * SecurityTelemetryEvent) :=
  [(mkTick 0 [], demo_event 42 100); (mkTick (1 * NANOS) [], demo_event 42 101);
   (mkTick (1 * NANOS) [], demo_event 43 102); (mkTick (2 * NANOS) [], demo_event 42 103)].

Lemma burst_alert_exact_witness :
  ba_spawn_count <$>
    (ingest (mkTick (5 * NANOS / 2) []) (demo_event 42 104)
       (run_ingest demo_history (with_config (2 * NANOS) 3 2))).2 = Some 3%nat.
Proof.
  rewrite burst_alert_exact.
  - vm_compute. reflexivity.
  - apply (bool_decide_eq_true_1 (StronglySorted _ _)). vm_compute. reflexivity.
Defined.

Lemma demo_env_typed path cg : env_typed (demo_env path cg).
Proof.
  split; [by vm_compute|]. split; [by vm_compute|]. split; [by vm_compute|].
  split_and!; cbn [demo_env probe_read_u32 current_comm probe_read_str].
  - intros q v H. case_bool_decide; simplify_eq. lia.
  - intros c [= <-]. split; [done|]. apply (bool_decide_eq_true_1 (Forall is_byte _)). vm_compute. done.
  - intros q n x H. case_bool_decide; simplify_eq. split; [rewrite length_take; lia|].
    apply Forall_take, Forall_fmap, Forall_true. intros b. apply Z.mod_pos_bound. lia.
Qed.

Lemma ring_records_typed_witness :
  Forall readable (rb_events (lm_ring (run_hook demo_offsets [demo_env (lit "/tmp/x") 7; demo_env (lit "/usr/bin/id") 1] (demo_maps 0)))).
Proof.
  apply (ring_records_typed demo_offsets).
  - repeat (apply Forall_cons_2; [apply demo_env_typed|]). apply Forall_nil_2.
  - constructor.
Defined.

Definition demo_loop : LoopState :=
  mkLoopState DataNormalizer_new (mkTelemetryStream [] 8 true 0 0) [].

Lemma denied_exec_raises_alert_witness :
  ∃ e a, rb_events (lm_ring (nm_lsm_bprm (demo_env (lit "/tmp/x") 7) demo_offsets (demo_maps 1)).1) = [e] ∧
    sa_binary_path a = lit "/tmp/x" ∧
    ts_queue (ls_stream (drain_ring (λ _, Ok (lit "b")) (λ a, Ok (sa_binary_path a))
      [(mkTick 5 [], [], exec_event_bytes e)] demo_loop).1) ≠ [].
Proof.
  destruct (denied_exec_raises_alert (λ _, Ok (lit "b")) (λ a, Ok (sa_binary_path a))
              (demo_env (lit "/tmp/x") 7) demo_offsets (demo_maps 1) 8192 (prefix_of_path (lit "/tmp/x")) (lit "/tmp/x")
              (mkTick 5 []) [] demo_loop)
    as (e & Hev & a & line & bursts & _ & Ha & _ & _ & _ & _ & _ & _ & Hq & _).
  - apply demo_env_typed.
  - vm_compute. reflexivity.
  - vm_compute. reflexivity.
  - vm_compute. reflexivity.
  - apply (bool_decide_eq_true_1 (0 ∉ lit "/tmp/x")). vm_compute. reflexivity.
  - vm_compute. lia.
  - vm_compute. reflexivity.
  - vm_compute. reflexivity.
  - vm_compute. reflexivity.
  - eauto.
  - eauto.
  - by vm_compute.
  - by vm_compute.
  - exists e, a. split; [exact Hev|]. split; [exact Ha|]. rewrite Hq. by destruct bursts.
Defined.
