(* ===== verification/PinAbi.v ===== *)
(** * Pinned-map ABI check and legacy migration

    [apps/agent-ebpf-sensor/src/pin_abi.rs]: before the enforcement object is
    loaded, the pins under the pin root are classified, pins of the pre-#134 layout
    are moved aside into a [legacy_abi_<n>] directory and their entries read, an
    interrupted migration is resumed, and unknown layouts are refused.

    The bpffs directory is a finite map of paths to pins and directories; each
    mutating operation may fail before it takes effect, by a schedule kept in the
    state, and a failure ends the run as the [?] operator does. A crash between two
    operations leaves the same directory as a failure of the second one, so the
    theorems about failed runs cover crashes. *)

From S2P Require Import Prelude RustStd Common Bpf PathDeny.

(** ** Constants and data *)
Definition LEGACY_ABI_DIR_PREFIX : bytes := lit "legacy_abi_".
Definition PROC_ABI_DIR_PREFIX : bytes := lit "proc_abi_".

Record ObservedMapInfo : Type := mkObservedMapInfo {
  om_map_type : Z;
  om_key_size : Z;
  om_value_size : Z;
  om_max_entries : Z
}.

Definition matches_expected (o : ObservedMapInfo) (expected : PinnedMapAbi) : bool :=
  bool_decide (om_map_type o = abi_map_type expected)
  && bool_decide (om_key_size o = abi_key_size expected)
  && bool_decide (om_value_size o = abi_value_size expected)
  && bool_decide (om_max_entries o = abi_max_entries expected).

Definition is_legacy_path_deny_list (o : ObservedMapInfo) : bool :=
  bool_decide (om_map_type o = BPF_MAP_TYPE_ARRAY)
  && bool_decide (om_key_size o = 4)
  && bool_decide (om_value_size o = Z.of_nat PATH_DENY_ENTRY_SIZE_LEGACY)
  && bool_decide (om_max_entries o = PATH_DENY_MAX_ENTRIES).

(** Directories are named by their name under the pin root. *)
Inductive PinAbiState : Type :=
| Cold
| Compatible
| LegacyMigratable
| MigrationInProgress (legacy_dir : bytes)
| Incompatible (map : bytes).

Inductive DenySeedOverride : Type :=
| Bootstrap
| ResumePinned
| MigratedEntries (entries : list PathDenyEntry) (from_legacy : bool).

Inductive MigrationResult : Type :=
| MCompatible
| Migrated
| ResumedMigration
| BootstrapFallback
| ProcessMapRecreated.

(** ** The pin directory *)

(** [pin_root/name] and [pin_root/dir/name], the paths the module builds. *)
Inductive ppath : Type :=
| PRoot (name : bytes)
| PSub (dir name : bytes).

#[export] Instance ppath_eq_dec : EqDecision ppath.
Proof. solve_decision. Defined.
#[export] Instance ppath_countable : Countable ppath.
Proof.
  refine (inj_countable'
    (λ p, match p with PRoot n => inl n | PSub d n => inr (d, n) end)
    (λ s, match s with inl n => PRoot n | inr (d, n) => PSub d n end) _).
  by intros [].
Defined.

(** A pinned map: its attributes, its contents as [LegacyPathDenyEntry] and as
    [u32] slots, and whether the kernel lets it be opened. *)
Record pin : Type := mkPin {
  pin_info : ObservedMapInfo;
  pin_legacy : list LegacyPathDenyEntry;
  pin_values : list Z;
  pin_opens : bool
}.

Inductive node : Type :=
| NPin (p : pin)
| NDir.

Record world : Type := mkWorld {
  w_fs : gmap ppath node;
  w_faults : list bool
}.

(** ** [RealPinAbiIo] *)
Definition io_exists (path : ppath) : stm world bool := λ w,
  (w, Ok (bool_decide (is_Some (w_fs w !! path)))).
Definition io_is_dir (path : ppath) : stm world bool := λ w,
  (w, Ok (match w_fs w !! path with Some NDir => true | _ => false end)).

(** A mutating operation: fails without effect when the schedule says so. *)
Definition io_write (f : gmap ppath node → result (gmap ppath node)) : stm world unit := λ w,
  let '(fault, rest) := match w_faults w with [] => (false, []) | b :: l => (b, l) end in
  if fault then (mkWorld (w_fs w) rest, Err (EMsg "I/O error"))
  else match f (w_fs w) with
       | Ok fs => (mkWorld fs rest, Ok ())
       | Err e => (mkWorld (w_fs w) rest, Err e)
       end.

Definition parent_exists (path : ppath) (fs : gmap ppath node) : bool :=
  match path with
  | PRoot _ => true
  | PSub d _ => match fs !! PRoot d with Some NDir => true | _ => false end
  end.

Definition io_create_dir_all (dir : bytes) : stm world unit :=
  io_write (λ fs, match fs !! PRoot dir with
                  | Some (NPin _) => Err (EMsg "create_dir_all")
                  | _ => Ok (<[PRoot dir := NDir]> fs)
                  end).
Definition io_rename (from to : ppath) : stm world unit :=
  io_write (λ fs, match fs !! from with
                  | Some n => if parent_exists to fs then Ok (<[to := n]> (delete from fs))
                              else Err (EMsg "rename")
                  | None => Err (EMsg "rename")
                  end).
Definition io_remove_file (path : ppath) : stm world unit :=
  io_write (λ fs, match fs !! path with
                  | Some (NPin _) => Ok (delete path fs)
                  | _ => Err (EMsg "remove_file")
                  end).
Definition in_dir (dir : bytes) (path : ppath) : bool :=
  match path with PRoot n => bool_decide (n = dir) | PSub d _ => bool_decide (d = dir) end.
Definition io_remove_dir_all (dir : bytes) : stm world unit :=
  io_write (λ fs, match fs !! PRoot dir with
                  | Some NDir => Ok (filter (λ kv, in_dir dir kv.1 = false) fs)
                  | _ => Err (EMsg "remove_dir_all")
                  end).

(** Byte-wise order of names, and a stable sort. *)
Fixpoint bytes_leb (a b : bytes) : bool :=
  match a, b with
  | [], _ => true
  | _ :: _, [] => false
  | x :: a, y :: b => bool_decide (x < y) || (bool_decide (x = y) && bytes_leb a b)
  end.
Fixpoint sorted_insert {A} (le : A → A → bool) (x : A) (l : list A) : list A :=
  match l with
  | [] => [x]
  | y :: l => if le x y then x :: y :: l else y :: sorted_insert le x l
  end.
Definition sort_by {A} (le : A → A → bool) (l : list A) : list A := foldr (sorted_insert le) [] l.

Definition root_name (path : ppath) : option bytes :=
  match path with PRoot n => Some n | PSub _ _ => None end.
Definition io_read_dir_names : stm world (list bytes) := λ w,
  (w, Ok (sort_by bytes_leb
            (filter (λ n, utf8_valid n = true) (omap root_name (map_to_list (w_fs w)).*1)))).

Definition open_pin (path : ppath) (fs : gmap ppath node) : result pin :=
  match fs !! path with
  | Some (NPin p) => if pin_opens p then Ok p else Err (EMsg "open")
  | _ => Err (EMsg "open")
  end.
Definition io_map_info (path : ppath) : stm world ObservedMapInfo := λ w,
  (w, pin_info <$> open_pin path (w_fs w)).

(** [Array::try_from] with values of [size] bytes: the map type and the sizes of
    key and value must fit. *)
Definition as_array (size : Z) (p : pin) : result pin :=
  let i := pin_info p in
  if bool_decide (om_map_type i = BPF_MAP_TYPE_ARRAY) && bool_decide (om_key_size i = 4)
     && bool_decide (om_value_size i = size)
  then Ok p else Err (EMsg "not an array of this value type").

Definition widen_slot (slots : list LegacyPathDenyEntry) (i : nat) : result PathDenyEntry :=
  legacy ← ok_or (EMsg "read legacy PATH_DENY_LIST") (slots !! i);
  ok_or (EMsg "legacy PATH_DENY_LIST has invalid len") (widen legacy).

Definition read_legacy_pins (list_pin count_pin : result pin) : result (list PathDenyEntry) :=
  list_map ← list_pin;
  count_map ← count_pin;
  l ← as_array (Z.of_nat PATH_DENY_ENTRY_SIZE_LEGACY) list_map;
  c ← as_array 4 count_map;
  active ← ok_or (EMsg "read legacy PATH_DENY_COUNT[0]") (pin_values c !! 0%nat);
  if bool_decide (active = 0) then Err (EMsg "refuse empty deny list (fail-open)")
  else
    out ← try_map (widen_slot (pin_legacy l)) (seq 0 (Z.to_nat (Z.min active PATH_DENY_MAX_ENTRIES)));
    if bool_decide (out = []) then Err (EMsg "legacy deny list produced zero widened entries")
    else Ok out.
Definition io_read_legacy_deny_entries_at (list_path count_path : ppath) : stm world (list PathDenyEntry) := λ w,
  (w, read_legacy_pins (open_pin list_path (w_fs w)) (open_pin count_path (w_fs w))).
(** In the pin root itself. *)
Definition io_read_legacy_deny_entries : stm world (list PathDenyEntry) :=
  io_read_legacy_deny_entries_at (PRoot PATH_DENY_LIST_MAP) (PRoot PATH_DENY_COUNT_MAP).

Definition io_read_deny_count (count_pin : ppath) : stm world Z := λ w,
  (w, p ← open_pin count_pin (w_fs w);
      c ← as_array 4 p;
      ok_or (EMsg "read PATH_DENY_COUNT[0]") (pin_values c !! 0%nat)).

(** ** Staging directories *)
Definition is_ascii_digit (b : Z) : bool := bool_decide (48 ≤ b ≤ 57).
Definition legacy_abi_numeric_suffix (name : bytes) : option Z :=
  rest ← strip_prefix name LEGACY_ABI_DIR_PREFIX;
  if is_empty rest || negb (forallb is_ascii_digit rest) then None else parse_uint u32_max rest.

(** Loops over directory entries that keep those accepted by a test. *)
Fixpoint st_filter_map {S A B} (f : A → stm S (option B)) (l : list A) : stm S (list B) :=
  match l with
  | [] => mret []
  | x :: l => y ← f x; ys ← st_filter_map f l; mret (option_list y ++ ys)
  end.

Definition legacy_dir_entry (name : bytes) : stm world (option (Z * bytes)) :=
  match legacy_abi_numeric_suffix name with
  | None => mret None
  | Some n => d ← io_is_dir (PRoot name); mret (if d : bool then Some (n, name) else None)
  end.
Definition list_legacy_abi_dirs : stm world (list bytes) :=
  names ← io_read_dir_names;
  dirs ← st_filter_map legacy_dir_entry names;
  mret (sort_by (λ a b, bool_decide (a.1 ≤ b.1)) dirs).*2.

Definition proc_dir_entry (name : bytes) : stm world (option bytes) :=
  if starts_with name PROC_ABI_DIR_PREFIX && negb (bool_decide (46 ∈ name)) then
    d ← io_is_dir (PRoot name); mret (if d : bool then Some name else None)
  else mret None.
Definition list_proc_abi_dirs : stm world (list bytes) :=
  names ← io_read_dir_names;
  dirs ← st_filter_map proc_dir_entry names;
  mret (sort_by bytes_leb dirs).

(** [(has_list as u8, has_count as u8, n)], compared lexicographically. *)
Definition dir_score (fs : gmap ppath node) (dir : bytes) (n : Z) : Z * Z * Z :=
  (Z.b2z (bool_decide (is_Some (fs !! PSub dir PATH_DENY_LIST_MAP))),
   Z.b2z (bool_decide (is_Some (fs !! PSub dir PATH_DENY_COUNT_MAP))), n).
Definition score_geb (a b : Z * Z * Z) : bool :=
  let '(a1, a2, a3) := a in let '(b1, b2, b3) := b in
  bool_decide (b1 < a1) || (bool_decide (a1 = b1) &&
    (bool_decide (b2 < a2) || (bool_decide (a2 = b2) && bool_decide (b3 ≤ a3)))).

(** The body of the selection loop. *)
Definition select_step (fs : gmap ppath node) (best : option (Z * bytes)) (dir : bytes) :
    option (Z * bytes) :=
  match legacy_abi_numeric_suffix dir with
  | None => best
  | Some n =>
      if bool_decide (fs !! PSub dir PATH_DENY_LIST_MAP = None)
         && bool_decide (fs !! PSub dir PATH_DENY_COUNT_MAP = None)
      then best
      else match best with
           | None => Some (n, dir)
           | Some (bn, bdir) =>
               if score_geb (dir_score fs dir n) (dir_score fs bdir bn) then Some (n, dir) else best
           end
  end.
Definition select_deny_legacy_dir : stm world (option bytes) :=
  dirs ← list_legacy_abi_dirs;
  w ← st_get;
  mret (snd <$> foldl (select_step (w_fs w)) None dirs).

(** ** Locations of a split pair *)
Record DenyPinLocations : Type := mkDenyPinLocations { loc_list : ppath; loc_count : ppath }.

Definition resolve_one (legacy_dir name : bytes) : stm world ppath :=
  s ← io_exists (PSub legacy_dir name);
  if s : bool then mret (PSub legacy_dir name)
  else
    c ← io_exists (PRoot name);
    if c : bool then mret (PRoot name) else st_fail (EMsg "deny pin missing from both directories").
Definition resolve_deny_pin_locations (legacy_dir : bytes) : stm world DenyPinLocations :=
  l ← resolve_one legacy_dir PATH_DENY_LIST_MAP;
  c ← resolve_one legacy_dir PATH_DENY_COUNT_MAP;
  mret (mkDenyPinLocations l c).

Definition deny_maps : list bytes := [PATH_DENY_LIST_MAP; PATH_DENY_COUNT_MAP].

Definition complete_one (legacy_dir name : bytes) : stm world unit :=
  c ← io_exists (PRoot name);
  s ← io_exists (PSub legacy_dir name);
  if (c : bool) && negb (s : bool) then io_rename (PRoot name) (PSub legacy_dir name) else mret ().
Definition complete_interrupted_deny_stage (legacy_dir : bytes) : stm world unit :=
  _ ← io_create_dir_all legacy_dir;
  for_each (complete_one legacy_dir) deny_maps.

(** ** Classification *)
Definition expected_abi (name : bytes) : option PinnedMapAbi :=
  List.find (λ m, bool_decide (abi_name m = name)) PINNED_MAP_ABI.
Definition process_maps : list bytes := [PROCESS_EVENTS_MAP; RATE_LIMIT_BUCKET_MAP].

(** [.expect("table")]: a name outside the table would panic. *)
Definition st_expect {S A} (o : option A) : stm S A := st_of_result (ok_or (EMsg "panic") o).

(** The look at a process map: a mismatch is only logged. *)
Definition assess_process_map (name : bytes) : stm world unit :=
  e ← io_exists (PRoot name);
  if negb (e : bool) then mret () else _ ← io_map_info (PRoot name); mret ().

(** The tail of [assess_pin_abi]: compatible maps next to staging. *)
Definition assess_compatible : stm world PinAbiState :=
  _ ← for_each assess_process_map process_maps;
  staged ← select_deny_legacy_dir;
  match staged with
  | Some legacy_dir =>
      active ← io_read_deny_count (PRoot PATH_DENY_COUNT_MAP);
      mret (if bool_decide (active = 0) then MigrationInProgress legacy_dir else Compatible)
  | None => mret Compatible
  end.

Definition assess_layout : stm world PinAbiState :=
  list_info ← io_map_info (PRoot PATH_DENY_LIST_MAP);
  count_info ← io_map_info (PRoot PATH_DENY_COUNT_MAP);
  list_exp ← st_expect (expected_abi PATH_DENY_LIST_MAP);
  count_exp ← st_expect (expected_abi PATH_DENY_COUNT_MAP);
  if is_legacy_path_deny_list list_info && matches_expected count_info count_exp
  then mret LegacyMigratable
  else if negb (matches_expected list_info list_exp) then mret (Incompatible PATH_DENY_LIST_MAP)
  else if negb (matches_expected count_info count_exp) then mret (Incompatible PATH_DENY_COUNT_MAP)
  else assess_compatible.

Definition assess_pin_abi : stm world PinAbiState :=
  list_exists ← io_exists (PRoot PATH_DENY_LIST_MAP);
  count_exists ← io_exists (PRoot PATH_DENY_COUNT_MAP);
  staged ← select_deny_legacy_dir;
  match staged with
  | Some legacy_dir =>
      if negb ((list_exists : bool) && (count_exists : bool)) then mret (MigrationInProgress legacy_dir)
      else assess_layout
  | None =>
      if negb (list_exists : bool) && negb (count_exists : bool) then mret Cold
      else if negb (bool_decide (list_exists = count_exists))
      then mret (Incompatible (if list_exists : bool then PATH_DENY_LIST_MAP else PATH_DENY_COUNT_MAP))
      else assess_layout
  end.

(** ** Staging *)

(** The loop of [next_legacy_dir_name] from [n]; 1025 turns reach the limit. *)
Fixpoint next_dir_loop (fuel : nat) (n : Z) (existing : list bytes) : stm world bytes :=
  match fuel with
  | O => st_fail (EMsg "exhausted legacy_abi_* namespace")
  | S fuel =>
      let name := LEGACY_ABI_DIR_PREFIX ++ to_dec n in
      e ← io_exists (PRoot name);
      if negb (bool_decide (name ∈ existing)) && negb (e : bool) then mret name
      else
        let n := saturating_add 32 n 1 in
        if bool_decide (1024 < n) then st_fail (EMsg "exhausted legacy_abi_* namespace")
        else next_dir_loop fuel n existing
  end.
Definition next_legacy_dir_name : stm world bytes :=
  existing ← list_legacy_abi_dirs;
  next_dir_loop 1025 0 existing.

Definition stage_legacy_deny_pins : stm world bytes :=
  dest ← next_legacy_dir_name;
  _ ← io_create_dir_all dest;
  l ← io_exists (PRoot PATH_DENY_LIST_MAP);
  c ← io_exists (PRoot PATH_DENY_COUNT_MAP);
  if negb (l : bool) || negb (c : bool) then
    st_fail (EMsg "stage_legacy_deny_pins: canonical deny pins missing")
  else
    _ ← io_rename (PRoot PATH_DENY_COUNT_MAP) (PSub dest PATH_DENY_COUNT_MAP);
    _ ← io_rename (PRoot PATH_DENY_LIST_MAP) (PSub dest PATH_DENY_LIST_MAP);
    mret dest.

(** [let _ = io.remove_dir_all(..)]. *)
Definition ignore_result {S A} (m : stm S A) : stm S unit := λ s, ((m s).1, Ok ()).

Definition recreate_one (name : bytes) : stm world (option bytes) :=
  e ← io_exists (PRoot name);
  if negb (e : bool) then mret None
  else
    info ← io_map_info (PRoot name);
    exp ← st_expect (expected_abi name);
    if matches_expected info exp then mret None
    else
      let staging := PROC_ABI_DIR_PREFIX ++ name in
      _ ← ignore_result (io_remove_dir_all staging);
      _ ← io_create_dir_all staging;
      _ ← io_rename (PRoot name) (PSub staging name);
      mret (Some name).
Definition recreate_mismatched_process_maps : stm world (list bytes) :=
  st_filter_map recreate_one process_maps.

Definition bootstrap_entries_fallback : result (list PathDenyEntry) :=
  out ← try_map (λ p, ok_or (EMsg "bootstrap prefix invalid") (from_prefix p)) BOOTSTRAP_PATH_DENY_PREFIXES;
  if bool_decide (out = []) then Err (EMsg "bootstrap deny list empty") else Ok out.

(** ** [prepare_pin_root_for_load] *)

(** The process maps, and the result they add. *)
Definition recreate_results : stm world (list MigrationResult) :=
  proc ← recreate_mismatched_process_maps;
  mret (if bool_decide (proc = []) then [] else [ProcessMapRecreated]).

(** [match io.read(..) { Ok(e) => .., Err(_) => .. }]. *)
Definition try_run {S A} (m : stm S A) : stm S (option A) := λ s,
  let '(s, r) := m s in (s, Ok (match r with Ok a => Some a | Err _ => None end)).

Definition prepare_legacy : stm world (DenySeedOverride * list MigrationResult) :=
  entries ← try_run io_read_legacy_deny_entries;
  match entries with
  | None =>
      _ ← stage_legacy_deny_pins;
      r ← recreate_results;
      entries ← st_of_result bootstrap_entries_fallback;
      mret (MigratedEntries entries false, r ++ [BootstrapFallback])
  | Some entries =>
      _ ← stage_legacy_deny_pins;
      r ← recreate_results;
      mret (MigratedEntries entries true, r ++ [Migrated])
  end.

(** Frees a canonical name whose staged copy exists. *)
Definition free_canonical (legacy_dir name : bytes) : stm world unit :=
  c ← io_exists (PRoot name);
  s ← io_exists (PSub legacy_dir name);
  if (c : bool) && (s : bool) then io_remove_file (PRoot name) else mret ().

(** Whether canonical and staged count pins both exist. *)
Definition both_counts (legacy_dir : bytes) : stm world bool :=
  c ← io_exists (PRoot PATH_DENY_COUNT_MAP);
  s ← io_exists (PSub legacy_dir PATH_DENY_COUNT_MAP);
  mret ((c : bool) && (s : bool)).

Definition resume_read (legacy_dir : bytes) (entries : list PathDenyEntry) :
    stm world (DenySeedOverride * list MigrationResult) :=
  both ← both_counts legacy_dir;
  _ ← (if both : bool then
         active ← io_read_deny_count (PRoot PATH_DENY_COUNT_MAP);
         if bool_decide (active = 0) then mret ()
         else st_fail (EMsg "MigrationInProgress with non-empty canonical PATH_DENY_COUNT")
       else mret ());
  _ ← for_each (free_canonical legacy_dir) deny_maps;
  mret (MigratedEntries entries true, [ResumedMigration]).

Definition resume_fallback (legacy_dir : bytes) : stm world (DenySeedOverride * list MigrationResult) :=
  both ← both_counts legacy_dir;
  canon_empty_ok ← (if both : bool then
                      active ← io_read_deny_count (PRoot PATH_DENY_COUNT_MAP);
                      mret (bool_decide (active = 0))
                    else mret true);
  _ ← for_each (λ name, if canon_empty_ok : bool then free_canonical legacy_dir name else mret ()) deny_maps;
  entries ← st_of_result bootstrap_entries_fallback;
  mret (MigratedEntries entries false, [BootstrapFallback]).

Definition prepare_resume (legacy_dir : bytes) : stm world (DenySeedOverride * list MigrationResult) :=
  _ ← complete_interrupted_deny_stage legacy_dir;
  locs ← resolve_deny_pin_locations legacy_dir;
  entries ← try_run (io_read_legacy_deny_entries_at (loc_list locs) (loc_count locs));
  seed ← (match entries with
          | Some entries => resume_read legacy_dir entries
          | None => resume_fallback legacy_dir
          end);
  r ← recreate_results;
  mret (seed.1, seed.2 ++ r).

Definition prepare_pin_root_for_load : stm world (DenySeedOverride * list MigrationResult) :=
  state ← assess_pin_abi;
  match state with
  | Incompatible _ => st_fail (EMsg "pinned BPF map ABI incompatible")
  | Cold => r ← recreate_results; mret (Bootstrap, r)
  | Compatible => r ← recreate_results; mret (ResumePinned, r ++ [MCompatible])
  | LegacyMigratable => prepare_legacy
  | MigrationInProgress legacy_dir => prepare_resume legacy_dir
  end.

Definition cleanup_legacy_abi_dirs : stm world unit :=
  dirs ← list_legacy_abi_dirs;
  for_each io_remove_dir_all dirs.
Definition cleanup_proc_abi_dirs : stm world unit :=
  dirs ← list_proc_abi_dirs;
  for_each io_remove_dir_all dirs.

Definition widen_legacy_entry (legacy : LegacyPathDenyEntry) : option PathDenyEntry := widen legacy.
(** [legacy_match_equivalent]. *)
Definition legacy_match_equivalent (path : bytes) (legacy : LegacyPathDenyEntry) : bool :=
  let len := Z.to_nat (lpd_len legacy) in
  if bool_decide (len = 0%nat) || bool_decide (PATH_DENY_KEY_BYTES_LEGACY < len)%nat then false
  else
    let legacy_hit := bool_decide (len ≤ length path)%nat
                      && bool_decide (take len path = take len (lpd_bytes legacy)) in
    match widen legacy with
    | Some wide => bool_decide (legacy_hit = matches wide path)
    | None => negb legacy_hit
    end.

(** ** Runs that may fail

    [triple I P m Q]: from a directory in [P], a run of [m] that succeeds ends in
    [Q], a run that fails leaves [I]; without faults scheduled a run fails only
    where the name space of staging directories is exhausted, and schedules no
    fault for what follows. *)
Definition dir_name (n : Z) : bytes := LEGACY_ABI_DIR_PREFIX ++ to_dec n.
Definition exhausted (fs : gmap ppath node) : Prop :=
  ∀ n, 0 ≤ n ≤ 1024 → is_Some (fs !! PRoot (dir_name n)).

Definition triple {A} (I P : gmap ppath node → Prop) (m : stm world A)
    (Q : A → gmap ppath node → Prop) : Prop :=
  ∀ w, P (w_fs w) →
    match m w with
    | (w', Ok a) => Q a (w_fs w') ∧ (w_faults w = [] → w_faults w' = [])
    | (w', Err _) => I (w_fs w') ∧ (w_faults w = [] → exhausted (w_fs w'))
    end.

Lemma triple_bind {A B} I P (m : stm world A) (Q : A → gmap ppath node → Prop) (f : A → stm world B) R :
  triple I P m Q → (∀ a, triple I (Q a) (f a) R) → triple I P (m ≫= f) R.
Proof.
  intros Hm Hf w Hw. rewrite stm_bind_run. specialize (Hm w Hw).
  destruct (m w) as [w1 [a|e]]; [|done]. destruct Hm as [Hq Hn]. specialize (Hf a w1 Hq).
  destruct (f a w1) as [w2 [b|e]]; destruct Hf; split; auto.
Qed.

Lemma triple_ret {A} I P (a : A) (Q : A → gmap ppath node → Prop) :
  (∀ fs, P fs → Q a fs) → triple I P (mret a) Q.
Proof. intros H w Hw. by split; [apply H|]. Qed.

Lemma triple_weaken {A} (I P P' : gmap ppath node → Prop) (m : stm world A) (Q Q' : A → gmap ppath node → Prop) :
  (∀ fs, P' fs → P fs) → (∀ a fs, Q a fs → Q' a fs) → triple I P m Q → triple I P' m Q'.
Proof.
  intros Hp Hq Hm w Hw. specialize (Hm w (Hp _ Hw)).
  destruct (m w) as [w' [a|e]]; [|done]. destruct Hm. split; auto.
Qed.

(** A computation that only reads. *)
Definition reads {A} (m : stm world A) (P : gmap ppath node → Prop) (a : A) : Prop :=
  ∀ w, P (w_fs w) → m w = (w, Ok a).

Lemma triple_reads {A B} I P (m : stm world A) a (f : A → stm world B) R :
  reads m P a → triple I P (f a) R → triple I P (m ≫= f) R.
Proof. intros Hm Hf w Hw. rewrite stm_bind_run, (Hm w Hw). by apply Hf. Qed.

(** A mutating operation that is possible on every directory of [P]. *)
Lemma triple_write (I P : gmap ppath node → Prop) f g (Q : gmap ppath node → Prop) :
  (∀ fs, P fs → f fs = Ok (g fs)) → (∀ fs, P fs → I fs) → (∀ fs, P fs → Q (g fs)) →
  triple I P (io_write f) (λ _, Q).
Proof.
  intros Hf Hi Hq w Hw. unfold io_write.
  destruct (w_faults w) as [|[] l] eqn:Hl; rewrite ?(Hf _ Hw); cbn; split; auto; done.
Qed.

Lemma reads_exists path P b :
  (∀ fs, P fs → bool_decide (is_Some (fs !! path)) = b) → reads (io_exists path) P b.
Proof. intros H w Hw. unfold io_exists. by rewrite (H _ Hw). Qed.

Lemma reads_ret {A} (a : A) P : reads (mret a) P a.
Proof. done. Qed.
Lemma reads_bind {A B} (m : stm world A) (f : A → stm world B) P a b :
  reads m P a → reads (f a) P b → reads (m ≫= f) P b.
Proof. intros Hm Hf w Hw. rewrite stm_bind_run, (Hm w Hw). by apply Hf. Qed.

(** ** Sorting and listing *)
Lemma elem_sorted_insert {A} le (x y : A) l : x ∈ sorted_insert le y l ↔ x = y ∨ x ∈ l.
Proof.
  induction l as [|z l IH]; cbn; [set_solver|]. destruct (le y z); set_solver.
Qed.
Lemma elem_sort_by {A} le (x : A) l : x ∈ sort_by le l ↔ x ∈ l.
Proof.
  induction l as [|y l IH]; cbn; [done|]. rewrite elem_sorted_insert, IH. set_solver.
Qed.

Lemma st_filter_map_pure {S A B} (f : A → stm S (option B)) g l s :
  (∀ x, f x s = (s, Ok (g x))) → st_filter_map f l s = (s, Ok (omap g l)).
Proof.
  intros Hf. induction l as [|x l IH]; cbn; [done|].
  rewrite stm_bind_run, Hf, stm_bind_run, IH. cbn. by destruct (g x).
Qed.

(** The staging directories of a pin root, in the order of their numbers. *)
Definition legacy_dirs (fs : gmap ppath node) : list bytes :=
  (sort_by (λ a b, bool_decide (a.1 ≤ b.1))
     (omap (λ name, n ← legacy_abi_numeric_suffix name;
                    match fs !! PRoot name with Some NDir => Some (n, name) | _ => None end)
        (sort_by bytes_leb (filter (λ n, utf8_valid n = true) (omap root_name (map_to_list fs).*1))))).*2.

Lemma list_legacy_abi_dirs_run w : list_legacy_abi_dirs w = (w, Ok (legacy_dirs (w_fs w))).
Proof.
  unfold list_legacy_abi_dirs. rewrite stm_bind_run. cbn [io_read_dir_names].
  rewrite stm_bind_run, (st_filter_map_pure _ (λ name, n ← legacy_abi_numeric_suffix name;
    match w_fs w !! PRoot name with Some NDir => Some (n, name) | _ => None end)); [done|].
  intros x. unfold legacy_dir_entry. destruct (legacy_abi_numeric_suffix x); [|done].
  rewrite stm_bind_run. cbn. by repeat case_match.
Qed.

Lemma elem_legacy_dirs fs d :
  d ∈ legacy_dirs fs ↔
  is_Some (legacy_abi_numeric_suffix d) ∧ fs !! PRoot d = Some NDir ∧ utf8_valid d = true.
Proof.
  unfold legacy_dirs. rewrite list_elem_of_fmap. setoid_rewrite elem_sort_by.
  setoid_rewrite list_elem_of_omap. setoid_rewrite elem_sort_by.
  setoid_rewrite list_elem_of_filter. setoid_rewrite list_elem_of_omap.
  setoid_rewrite list_elem_of_fmap. split.
  - intros ([n x] & -> & y & [Hu (p & ([p' nd] & -> & Hp) & Hr)] & Hy).
    destruct (legacy_abi_numeric_suffix y) eqn:Hn; [|done]. cbn in Hy.
    destruct (fs !! PRoot y) as [[]|] eqn:Hf; simplify_eq. cbn. eauto.
  - intros ([n Hn] & Hf & Hu). exists (n, d). split; [done|]. exists d. rewrite Hn. cbn. rewrite Hf.
    split; [|done]. split; [done|]. exists (PRoot d). split; [|done].
    exists (PRoot d, NDir). split; [done|]. by apply elem_of_map_to_list.
Qed.

(** ** Selecting the staging directory *)
Abbreviation LIST := PATH_DENY_LIST_MAP (only parsing).
Abbreviation COUNT := PATH_DENY_COUNT_MAP (only parsing).

Definition unstaged (fs : gmap ppath node) (d : bytes) : Prop :=
  fs !! PSub d LIST = None ∧ fs !! PSub d COUNT = None.

Lemma select_step_unstaged fs best d : unstaged fs d → select_step fs best d = best.
Proof.
  intros [Hl Hc]. unfold select_step. case_match; [|done].
  by rewrite Hl, Hc, !bool_decide_eq_true_2.
Qed.

Lemma score_geb_refl s : score_geb s s = true.
Proof.
  destruct s as [[a b] c]. unfold score_geb.
  rewrite !(bool_decide_eq_true_2 (_ = _)), (bool_decide_eq_true_2 (c ≤ c)) by lia.
  by rewrite !orb_true_r.
Qed.

Lemma select_fold fs d n l :
  legacy_abi_numeric_suffix d = Some n → ¬ unstaged fs d →
  (∀ d', d' ∈ l → d' ≠ d → unstaged fs d') →
  ∀ best, best = None ∨ best = Some (n, d) →
  foldl (select_step fs) best l = if bool_decide (d ∈ l) then Some (n, d) else best.
Proof.
  intros Hn Hs. induction l as [|d' l IH]; intros Hl best Hb; [done|]. cbn [foldl].
  destruct (decide (d' = d)) as [->|Hne].
  - assert (select_step fs best d = Some (n, d)) as ->.
    { unfold select_step. rewrite Hn. rewrite <- bool_decide_and, bool_decide_eq_false_2 by done.
      destruct Hb as [->| ->]; [done|]. by rewrite score_geb_refl. }
    rewrite IH by (auto; set_solver). rewrite (bool_decide_eq_true_2 (d ∈ d :: l)) by set_solver.
    by case_bool_decide.
  - rewrite select_step_unstaged by (apply Hl; set_solver). rewrite IH by (auto; set_solver).
    erewrite (bool_decide_ext (d ∈ d' :: l)); [done|]. set_solver.
Qed.

(** No directory but [d] holds a staged pin. *)
Definition only_staged (fs : gmap ppath node) (d : bytes) : Prop :=
  ∀ d', is_Some (legacy_abi_numeric_suffix d') → d' ≠ d → unstaged fs d'.

Lemma select_run w :
  select_deny_legacy_dir w =
  (w, Ok (snd <$> foldl (select_step (w_fs w)) None (legacy_dirs (w_fs w)))).
Proof. unfold select_deny_legacy_dir. by rewrite stm_bind_run, list_legacy_abi_dirs_run. Qed.

Lemma reads_select_none (P : gmap ppath node → Prop) :
  (∀ fs, P fs → ∀ d, is_Some (legacy_abi_numeric_suffix d) → unstaged fs d) →
  reads select_deny_legacy_dir P None.
Proof.
  intros H w Hw. rewrite select_run. do 2 f_equal. specialize (H _ Hw).
  assert (∀ d, d ∈ legacy_dirs (w_fs w) → unstaged (w_fs w) d) as Hall.
  { intros d [Hd _]%elem_legacy_dirs. by apply H. }
  induction (legacy_dirs (w_fs w)) as [|d l IH]; [done|]. cbn [foldl].
  rewrite select_step_unstaged by (apply Hall; set_solver). apply IH. set_solver.
Qed.

Lemma reads_select_one (P : gmap ppath node → Prop) d :
  is_Some (legacy_abi_numeric_suffix d) → utf8_valid d = true →
  (∀ fs, P fs → fs !! PRoot d = Some NDir ∧ ¬ unstaged fs d ∧ only_staged fs d) →
  reads select_deny_legacy_dir P (Some d).
Proof.
  intros [n Hn] Hu H w Hw. rewrite select_run. do 2 f_equal.
  destruct (H _ Hw) as (Hd & Hs & Ho).
  rewrite (select_fold _ d n) by (auto; intros d' [Hd' _]%elem_legacy_dirs; by apply Ho).
  rewrite bool_decide_eq_true_2; [done|]. apply elem_legacy_dirs. eauto.
Qed.

(** ** The state of the deny pins during a migration *)

(** The pins the loader creates: current layout, all zero. *)
Definition current_info (name : bytes) : ObservedMapInfo :=
  match expected_abi name with
  | Some a => mkObservedMapInfo (abi_map_type a) (abi_key_size a) (abi_value_size a) (abi_max_entries a)
  | None => mkObservedMapInfo 0 0 0 0
  end.
Definition fresh_list : pin := mkPin (current_info LIST) [] [] true.
Definition fresh_count : pin := mkPin (current_info COUNT) [] [0] true.

(** A legacy pair of pins that reads as [es]. *)
Definition legacy_pair (lp cp : pin) (es : list PathDenyEntry) : Prop :=
  pin_opens lp = true ∧ pin_opens cp = true ∧
  is_legacy_path_deny_list (pin_info lp) = true ∧
  (∀ a, expected_abi COUNT = Some a → matches_expected (pin_info cp) a = true) ∧
  read_legacy_pins (Ok lp) (Ok cp) = Ok es.

(** Both pins at their canonical names and nothing staged. *)
Definition unmigrated (lp cp : pin) (fs : gmap ppath node) : Prop :=
  fs !! PRoot LIST = Some (NPin lp) ∧ fs !! PRoot COUNT = Some (NPin cp) ∧
  ∀ d, is_Some (legacy_abi_numeric_suffix d) → unstaged fs d.

(** A staging directory that holds the count pin, and the only staging in use. *)
Definition staging (cp : pin) (d : bytes) (fs : gmap ppath node) : Prop :=
  is_Some (legacy_abi_numeric_suffix d) ∧ utf8_valid d = true ∧
  fs !! PRoot d = Some NDir ∧ fs !! PSub d COUNT = Some (NPin cp) ∧ only_staged fs d.

(** Between the two renames. *)
Definition half_staged (lp cp : pin) (d : bytes) (fs : gmap ppath node) : Prop :=
  staging cp d fs ∧ fs !! PSub d LIST = None ∧
  fs !! PRoot LIST = Some (NPin lp) ∧ fs !! PRoot COUNT = None.

(** After both renames; the loader may have created fresh maps. *)
Definition staged (lp cp : pin) (d : bytes) (fs : gmap ppath node) : Prop :=
  staging cp d fs ∧ fs !! PSub d LIST = Some (NPin lp) ∧
  (fs !! PRoot LIST = None ∨ fs !! PRoot LIST = Some (NPin fresh_list)) ∧
  (fs !! PRoot COUNT = None ∨ fs !! PRoot COUNT = Some (NPin fresh_count)).

(** Process maps open, and their staging names are not taken by pins. *)
Definition process_ok (fs : gmap ppath node) : Prop :=
  ∀ name, name ∈ process_maps →
    (∀ nd, fs !! PRoot name = Some nd → ∃ p, nd = NPin p ∧ pin_opens p = true) ∧
    (∀ p, fs !! PRoot (PROC_ABI_DIR_PREFIX ++ name) ≠ Some (NPin p)).

Definition recoverable (lp cp : pin) (fs : gmap ppath node) : Prop :=
  process_ok fs ∧
  (unmigrated lp cp fs ∨ ∃ d, half_staged lp cp d fs ∨ staged lp cp d fs).

(** Operations on the process maps do not touch what the migration looks at. *)
Definition deny_same (fs fs' : gmap ppath node) : Prop :=
  fs' !! PRoot LIST = fs !! PRoot LIST ∧ fs' !! PRoot COUNT = fs !! PRoot COUNT ∧
  ∀ d, is_Some (legacy_abi_numeric_suffix d) →
    (∀ n, fs' !! PSub d n = fs !! PSub d n) ∧
    (fs !! PRoot d = Some NDir → fs' !! PRoot d = Some NDir).

Lemma unstaged_same fs fs' d :
  deny_same fs fs' → is_Some (legacy_abi_numeric_suffix d) → unstaged fs d → unstaged fs' d.
Proof. intros (_ & _ & H) Hd [H1 H2]. destruct (H d Hd) as [Hs _]. split; by rewrite Hs. Qed.

Lemma unmigrated_same lp cp fs fs' : deny_same fs fs' → unmigrated lp cp fs → unmigrated lp cp fs'.
Proof.
  intros Hs (Hl & Hc & Hd). destruct (Hs) as (H1 & H2 & _). split_and!; [by rewrite H1|by rewrite H2|].
  intros d Hn. apply (unstaged_same fs); auto.
Qed.

Lemma staging_same cp d fs fs' : deny_same fs fs' → staging cp d fs → staging cp d fs'.
Proof.
  intros Hs (Hn & Hu & Hd & Hc & Ho). destruct (Hs) as (_ & _ & H). destruct (H d Hn) as [H1 H2].
  split_and!; [done|done|by apply H2|by rewrite H1|].
  intros d' Hn' Hne. apply (unstaged_same fs); auto.
Qed.

Lemma half_staged_same lp cp d fs fs' : deny_same fs fs' → half_staged lp cp d fs → half_staged lp cp d fs'.
Proof.
  intros Hs (Hst & Hl & Hr & Hc). destruct (Hs) as (H1 & H2 & H). destruct (Hst) as (Hn & _).
  destruct (H d Hn) as [H3 _]. split_and!; [by eapply staging_same|by rewrite H3|by rewrite H1|by rewrite H2].
Qed.

Lemma staged_same lp cp d fs fs' : deny_same fs fs' → staged lp cp d fs → staged lp cp d fs'.
Proof.
  intros Hs (Hst & Hl & Hr & Hc). destruct (Hs) as (H1 & H2 & H). destruct (Hst) as (Hn & _).
  destruct (H d Hn) as [H3 _]. split_and!; [by eapply staging_same|by rewrite H3|by rewrite H1|by rewrite H2].
Qed.

Ltac name_neq := apply (bool_decide_eq_false_1 (_ = _)); vm_compute; reflexivity.

Lemma process_names name :
  name ∈ process_maps →
  let staging := PROC_ABI_DIR_PREFIX ++ name in
  legacy_abi_numeric_suffix name = None ∧ legacy_abi_numeric_suffix staging = None ∧
  name ≠ LIST ∧ name ≠ COUNT ∧ staging ≠ LIST ∧ staging ≠ COUNT ∧
  (∀ name', name' ∈ process_maps → staging ≠ name') ∧ is_Some (expected_abi name).
Proof.
  intros Hn. repeat (apply elem_of_cons in Hn as [->|Hn]); [..|by apply elem_of_nil in Hn].
  all: cbv zeta; split_and!; [vm_compute; reflexivity|vm_compute; reflexivity|name_neq|name_neq|name_neq|name_neq| |
    apply (bool_decide_eq_true_1 (is_Some _)); vm_compute; reflexivity].
  all: intros name' Hn'; repeat (apply elem_of_cons in Hn' as [->|Hn']); [name_neq|name_neq|].
  all: by apply elem_of_nil in Hn'.
Qed.

(** Changing paths outside the deny pins and their staging. *)
Definition quiet_path (p : ppath) : Prop :=
  match p with
  | PRoot n => n ≠ LIST ∧ n ≠ COUNT ∧ legacy_abi_numeric_suffix n = None
  | PSub d _ => legacy_abi_numeric_suffix d = None
  end.

Lemma deny_same_quiet fs fs' :
  (∀ p, ¬ quiet_path p → fs' !! p = fs !! p) → deny_same fs fs'.
Proof.
  intros H. split_and!; [apply H; intros (? & _); done|apply H; intros (_ & ? & _); done|].
  intros d [n Hn]. split.
  - intros m. apply H. cbn. congruence.
  - intros Hd. rewrite H; [done|]. cbn. intros (_ & _ & ?). congruence.
Qed.

(** A read whose answer depends on the directory. *)
Lemma triple_query {A B} I P (m : stm world A) g (f : A → stm world B) R :
  (∀ w, m w = (w, g (w_fs w))) → (∀ fs, P fs → ∃ a, g fs = Ok a) →
  (∀ a, triple I (λ fs, P fs ∧ g fs = Ok a) (f a) R) → triple I P (m ≫= f) R.
Proof.
  intros Hm Hg Hf w Hw. rewrite stm_bind_run, Hm. destruct (Hg _ Hw) as [a Ha]. rewrite Ha.
  by apply Hf.
Qed.

Lemma triple_pre {A} I (P P' : gmap ppath node → Prop) (m : stm world A) Q :
  (∀ fs, P' fs → P fs) → triple I P m Q → triple I P' m Q.
Proof. intros H. by apply triple_weaken. Qed.

Lemma triple_ignore {A} I (P : gmap ppath node → Prop) (f : gmap ppath node → result (gmap ppath node)) (k : stm world A) R :
  (∀ fs fs', P fs → f fs = Ok fs' → P fs') → triple I P k R →
  triple I P (ignore_result (io_write f) ≫= λ _, k) R.
Proof.
  intros Hf Hk w Hw. rewrite stm_bind_run. unfold ignore_result, io_write.
  destruct (w_faults w) as [|[] l] eqn:Hl; cbn.
  - destruct (f (w_fs w)) as [fs'|e] eqn:E; cbn.
    + specialize (Hk (mkWorld fs' []) (Hf _ _ Hw E)). by destruct (k _) as [? []].
    + specialize (Hk (mkWorld (w_fs w) []) Hw). by destruct (k _) as [? []].
  - specialize (Hk (mkWorld (w_fs w) l) Hw). destruct (k _) as [w' []]; cbn in *; by destruct Hk.
  - destruct (f (w_fs w)) as [fs'|e] eqn:E; cbn.
    + specialize (Hk (mkWorld fs' l) (Hf _ _ Hw E)). destruct (k _) as [w' []]; cbn in *; by destruct Hk.
    + specialize (Hk (mkWorld (w_fs w) l) Hw). destruct (k _) as [w' []]; cbn in *; by destruct Hk.
Qed.

Section process.
Context (I D : gmap ppath node → Prop).
Context (HD : ∀ fs fs', deny_same fs fs' → D fs → D fs') (HI : ∀ fs, process_ok fs → D fs → I fs).

Definition proc_inv (fs : gmap ppath node) : Prop := process_ok fs ∧ D fs.

Lemma proc_inv_update fs fs' :
  proc_inv fs → (∀ p, ¬ quiet_path p → fs' !! p = fs !! p) → process_ok fs' → proc_inv fs'.
Proof. intros [_ Hd] Hq Hp. split; [done|]. eapply HD; [|done]. by apply deny_same_quiet. Qed.

Lemma proc_inv_remove_dir name fs fs' :
  name ∈ process_maps → proc_inv fs →
  filter (λ kv, in_dir (PROC_ABI_DIR_PREFIX ++ name) kv.1 = false) fs = fs' → proc_inv fs'.
Proof.
  intros (_ & Hs & _ & _ & H3 & H4 & _)%process_names Hi <-. apply (proc_inv_update fs); [done|..].
  - intros p Hp. rewrite map_lookup_filter. destruct (fs !! p) as [nd|]; cbn; [|done].
    rewrite option_guard_True; [done|]. cbn.
    destruct p as [n|d n]; cbn; apply bool_decide_eq_false; intros ->; by apply Hp.
  - destruct Hi as [Hp _]. intros name' Hn'. destruct (Hp name' Hn') as [Ha Hb]. split.
    + intros nd [H _]%map_lookup_filter_Some. by apply Ha.
    + intros p [H _]%map_lookup_filter_Some. by eapply Hb.
Qed.

Lemma proc_inv_create name fs :
  name ∈ process_maps → proc_inv fs → proc_inv (<[PRoot (PROC_ABI_DIR_PREFIX ++ name) := NDir]> fs).
Proof.
  intros (_ & Hs & _ & _ & H3 & H4 & Hd & _)%process_names Hi. apply (proc_inv_update fs); [done|..].
  - intros p Hp. rewrite lookup_insert_ne; [done|]. intros <-. by apply Hp.
  - destruct Hi as [Hp _]. intros name' Hn'. destruct (Hp name' Hn') as [Ha Hb]. split.
    + intros nd. rewrite lookup_insert_ne; [apply Ha|]. intros [= H]. by apply (Hd name').
    + intros p [[_ ?]|[_ H]]%lookup_insert_Some; [done|]. by eapply Hb.
Qed.

Lemma proc_inv_rename name nd fs :
  name ∈ process_maps → proc_inv fs →
  proc_inv (<[PSub (PROC_ABI_DIR_PREFIX ++ name) name := nd]> (delete (PRoot name) fs)).
Proof.
  intros (Hn & Hs & H1 & H2 & _)%process_names Hi. apply (proc_inv_update fs); [done|..].
  - intros p Hp. rewrite lookup_insert_ne by (intros <-; by apply Hp).
    rewrite lookup_delete_ne; [done|]. intros <-. by apply Hp.
  - destruct Hi as [Hp _]. intros name' Hn'. destruct (Hp name' Hn') as [Ha Hb]. split.
    + intros nd' [[? _]|[_ [_ H]%lookup_delete_Some]]%lookup_insert_Some; [done|]. by apply Ha.
    + intros p [[? _]|[_ [_ H]%lookup_delete_Some]]%lookup_insert_Some; [done|]. by eapply Hb.
Qed.

Lemma triple_recreate_one name :
  name ∈ process_maps → triple I proc_inv (recreate_one name) (λ _, proc_inv).
Proof.
  intros Hn. pose proof (process_names name Hn) as (_ & _ & _ & _ & _ & _ & Hst & [exp Hexp]).
  unfold recreate_one.
  apply (triple_query _ _ _ (λ fs, Ok (bool_decide (is_Some (fs !! PRoot name))))); [done|eauto|].
  intros [|]; cbn [negb]; [|by apply triple_ret; intros fs [? _]].
  apply (triple_query _ _ _ (λ fs, pin_info <$> open_pin (PRoot name) fs)); [done| |].
  { intros fs ([Hp _] & [= [nd Hnd]%bool_decide_eq_true]).
    destruct (proj1 (Hp name Hn) nd Hnd) as (p & -> & Ho). unfold open_pin. rewrite Hnd, Ho. eauto. }
  intros info. rewrite Hexp. apply (triple_reads _ _ _ exp); [done|].
  destruct (matches_expected info exp); [apply triple_ret; by intros fs [[? _] _]|].
  set (Q := λ fs, proc_inv fs ∧ is_Some (fs !! PRoot name)).
  apply (triple_pre _ Q).
  { intros fs [[Hi [= H%bool_decide_eq_true]] _]. by split. }
  apply triple_ignore.
  { intros fs fs' [Hi Hs] Hf. destruct (fs !! PRoot (PROC_ABI_DIR_PREFIX ++ name)) as [[]|]; simplify_eq.
    split; [by eapply proc_inv_remove_dir|]. destruct Hs as [nd Hnd]. exists nd.
    apply map_lookup_filter_Some. split; [done|]. cbn. apply bool_decide_eq_false. intros H.
    by apply (Hst name Hn). }
  apply (triple_bind _ _ _ (λ _ fs, Q fs ∧ fs !! PRoot (PROC_ABI_DIR_PREFIX ++ name) = Some NDir)).
  { apply (triple_write _ _ _ (λ fs, <[PRoot (PROC_ABI_DIR_PREFIX ++ name) := NDir]> fs)).
    - intros fs [[Hp _] _]. destruct (Hp name Hn) as [_ Hno].
      destruct (fs !! PRoot _) as [[p|]|] eqn:E; [|done|done]. by destruct (Hno p).
    - intros fs [[? ?] _]. by apply HI.
    - intros fs [Hi Hs]. split; [split; [by apply proc_inv_create|]|by rewrite lookup_insert_eq].
      rewrite lookup_insert_ne; [done|]. intros [= H]. by apply (Hst name Hn). }
  intros _. apply (triple_bind _ _ _ (λ _, proc_inv)); [|intros _; by apply triple_ret].
  apply (triple_write _ _ _ (λ fs, <[PSub (PROC_ABI_DIR_PREFIX ++ name) name := default NDir (fs !! PRoot name)]>
                                     (delete (PRoot name) fs))).
  - intros fs [[_ [nd Hnd]] Hd]. rewrite Hnd. cbn [parent_exists]. by rewrite Hd.
  - intros fs [[[? ?] _] _]. by apply HI.
  - intros fs [[Hi _] _]. by apply proc_inv_rename.
Qed.

Lemma triple_recreate_results : triple I proc_inv recreate_results (λ _, proc_inv).
Proof.
  unfold recreate_results, recreate_mismatched_process_maps, process_maps.
  apply (triple_bind _ _ _ (λ _, proc_inv)); [|intros r; by apply triple_ret].
  cbn [st_filter_map].
  apply (triple_bind _ _ _ (λ _, proc_inv)); [apply triple_recreate_one; set_solver|intros y].
  apply (triple_bind _ _ _ (λ _, proc_inv)); [|intros ys; by apply triple_ret].
  apply (triple_bind _ _ _ (λ _, proc_inv)); [apply triple_recreate_one; set_solver|intros y'].
  apply (triple_bind _ _ _ (λ _, proc_inv)); [|intros ys; by apply triple_ret].
  by apply triple_ret.
Qed.
End process.

(** ** Names of staging directories *)
Lemma dir_name_ok n :
  0 ≤ n ≤ 1024 → is_Some (legacy_abi_numeric_suffix (dir_name n)) ∧ utf8_valid (dir_name n) = true.
Proof.
  intros Hn.
  assert (forallb (λ k, bool_decide (is_Some (legacy_abi_numeric_suffix (dir_name (Z.of_nat k))))
                        && utf8_valid (dir_name (Z.of_nat k))) (seq 0 1025) = true) as H
    by (vm_compute; reflexivity).
  rewrite forallb_forall in H. specialize (H (Z.to_nat n)).
  rewrite Z2Nat.id in H by lia. rewrite in_seq in H.
  apply andb_true_iff in H as [H1 H2]; [|lia]. by apply bool_decide_eq_true in H1.
Qed.

Lemma next_dir_loop_spec existing w fuel n :
  (∀ d, d ∈ existing → is_Some (w_fs w !! PRoot d)) →
  0 ≤ n → n + Z.of_nat fuel = 1025 →
  (∀ k, 0 ≤ k < n → is_Some (w_fs w !! PRoot (dir_name k))) →
  (∃ k, 0 ≤ k ≤ 1024 ∧ w_fs w !! PRoot (dir_name k) = None ∧
     next_dir_loop fuel n existing w = (w, Ok (dir_name k))) ∨
  (exhausted (w_fs w) ∧ (next_dir_loop fuel n existing w).1 = w ∧
     ∃ e, (next_dir_loop fuel n existing w).2 = Err e).
Proof.
  intros He. revert n. induction fuel as [|fuel IH]; intros n Hn Hf Hk.
  { right. split_and!; [|done|by eexists]. intros k ?. apply Hk. lia. }
  cbn [next_dir_loop]. rewrite stm_bind_run. cbn [io_exists]. fold (dir_name n).
  destruct (w_fs w !! PRoot (dir_name n)) as [nd|] eqn:E.
  - rewrite (bool_decide_eq_true_2 (is_Some (Some nd))) by done. rewrite andb_false_r.
    unfold saturating_add. rewrite Z.min_l by lia.
    assert (∀ k, 0 ≤ k < n + 1 → is_Some (w_fs w !! PRoot (dir_name k))) as Hk'.
    { intros k ?. destruct (decide (k = n)) as [->|]; [by rewrite E|]. apply Hk. lia. }
    case_bool_decide.
    + right. split_and!; [|done|by eexists]. intros k ?. apply Hk'. lia.
    + apply IH; [lia|lia|done].
  - left. exists n. split_and!; [lia|lia|done|].
    rewrite bool_decide_eq_false_2 by (intros Hin; destruct (He _ Hin); congruence).
    rewrite bool_decide_eq_false_2 by (intros [? ?]; congruence). done.
Qed.

Lemma triple_next I P :
  (∀ fs, P fs → I fs) →
  triple I P next_legacy_dir_name (λ d fs, P fs ∧ fs !! PRoot d = None ∧
    is_Some (legacy_abi_numeric_suffix d) ∧ utf8_valid d = true).
Proof.
  intros Hi w Hw. unfold next_legacy_dir_name. rewrite stm_bind_run, list_legacy_abi_dirs_run.
  destruct (next_dir_loop_spec (legacy_dirs (w_fs w)) w 1025 0) as [(k & Hk & Hn & ->)|(He & H1 & e & H2)];
    [|lia|lia|lia|..].
  - intros d (_ & -> & _)%elem_legacy_dirs. eauto.
  - split; [|done]. split; [done|]. split; [done|]. by apply dir_name_ok.
  - destruct (next_dir_loop _ _ _ _) as [w' r]. cbn in H1, H2. subst. split; [by apply Hi|done].
Qed.

(** ** Process maps next to deny operations *)
Lemma process_ok_keep fs fs' :
  process_ok fs →
  (∀ n, fs' !! PRoot n = fs !! PRoot n ∨ fs' !! PRoot n = None ∨
        (fs' !! PRoot n = Some NDir ∧ n ∉ process_maps)) →
  process_ok fs'.
Proof.
  intros Hp H name Hn. destruct (Hp name Hn) as [Ha Hb]. split.
  - intros nd Hnd. destruct (H name) as [E|[E|[E ?]]]; [|congruence|done]. apply Ha. congruence.
  - intros p Hpin. destruct (H (PROC_ABI_DIR_PREFIX ++ name)) as [E|[E|[E _]]]; [|congruence|congruence].
    apply (Hb p). congruence.
Qed.

Lemma staging_not_process d : is_Some (legacy_abi_numeric_suffix d) → d ∉ process_maps.
Proof. intros [n Hn] (H & _)%process_names. congruence. Qed.

Lemma process_ok_create d fs :
  is_Some (legacy_abi_numeric_suffix d) → process_ok fs → process_ok (<[PRoot d := NDir]> fs).
Proof.
  intros Hd Hp. eapply process_ok_keep; [done|]. intros n. destruct (decide (n = d)) as [->|].
  - right; right. rewrite lookup_insert_eq. split; [done|by apply staging_not_process].
  - left. rewrite lookup_insert_ne; congruence.
Qed.

Lemma process_ok_rename name d n nd fs :
  process_ok fs → process_ok (<[PSub d n := nd]> (delete (PRoot name) fs)).
Proof.
  intros Hp. eapply process_ok_keep; [done|]. intros m. rewrite lookup_insert_ne by done.
  destruct (decide (m = name)) as [->|]; [right; left; by rewrite lookup_delete_eq|].
  left. rewrite lookup_delete_ne; congruence.
Qed.

Lemma process_ok_delete name fs : process_ok fs → process_ok (delete (PRoot name) fs).
Proof.
  intros Hp. eapply process_ok_keep; [done|]. intros m.
  destruct (decide (m = name)) as [->|]; [right; left; by rewrite lookup_delete_eq|].
  left. rewrite lookup_delete_ne; congruence.
Qed.

(** ** The migration *)
Section migration.
Context (lp cp : pin) (es : list PathDenyEntry) (Hpair : legacy_pair lp cp es).

Abbreviation I := (recoverable lp cp).

(** Both pins staged and the canonical names free. *)
Definition clean (d : bytes) (fs : gmap ppath node) : Prop :=
  staging cp d fs ∧ fs !! PSub d LIST = Some (NPin lp) ∧
  fs !! PRoot LIST = None ∧ fs !! PRoot COUNT = None.

Lemma list_count_neq : LIST ≠ COUNT.
Proof. name_neq. Qed.
Lemma staging_names d : is_Some (legacy_abi_numeric_suffix d) → d ≠ LIST ∧ d ≠ COUNT.
Proof. intros [n Hn]. split; intros ->; by vm_compute in Hn. Qed.

Lemma clean_staged d fs : clean d fs → staged lp cp d fs.
Proof. intros (H1 & H2 & H3 & H4). split_and!; auto. Qed.
Lemma clean_same d fs fs' : deny_same fs fs' → clean d fs → clean d fs'.
Proof.
  intros Hs (Hst & Hl & Hr & Hc). destruct (Hs) as (H1 & H2 & H). destruct (Hst) as (Hn & _).
  destruct (H d Hn) as [H3 _]. split_and!; [by eapply staging_same|by rewrite H3|by rewrite H1|by rewrite H2].
Qed.

Lemma create_dir_unmigrated d fs :
  is_Some (legacy_abi_numeric_suffix d) → fs !! PRoot d = None →
  unmigrated lp cp fs → unmigrated lp cp (<[PRoot d := NDir]> fs).
Proof.
  intros Hd Hn (Hl & Hc & Hu). destruct (staging_names d Hd) as [H1 H2].
  split_and!; [by rewrite lookup_insert_ne by congruence..|].
  intros d' Hd'. destruct (Hu d' Hd'). split; by rewrite lookup_insert_ne.
Qed.

Lemma rename_count d fs :
  is_Some (legacy_abi_numeric_suffix d) → utf8_valid d = true → fs !! PRoot d = Some NDir →
  unmigrated lp cp fs →
  half_staged lp cp d (<[PSub d COUNT := NPin cp]> (delete (PRoot COUNT) fs)).
Proof.
  intros Hd Hu Hr (Hl & Hc & Hn). pose proof list_count_neq. destruct (staging_names d Hd).
  split_and!; [split_and!; [done|done|..]|..].
  - by rewrite lookup_insert_ne, lookup_delete_ne by congruence.
  - by rewrite lookup_insert_eq.
  - intros d' Hd' Hne. destruct (Hn d' Hd').
    split; by rewrite lookup_insert_ne, lookup_delete_ne by congruence.
  - rewrite lookup_insert_ne, lookup_delete_ne by congruence. by apply Hn.
  - by rewrite lookup_insert_ne, lookup_delete_ne by congruence.
  - by rewrite lookup_insert_ne, lookup_delete_eq by congruence.
Qed.

Lemma rename_list d fs :
  half_staged lp cp d fs → clean d (<[PSub d LIST := NPin lp]> (delete (PRoot LIST) fs)).
Proof.
  intros ((Hd & Hu & Hr & Hc & Ho) & _ & Hl & Hrc). pose proof list_count_neq.
  destruct (staging_names d Hd). split_and!; [split_and!; [done|done|..]|..].
  - by rewrite lookup_insert_ne, lookup_delete_ne by congruence.
  - by rewrite lookup_insert_ne, lookup_delete_ne by congruence.
  - intros d' Hd' Hne. destruct (Ho d' Hd' Hne).
    split; by rewrite lookup_insert_ne, lookup_delete_ne by congruence.
  - by rewrite lookup_insert_eq.
  - by rewrite lookup_insert_ne, lookup_delete_eq by congruence.
  - by rewrite lookup_insert_ne, lookup_delete_ne by congruence.
Qed.

Lemma triple_stage :
  triple I (λ fs, process_ok fs ∧ unmigrated lp cp fs) stage_legacy_deny_pins
    (λ d fs, process_ok fs ∧ clean d fs).
Proof.
  unfold stage_legacy_deny_pins.
  eapply triple_bind.
  { apply (triple_next I (λ fs, process_ok fs ∧ unmigrated lp cp fs)). intros fs [? ?]. split; auto. }
  intros d. set (ok := is_Some (legacy_abi_numeric_suffix d) ∧ utf8_valid d = true).
  apply (triple_bind _ _ _ (λ _ fs, process_ok fs ∧ unmigrated lp cp fs ∧ fs !! PRoot d = Some NDir ∧ ok)).
  { apply (triple_write _ _ _ (λ fs, <[PRoot d := NDir]> fs)).
    - intros fs (_ & Hd & _). by rewrite Hd.
    - intros fs ([? ?] & _). split; auto.
    - intros fs ([Hp Hu] & Hd & Ho). split_and!; [by apply process_ok_create; [apply Ho|]| |..].
      + by apply create_dir_unmigrated; [apply Ho|..].
      + by rewrite lookup_insert_eq.
      + done. }
  intros _. apply (triple_reads _ _ _ true).
  { apply reads_exists. intros fs (_ & (-> & _) & _). by apply bool_decide_eq_true. }
  apply (triple_reads _ _ _ true).
  { apply reads_exists. intros fs (_ & (_ & -> & _) & _). by apply bool_decide_eq_true. }
  cbn [negb orb].
  apply (triple_bind _ _ _ (λ _ fs, process_ok fs ∧ half_staged lp cp d fs)).
  { apply (triple_write _ _ _ (λ fs, <[PSub d COUNT := NPin cp]> (delete (PRoot COUNT) fs))).
    - intros fs (_ & (_ & -> & _) & Hd & _). cbn [parent_exists]. by rewrite Hd.
    - intros fs (? & ? & _). split; auto.
    - intros fs (Hp & Hu & Hd & Ho). split; [by apply process_ok_rename|].
      apply rename_count; [apply Ho|apply Ho|done|done]. }
  intros _. apply (triple_bind _ _ _ (λ _ fs, process_ok fs ∧ clean d fs)); [|intros _; by apply triple_ret].
  apply (triple_write _ _ _ (λ fs, <[PSub d LIST := NPin lp]> (delete (PRoot LIST) fs))).
  - intros fs (_ & ((_ & _ & Hd & _) & _ & -> & _)). cbn [parent_exists]. by rewrite Hd.
  - intros fs [? ?]. split; eauto.
  - intros fs [Hp Hh]. split; [by apply process_ok_rename|by apply rename_list].
Qed.
(** Result of a completed migration. *)
Definition migrated (r : DenySeedOverride * list MigrationResult) (fs : gmap ppath node) : Prop :=
  r.1 = MigratedEntries es true ∧ process_ok fs ∧ ∃ d, clean d fs.

Lemma triple_recreate_clean d :
  triple I (λ fs, process_ok fs ∧ clean d fs) recreate_results (λ _ fs, process_ok fs ∧ clean d fs).
Proof.
  apply (triple_recreate_results I (clean d)).
  - apply clean_same.
  - intros fs Hp Hc%clean_staged. split; eauto.
Qed.

Lemma read_pair a b fs :
  fs !! a = Some (NPin lp) → fs !! b = Some (NPin cp) →
  read_legacy_pins (open_pin a fs) (open_pin b fs) = Ok es.
Proof.
  destruct Hpair as (Hl & Hc & _ & _ & Hr). intros Ha Hb. unfold open_pin. by rewrite Ha, Hb, Hl, Hc.
Qed.

Lemma triple_prepare_legacy :
  triple I (λ fs, process_ok fs ∧ unmigrated lp cp fs) prepare_legacy migrated.
Proof.
  unfold prepare_legacy. apply (triple_reads _ _ _ (Some es)).
  { intros w [_ (Hl & Hc & _)]. unfold try_run, io_read_legacy_deny_entries, io_read_legacy_deny_entries_at.
    by rewrite (read_pair _ _ _ Hl Hc). }
  eapply triple_bind; [apply triple_stage|]. intros d.
  eapply triple_bind; [apply triple_recreate_clean|]. intros r.
  apply triple_ret. intros fs [? ?]. split_and!; eauto.
Qed.

(** *** Classification along the way *)
Lemma open_lp a fs : fs !! a = Some (NPin lp) → open_pin a fs = Ok lp.
Proof. intros Ha. unfold open_pin. rewrite Ha. by destruct Hpair as (-> & _). Qed.
Lemma open_cp a fs : fs !! a = Some (NPin cp) → open_pin a fs = Ok cp.
Proof. intros Ha. unfold open_pin. rewrite Ha. by destruct Hpair as (_ & -> & _). Qed.

Lemma assess_unmigrated :
  reads assess_pin_abi (λ fs, process_ok fs ∧ unmigrated lp cp fs) LegacyMigratable.
Proof.
  apply (reads_bind _ _ _ true).
  { apply reads_exists. intros fs [_ (-> & _)]. by apply bool_decide_eq_true. }
  apply (reads_bind _ _ _ true).
  { apply reads_exists. intros fs [_ (_ & -> & _)]. by apply bool_decide_eq_true. }
  apply (reads_bind _ _ _ None); [apply reads_select_none; by intros fs [_ (_ & _ & ?)]|].
  cbn [negb andb]. rewrite bool_decide_eq_true_2 by done. cbn [negb].
  unfold assess_layout. apply (reads_bind _ _ _ (pin_info lp)).
  { intros w [_ (Hl & _)]. unfold io_map_info. by rewrite (open_lp _ _ Hl). }
  apply (reads_bind _ _ _ (pin_info cp)).
  { intros w [_ (_ & Hc & _)]. unfold io_map_info. by rewrite (open_cp _ _ Hc). }
  destruct Hpair as (_ & _ & Hleg & Hcnt & _).
  destruct (expected_abi LIST) as [la|] eqn:El; [|by vm_compute in El].
  destruct (expected_abi COUNT) as [ca|] eqn:Ec; [|by vm_compute in Ec].
  apply (reads_bind _ _ _ la); [done|]. apply (reads_bind _ _ _ ca); [done|].
  by rewrite Hleg, (Hcnt ca).
Qed.

(** Process maps never stop the classification. *)
Lemma assess_process_reads name w :
  name ∈ process_maps → process_ok (w_fs w) → assess_process_map name w = (w, Ok ()).
Proof.
  intros Hn Hp. destruct (Hp name Hn) as [Ha _]. unfold assess_process_map.
  rewrite stm_bind_run. cbn [io_exists].
  destruct (w_fs w !! PRoot name) as [nd|] eqn:E; [|done].
  rewrite bool_decide_eq_true_2 by done. cbn [negb].
  destruct (Ha nd eq_refl) as (p & -> & Ho). rewrite stm_bind_run. unfold io_map_info, open_pin.
  by rewrite E, Ho.
Qed.

Lemma assess_compatible_staged d w :
  process_ok (w_fs w) → staged lp cp d (w_fs w) → w_fs w !! PRoot COUNT = Some (NPin fresh_count) →
  assess_compatible w = (w, Ok (MigrationInProgress d)).
Proof.
  intros Hp (Hst & Hl & _) Hc. unfold assess_compatible, process_maps. cbn [for_each].
  rewrite !stm_bind_run. rewrite (assess_process_reads _ w) by (done || set_solver).
  rewrite !stm_bind_run. rewrite (assess_process_reads _ w) by (done || set_solver). cbn [mret stm_ret].
  rewrite stm_bind_run, (reads_select_one (staging cp d) d).
  - rewrite stm_bind_run. unfold io_read_deny_count, open_pin. rewrite Hc. done.
  - apply Hst.
  - apply Hst.
  - intros fs (_ & _ & H1 & H2 & H3). split_and!; [done| |done]. intros [_ ?]. congruence.
  - done.
Qed.

Lemma assess_layout_fresh d w :
  process_ok (w_fs w) → staged lp cp d (w_fs w) →
  w_fs w !! PRoot LIST = Some (NPin fresh_list) → w_fs w !! PRoot COUNT = Some (NPin fresh_count) →
  assess_layout w = (w, Ok (MigrationInProgress d)).
Proof.
  intros Hp Hst Hl Hc. rewrite <- (assess_compatible_staged d w) by done.
  unfold assess_layout. rewrite stm_bind_run. unfold io_map_info at 1, open_pin. rewrite Hl.
  cbn [pin_opens fresh_list fmap result_fmap]. rewrite stm_bind_run. unfold io_map_info, open_pin. rewrite Hc.
  reflexivity.
Qed.
(** In the middle of a migration, with staging in [d]. *)
Definition in_progress (d : bytes) (fs : gmap ppath node) : Prop :=
  process_ok fs ∧ (half_staged lp cp d fs ∨ staged lp cp d fs).

Lemma in_progress_staging d fs : in_progress d fs → staging cp d fs.
Proof. by intros [_ [(? & _)|(? & _)]]. Qed.
Lemma in_progress_recoverable d fs : in_progress d fs → I fs.
Proof. intros [? ?]. split; eauto. Qed.

Lemma assess_in_progress d :
  is_Some (legacy_abi_numeric_suffix d) → utf8_valid d = true →
  reads assess_pin_abi (in_progress d) (MigrationInProgress d).
Proof.
  intros Hd Hu w Hw. unfold assess_pin_abi. rewrite stm_bind_run. cbn [io_exists].
  rewrite stm_bind_run. cbn [io_exists]. rewrite stm_bind_run.
  rewrite (reads_select_one (in_progress d) d Hd Hu).
  - destruct Hw as [Hp [(Hs & H1 & H2 & H3)|Hst]].
    + rewrite H3, (bool_decide_eq_false_2 (is_Some None)) by apply is_Some_None. by rewrite andb_false_r.
    + destruct (Hst) as (_ & _ & [Hl|Hl] & Hc).
      { rewrite Hl, (bool_decide_eq_false_2 (is_Some None)) by apply is_Some_None. done. }
      destruct Hc as [Hc|Hc].
      { rewrite Hc, (bool_decide_eq_false_2 (is_Some None)) by apply is_Some_None. by rewrite andb_false_r. }
      rewrite Hl, Hc, !(bool_decide_eq_true_2 (is_Some (Some _))) by done. cbn [negb andb].
      by apply assess_layout_fresh.
  - intros fs (_ & _ & H1 & H2 & H3)%in_progress_staging. split_and!; [done| |done]. intros [_ ?]. congruence.
  - done.
Qed.

Lemma triple_complete d :
  triple I (in_progress d) (complete_interrupted_deny_stage d) (λ _ fs, process_ok fs ∧ staged lp cp d fs).
Proof.
  unfold complete_interrupted_deny_stage, deny_maps. cbn [for_each].
  apply (triple_bind _ _ _ (λ _, in_progress d)).
  { apply (triple_write _ _ _ (λ fs, <[PRoot d := NDir]> fs)).
    - intros fs (_ & _ & -> & _)%in_progress_staging. done.
    - apply in_progress_recoverable.
    - intros fs H. pose proof (in_progress_staging _ _ H) as (_ & _ & Hr & _).
      by rewrite insert_id. }
  intros _. apply (triple_bind _ _ _ (λ _ fs, process_ok fs ∧ staged lp cp d fs)).
  { unfold complete_one.
    apply (triple_query _ _ _ (λ fs, Ok (bool_decide (is_Some (fs !! PRoot LIST))))); [done|eauto|].
    intros c.
    apply (triple_query _ _ _ (λ fs, Ok (bool_decide (is_Some (fs !! PSub d LIST))))); [done|eauto|].
    intros [|].
    - cbn [negb]. rewrite andb_false_r. apply triple_ret. intros fs [[[Hp [(_ & Hl & _)|Hs]] _] [= E]]; [|done].
      rewrite Hl in E. by apply bool_decide_eq_true in E as [? ?].
    - cbn [negb]. rewrite andb_true_r. destruct c.
      + apply (triple_write _ _ _ (λ fs, <[PSub d LIST := NPin lp]> (delete (PRoot LIST) fs))).
        * intros fs [[[Hp [((_ & _ & Hr & _) & _ & Hl & _)|(_ & Hl & _)]] _] [= E]].
          -- rewrite Hl. cbn [parent_exists]. by rewrite Hr.
          -- rewrite Hl in E. by rewrite bool_decide_eq_true_2 in E by done.
        * intros fs [[H _] _]. by eapply in_progress_recoverable.
        * intros fs [[[Hp [Hh|(_ & Hl & _)]] _] [= E]].
          -- split; [by apply process_ok_rename|]. by apply clean_staged, rename_list.
          -- rewrite Hl in E. by rewrite bool_decide_eq_true_2 in E by done.
      + apply triple_ret. intros fs [[[Hp [(_ & _ & Hl & _)|Hs]] [= E]] _]; [|done].
        rewrite Hl in E. by rewrite bool_decide_eq_true_2 in E by done. }
  intros _. apply (triple_bind _ _ _ (λ _ fs, process_ok fs ∧ staged lp cp d fs));
    [|intros _; by apply triple_ret].
  unfold complete_one.
  apply (triple_query _ _ _ (λ fs, Ok (bool_decide (is_Some (fs !! PRoot COUNT))))); [done|eauto|].
  intros c. apply (triple_reads _ _ _ true).
  { apply reads_exists. intros fs [[_ ((_ & _ & _ & -> & _) & _)] _]. by apply bool_decide_eq_true. }
  cbn [negb]. rewrite andb_false_r. apply triple_ret. by intros fs [? _].
Qed.

Lemma reads_resolve d :
  reads (resolve_deny_pin_locations d) (staged lp cp d)
    (mkDenyPinLocations (PSub d LIST) (PSub d COUNT)).
Proof.
  unfold resolve_deny_pin_locations, resolve_one. apply (reads_bind _ _ _ (PSub d LIST)).
  { apply (reads_bind _ _ _ true); [|done].
    apply reads_exists. intros fs (_ & -> & _). by apply bool_decide_eq_true. }
  apply (reads_bind _ _ _ (PSub d COUNT)); [|done]. apply (reads_bind _ _ _ true); [|done].
  apply reads_exists. intros fs ((_ & _ & _ & -> & _) & _). by apply bool_decide_eq_true.
Qed.

(** Freeing a canonical name keeps the staged copy. *)
Lemma delete_staged d name fs :
  name = LIST ∨ name = COUNT → staged lp cp d fs → staged lp cp d (delete (PRoot name) fs).
Proof.
  intros Hn ((Hd & Hu & Hr & Hc & Ho) & Hl & H1 & H2). pose proof (staging_names d Hd) as [? ?].
  split_and!; [split_and!; [done|done|..]|..].
  - rewrite lookup_delete_ne; [done|]. intros [= ->]. by destruct Hn.
  - by rewrite lookup_delete_ne.
  - intros d' Hd' Hne. destruct (Ho d' Hd' Hne). split; by rewrite lookup_delete_ne.
  - by rewrite lookup_delete_ne.
  - destruct (decide (name = LIST)) as [->|]; [left; by rewrite lookup_delete_eq|].
    by rewrite lookup_delete_ne by congruence.
  - destruct (decide (name = COUNT)) as [->|]; [left; by rewrite lookup_delete_eq|].
    by rewrite lookup_delete_ne by congruence.
Qed.

Lemma triple_free d name (P : gmap ppath node → Prop) :
  name = LIST ∨ name = COUNT →
  (∀ fs, P fs → P (delete (PRoot name) fs)) →
  triple I (λ fs, (process_ok fs ∧ staged lp cp d fs) ∧ P fs) (free_canonical d name)
    (λ _ fs, (process_ok fs ∧ staged lp cp d fs) ∧ P fs ∧ fs !! PRoot name = None).
Proof.
  intros Hn HP. unfold free_canonical.
  apply (triple_query _ _ _ (λ fs, Ok (bool_decide (is_Some (fs !! PRoot name))))); [done|eauto|].
  intros c. apply (triple_reads _ _ _ true).
  { apply reads_exists. intros fs [[[_ ((_ & _ & _ & Hc & _) & Hl & _)] _] _].
    apply bool_decide_eq_true. destruct Hn as [->| ->]; [by rewrite Hl|by rewrite Hc]. }
  rewrite andb_true_r. destruct c.
  - apply (triple_write _ _ _ (λ fs, delete (PRoot name) fs)).
    + intros fs [[[_ (_ & _ & H1 & H2)] _] [= E%bool_decide_eq_true]].
      destruct Hn as [->| ->].
      * destruct H1 as [H1|H1]; rewrite H1 in E |- *; [by destruct E|done].
      * destruct H2 as [H2|H2]; rewrite H2 in E |- *; [by destruct E|done].
    + intros fs [[[? ?] _] _]. split; eauto.
    + intros fs [[[Hp Hs] HPs] _]. split_and!;
        [by apply process_ok_delete|by apply delete_staged|by apply HP|by rewrite lookup_delete_eq].
  - apply triple_ret. intros fs [[Hs HPs] [= E%bool_decide_eq_false]]. split_and!; try apply Hs; [done|].
    by apply eq_None_not_Some.
Qed.
Lemma triple_resume_read d :
  triple I (λ fs, process_ok fs ∧ staged lp cp d fs) (resume_read d es)
    (λ r fs, r.1 = MigratedEntries es true ∧ process_ok fs ∧ clean d fs).
Proof.
  unfold resume_read, both_counts.
  set (S := λ fs, process_ok fs ∧ staged lp cp d fs).
  apply (triple_query _ _ _ (λ fs, Ok (bool_decide (is_Some (fs !! PRoot COUNT))
                                       && bool_decide (is_Some (fs !! PSub d COUNT))))); [done|eauto|].
  intros both. apply (triple_bind _ _ _ (λ _, S)).
  { destruct both; [|apply triple_ret; by intros fs [? _]]. apply (triple_reads _ _ _ 0).
    - intros w [[_ (_ & _ & _ & [Hc|Hc])] [= E]].
      + rewrite Hc in E. rewrite (bool_decide_eq_false_2 (is_Some None)) in E; [done|by intros [? ?]].
      + unfold io_read_deny_count, open_pin. by rewrite Hc.
    - rewrite bool_decide_eq_true_2 by done. apply triple_ret. by intros fs [? _]. }
  intros _. unfold deny_maps. cbn [for_each].
  apply (triple_bind _ _ _ (λ _ fs, S fs ∧ True ∧ fs !! PRoot LIST = None ∧ fs !! PRoot COUNT = None)).
  { apply (triple_bind _ _ _ (λ _ fs, S fs ∧ True ∧ fs !! PRoot LIST = None)).
    - eapply triple_pre; [|apply (triple_free d LIST (λ _, True)); auto]. by intros fs ?.
    - intros _. apply (triple_bind _ _ _ (λ _ fs, S fs ∧ (True ∧ fs !! PRoot LIST = None) ∧ fs !! PRoot COUNT = None)).
      + apply (triple_free d COUNT (λ fs, True ∧ fs !! PRoot LIST = None)); [auto|].
        intros fs [_ ?]. split; [done|]. pose proof list_count_neq. by rewrite lookup_delete_ne by congruence.
      + intros _. apply triple_ret. intros fs (? & [_ ?] & ?). by split_and!. }
  intros _. apply triple_ret. intros fs ([Hp (Hst & Hl & _)] & _ & H1 & H2). split_and!; done.
Qed.

Lemma triple_prepare_resume d :
  triple I (in_progress d) (prepare_resume d) migrated.
Proof.
  unfold prepare_resume. eapply triple_bind; [apply triple_complete|]. intros u.
  eapply triple_reads.
  { intros w [_ Hw]. by apply (reads_resolve d). }
  cbn [loc_list loc_count]. apply (triple_reads _ _ _ (Some es)).
  { intros w [_ ((_ & _ & _ & Hc & _) & Hl & _)]. unfold try_run, io_read_legacy_deny_entries_at.
    by rewrite (read_pair _ _ _ Hl Hc). }
  eapply triple_bind; [apply triple_resume_read|]. intros seed.
  apply (triple_bind _ _ _ (λ _ fs, seed.1 = MigratedEntries es true ∧ process_ok fs ∧ clean d fs)).
  - intros w (Hs & Hw). pose proof (triple_recreate_clean d w Hw) as H.
    destruct (recreate_results w) as [w' [r|e]]; [|done]. destruct H as [[H1 H2] H3].
    split; [by split_and!|exact H3].
  - intros r. apply triple_ret. intros fs (? & ? & ?). split_and!; eauto.
Qed.

(** A run of the whole preparation from any state a migration can be in. *)
Lemma triple_prepare : triple I I prepare_pin_root_for_load migrated.
Proof.
  intros w [Hp [Hu|(d & Hd)]]; unfold prepare_pin_root_for_load; rewrite stm_bind_run.
  - rewrite (assess_unmigrated w (conj Hp Hu)). by apply triple_prepare_legacy.
  - assert (in_progress d (w_fs w)) as Hw by (by split).
    pose proof (in_progress_staging _ _ Hw) as (H1 & H2 & _).
    rewrite (assess_in_progress d H1 H2 w Hw). by apply triple_prepare_resume.
Qed.
End migration.

(** ** Crashes

    An attempt to start: a preparation with a schedule of failures and, if it
    succeeded, a loader that created some of the two fresh maps before the agent
    died. *)
Record attempt : Type := mkAttempt {
  at_faults : list bool;
  at_fresh_list : bool;
  at_fresh_count : bool
}.
Definition run_attempt (fs : gmap ppath node) (a : attempt) : gmap ppath node :=
  match prepare_pin_root_for_load (mkWorld fs (at_faults a)) with
  | (w, Err _) => w_fs w
  | (w, Ok _) =>
      let fs := if at_fresh_list a then <[PRoot LIST := NPin fresh_list]> (w_fs w) else w_fs w in
      if at_fresh_count a then <[PRoot COUNT := NPin fresh_count]> fs else fs
  end.

(** Creating a canonical map beside complete staging. *)
Lemma load_staged lp cp d name p fs :
  (name = LIST ∧ p = fresh_list ∨ name = COUNT ∧ p = fresh_count) →
  process_ok fs ∧ staged lp cp d fs →
  process_ok (<[PRoot name := NPin p]> fs) ∧ staged lp cp d (<[PRoot name := NPin p]> fs).
Proof.
  intros Hn [Hp ((Hd & Hu & Hr & Hc & Ho) & Hl & H1 & H2)].
  pose proof (staging_names d Hd) as [Hd1 Hd2]. pose proof list_count_neq as Hlc.
  assert (name ≠ d) by (destruct Hn as [[-> _]|[-> _]]; congruence). split.
  - intros m Hm. pose proof (process_names m Hm) as (_ & _ & N1 & N2 & N3 & N4 & _).
    assert (m ≠ name ∧ PROC_ABI_DIR_PREFIX ++ m ≠ name) as [M1 M2]
      by (destruct Hn as [[-> _]|[-> _]]; done).
    destruct (Hp m Hm) as [Ha Hb]. split.
    + intros nd. rewrite lookup_insert_ne by congruence. apply Ha.
    + intros q. rewrite lookup_insert_ne by congruence. apply Hb.
  - split_and!; [split_and!; [done|done|..]|..].
    + by rewrite lookup_insert_ne by congruence.
    + by rewrite lookup_insert_ne.
    + intros d' Hd' Hne. destruct (Ho d' Hd' Hne). split; by rewrite lookup_insert_ne.
    + by rewrite lookup_insert_ne.
    + destruct Hn as [[-> ->]|[-> ->]]; [right; by rewrite lookup_insert_eq|].
      by rewrite lookup_insert_ne by congruence.
    + destruct Hn as [[-> ->]|[-> ->]]; [|right; by rewrite lookup_insert_eq].
      by rewrite lookup_insert_ne by congruence.
Qed.

Lemma attempt_recoverable lp cp es fs a :
  legacy_pair lp cp es → recoverable lp cp fs → recoverable lp cp (run_attempt fs a).
Proof.
  intros Hpair Hr. unfold run_attempt.
  pose proof (triple_prepare lp cp es Hpair (mkWorld fs (at_faults a)) Hr) as H.
  destruct (prepare_pin_root_for_load _) as [w [r|e]]; [|by destruct H].
  destruct H as [(_ & Hp & d & Hc%clean_staged) _].
  assert (process_ok (w_fs w) ∧ staged lp cp d (w_fs w)) as Hs by done.
  assert (∀ fs, process_ok fs ∧ staged lp cp d fs → recoverable lp cp fs) as Hw
    by (intros fs' [? ?]; split; eauto).
  apply Hw. destruct (at_fresh_count a), (at_fresh_list a); repeat apply load_staged; auto.
Qed.

(** C10: the migration of a legacy deny list never loses it. It starts from pins of the old
    layout whose entries read as [es], under the pin root and with no staging directory that
    holds deny pins yet, beside process maps that, where pinned, can be opened, and whose
    own staging names no pin takes. After any number of attempts that failed or crashed at any operation, before or after
    the loader created fresh maps, a preparation that succeeds hands over exactly [es] to be
    enforced; and one in which no operation fails does succeed, unless all 1025 staging
    names are taken. *)
Theorem migration_crash_safe lp cp es fs attempts faults :
  legacy_pair lp cp es → process_ok fs → unmigrated lp cp fs →
  let fs' := foldl run_attempt fs attempts in
  match prepare_pin_root_for_load (mkWorld fs' faults) with
  | (_, Ok (seed, _)) => seed = MigratedEntries es true
  | (w, Err _) => faults ≠ [] ∨ exhausted (w_fs w)
  end.
Proof.
  intros Hpair Hp Hu. cbv zeta.
  assert (recoverable lp cp (foldl run_attempt fs attempts)) as Hr.
  { assert (recoverable lp cp fs) as H by (split; auto). revert H. clear Hp Hu. revert fs.
    induction attempts as [|a l IH]; intros fs H; [done|]. cbn [foldl]. apply IH.
    by eapply attempt_recoverable. }
  pose proof (triple_prepare lp cp es Hpair (mkWorld _ faults) Hr) as H.
  destruct (prepare_pin_root_for_load _) as [w [[seed r]|e]].
  - by destruct H as [(H & _) _].
  - destruct H as [_ H]. destruct faults; [right; by apply H|by left].
Qed.

(** ** Widening *)

(** A widened entry matches the paths its legacy form matched. *)
Lemma legacy_match_equivalent_true path legacy :
  wf_legacy legacy → legacy_match_equivalent path legacy = true.
Proof.
  intros [[Hl1 Hl2] Hb]. unfold legacy_match_equivalent, widen, PATH_DENY_KEY_BYTES_LEGACY in *.
  set (len := Z.to_nat (lpd_len legacy)). assert (1 ≤ len ≤ 16)%nat as Hlen by lia.
  rewrite (bool_decide_eq_false_2 (len = 0%nat)), (bool_decide_eq_false_2 (16 < len)%nat) by lia.
  cbn [orb]. set (pfx := take len (lpd_bytes legacy)).
  assert (length pfx = len) as Hp by (unfold pfx; rewrite length_take; lia).
  destruct (from_prefix pfx) as [wide|] eqn:Hf.
  - apply from_prefix_wf in Hf as [Hw He]. rewrite matches_starts_with, He by done.
    apply bool_decide_eq_true, eq_bool_prop_intro. rewrite !Is_true_true.
    rewrite starts_with_prefix, take_lookup_prefix, Hp, andb_true_iff, !bool_decide_eq_true.
    split; [by intros [_ ?]|]. intros H. split; [|done].
    apply (f_equal length) in H. rewrite length_take, Hp in H. lia.
  - unfold from_prefix in Hf. rewrite (proj2 (is_empty_false pfx)) in Hf by (intros E; rewrite E in Hp; cbn in Hp; lia).
    rewrite bool_decide_eq_false_2 in Hf by (unfold PATH_DENY_KEY_BYTES; lia). done.
Qed.

(** ** Concrete migrations *)
Definition legacy_info : ObservedMapInfo := mkObservedMapInfo BPF_MAP_TYPE_ARRAY 4 20 64.
Definition demo_legacy (p : bytes) : LegacyPathDenyEntry :=
  mkLegacyPathDenyEntry (Z.of_nat (length p)) (copy_into (zeroed 16) p).
Definition demo_list_pin (prefixes : list bytes) : pin :=
  mkPin legacy_info (map demo_legacy prefixes) [] true.
Definition demo_count_pin (n : Z) : pin := mkPin (current_info COUNT) [] [n] true.
Definition demo_root : gmap ppath node :=
  {[ PRoot LIST := NPin (demo_list_pin [lit "/tmp/"; lit "/opt/x/"]);
     PRoot COUNT := NPin (demo_count_pin 2) ]}.
Definition demo_wide (p : bytes) : PathDenyEntry :=
  mkPathDenyEntry (Z.of_nat (length p)) (copy_into (zeroed 32) p).

Lemma demo_pair : legacy_pair (demo_list_pin [lit "/tmp/"; lit "/opt/x/"]) (demo_count_pin 2)
  [demo_wide (lit "/tmp/"); demo_wide (lit "/opt/x/")].
Proof.
  split_and!; [done|done|by vm_compute| |by vm_compute].
  intros a Ha. vm_compute in Ha. injection Ha as <-. by vm_compute.
Qed.

(** Three attempts die: after the directory was created, between the renames,
    and after the loader created the fresh maps. *)
Definition demo_attempts : list attempt :=
  [mkAttempt [false; true] false false; mkAttempt [false; false; true] false false;
   mkAttempt [] true true].

Lemma migration_crash_safe_witness :
  match prepare_pin_root_for_load (mkWorld (foldl run_attempt demo_root demo_attempts) []) with
  | (_, Ok (seed, _)) =>
      seed = MigratedEntries [demo_wide (lit "/tmp/"); demo_wide (lit "/opt/x/")] true
  | (w, Err _) => [] ≠ @nil bool ∨ exhausted (w_fs w)
  end.
Proof.
  apply (migration_crash_safe (demo_list_pin [lit "/tmp/"; lit "/opt/x/"]) (demo_count_pin 2)).
  - apply demo_pair.
  - intros name Hn. repeat (apply elem_of_cons in Hn as [->|Hn]); [..|by apply elem_of_nil in Hn];
      (split; [intros nd Hnd|intros q Hq]; [vm_compute in Hnd|vm_compute in Hq]; done).
  - split_and!; [vm_compute; reflexivity|vm_compute; reflexivity|]. intros d Hd.
    split; [apply lookup_insert_None|apply lookup_insert_None]; split; done.
Defined.

(** With pins left in a staging directory of an earlier migration, a crash between
    the two renames loses the current list: the resumed run selects the older
    directory because it holds both pins, hands over its entries, and deletes the
    only copy of the current list. *)
Theorem stale_staging_loses_list :
  let stale := [lit "/old/"] in
  let fs := <[PRoot (lit "legacy_abi_0") := NDir]>
            (<[PSub (lit "legacy_abi_0") LIST := NPin (demo_list_pin stale)]>
            (<[PSub (lit "legacy_abi_0") COUNT := NPin (demo_count_pin 1)]> demo_root)) in
  let crashed := run_attempt fs (mkAttempt [false; false; true] false false) in
  let '(w, r) := prepare_pin_root_for_load (mkWorld crashed []) in
  crashed !! PRoot LIST = Some (NPin (demo_list_pin [lit "/tmp/"; lit "/opt/x/"])) ∧
  fst <$> r = Ok (MigratedEntries (map demo_wide stale) true) ∧
  w_fs w !! PRoot LIST = None ∧ w_fs w !! PSub (lit "legacy_abi_1") LIST = None ∧
  w_fs w !! PSub (lit "legacy_abi_0") LIST = Some (NPin (demo_list_pin stale)).
Proof. vm_compute. split_and!; reflexivity. Qed.
