(* ===== verification/BtfOffsets.v ===== *)
(** * BTF offset resolution ([btf_offsets.rs])

    The parser that reads three field offsets out of the running kernel's BTF
    blob before the enforcement program is loaded. Slices are byte lists, [usize]
    and [u64] values are [Z] at width 64. The sources mix checked arithmetic with
    plain [+] and slice indexing, which panic: an [outcome] has a constructor for
    that, and one for a [while] loop that has used up its fuel, so that their
    absence is a theorem and not a convention.

    The second half reads a blob as a sequence of typed records and shows that the
    parser accepts a blob exactly when such a reading exists, with the offsets the
    reading gives. *)

From S2P Require Import Prelude RustStd Common ExecMapper.

(** ** Data *)

Record ResolvedOffsets : Type := mkResolvedOffsets {
  bprm_filename_offset : Z;
  task_real_parent_offset : Z;
  task_tgid_offset : Z
}.

Inductive BtfOffsetError : Type :=
| TooShort (context : string) (need have : Z)
| BadMagic (magic : Z)
| UnsupportedEndianness
| UnsupportedVersion (version : Z)
| HeaderTooShort (declared minimum : Z)
| SectionOutOfBounds (section : string) (start len blob_len : Z)
| Overflow (context : string)
| TruncatedTypeRecord (type_id : Z)
| UnsupportedKind (type_id kind : Z)
| StringOffsetOutOfBounds (name_off str_section_len : Z)
| StringNotNulTerminated (name_off : Z)
| StringNotUtf8 (name_off : Z)
| StructNotFound (name : string)
| MemberNotFound (struct_name member_name : string)
| UnexpectedBitfield (struct_name member_name : string) (bitfield_bits : Z)
| UnalignedBitOffset (struct_name member_name : string) (bit_offset : Z)
| OffsetExceedsStructSize (struct_name member_name : string) (byte_offset struct_size : Z).

(** [Result<A, BtfOffsetError>], a panic, or a loop out of fuel. *)
Inductive outcome (A : Type) : Type :=
| Ret (a : A)
| Fail (e : BtfOffsetError)
| Panic
| Diverge.
Arguments Ret {A} a.
Arguments Fail {A} e.
Arguments Panic {A}.
Arguments Diverge {A}.

#[export] Instance outcome_ret : MRet outcome := λ A a, Ret a.
#[export] Instance outcome_bind : MBind outcome := λ A B f o,
  match o with Ret a => f a | Fail e => Fail e | Panic => Panic | Diverge => Diverge end.

(** [o.ok_or(e)?]. *)
Definition or_fail {A} (e : BtfOffsetError) (o : option A) : outcome A :=
  match o with Some a => Ret a | None => Fail e end.
(** An operation of the language that panics when it has no value. *)
Definition or_panic {A} (o : option A) : outcome A :=
  match o with Some a => Ret a | None => Panic end.

(** [slice.len()]. *)
Definition len (s : bytes) : Z := Z.of_nat (length s).
(** [slice.get(i)]; [slice[i]] is its [or_panic]. *)
Definition get_at (s : bytes) (i : Z) : option Z :=
  if bool_decide (0 ≤ i) then s !! Z.to_nat i else None.
(** [slice.get(a..b)]; [&slice[a..b]] is its [or_panic]. *)
Definition get_range (s : bytes) (a b : Z) : option bytes :=
  if bool_decide (0 ≤ a ∧ a ≤ b ∧ b ≤ len s)
  then Some (slice (Z.to_nat a) (Z.to_nat (b - a)) s) else None.
(** [x + y] on [usize]. *)
Definition usize_add (x y : Z) : outcome Z := or_panic (checked_add 64 x y).
(** [x.checked_mul(y)] on [usize]. *)
Definition checked_mul (x y : Z) : option Z :=
  if bool_decide (x * y < 2 ^ 64) then Some (x * y) else None.

Definition BTF_MAGIC : Z := 0xEB9F.
Definition BTF_HEADER_MIN_LEN : Z := 24.
Definition BTF_TYPE_RECORD_LEN : Z := 12.
Definition BTF_MEMBER_LEN : Z := 12.
Definition BTF_KIND_STRUCT : Z := 4.

Record BtfHeader : Type := mkBtfHeader {
  hdr_len : Z; type_off : Z; type_len : Z; str_off : Z; str_len : Z
}.

Record StructInfo : Type := mkStructInfo {
  size : Z; kind_flag : bool; vlen : Z; members : bytes
}.

(** ** Reading *)

Definition read_u32_le (buf : bytes) (offset : Z) (context : string) : outcome Z :=
  end_ ← or_fail (Overflow context) (checked_add 64 offset 4);
  bs ← or_fail (TooShort context end_ (len buf)) (get_range buf offset end_);
  b0 ← or_panic (get_at bs 0); b1 ← or_panic (get_at bs 1);
  b2 ← or_panic (get_at bs 2); b3 ← or_panic (get_at bs 3);
  Ret (le_decode [b0; b1; b2; b3]).

(** [ok_or] evaluates its argument, so [offset + 1] is computed on success too. *)
Definition read_u8 (buf : bytes) (offset : Z) (context : string) : outcome Z :=
  need ← usize_add offset 1;
  or_fail (TooShort context need (len buf)) (get_at buf offset).

Definition checked_slice (blob : bytes) (start l : Z) (section : string) : outcome bytes :=
  end_ ← or_fail (Overflow section) (checked_add 64 start l);
  if bool_decide (len blob < end_)
  then Fail (SectionOutOfBounds section start l (len blob))
  else or_panic (get_range blob start end_).

Definition parse_header (blob : bytes) : outcome BtfHeader :=
  if bool_decide (len blob < BTF_HEADER_MIN_LEN)
  then Fail (TooShort "btf_header" BTF_HEADER_MIN_LEN (len blob))
  else
    b0 ← or_panic (get_at blob 0);
    b1 ← or_panic (get_at blob 1);
    let magic_le := le_decode [b0; b1] in
    if bool_decide (magic_le ≠ BTF_MAGIC) then
      let magic_be := le_decode [b1; b0] in
      if bool_decide (magic_be = BTF_MAGIC) then Fail UnsupportedEndianness
      else Fail (BadMagic magic_le)
    else
      version ← read_u8 blob 2 "btf_header.version";
      if bool_decide (version ≠ 1) then Fail (UnsupportedVersion version)
      else
        hl ← read_u32_le blob 4 "btf_header.hdr_len";
        if bool_decide (hl < BTF_HEADER_MIN_LEN) then Fail (HeaderTooShort hl BTF_HEADER_MIN_LEN)
        else
          to ← read_u32_le blob 8 "btf_header.type_off";
          tl ← read_u32_le blob 12 "btf_header.type_len";
          so ← read_u32_le blob 16 "btf_header.str_off";
          sl ← read_u32_le blob 20 "btf_header.str_len";
          Ret (mkBtfHeader hl to tl so sl).

Definition kind_extra_len (kind vl type_id : Z) : outcome Z :=
  let mul member_len :=
    or_fail (Overflow "btf_type trailing array length") (checked_mul vl member_len) in
  match kind with
  | 0 => Ret 0 | 1 => Ret 4 | 2 => Ret 0 | 3 => Ret 12
  | 4 | 5 => mul BTF_MEMBER_LEN
  | 6 => mul 8
  | 7 | 8 | 9 | 10 | 11 | 12 => Ret 0
  | 13 => mul 8
  | 14 => Ret 4
  | 15 => mul 12
  | 16 => Ret 0
  | 17 => Ret 4
  | 18 => Ret 0
  | 19 => mul 12
  | other => Fail (UnsupportedKind type_id other)
  end.

Definition lookup_name (str_section : bytes) (name_off : Z) : outcome bytes :=
  tail ← or_fail (StringOffsetOutOfBounds name_off (len str_section))
    (get_range str_section name_off (len str_section));
  nul_pos ← or_fail (StringNotNulTerminated name_off) (fst <$> list_find (λ b, b = 0) tail);
  name ← or_panic (get_range tail 0 (Z.of_nat nul_pos));
  if utf8_valid name then Ret name else Fail (StringNotUtf8 name_off).

(** ** Members *)

(** The checks on the matched member. *)
Definition member_offset (si : StructInfo) (struct_name member_name : string) (raw_offset : Z) : outcome Z :=
  let '(bit_offset, bitfield_bits) :=
    if kind_flag si then (Z.land raw_offset 0x00ffffff, as_uint 8 (Z.shiftr raw_offset 24))
    else (raw_offset, 0) in
  if bool_decide (bitfield_bits ≠ 0) then Fail (UnexpectedBitfield struct_name member_name bitfield_bits)
  else if bool_decide (bit_offset mod 8 ≠ 0) then Fail (UnalignedBitOffset struct_name member_name bit_offset)
  else
    let byte_offset := bit_offset / 8 in
    if bool_decide (size si ≤ byte_offset)
    then Fail (OffsetExceedsStructSize struct_name member_name byte_offset (size si))
    else Ret byte_offset.

(** [for _ in 0..vlen], [n] turns to go. *)
Fixpoint find_member_loop (si : StructInfo) (str_section : bytes)
  (struct_name member_name : string) (n : nat) (cursor : Z) : outcome Z :=
  match n with
  | O => Fail (MemberNotFound struct_name member_name)
  | S n =>
      name_off ← read_u32_le (members si) cursor "btf_member.name_off";
      off ← usize_add cursor 8;
      raw_offset ← read_u32_le (members si) off "btf_member.offset";
      name ← lookup_name str_section name_off;
      if bool_decide (name = lit member_name) then
        member_offset si struct_name member_name raw_offset
      else
        cursor ← or_fail (Overflow "btf_member cursor") (checked_add 64 cursor BTF_MEMBER_LEN);
        find_member_loop si str_section struct_name member_name n cursor
  end.

Definition find_member_byte_offset (si : StructInfo) (str_section : bytes)
  (struct_name member_name : string) : outcome Z :=
  find_member_loop si str_section struct_name member_name (Z.to_nat (vlen si)) 0.

(** ** Types *)

(** The locals of the walk. *)
Record walk : Type := mkWalk {
  w_cursor : Z; w_type_id : Z; w_task : option StructInfo; w_binprm : option StructInfo
}.

Definition info_kind (info : Z) : Z := as_uint 8 (Z.land (Z.shiftr info 24) 0x1f).
Definition info_kind_flag (info : Z) : bool := bool_decide (Z.land (Z.shiftr info 31) 1 = 1).
Definition info_vlen (info : Z) : Z := as_uint 16 (Z.land info 0xffff).

(** What the walk does with a struct record of the given name. *)
Definition take_struct (name record : bytes) (sz : Z) (flag : bool) (vl : Z)
  (task binprm : option StructInfo) : outcome (option StructInfo * option StructInfo) :=
  let want_task_struct := bool_decide (name = lit "task_struct") && bool_decide (task = None) in
  let want_linux_binprm := bool_decide (name = lit "linux_binprm") && bool_decide (binprm = None) in
  if want_task_struct || want_linux_binprm then
    members ← or_panic (get_range record BTF_TYPE_RECORD_LEN (len record));
    let info_struct := mkStructInfo sz flag vl members in
    Ret (if want_task_struct then (Some info_struct, binprm) else (task, Some info_struct))
  else Ret (task, binprm).

(** One turn of the [while] loop. *)
Definition find_structs_step (type_section str_section : bytes) (w : walk) : outcome walk :=
  let cursor := w_cursor w in
  name_off ← read_u32_le type_section cursor "btf_type.name_off";
  off4 ← usize_add cursor 4;
  info ← read_u32_le type_section off4 "btf_type.info";
  off8 ← usize_add cursor 8;
  size_or_type ← read_u32_le type_section off8 "btf_type.size_or_type";
  let kind := info_kind info in
  let vl := info_vlen info in
  extra_len ← kind_extra_len kind vl (w_type_id w);
  total_len ← or_fail (Overflow "btf_type record length") (checked_add 64 BTF_TYPE_RECORD_LEN extra_len);
  record_end ← or_fail (Overflow "btf_type record end") (checked_add 64 cursor total_len);
  record ← or_fail (TruncatedTypeRecord (w_type_id w)) (get_range type_section cursor record_end);
  found ←
    (if bool_decide (kind = BTF_KIND_STRUCT) then
       name ← lookup_name str_section name_off;
       take_struct name record size_or_type (info_kind_flag info) vl (w_task w) (w_binprm w)
     else Ret (w_task w, w_binprm w));
  type_id ← or_fail (Overflow "btf type id counter") (checked_add 32 (w_type_id w) 1);
  Ret (mkWalk record_end type_id found.1 found.2).

Fixpoint find_structs_loop (fuel : nat) (type_section str_section : bytes) (w : walk) : outcome walk :=
  if bool_decide (len type_section ≤ w_cursor w) then Ret w
  else match fuel with
       | O => Diverge
       | S fuel =>
           w ← find_structs_step type_section str_section w;
           find_structs_loop fuel type_section str_section w
       end.

(** Every turn moves the cursor, so the length of the section is enough fuel. *)
Definition find_structs (type_section str_section : bytes) : outcome (StructInfo * StructInfo) :=
  w ← find_structs_loop (length type_section) type_section str_section (mkWalk 0 1 None None);
  task_struct ← or_fail (StructNotFound "task_struct") (w_task w);
  linux_binprm ← or_fail (StructNotFound "linux_binprm") (w_binprm w);
  Ret (task_struct, linux_binprm).

Definition resolve_offsets (btf_blob : bytes) : outcome ResolvedOffsets :=
  header ← parse_header btf_blob;
  type_section ← checked_slice btf_blob (hdr_len header + type_off header) (type_len header) "type";
  str_section ← checked_slice btf_blob (hdr_len header + str_off header) (str_len header) "string";
  structs ← find_structs type_section str_section;
  task_real_parent ← find_member_byte_offset structs.1 str_section "task_struct" "real_parent";
  task_tgid ← find_member_byte_offset structs.1 str_section "task_struct" "tgid";
  bprm_filename ← find_member_byte_offset structs.2 str_section "linux_binprm" "filename";
  Ret (mkResolvedOffsets bprm_filename task_real_parent task_tgid).

(** ** The steps, evaluated *)

(** Neither a panic, nor a loop out of fuel, nor an arithmetic overflow. *)
Definition safe {A} (o : outcome A) : Prop :=
  match o with Ret _ => True | Fail (Overflow _) => False | Fail _ => True | _ => False end.

Lemma safe_bind {A B} (m : outcome A) (f : A → outcome B) :
  safe m → (∀ a, m = Ret a → safe (f a)) → safe (m ≫= f).
Proof. destruct m; simpl; naive_solver. Qed.

Lemma bind_Ret {A B} (m : outcome A) (f : A → outcome B) b :
  m ≫= f = Ret b ↔ ∃ a, m = Ret a ∧ f a = Ret b.
Proof. destruct m; simpl; naive_solver. Qed.

Lemma or_fail_Ret {A} e (o : option A) a : or_fail e o = Ret a ↔ o = Some a.
Proof. destruct o; simpl; naive_solver. Qed.

Ltac ret_inv H :=
  repeat match type of H with
  | _ ≫= _ = Ret _ => apply bind_Ret in H as (? & ? & H)
  | or_fail _ _ = Ret _ => apply or_fail_Ret in H
  end.

(** Lengths of Rust slices are below [isize::MAX]. *)
Definition slice_ok (s : bytes) : Prop := Forall is_byte s ∧ len s < 2 ^ 63.

Lemma len_nonneg s : 0 ≤ len s.
Proof. unfold len. lia. Qed.

Lemma length_len s : length s = Z.to_nat (len s).
Proof. unfold len. lia. Qed.

Lemma len_app s t : len (s ++ t) = len s + len t.
Proof. unfold len. rewrite length_app. lia. Qed.

Lemma checked_add_small n x y : x + y < 2 ^ n → checked_add n x y = Some (x + y).
Proof. intros. unfold checked_add. by rewrite bool_decide_eq_true_2. Qed.

Lemma get_range_Some s a b : 0 ≤ a → a ≤ b → b ≤ len s →
  get_range s a b = Some (slice (Z.to_nat a) (Z.to_nat (b - a)) s).
Proof. intros. unfold get_range. by rewrite bool_decide_eq_true_2. Qed.

Lemma get_range_None s a b : len s < b → get_range s a b = None.
Proof. intros. unfold get_range. rewrite bool_decide_eq_false_2; [done|lia]. Qed.

Lemma get_range_inv s a b r : get_range s a b = Some r →
  0 ≤ a ∧ a ≤ b ∧ b ≤ len s ∧ r = slice (Z.to_nat a) (Z.to_nat (b - a)) s.
Proof. unfold get_range. case_bool_decide; naive_solver. Qed.

Lemma len_slice a b s : 0 ≤ a → a ≤ b → b ≤ len s →
  len (slice (Z.to_nat a) (Z.to_nat (b - a)) s) = b - a.
Proof. unfold len. intros. rewrite length_slice; lia. Qed.

(** The plain reader of four bytes at an offset in range. *)
Lemma read_u32_le_spec buf off c : 0 ≤ off → off + 4 < 2 ^ 64 →
  read_u32_le buf off c =
  if bool_decide (off + 4 ≤ len buf) then Ret (le_decode (slice (Z.to_nat off) 4 buf))
  else Fail (TooShort c (off + 4) (len buf)).
Proof.
  intros H0 H1. unfold read_u32_le. rewrite checked_add_small by done. cbn [or_fail mbind outcome_bind].
  case_bool_decide as Hb.
  - rewrite get_range_Some by lia. replace (off + 4 - off) with 4 by lia.
    change (Z.to_nat 4) with 4%nat. cbn [or_fail mbind outcome_bind].
    assert (length (slice (Z.to_nat off) 4 buf) = 4%nat) as Hl.
    { apply length_slice. unfold len in Hb. lia. }
    destruct (slice (Z.to_nat off) 4 buf) as [|b0 [|b1 [|b2 [|b3 [|? ?]]]]]; try done.
  - by rewrite get_range_None by lia.
Qed.

Lemma read_u32_le_Ret buf off c x : 0 ≤ off → off + 4 < 2 ^ 64 → Forall is_byte buf →
  read_u32_le buf off c = Ret x →
  off + 4 ≤ len buf ∧ x = le_decode (slice (Z.to_nat off) 4 buf) ∧ uint 32 x.
Proof.
  intros H0 H1 Hb. rewrite read_u32_le_spec by done. case_bool_decide as Hl; [|done].
  intros [= <-]. split_and!; [done|done|..]; pose proof (le_decode_range (slice (Z.to_nat off) 4 buf)
    (Forall_slice _ _ _ Hb)) as H; rewrite length_slice in H by (unfold len in Hl; lia);
    change (8 * Z.of_nat 4) with 32 in H; lia.
Qed.

Lemma read_u32_le_safe buf off c : 0 ≤ off → off + 4 < 2 ^ 64 → safe (read_u32_le buf off c).
Proof. intros. rewrite read_u32_le_spec by done. by case_bool_decide. Qed.

Lemma info_kind_range info : 0 ≤ info_kind info < 256.
Proof. apply (as_uint_range 8). lia. Qed.
Lemma info_vlen_range info : 0 ≤ info_vlen info < 2 ^ 16.
Proof. apply (as_uint_range 16). lia. Qed.

Lemma checked_mul_small vl n : 0 ≤ vl < 2 ^ 16 → 0 ≤ n ≤ 12 → checked_mul vl n = Some (vl * n).
Proof. intros. unfold checked_mul. rewrite bool_decide_eq_true_2; [done|nia]. Qed.

(** The trailing length of a kind: bounded, and the same for every type id. *)
Lemma kind_extra_len_spec k vl : 0 ≤ vl < 2 ^ 16 →
  (∃ n, 0 ≤ n < 2 ^ 20 ∧ ∀ id, kind_extra_len k vl id = Ret n) ∨
  (∀ id, kind_extra_len k vl id = Fail (UnsupportedKind id k)).
Proof.
  intros Hvl. unfold kind_extra_len.
  rewrite !checked_mul_small by (done || (unfold BTF_MEMBER_LEN; lia)). cbn [or_fail].
  repeat case_match; try (right; done); left; eexists; (split; [|done]); unfold BTF_MEMBER_LEN; lia.
Qed.

Lemma kind_extra_len_id k vl i j n : 0 ≤ vl < 2 ^ 16 →
  kind_extra_len k vl i = Ret n → kind_extra_len k vl j = Ret n ∧ 0 ≤ n < 2 ^ 20.
Proof.
  intros Hvl Hi. destruct (kind_extra_len_spec k vl Hvl) as [(m & Hm & H)|H].
  - rewrite H in Hi. injection Hi as ->. by rewrite H.
  - by rewrite H in Hi.
Qed.

Lemma kind_extra_len_struct vl id : 0 ≤ vl < 2 ^ 16 →
  kind_extra_len BTF_KIND_STRUCT vl id = Ret (vl * 12).
Proof. intros. unfold kind_extra_len. cbn. by rewrite checked_mul_small by (done || (unfold BTF_MEMBER_LEN; lia)). Qed.

(** ** Names *)

(** The string section holds the NUL-terminated name [n] at [off]. *)
Definition name_is (strs : bytes) (off : Z) (n : bytes) : Prop :=
  ∃ pre post, strs = pre ++ n ++ 0 :: post ∧ len pre = off ∧ 0 ∉ n ∧ utf8_valid n = true.

Lemma list_find_zero (s : bytes) : fst <$> list_find (λ b, b = 0) s =
  if bool_decide (0 ∈ s) then Some (position_or_len 0 s) else None.
Proof.
  induction s as [|b s IH]; [done|]. cbn [list_find position_or_len].
  destruct (decide (b = 0)) as [->|Hb].
  - by rewrite !bool_decide_eq_true_2 by (done || set_solver).
  - rewrite (bool_decide_eq_false_2 (b = 0)) by done.
    rewrite (bool_decide_ext (0 ∈ b :: s) (0 ∈ s)) by (rewrite elem_of_cons; naive_solver).
    destruct (list_find _ s) as [[i x]|]; cbn in IH |- *; destruct (bool_decide (0 ∈ s)); naive_solver.
Qed.

Lemma get_range_tail s a : 0 ≤ a ≤ len s → get_range s a (len s) = Some (drop (Z.to_nat a) s).
Proof.
  intros. rewrite get_range_Some by lia. unfold slice. f_equal. apply take_ge.
  rewrite length_drop. unfold len. lia.
Qed.

Lemma get_range_head s (n : nat) : (n ≤ length s)%nat → get_range s 0 (Z.of_nat n) = Some (take n s).
Proof.
  intros. rewrite get_range_Some by (unfold len; lia). unfold slice. rewrite drop_0. do 2 f_equal. lia.
Qed.

(** The lookup, without its panics: they cannot happen. *)
Lemma lookup_name_spec strs off : 0 ≤ off → lookup_name strs off =
  if bool_decide (len strs < off) then Fail (StringOffsetOutOfBounds off (len strs))
  else let tail := drop (Z.to_nat off) strs in
       if bool_decide (0 ∈ tail) then
         let name := take (position_or_len 0 tail) tail in
         if utf8_valid name then Ret name else Fail (StringNotUtf8 off)
       else Fail (StringNotNulTerminated off).
Proof.
  intros H0. unfold lookup_name. case_bool_decide as Hl.
  - unfold get_range. by rewrite bool_decide_eq_false_2 by lia.
  - rewrite get_range_tail by lia. cbn [or_fail mbind outcome_bind]. rewrite list_find_zero.
    case_bool_decide; [|done]. cbn [or_fail mbind outcome_bind].
    by rewrite get_range_head by apply position_or_len_le.
Qed.

Lemma lookup_name_safe strs off : 0 ≤ off → safe (lookup_name strs off).
Proof. intros. rewrite lookup_name_spec by done. cbn zeta. by repeat case_bool_decide; try case_match. Qed.

(** The lookup finds exactly the names the section holds. *)
Lemma lookup_name_iff strs off n : 0 ≤ off → lookup_name strs off = Ret n ↔ name_is strs off n.
Proof.
  intros H0. rewrite lookup_name_spec by done. split.
  - case_bool_decide as Hl; [done|]. cbn zeta. case_bool_decide as Hz; [|done].
    case_match eqn:Hu; [|done]. intros [= <-].
    set (tail := drop (Z.to_nat off) strs) in *. exists (take (Z.to_nat off) strs).
    exists (drop (S (position_or_len 0 tail)) tail). split_and!.
    + rewrite <- (take_drop (Z.to_nat off) strs) at 1. f_equal. fold tail.
      rewrite <- (take_drop (position_or_len 0 tail) tail) at 1. f_equal.
      clearbody tail. clear Hu. induction tail as [|b t IH]; [set_solver|]. cbn.
      case_bool_decide; [by subst|]. apply IH. set_solver.
    + unfold len in *. rewrite length_take. lia.
    + apply position_or_len_notin.
    + done.
  - intros (pre & post & -> & Hp & Hn & Hu).
    assert (drop (Z.to_nat off) (pre ++ n ++ 0 :: post) = n ++ 0 :: post) as ->.
    { replace (Z.to_nat off) with (length pre) by (unfold len in Hp; lia). apply drop_app_length. }
    rewrite bool_decide_eq_false_2.
    2: { rewrite !len_app. pose proof (len_nonneg n). pose proof (len_nonneg (0 :: post)). lia. }
    cbn zeta. rewrite bool_decide_eq_true_2 by set_solver.
    rewrite position_or_len_app, position_or_len_cons_eq, Nat.add_0_r, take_app_length by done.
    by rewrite Hu.
Qed.

Lemma name_is_inj strs off n n' : 0 ≤ off → name_is strs off n → name_is strs off n' → n = n'.
Proof. intros H0. rewrite <- !lookup_name_iff by done. congruence. Qed.

(** ** The type section as a sequence of records *)

Record btf_record : Type := mkRecord {
  r_name_off : Z; r_info : Z; r_size : Z; r_extra : bytes
}.

Definition encode_record (r : btf_record) : bytes :=
  le_encode 4 (r_name_off r) ++ le_encode 4 (r_info r) ++ le_encode 4 (r_size r) ++ r_extra r.

Definition wf_record (r : btf_record) : Prop :=
  uint 32 (r_name_off r) ∧ uint 32 (r_info r) ∧ uint 32 (r_size r) ∧ Forall is_byte (r_extra r) ∧
  kind_extra_len (info_kind (r_info r)) (info_vlen (r_info r)) 0 = Ret (len (r_extra r)).

Definition is_struct (r : btf_record) : Prop := info_kind (r_info r) = BTF_KIND_STRUCT.
#[export] Instance is_struct_dec r : Decision (is_struct r).
Proof. unfold is_struct; apply _. Defined.
Definition struct_info (r : btf_record) : StructInfo :=
  mkStructInfo (r_size r) (info_kind_flag (r_info r)) (info_vlen (r_info r)) (r_extra r).

Lemma length_le_encode_nat n z : length (le_encode n z) = n.
Proof. revert z. induction n; intros; simpl; congruence. Qed.

Lemma len_encode_record r : len (encode_record r) = 12 + len (r_extra r).
Proof. unfold encode_record, len. rewrite !length_app, !length_le_encode_nat. lia. Qed.

Lemma slice_app (pre x post : bytes) : slice (length pre) (length x) (pre ++ x ++ post) = x.
Proof. unfold slice. by rewrite drop_app_length, take_app_length. Qed.

Lemma slice_drop a n (s : bytes) : slice a n s ++ drop (a + n) s = drop a s.
Proof. unfold slice. rewrite <- drop_drop. apply take_drop. Qed.

Lemma read_u32_at buf pre x post off c :
  buf = pre ++ le_encode 4 x ++ post → len pre = off → uint 32 x → len buf < 2 ^ 63 →
  read_u32_le buf off c = Ret x.
Proof.
  intros -> <- Hx Hb. pose proof (len_nonneg pre). pose proof (len_nonneg post).
  rewrite !len_app in Hb. assert (len (le_encode 4 x) = 4) as Hl by (unfold len; by rewrite length_le_encode_nat).
  rewrite read_u32_le_spec by lia. rewrite bool_decide_eq_true_2 by (rewrite !len_app; lia).
  f_equal. unfold len. rewrite Nat2Z.id. rewrite <- (length_le_encode_nat 4 x) at 1. rewrite slice_app.
  by apply le_decode_encode.
Qed.

(** Reads a well-formed record back at its place. *)
Section record_at.
Context (ts strs pre post : bytes) (r : btf_record).
Hypothesis (Hts : ts = pre ++ encode_record r ++ post) (Hwf : wf_record r) (Hlen : len ts < 2 ^ 63).

Lemma read_name_off c : read_u32_le ts (len pre) c = Ret (r_name_off r).
Proof.
  destruct Hwf as (H1 & _). eapply read_u32_at; [|done|done|done]. rewrite Hts. unfold encode_record.
  by rewrite <- !app_assoc.
Qed.
Lemma read_info c : read_u32_le ts (len pre + 4) c = Ret (r_info r).
Proof.
  destruct Hwf as (_ & H2 & _). eapply (read_u32_at _ (pre ++ le_encode 4 (r_name_off r))); [| |done|done].
  - rewrite Hts. unfold encode_record. by rewrite <- !app_assoc.
  - rewrite len_app. unfold len. by rewrite length_le_encode_nat.
Qed.
Lemma read_size c : read_u32_le ts (len pre + 8) c = Ret (r_size r).
Proof.
  destruct Hwf as (_ & _ & H3 & _).
  eapply (read_u32_at _ (pre ++ le_encode 4 (r_name_off r) ++ le_encode 4 (r_info r))); [| |done|done].
  - rewrite Hts. unfold encode_record. by rewrite <- !app_assoc.
  - rewrite !len_app. unfold len. by rewrite !length_le_encode_nat.
Qed.
Lemma get_record : get_range ts (len pre) (len pre + len (encode_record r)) = Some (encode_record r).
Proof.
  pose proof (len_nonneg pre). pose proof (len_nonneg post). pose proof (len_nonneg (encode_record r)).
  rewrite get_range_Some by (rewrite ?Hts, ?len_app; lia).
  rewrite Hts. f_equal. replace (len pre + _ - _) with (len (encode_record r)) by lia.
  unfold len. rewrite !Nat2Z.id. apply slice_app.
Qed.
Lemma get_members : get_range (encode_record r) BTF_TYPE_RECORD_LEN (len (encode_record r)) = Some (r_extra r).
Proof.
  unfold BTF_TYPE_RECORD_LEN. pose proof (len_encode_record r). pose proof (len_nonneg (r_extra r)).
  by rewrite get_range_tail by lia.
Qed.

(** The struct slots after a record: the first of each name is kept. *)
Definition pick (name : bytes) (task binprm : option StructInfo) : option StructInfo * option StructInfo :=
  (if bool_decide (name = lit "task_struct" ∧ task = None) then Some (struct_info r) else task,
   if bool_decide (name = lit "linux_binprm" ∧ binprm = None) then Some (struct_info r) else binprm).

Lemma take_struct_pick name task binprm :
  take_struct name (encode_record r) (r_size r) (info_kind_flag (r_info r)) (info_vlen (r_info r)) task binprm
  = Ret (pick name task binprm).
Proof.
  assert (lit "task_struct" ≠ lit "linux_binprm") as Hne
    by (apply (bool_decide_eq_false_1 (_ = _)); vm_compute; reflexivity).
  unfold take_struct, pick. rewrite get_members, !bool_decide_and. cbn [or_panic mbind outcome_bind].
  repeat case_bool_decide; subst; try done; congruence.
Qed.

Lemma find_structs_step_record id task binprm : 0 ≤ id → id + 1 < 2 ^ 32 →
  find_structs_step ts strs (mkWalk (len pre) id task binprm) =
  (found ← (if bool_decide (is_struct r) then
              name ← lookup_name strs (r_name_off r); Ret (pick name task binprm)
            else Ret (task, binprm));
   Ret (mkWalk (len pre + len (encode_record r)) (id + 1) found.1 found.2)).
Proof.
  intros Hid1 Hid2. pose proof (len_nonneg pre). pose proof (len_encode_record r) as Hr.
  assert (len pre + len (encode_record r) ≤ len ts) as Hle.
  { rewrite Hts, !len_app. pose proof (len_nonneg post). lia. }
  pose proof (len_nonneg (r_extra r)) as Hx.
  unfold find_structs_step. cbn [w_cursor w_type_id w_task w_binprm]. unfold usize_add.
  rewrite !checked_add_small by lia. cbn [or_panic or_fail mbind outcome_bind].
  rewrite read_name_off, read_info, read_size. cbn [mbind outcome_bind].
  destruct Hwf as (_ & _ & _ & _ & Hk).
  destruct (kind_extra_len_id _ _ 0 id _ (info_vlen_range _) Hk) as [-> _]. cbn [mbind outcome_bind].
  unfold BTF_TYPE_RECORD_LEN. rewrite checked_add_small by lia. cbn [or_fail mbind outcome_bind].
  rewrite <- Hr, checked_add_small by lia. cbn [or_fail mbind outcome_bind].
  rewrite get_record. cbn [or_fail mbind outcome_bind].
  change (bool_decide (info_kind (r_info r) = BTF_KIND_STRUCT)) with (bool_decide (is_struct r)).
  destruct (bool_decide (is_struct r)); [|done].
  destruct (lookup_name strs (r_name_off r)); [|done..].
  cbn [mbind outcome_bind]. by rewrite take_struct_pick.
Qed.
End record_at.

Lemma encode_slices ts c : Forall is_byte ts → (c + 12 ≤ length ts)%nat →
  encode_record (mkRecord (le_decode (slice c 4 ts)) (le_decode (slice (c + 4) 4 ts))
    (le_decode (slice (c + 8) 4 ts)) []) ++ drop (c + 12) ts = drop c ts.
Proof.
  intros Hb Hl. assert (∀ o, (o + 4 ≤ length ts)%nat → le_encode 4 (le_decode (slice o 4 ts)) = slice o 4 ts) as He.
  { intros o Ho. rewrite <- (length_slice o 4 ts Ho) at 1. apply le_encode_decode. by apply Forall_slice. }
  unfold encode_record. cbn [r_name_off r_info r_size r_extra].
  rewrite !He, app_nil_r, <- !app_assoc by lia.
  replace (c + 12)%nat with (c + 8 + 4)%nat by lia. rewrite slice_drop.
  replace (c + 8)%nat with (c + 4 + 4)%nat at 1 by lia. replace (c + 8)%nat with (c + 4 + 4)%nat by lia.
  by rewrite !slice_drop.
Qed.

Lemma slice_u32 ts o : Forall is_byte ts → (o + 4 ≤ length ts)%nat → uint 32 (le_decode (slice o 4 ts)).
Proof.
  intros Hb Hl. pose proof (le_decode_range _ (Forall_slice o 4 _ Hb)) as H.
  rewrite length_slice in H by done. exact H.
Qed.

(** Where the cursor is inside the section there is a record, or the turn fails. *)
Lemma find_structs_step_cases ts strs c id task binprm : slice_ok ts → 0 ≤ c < len ts →
  (∃ pre r post, ts = pre ++ encode_record r ++ post ∧ len pre = c ∧ wf_record r) ∨
  (∃ e, find_structs_step ts strs (mkWalk c id task binprm) = Fail e ∧ safe (Fail (A:=walk) e)).
Proof.
  intros [Hb Hl] Hc. unfold find_structs_step, usize_add. cbn [w_cursor w_type_id w_task w_binprm].
  rewrite !(checked_add_small 64 c) by lia. cbn [or_panic mbind outcome_bind].
  rewrite !read_u32_le_spec by lia.
  destruct (decide (c + 12 ≤ len ts)) as [H12|H12].
  2: { right. repeat case_bool_decide; cbn [mbind outcome_bind]; try lia; eexists; done. }
  rewrite !bool_decide_eq_true_2 by lia. cbn [mbind outcome_bind].
  rewrite !Z2Nat.inj_add by lia. change (Z.to_nat 4) with 4%nat. change (Z.to_nat 8) with 8%nat.
  assert (Z.to_nat c + 12 ≤ length ts)%nat as Hn by (unfold len in H12; lia).
  set (i := le_decode (slice (Z.to_nat c + 4) 4 ts)).
  destruct (kind_extra_len_spec (info_kind i) (info_vlen i) (info_vlen_range _)) as [(n & Hr & Hk)|Hk].
  2: { right. rewrite Hk. by eexists. }
  rewrite Hk. cbn [mbind outcome_bind]. unfold BTF_TYPE_RECORD_LEN.
  rewrite (checked_add_small 64 12) by lia. cbn [or_fail mbind outcome_bind].
  rewrite (checked_add_small 64 c) by lia. cbn [or_fail mbind outcome_bind].
  destruct (decide (c + (12 + n) ≤ len ts)) as [Hend|Hend].
  2: { right. rewrite get_range_None by lia. by eexists. }
  left. exists (take (Z.to_nat c) ts).
  exists (mkRecord (le_decode (slice (Z.to_nat c) 4 ts)) i (le_decode (slice (Z.to_nat c + 8) 4 ts))
    (slice (Z.to_nat c + 12) (Z.to_nat n) ts)).
  exists (drop (Z.to_nat c + 12 + Z.to_nat n) ts). split_and!.
  - rewrite <- (take_drop (Z.to_nat c) ts) at 1. f_equal.
    rewrite <- (encode_slices ts (Z.to_nat c) Hb Hn), <- (slice_drop (Z.to_nat c + 12) (Z.to_nat n) ts).
    unfold encode_record. cbn [r_name_off r_info r_size r_extra]. fold i.
    by rewrite app_nil_r, <- !app_assoc.
  - unfold len in *. rewrite length_take. lia.
  - unfold wf_record. cbn [r_name_off r_info r_size r_extra].
    pose proof (slice_u32 ts (Z.to_nat c) Hb ltac:(lia)).
    pose proof (slice_u32 ts (Z.to_nat c + 4) Hb ltac:(lia)).
    pose proof (slice_u32 ts (Z.to_nat c + 8) Hb ltac:(lia)).
    split_and!; try (unfold i; lia); [by apply Forall_slice|].
    rewrite Hk. f_equal. unfold len. rewrite length_slice; [lia|unfold len in Hend; lia].
Qed.

(** The struct slots after a sequence of records. *)
Fixpoint pick_all (strs : bytes) (recs : list btf_record) (task binprm : option StructInfo)
  : outcome (option StructInfo * option StructInfo) :=
  match recs with
  | [] => Ret (task, binprm)
  | r :: recs =>
      found ← (if bool_decide (is_struct r) then
                 name ← lookup_name strs (r_name_off r); Ret (pick r name task binprm)
               else Ret (task, binprm));
      pick_all strs recs found.1 found.2
  end.

Definition encode_records (recs : list btf_record) : bytes := concat (map encode_record recs).

Lemma len_encode_records recs : 12 * Z.of_nat (length recs) ≤ len (encode_records recs).
Proof.
  induction recs as [|r recs IH]; [done|].
  change (encode_records (r :: recs)) with (encode_record r ++ encode_records recs). cbn [length].
  rewrite len_app, len_encode_record. pose proof (len_nonneg (r_extra r)). lia.
Qed.

(** On a section made of records the loop is the fold over them. *)
Lemma find_structs_loop_records ts strs recs fuel pre id task binprm :
  Forall wf_record recs → ts = pre ++ encode_records recs → len ts < 2 ^ 63 →
  0 ≤ id → id + Z.of_nat (length recs) < 2 ^ 32 → (length recs ≤ fuel)%nat →
  find_structs_loop fuel ts strs (mkWalk (len pre) id task binprm) =
  (found ← pick_all strs recs task binprm;
   Ret (mkWalk (len ts) (id + Z.of_nat (length recs)) found.1 found.2)).
Proof.
  intros Hwf. revert fuel pre id task binprm.
  induction Hwf as [|r recs Hr _ IH]; intros fuel pre id task binprm Hts Hlen Hid Hid2 Hfuel.
  - cbn in Hts. rewrite app_nil_r in Hts. subst ts. destruct fuel; cbn [find_structs_loop w_cursor];
      rewrite bool_decide_eq_true_2 by done; cbn; by rewrite Z.add_0_r.
  - cbn [length] in *. destruct fuel as [|fuel]; [lia|].
    change (encode_records (r :: recs)) with (encode_record r ++ encode_records recs) in Hts.
    cbn [find_structs_loop w_cursor]. rewrite bool_decide_eq_false_2.
    2: { rewrite Hts, !len_app, len_encode_record. pose proof (len_nonneg (r_extra r)).
         pose proof (len_nonneg (encode_records recs)). lia. }
    rewrite (find_structs_step_record ts strs pre (encode_records recs) r) by (done || lia).
    cbn [pick_all]. destruct (bool_decide (is_struct r)).
    + destruct (lookup_name strs (r_name_off r)) as [n| | |]; cbn [mbind outcome_bind fst snd]; [|done..].
      rewrite <- len_app, IH by (lia || (rewrite Hts; by rewrite <- app_assoc)).
      by replace (id + 1 + Z.of_nat (length recs)) with (id + Z.of_nat (S (length recs))) by lia.
    + cbn [mbind outcome_bind fst snd].
      rewrite <- len_app, IH by (lia || (rewrite Hts; by rewrite <- app_assoc)).
      by replace (id + 1 + Z.of_nat (length recs)) with (id + Z.of_nat (S (length recs))) by lia.
Qed.

(** What is left of the section is made of records, or the loop fails. *)
Lemma find_structs_loop_cases ts strs fuel pre rest id task binprm :
  slice_ok ts → len ts < 2 ^ 32 → ts = pre ++ rest → len rest ≤ Z.of_nat fuel →
  1 ≤ id → 12 * (id - 1) ≤ len pre →
  (∃ recs, Forall wf_record recs ∧ rest = encode_records recs) ∨
  (∃ e, find_structs_loop fuel ts strs (mkWalk (len pre) id task binprm) = Fail e ∧ safe (Fail (A:=walk) e)).
Proof.
  intros Hok Hlen. revert pre rest id task binprm.
  induction fuel as [|fuel IH]; intros pre rest id task binprm Hts Hfuel Hid Hid12.
  - left. exists []. split; [done|]. destruct rest; [done|]. unfold len in Hfuel. cbn in Hfuel. lia.
  - cbn [find_structs_loop w_cursor]. pose proof (len_nonneg pre) as Hp. case_bool_decide as Hc.
    { left. exists []. split; [done|]. rewrite Hts, len_app in Hc. destruct rest; [done|].
      unfold len in Hc. cbn in Hc. lia. }
    destruct (find_structs_step_cases ts strs (len pre) id task binprm Hok ltac:(lia))
      as [(pre' & r & post & Hts' & Hpre & Hwf)|(e & -> & He)]; [|right; by exists e].
    assert (pre = pre' ∧ rest = encode_record r ++ post) as [<- ->].
    { rewrite Hts in Hts'. apply app_inj_1; [unfold len in Hpre; lia|done]. }
    rewrite (find_structs_step_record ts strs pre post r) by (done || lia || apply Hok).
    assert (12 ≤ len (encode_record r)) as Hr.
    { rewrite len_encode_record. pose proof (len_nonneg (r_extra r)). lia. }
    rewrite len_app in Hfuel.
    destruct (if bool_decide (is_struct r) then _ else _) as [found|e| |] eqn:Ef; cbn [mbind outcome_bind].
    + rewrite <- len_app. destruct (IH (pre ++ encode_record r) post (id + 1) found.1 found.2)
        as [(recs & Hrecs & ->)|He]; [by rewrite <- app_assoc|lia|lia|rewrite len_app; lia| |by right].
      left. exists (r :: recs). split; [by constructor|done].
    + right. exists e. split; [done|]. destruct (bool_decide _); [|done].
      pose proof (lookup_name_safe strs (r_name_off r) ltac:(destruct Hwf; lia)) as Hs.
      destruct (lookup_name _ _); cbn in Ef; try done. by injection Ef as ->.
    + destruct (bool_decide _); [|done].
      pose proof (lookup_name_safe strs (r_name_off r) ltac:(destruct Hwf; lia)) as Hs. by destruct (lookup_name _ _).
    + destruct (bool_decide _); [|done].
      pose proof (lookup_name_safe strs (r_name_off r) ltac:(destruct Hwf; lia)) as Hs. by destruct (lookup_name _ _).
Qed.

(** ** The reading of a type section *)

(** Every struct of the section has a readable name. *)
Definition names_ok (strs : bytes) (recs : list btf_record) : Prop :=
  Forall (λ r, is_struct r → ∃ n, name_is strs (r_name_off r) n) recs.

Definition no_struct_named (strs name : bytes) (recs : list btf_record) : Prop :=
  Forall (λ r, is_struct r → ¬ name_is strs (r_name_off r) name) recs.

(** [r] is the first struct record of that name. *)
Definition first_named (strs name : bytes) (recs : list btf_record) (r : btf_record) : Prop :=
  ∃ before after, recs = before ++ r :: after ∧ no_struct_named strs name before ∧
    is_struct r ∧ name_is strs (r_name_off r) name.

(** A slot of the walk after the records. *)
Definition slot_after (strs name : bytes) (recs : list btf_record) (old new : option StructInfo) : Prop :=
  match old with
  | Some s => new = Some s
  | None => match new with
            | Some s => ∃ r, first_named strs name recs r ∧ s = struct_info r
            | None => no_struct_named strs name recs
            end
  end.

Section slots.
Context (strs name : bytes) (r : btf_record) (recs : list btf_record).
Hypothesis (Hoff : 0 ≤ r_name_off r).

Lemma slot_after_other old new : ¬ is_struct r →
  slot_after strs name recs old new → slot_after strs name (r :: recs) old new.
Proof.
  intros Hr. destruct old, new; cbn; [done..| |].
  - intros (r' & (before & after & -> & Hb & ?) & ?). exists r'. split; [|done].
    exists (r :: before), after. split_and!; try naive_solver. constructor; [done|exact Hb].
  - intros H. constructor; [done|exact H].
Qed.

Lemma slot_after_struct n old new : is_struct r → name_is strs (r_name_off r) n →
  slot_after strs name recs (if bool_decide (n = name ∧ old = None) then Some (struct_info r) else old) new →
  slot_after strs name (r :: recs) old new.
Proof.
  intros Hr Hn. destruct (decide (n = name)) as [->|Hne].
  - destruct old as [s|]; [by rewrite bool_decide_eq_false_2 by naive_solver|].
    rewrite bool_decide_eq_true_2 by done. cbn. intros ->. exists r. split; [|done].
    exists [], recs. split_and!; try done. constructor.
  - rewrite bool_decide_eq_false_2 by naive_solver.
    assert (¬ name_is strs (r_name_off r) name) as Hnn by (intros ?; apply Hne; by eapply name_is_inj).
    destruct old, new; cbn; [done..| |].
    + intros (r' & (before & after & -> & Hb & ?) & ?). exists r'. split; [|done].
      exists (r :: before), after. split_and!; try naive_solver. constructor; [done|exact Hb].
    + intros H. constructor; [done|exact H].
Qed.
End slots.

Lemma pick_all_Ret strs recs task binprm found :
  Forall wf_record recs → pick_all strs recs task binprm = Ret found →
  names_ok strs recs ∧ slot_after strs (lit "task_struct") recs task found.1 ∧
  slot_after strs (lit "linux_binprm") recs binprm found.2.
Proof.
  intros Hwf. revert task binprm. induction Hwf as [|r recs Hr _ IH]; intros task binprm; cbn [pick_all].
  - intros [= <-]. split_and!; [constructor|destruct task; cbn; [done|constructor]..|].
    destruct binprm; cbn; [done|constructor].
  - assert (0 ≤ r_name_off r) as Ho by (destruct Hr; lia). case_bool_decide as Hs.
    + destruct (lookup_name strs (r_name_off r)) as [n| | |] eqn:En; cbn [mbind outcome_bind]; [|done..].
      apply lookup_name_iff in En; [|done]. intros (H1 & H2 & H3)%IH. split_and!.
      * constructor; [by exists n|done].
      * by eapply slot_after_struct.
      * by eapply slot_after_struct.
    + cbn [mbind outcome_bind]. intros (H1 & H2 & H3)%IH. split_and!.
      * constructor; [done|exact H1].
      * by apply slot_after_other.
      * by apply slot_after_other.
Qed.

Lemma pick_all_total strs recs task binprm :
  Forall wf_record recs → names_ok strs recs → ∃ found, pick_all strs recs task binprm = Ret found.
Proof.
  intros Hwf Hn. revert task binprm. induction Hwf as [|r recs Hr _ IH]; intros; cbn [pick_all]; [by eexists|].
  apply Forall_cons in Hn as [Hnr Hn]. case_bool_decide as Hs; [|by apply IH].
  destruct (Hnr Hs) as [n Hname]. apply lookup_name_iff in Hname; [|destruct Hr; lia].
  rewrite Hname. cbn [mbind outcome_bind]. by apply IH.
Qed.

Lemma first_named_unique strs name recs r r' :
  first_named strs name recs r → first_named strs name recs r' → r = r'.
Proof.
  intros (b & a & Hrecs & Hb & Hs & Hn) (b' & a' & Hrecs' & Hb' & Hs' & Hn').
  subst recs. revert b' Hb' Hrecs'. induction b as [|x b IH]; intros [|y b'] Hb' Heq; cbn in Heq.
  - congruence.
  - injection Heq as <- ?. apply Forall_cons in Hb' as [Hx _]. naive_solver.
  - injection Heq as -> ?. apply Forall_cons in Hb as [Hx _]. naive_solver.
  - injection Heq as <- ?. apply Forall_cons in Hb as [_ Hb]. apply Forall_cons in Hb' as [_ Hb']. eauto.
Qed.

Lemma no_named_first strs name recs r : no_struct_named strs name recs → ¬ first_named strs name recs r.
Proof.
  intros H (b & a & -> & _ & Hs & Hn). apply Forall_app in H as [_ H].
  apply Forall_cons in H as [H _]. by apply H.
Qed.

(** The walk finds two structs exactly when the section is a sequence of records
    in which they are the first of their names. *)
Lemma find_structs_iff ts strs t b : slice_ok ts → len ts < 2 ^ 32 →
  find_structs ts strs = Ret (t, b) ↔
  ∃ recs rt rb, Forall wf_record recs ∧ ts = encode_records recs ∧ names_ok strs recs ∧
    first_named strs (lit "task_struct") recs rt ∧ t = struct_info rt ∧
    first_named strs (lit "linux_binprm") recs rb ∧ b = struct_info rb.
Proof.
  intros Hok Hlen. pose proof (len_nonneg ts) as H0.
  assert (∀ recs, Forall wf_record recs → ts = encode_records recs →
    find_structs_loop (length ts) ts strs (mkWalk 0 1 None None) =
    (found ← pick_all strs recs None None; Ret (mkWalk (len ts) (1 + Z.of_nat (length recs)) found.1 found.2))) as Hrun.
  { intros recs Hwf Hts. pose proof (len_encode_records recs) as Hl. rewrite <- Hts in Hl.
    apply (find_structs_loop_records ts strs recs (length ts) []); try done; try lia.
    unfold len in Hl. lia. }
  unfold find_structs. split.
  - intros H. ret_inv H. destruct (find_structs_loop_cases ts strs (length ts) [] ts 1 None None)
      as [(recs & Hwf & Hts)|(e & He & _)]; try done; [|change (len []) with 0 in He; congruence].
    rewrite (Hrun recs) in * by done. destruct (pick_all strs recs None None) as [found| | |] eqn:Ep; try done.
    apply pick_all_Ret in Ep as (Hn & Ht & Hb); [|done].
    repeat match goal with H : _ = Ret _ |- _ => cbn in H; injection H as <- end.
    destruct found as [[?|] [?|]]; try done. cbn in *. simplify_eq. destruct Ht as (rt & ? & ?), Hb as (rb & ? & ?). by exists recs, rt, rb.
  - intros (recs & rt & rb & Hwf & Hts & Hn & Ht & -> & Hb & ->). rewrite (Hrun recs) by done.
    destruct (pick_all_total strs recs None None Hwf Hn) as [found Ep]. rewrite Ep.
    apply pick_all_Ret in Ep as (_ & H1 & H2); [|done]. cbn [mbind outcome_bind w_task w_binprm].
    destruct found as [[?|] [?|]]; cbn in H1, H2 |- *.
    + destruct H1 as (r1 & Hr1 & ->), H2 as (r2 & Hr2 & ->).
      by rewrite (first_named_unique _ _ _ _ _ Ht Hr1), (first_named_unique _ _ _ _ _ Hb Hr2).
    + by apply no_named_first in Hb.
    + by apply no_named_first in Ht.
    + by apply no_named_first in Ht.
Qed.

Lemma find_structs_safe ts strs : slice_ok ts → len ts < 2 ^ 32 → safe (find_structs ts strs).
Proof.
  intros Hok Hlen. unfold find_structs. pose proof (len_nonneg ts).
  destruct (find_structs_loop_cases ts strs (length ts) [] ts 1 None None)
    as [(recs & Hwf & Hts)|(e & He & Hs)]; try done.
  - pose proof (len_encode_records recs) as Hl. rewrite <- Hts in Hl.
    change 0 with (len []). rewrite (find_structs_loop_records ts strs recs (length ts) []);
      try done; try lia; [|unfold len in Hl; lia].
    apply safe_bind; [|intros w _; destruct (w_task w), (w_binprm w); done].
    apply safe_bind; [|done]. clear -Hwf. generalize (@None StructInfo) at 1 as t. generalize (@None StructInfo) as b.
    induction Hwf as [|r recs Hr _ IH]; intros; cbn [pick_all]; [done|].
    apply safe_bind; [|intros; apply IH]. case_bool_decide; [|done].
    apply safe_bind; [apply lookup_name_safe; destruct Hr; lia|done].
  - change (len []) with 0 in He. by rewrite He.
Qed.

(** ** The reading of a struct's members *)

Record btf_member : Type := mkMember { m_name_off : Z; m_type : Z; m_offset : Z }.

Definition encode_member (m : btf_member) : bytes :=
  le_encode 4 (m_name_off m) ++ le_encode 4 (m_type m) ++ le_encode 4 (m_offset m).
Definition encode_members (ms : list btf_member) : bytes := concat (map encode_member ms).
Definition wf_member (m : btf_member) : Prop :=
  uint 32 (m_name_off m) ∧ uint 32 (m_type m) ∧ uint 32 (m_offset m).

(** The member is a plain field at byte [o] of its struct. *)
Definition plain_member_at (si : StructInfo) (m : btf_member) (o : Z) : Prop :=
  m_offset m = 8 * o ∧ o < size si ∧ (kind_flag si = true → m_offset m < 2 ^ 24).

(** [m] is the first member of that name, and the names before it are readable. *)
Definition first_member (strs name : bytes) (ms : list btf_member) (m : btf_member) : Prop :=
  ∃ before after, ms = before ++ m :: after ∧ name_is strs (m_name_off m) name ∧
    Forall (λ b, ∃ n, name_is strs (m_name_off b) n ∧ n ≠ name) before.

Lemma len_encode_member m : len (encode_member m) = 12.
Proof. unfold encode_member, len. by rewrite !length_app, !length_le_encode_nat. Qed.

Lemma len_encode_members ms : len (encode_members ms) = 12 * Z.of_nat (length ms).
Proof.
  induction ms as [|m ms IH]; [done|].
  change (encode_members (m :: ms)) with (encode_member m ++ encode_members ms). cbn [length].
  rewrite len_app, len_encode_member. lia.
Qed.

(** Any byte string of the right length is a sequence of members. *)
Lemma members_decompose (n : nat) s : Forall is_byte s → length s = (12 * n)%nat →
  ∃ ms, Forall wf_member ms ∧ length ms = n ∧ s = encode_members ms.
Proof.
  revert s. induction n as [|n IH]; intros s Hb Hl.
  { exists []. split_and!; [constructor|done|]. destruct s; [done|]. cbn in Hl. lia. }
  destruct (IH (drop 12 s)) as (ms & Hwf & Hn & Hs); [by apply Forall_drop|rewrite length_drop; lia|].
  exists (mkMember (le_decode (slice 0 4 s)) (le_decode (slice 4 4 s)) (le_decode (slice 8 4 s)) :: ms).
  split_and!; [|cbn; lia|].
  - constructor; [|done]. pose proof (slice_u32 s 0 Hb ltac:(lia)). pose proof (slice_u32 s 4 Hb ltac:(lia)).
    pose proof (slice_u32 s 8 Hb ltac:(lia)). done.
  - pose proof (encode_slices s 0 Hb ltac:(lia)) as H. rewrite drop_0 in H.
    etransitivity; [symmetry; exact H|]. cbn [Nat.add]. rewrite Hs. unfold encode_record, encode_members. cbn [map concat r_name_off r_info r_size r_extra].
    unfold encode_member at 2. cbn [m_name_off m_type m_offset]. by rewrite app_nil_r, <- !app_assoc.
Qed.

(** The shifts and masks of the bit-field encoding, as arithmetic. *)
Lemma member_offset_iff si sn mn m o : uint 32 (m_offset m) →
  member_offset si sn mn (m_offset m) = Ret o ↔ plain_member_at si m o.
Proof.
  intros Hr. set (x := m_offset m) in *. unfold member_offset, plain_member_at. fold x.
  assert (Z.land x 0x00ffffff = x mod 2 ^ 24) as Hland by (apply (Z.land_ones x 24); lia).
  assert (as_uint 8 (Z.shiftr x 24) = x / 2 ^ 24) as Hshift.
  { rewrite Z.shiftr_div_pow2 by lia. apply as_uint_small. split; [apply Z.div_pos; lia|].
    apply Z.div_lt_upper_bound; lia. }
  assert (∀ y, y mod 8 = 0 ↔ y = 8 * (y / 8)) as H8 by (intros y; pose proof (Z.div_mod y 8); lia).
  destruct (kind_flag si).
  - rewrite Hland, Hshift. case_bool_decide as Hf.
    + split; [done|]. intros (_ & _ & H). exfalso. apply Hf, Z.div_small. specialize (H eq_refl). lia.
    + assert (x < 2 ^ 24) as Hx.
      { pose proof (Z.div_mod x (2 ^ 24)). pose proof (Z.mod_pos_bound x (2 ^ 24)). lia. }
      rewrite (Z.mod_small x (2 ^ 24)) by lia. case_bool_decide as Ha.
      { split; [done|]. intros (Hx8 & _). exfalso. apply Ha. rewrite Hx8, Z.mul_comm. by apply Z.mod_mul. }
      apply H8 in Ha. case_bool_decide; split; try done; try lia.
      * intros [= <-]. lia.
      * intros ?. f_equal. lia.
  - cbn [negb]. rewrite (bool_decide_eq_false_2 (0 ≠ 0)) by lia. case_bool_decide as Ha.
    { split; [done|]. intros (Hx8 & _). exfalso. apply Ha. rewrite Hx8, Z.mul_comm. by apply Z.mod_mul. }
    apply H8 in Ha. case_bool_decide; split; try done; try lia.
    + intros [= <-]. lia.
    + intros ?. f_equal. lia.
Qed.

Lemma member_offset_safe si sn mn x : safe (member_offset si sn mn x).
Proof. unfold member_offset. repeat case_match; done. Qed.

(** The loop over the members, on their reading. *)
Fixpoint seek (si : StructInfo) (strs : bytes) (sn mn : string) (ms : list btf_member) : outcome Z :=
  match ms with
  | [] => Fail (MemberNotFound sn mn)
  | m :: ms =>
      name ← lookup_name strs (m_name_off m);
      if bool_decide (name = lit mn) then member_offset si sn mn (m_offset m) else seek si strs sn mn ms
  end.

Lemma find_member_loop_seek si strs sn mn ms pre :
  Forall wf_member ms → members si = pre ++ encode_members ms → len (members si) < 2 ^ 63 →
  find_member_loop si strs sn mn (length ms) (len pre) = seek si strs sn mn ms.
Proof.
  intros Hwf. revert pre. induction Hwf as [|m ms Hm _ IH]; intros pre Hms Hlen; [done|].
  change (encode_members (m :: ms)) with (encode_member m ++ encode_members ms) in Hms.
  pose proof (len_nonneg pre). pose proof (len_nonneg (encode_members ms)).
  assert (len pre + 12 < 2 ^ 63) as Hp.
  { rewrite Hms, !len_app, len_encode_member in Hlen. lia. }
  destruct Hm as (H1 & H2 & H3). cbn [length find_member_loop seek].
  erewrite (read_u32_at _ pre (m_name_off m)); [|rewrite Hms; unfold encode_member; by rewrite <- !app_assoc|done..].
  unfold usize_add. rewrite (checked_add_small 64 _ 8) by lia. cbn [or_panic mbind outcome_bind].
  erewrite (read_u32_at _ (pre ++ le_encode 4 (m_name_off m) ++ le_encode 4 (m_type m)) (m_offset m)); [| | |done..].
  2: { rewrite Hms. unfold encode_member. by rewrite <- !app_assoc. }
  2: { rewrite !len_app. unfold len. by rewrite !length_le_encode_nat. }
  cbn [mbind outcome_bind]. destruct (lookup_name strs (m_name_off m)) as [n| | |]; cbn [mbind outcome_bind]; [|done..].
  case_bool_decide; [done|]. unfold BTF_MEMBER_LEN. rewrite checked_add_small by lia. cbn [or_fail mbind outcome_bind].
  rewrite <- (len_encode_member m), <- len_app. apply IH; [by rewrite <- app_assoc|done].
Qed.

Lemma seek_iff si strs sn mn ms o : Forall wf_member ms →
  seek si strs sn mn ms = Ret o ↔ ∃ m, first_member strs (lit mn) ms m ∧ plain_member_at si m o.
Proof.
  induction 1 as [|m ms (Ho & _ & Hx) _ IH]; cbn [seek].
  { split; [done|]. intros (m & ([|? ?] & ? & ? & _) & _); done. }
  split.
  - destruct (lookup_name strs (m_name_off m)) as [n| | |] eqn:En; cbn [mbind outcome_bind]; [|done..].
    apply lookup_name_iff in En; [|lia]. case_bool_decide as Hn.
    + subst n. intros H%member_offset_iff; [|done]. exists m. split; [|done]. by exists [], ms.
    + intros (m' & (before & after & -> & Hm' & Hb) & Hp)%IH. exists m'. split; [|done].
      exists (m :: before), after. split_and!; [done..|]. constructor; [by exists n|done].
  - intros (m' & (before & after & Heq & Hm' & Hb) & Hp). destruct before as [|b before]; injection Heq as <- ->.
    + apply lookup_name_iff in Hm'; [|lia]. rewrite Hm'. cbn [mbind outcome_bind].
      rewrite bool_decide_eq_true_2 by done. by apply member_offset_iff.
    + apply Forall_cons in Hb as [(n & Hn & Hne) Hb]. apply lookup_name_iff in Hn; [|lia]. rewrite Hn.
      cbn [mbind outcome_bind]. rewrite bool_decide_eq_false_2 by done. apply IH. exists m'. split; [|done].
      by exists before, after.
Qed.

(** Members of a struct record: its trailing bytes, as a sequence. *)
Definition has_members (r : btf_record) (ms : list btf_member) : Prop :=
  Forall wf_member ms ∧ r_extra r = encode_members ms.

Lemma struct_has_members r : wf_record r → is_struct r →
  ∃ ms, has_members r ms ∧ Z.of_nat (length ms) = vlen (struct_info r).
Proof.
  intros (_ & _ & _ & Hb & Hk) Hs. unfold is_struct in Hs. pose proof (info_vlen_range (r_info r)) as Hv.
  rewrite Hs, kind_extra_len_struct in Hk by done. injection Hk as Hk.
  destruct (members_decompose (Z.to_nat (info_vlen (r_info r))) (r_extra r)) as (ms & Hwf & Hl & He);
    [done|unfold len in Hk; lia|].
  exists ms. split; [done|]. cbn. lia.
Qed.

Lemma encode_members_inj ms ms' : Forall wf_member ms → Forall wf_member ms' →
  encode_members ms = encode_members ms' → ms = ms'.
Proof.
  intros H. revert ms'. induction H as [|m ms (H1 & H2 & H3) Hms IH]; intros [|m' ms'] Hwf He;
    [done|apply (f_equal len) in He; rewrite !len_encode_members in He; cbn [length] in He; lia..|].
  apply Forall_cons in Hwf as [(H1' & H2' & H3') Hwf].
  change (encode_members (m :: ms)) with (encode_member m ++ encode_members ms) in He.
  change (encode_members (m' :: ms')) with (encode_member m' ++ encode_members ms') in He.
  unfold encode_member in He. rewrite <- !app_assoc in He.
  apply app_inj_1 in He as [E1 He]; [|by rewrite !length_le_encode_nat].
  apply app_inj_1 in He as [E2 He]; [|by rewrite !length_le_encode_nat].
  apply app_inj_1 in He as [E3 He]; [|by rewrite !length_le_encode_nat].
  apply (f_equal le_decode) in E1, E2, E3. rewrite !le_decode_encode in E1, E2, E3 by done.
  f_equal; [|by apply IH]. destruct m, m'. cbn in *. congruence.
Qed.

(** The search in a struct of the section, on the reading of its members. *)
Lemma find_member_seek r strs sn mn ms : wf_record r → is_struct r → has_members r ms →
  find_member_byte_offset (struct_info r) strs sn mn = seek (struct_info r) strs sn mn ms.
Proof.
  intros Hr Hs [Hwf He]. destruct (struct_has_members r Hr Hs) as (ms' & [Hwf' He'] & Hv).
  assert (ms = ms') as <- by (apply encode_members_inj; [done..|congruence]).
  unfold find_member_byte_offset. rewrite <- Hv, Nat2Z.id.
  apply (find_member_loop_seek (struct_info r) strs sn mn ms []); [done|done|].
  cbn [struct_info members]. rewrite He, len_encode_members, Hv.
  pose proof (info_vlen_range (r_info r)). cbn [struct_info vlen]. lia.
Qed.

Lemma seek_safe si strs sn mn ms : Forall wf_member ms → safe (seek si strs sn mn ms).
Proof.
  induction 1 as [|m ms (Ho & _ & _) _ IH]; cbn [seek]; [done|].
  apply safe_bind; [apply lookup_name_safe; lia|]. intros n _. case_bool_decide; [apply member_offset_safe|done].
Qed.

(** ** The header and the sections *)

Definition header_at (blob : bytes) (h : BtfHeader) : Prop :=
  24 ≤ len blob ∧ blob !! 0%nat = Some 0x9f ∧ blob !! 1%nat = Some 0xeb ∧ blob !! 2%nat = Some 1 ∧
  h = mkBtfHeader (le_decode (slice 4 4 blob)) (le_decode (slice 8 4 blob)) (le_decode (slice 12 4 blob))
        (le_decode (slice 16 4 blob)) (le_decode (slice 20 4 blob)) ∧ 24 ≤ hdr_len h.

Definition section_at (blob : bytes) (start l : Z) (s : bytes) : Prop :=
  ∃ pre post, blob = pre ++ s ++ post ∧ len pre = start ∧ len s = l.

Lemma parse_header_spec blob : slice_ok blob →
  (∃ h, parse_header blob = Ret h ∧ header_at blob h) ∨
  (∃ e, parse_header blob = Fail e ∧ safe (Fail (A:=BtfHeader) e) ∧ ∀ h, ¬ header_at blob h).
Proof.
  intros [Hb Hl]. unfold parse_header, BTF_HEADER_MIN_LEN, BTF_MAGIC. case_bool_decide as H24.
  { right. eexists. split_and!; [done|done|]. intros h (? & _). lia. }
  destruct blob as [|b0 [|b1 [|b2 blob]]]; try (unfold len in H24; cbn in H24; lia).
  cbn [get_at or_panic mbind outcome_bind]. change (get_at (b0 :: b1 :: b2 :: blob) 0) with (Some b0).
  change (get_at (b0 :: b1 :: b2 :: blob) 1) with (Some b1). cbn [or_panic mbind outcome_bind le_decode].
  pose proof Hb as Hb'. unfold is_byte in Hb'. repeat (apply Forall_cons in Hb' as [? Hb']).
  case_bool_decide as Hm.
  { right. case_bool_decide; eexists; (split_and!; [done|done|]);
      intros h (_ & E0 & E1 & _); cbn in E0, E1; injection E0 as ->; injection E1 as ->; lia. }
  unfold read_u8, usize_add. rewrite checked_add_small by lia. cbn [or_panic mbind outcome_bind].
  change (get_at (b0 :: b1 :: b2 :: blob) 2) with (Some b2). cbn [or_fail mbind outcome_bind].
  case_bool_decide as Hv.
  { right. eexists. split_and!; [done|done|]. intros h (_ & _ & _ & E2 & _). cbn in E2. congruence. }
  set (s := b0 :: b1 :: b2 :: blob) in *. rewrite !read_u32_le_spec, !bool_decide_eq_true_2 by lia.
  cbn [mbind outcome_bind]. case_bool_decide as Hh.
  { right. eexists. split_and!; [done|done|]. intros h (_ & _ & _ & _ & -> & Hmin). cbn [hdr_len] in Hmin.
    change (Z.to_nat 4) with 4%nat in Hh. lia. }
  left. eexists. split; [done|]. unfold s in *. unfold header_at. split_and!; try done; [lia|..].
  - cbn. f_equal. lia.
  - cbn. f_equal. lia.
  - cbn. congruence.
  - cbn [hdr_len]. lia.
Qed.

Lemma header_at_u32 blob h : slice_ok blob → header_at blob h →
  uint 32 (hdr_len h) ∧ uint 32 (type_off h) ∧ uint 32 (type_len h) ∧ uint 32 (str_off h) ∧ uint 32 (str_len h).
Proof.
  intros [Hb _] (H24 & _ & _ & _ & -> & _). cbn. unfold len in H24.
  repeat match goal with |- _ ∧ _ => split end; try (eapply slice_u32; [done|lia]);
    match goal with |- context [slice ?o 4 blob] => pose proof (slice_u32 blob o Hb ltac:(lia)); lia end.
Qed.

Lemma checked_slice_iff blob start l sec s : slice_ok blob → 0 ≤ start < 2 ^ 33 → uint 32 l →
  checked_slice blob start l sec = Ret s ↔ section_at blob start l s.
Proof.
  intros [Hb Hl] Hs Hu. unfold checked_slice. rewrite checked_add_small by lia. cbn [or_fail mbind outcome_bind].
  case_bool_decide as He.
  - split; [done|]. intros (pre & post & -> & <- & <-). rewrite !len_app in He. pose proof (len_nonneg post). lia.
  - rewrite get_range_Some by lia. replace (start + l - start) with l by lia. cbn [or_panic]. split.
    + intros [= <-]. exists (take (Z.to_nat start) blob), (drop (Z.to_nat start + Z.to_nat l) blob).
      unfold len in *. split_and!.
      * by rewrite slice_drop, take_drop.
      * rewrite length_take. lia.
      * rewrite length_slice; lia.
    + intros (pre & post & -> & <- & <-). f_equal. unfold len. rewrite !Nat2Z.id. apply slice_app.
Qed.

Lemma checked_slice_safe blob start l sec : slice_ok blob → 0 ≤ start < 2 ^ 33 → uint 32 l →
  safe (checked_slice blob start l sec).
Proof.
  intros [Hb Hl] Hs Hu. unfold checked_slice. rewrite checked_add_small by lia. cbn [or_fail mbind outcome_bind].
  case_bool_decide; [done|]. by rewrite get_range_Some by lia.
Qed.

Lemma section_ok blob start l s : slice_ok blob → section_at blob start l s → slice_ok s.
Proof.
  intros [Hb Hl] (pre & post & -> & _ & _). rewrite !Forall_app in Hb. rewrite !len_app in Hl.
  pose proof (len_nonneg pre). pose proof (len_nonneg post). split; [naive_solver|lia].
Qed.

(** ** Theorems *)

(** The blob is a BTF file of records whose first [task_struct] and [linux_binprm]
    have the three fields, as plain members, at these offsets. *)
Definition btf_reading (blob : bytes) (o : ResolvedOffsets) : Prop :=
  ∃ h ts strs recs rt rb tms bms mp mt mf,
    header_at blob h ∧
    section_at blob (hdr_len h + type_off h) (type_len h) ts ∧
    section_at blob (hdr_len h + str_off h) (str_len h) strs ∧
    Forall wf_record recs ∧ ts = encode_records recs ∧ names_ok strs recs ∧
    first_named strs (lit "task_struct") recs rt ∧ has_members rt tms ∧
    first_named strs (lit "linux_binprm") recs rb ∧ has_members rb bms ∧
    first_member strs (lit "real_parent") tms mp ∧
    plain_member_at (struct_info rt) mp (task_real_parent_offset o) ∧
    first_member strs (lit "tgid") tms mt ∧
    plain_member_at (struct_info rt) mt (task_tgid_offset o) ∧
    first_member strs (lit "filename") bms mf ∧
    plain_member_at (struct_info rb) mf (bprm_filename_offset o).

Lemma first_named_record strs name recs r :
  Forall wf_record recs → first_named strs name recs r → wf_record r ∧ is_struct r.
Proof.
  intros Hwf (b & a & -> & _ & Hs & _). apply Forall_app in Hwf as [_ Hwf].
  by apply Forall_cons in Hwf as [? _].
Qed.

(** The member search in the first struct of a name. *)
Lemma first_struct_member strs name sn mn recs r ms o :
  Forall wf_record recs → first_named strs name recs r → has_members r ms →
  find_member_byte_offset (struct_info r) strs sn mn = Ret o ↔
  ∃ m, first_member strs (lit mn) ms m ∧ plain_member_at (struct_info r) m o.
Proof.
  intros Hwf Hf Hm. destruct (first_named_record _ _ _ _ Hwf Hf) as [Hr Hs].
  rewrite (find_member_seek r strs sn mn ms) by done. apply seek_iff. by destruct Hm.
Qed.

Lemma first_struct_members strs name recs r :
  Forall wf_record recs → first_named strs name recs r → ∃ ms, has_members r ms.
Proof.
  intros Hwf Hf. destruct (first_named_record _ _ _ _ Hwf Hf) as [Hr Hs].
  destruct (struct_has_members r Hr Hs) as (ms & ? & _). by exists ms.
Qed.

(** C16: Offset resolution is exact. For every blob, [resolve_offsets] returns the
    offsets [o] if and only if the blob reads as BTF (header, sections, a sequence
    of well-sized records with readable struct names) in which the first
    [task_struct] and [linux_binprm] have the three fields as plain byte-aligned
    members inside the struct at the offsets [o]; no other value is ever returned. *)
Theorem btf_resolve_exact blob o : slice_ok blob →
  resolve_offsets blob = Ret o ↔ btf_reading blob o.
Proof.
  intros Hok. unfold resolve_offsets. split.
  - destruct (parse_header_spec blob Hok) as [(h & -> & Hh)|(e & -> & _)]; [|done].
    pose proof (header_at_u32 blob h Hok Hh) as (U1 & U2 & U3 & U4 & U5). cbn [mbind outcome_bind].
    intros H. apply bind_Ret in H as (ts & Hts & H). apply bind_Ret in H as (strs & Hstrs & H).
    apply checked_slice_iff in Hts, Hstrs; [|done || lia..].
    apply bind_Ret in H as ([t b] & Hfs & H).
    apply find_structs_iff in Hfs as (recs & rt & rb & Hwf & Henc & Hn & Ht & -> & Hb & ->);
      [|by eapply section_ok|destruct Hts as (? & ? & _ & _ & ->); lia].
    destruct (first_struct_members _ _ _ _ Hwf Ht) as [tms Htms].
    destruct (first_struct_members _ _ _ _ Hwf Hb) as [bms Hbms].
    apply bind_Ret in H as (p & Hp & H). apply bind_Ret in H as (g & Hg & H).
    apply bind_Ret in H as (f & Hf & H).
    apply (first_struct_member _ _ _ _ _ _ _ _ Hwf Ht Htms) in Hp as [mp Hp], Hg as [mt Hg].
    apply (first_struct_member _ _ _ _ _ _ _ _ Hwf Hb Hbms) in Hf as [mf Hf].
    injection H as <-. exists h, ts, strs, recs, rt, rb, tms, bms, mp, mt, mf. naive_solver.
  - intros (h & ts & strs & recs & rt & rb & tms & bms & mp & mt & mf & Hh & Hts & Hstrs & Hwf & Henc & Hn &
      Ht & Htms & Hb & Hbms & Hp1 & Hp2 & Hg1 & Hg2 & Hf1 & Hf2).
    destruct (parse_header_spec blob Hok) as [(h' & -> & Hh')|(e & _ & _ & Hne)]; [|by apply Hne in Hh].
    assert (h' = h) as -> by (destruct Hh as (_ & _ & _ & _ & -> & _), Hh' as (_ & _ & _ & _ & -> & _); done).
    pose proof (header_at_u32 blob h Hok Hh) as (U1 & U2 & U3 & U4 & U5). cbn [mbind outcome_bind].
    apply bind_Ret. exists ts. split; [apply checked_slice_iff; done || lia|].
    apply bind_Ret. exists strs. split; [apply checked_slice_iff; done || lia|].
    apply bind_Ret. exists (struct_info rt, struct_info rb). split.
    { apply find_structs_iff; [by eapply section_ok|destruct Hts as (? & ? & _ & _ & ->); lia|].
      by exists recs, rt, rb. }
    cbn [fst snd]. apply bind_Ret. exists (task_real_parent_offset o).
    split; [eapply (first_struct_member strs); eauto|].
    apply bind_Ret. exists (task_tgid_offset o). split; [eapply (first_struct_member strs); eauto|].
    apply bind_Ret. exists (bprm_filename_offset o). split; [eapply (first_struct_member strs); eauto|].
    by destruct o.
Qed.

(** The member search returns an in-range offset or a checked error. *)
Lemma first_struct_member_safe strs name sn mn recs r :
  Forall wf_record recs → first_named strs name recs r →
  safe (find_member_byte_offset (struct_info r) strs sn mn) ∧
  ∀ o, find_member_byte_offset (struct_info r) strs sn mn = Ret o → 0 ≤ o < 2 ^ 29.
Proof.
  intros Hwf Hf. destruct (first_struct_members _ _ _ _ Hwf Hf) as [ms Hms].
  destruct (first_named_record _ _ _ _ Hwf Hf) as [Hr Hs]. split.
  - rewrite (find_member_seek r strs sn mn ms) by done. apply seek_safe. by destruct Hms.
  - intros o Hm. apply (first_struct_member _ _ _ _ _ _ _ _ Hwf Hf Hms) in Hm as (m & (b & a & Hb & _) & (Ho & _)).
    destruct Hms as [Hms _]. rewrite Hb in Hms. apply Forall_app in Hms as [_ Hms].
    apply Forall_cons in Hms as [(_ & _ & Hmo) _]. lia.
Qed.

(** Offset resolution is total and bounded. On every blob a slice can hold, well
    formed or not, [resolve_offsets] returns offsets below [2^29] or one of its typed
    errors: the walk ends within the length of the section, no slice index, addition or
    type-id counter leaves its range, and none of the overflow errors occurs. *)
Theorem btf_resolve_bounded blob : slice_ok blob →
  match resolve_offsets blob with
  | Ret o => 0 ≤ bprm_filename_offset o < 2 ^ 29 ∧ 0 ≤ task_real_parent_offset o < 2 ^ 29 ∧
             0 ≤ task_tgid_offset o < 2 ^ 29
  | Fail e => ∀ c, e ≠ Overflow c
  | Panic | Diverge => False
  end.
Proof.
  intros Hok. unfold resolve_offsets.
  destruct (parse_header_spec blob Hok) as [(h & -> & Hh)|(e & -> & Hs & _)]; [|by destruct e].
  pose proof (header_at_u32 blob h Hok Hh) as (U1 & U2 & U3 & U4 & U5). cbn [mbind outcome_bind].
  pose proof (checked_slice_safe blob (hdr_len h + type_off h) (type_len h) "type" Hok ltac:(lia) ltac:(lia)) as St.
  destruct (checked_slice blob _ (type_len h) "type") as [ts|e| |] eqn:Hts; [|by destruct e|done..].
  apply checked_slice_iff in Hts; [|done || lia..]. cbn [mbind outcome_bind].
  pose proof (checked_slice_safe blob (hdr_len h + str_off h) (str_len h) "string" Hok ltac:(lia) ltac:(lia)) as Ss.
  destruct (checked_slice blob _ (str_len h) "string") as [strs|e| |]; [|by destruct e|done..].
  cbn [mbind outcome_bind]. assert (slice_ok ts ∧ len ts < 2 ^ 32) as [Hts1 Hts2].
  { split; [by eapply section_ok|]. destruct Hts as (? & ? & _ & _ & ->). lia. }
  pose proof (find_structs_safe ts strs Hts1 Hts2) as Sf.
  destruct (find_structs ts strs) as [[t b]|e| |] eqn:Hfs; [|by destruct e|done..].
  apply find_structs_iff in Hfs as (recs & rt & rb & Hwf & _ & _ & Ht & -> & Hb & ->); [|done..].
  cbn [mbind outcome_bind fst snd].
  destruct (first_struct_member_safe _ _ "task_struct" "real_parent" _ _ Hwf Ht) as [Sp Bp].
  destruct (find_member_byte_offset _ _ _ "real_parent") as [p|e| |]; [|by destruct e|done..].
  destruct (first_struct_member_safe _ _ "task_struct" "tgid" _ _ Hwf Ht) as [Sg Bg].
  destruct (find_member_byte_offset _ _ _ "tgid") as [g|e| |]; [|by destruct e|done..].
  destruct (first_struct_member_safe _ _ "linux_binprm" "filename" _ _ Hwf Hb) as [Sn Bn].
  destruct (find_member_byte_offset _ _ _ "filename") as [f|e| |]; [|by destruct e|done..].
  cbn. naive_solver.
Qed.

(** ** A small blob *)

Definition encode_header (h : BtfHeader) : bytes :=
  [0x9f; 0xeb; 1; 0] ++ le_encode 4 (hdr_len h) ++ le_encode 4 (type_off h) ++ le_encode 4 (type_len h) ++
  le_encode 4 (str_off h) ++ le_encode 4 (str_len h).

Definition demo_strs : bytes :=
  [0] ++ lit "task_struct" ++ [0] ++ lit "real_parent" ++ [0] ++ lit "tgid" ++ [0] ++
  lit "linux_binprm" ++ [0] ++ lit "filename" ++ [0].

(** An integer, a [task_struct] of two members that may hold bit-fields, a
    [linux_binprm] and a second [task_struct] that the walk must not take. *)
Definition demo_records : list btf_record :=
  [mkRecord 0 0x01000000 4 (le_encode 4 32);
   mkRecord 1 0x84000002 4096 (encode_members [mkMember 13 1 (8 * 1416); mkMember 25 1 (8 * 1400)]);
   mkRecord 30 0x04000001 400 (encode_members [mkMember 43 1 (8 * 96)]);
   mkRecord 1 0x04000000 8 []].

Definition demo_blob : bytes :=
  let types := encode_records demo_records in
  encode_header (mkBtfHeader 24 0 (len types) (len types) (len demo_strs)) ++ types ++ demo_strs.

Lemma demo_blob_ok : slice_ok demo_blob.
Proof.
  split; [apply (bool_decide_eq_true_1 (Forall is_byte demo_blob))|]; vm_compute; reflexivity.
Qed.

Lemma btf_resolve_exact_witness :
  slice_ok demo_blob ∧ btf_reading demo_blob (mkResolvedOffsets 96 1416 1400).
Proof.
  split; [apply demo_blob_ok|]. apply (btf_resolve_exact demo_blob); [apply demo_blob_ok|].
  vm_compute. reflexivity.
Defined.

(** A blob cut inside its last record is refused. *)
Example demo_truncated :
  let types := encode_records demo_records in
  resolve_offsets (encode_header (mkBtfHeader 24 0 (len types - 4) (len types) (len demo_strs)) ++ types ++ demo_strs)
  = Fail (TooShort "btf_type.size_or_type" 88 84).
Proof. vm_compute. reflexivity. Qed.

Lemma btf_resolve_bounded_witness :
  slice_ok demo_blob ∧
  match resolve_offsets demo_blob with
  | Ret o => 0 ≤ bprm_filename_offset o < 2 ^ 29 ∧ 0 ≤ task_real_parent_offset o < 2 ^ 29 ∧
             0 ≤ task_tgid_offset o < 2 ^ 29
  | Fail e => ∀ c, e ≠ Overflow c
  | Panic | Diverge => False
  end.
Proof. split; [apply demo_blob_ok|]. apply (btf_resolve_bounded demo_blob). apply demo_blob_ok. Defined.
