(* ===== verification/LsmPin.v ===== *)
(** * The pinned LSM link and the pin directory ([lsm_pin.rs], [bpf_pin.rs])

    The enforcement program stays attached as long as some descriptor of the agent
    or some bpffs pin refers to its link. A [host] is what a start-up finds and
    changes: the map pins of [PinAbi], the links pinned under the final and the
    temporary name, and the links this process holds open. As in [PinAbi], each
    fallible call takes its outcome from a schedule, and a crash before a call
    leaves the host a failure of that call leaves, once the process's descriptors
    are closed ([exit_process]). *)

From S2P Require Import Prelude RustStd Common Bpf PathDeny LsmHook PinAbi.

Definition DEFAULT_BPF_PIN_ROOT : bytes := lit "/sys/fs/bpf/neuromesh".
Definition PINNED_PROCESS_MAPS : list bytes := [PROCESS_EVENTS_MAP; RATE_LIMIT_BUCKET_MAP].
Definition PINNED_ENFORCEMENT_MAPS : list bytes := [PATH_DENY_LIST_MAP; PATH_DENY_COUNT_MAP].
Definition LSM_LINK_PIN_NAME : bytes := lit "neuromesh_lsm_exec_guard_link".
Definition LSM_LINK_PIN_TMP_NAME : bytes := lit "neuromesh_lsm_exec_guard_link_tmp".

(** [pin_root()]; [var] is [NEUROMESH_BPF_PIN_ROOT]. *)
Definition pin_root (var : option bytes) : bytes := default DEFAULT_BPF_PIN_ROOT var.

Inductive DenyMapSeedPlan : Type :=
| PlanBootstrap
| PlanResumePinned (count : Z).

Inductive EnforcementPinState : Type :=
| PinsCold
| MapsReady (link_pinned : bool)
| InconsistentLinkWithoutMaps
| PinsMigrationInProgress.

(** ** The host *)
Record host : Type := mkHost {
  h_world : world;
  h_bpffs : bool;
  h_link : option nat;
  h_tmp : option nat;
  h_fds : list nat;
  h_next : nat
}.

Definition set_world (w : world) (k : host) : host :=
  mkHost w (h_bpffs k) (h_link k) (h_tmp k) (h_fds k) (h_next k).
Definition set_links (link tmp : option nat) (k : host) : host :=
  mkHost (h_world k) (h_bpffs k) link tmp (h_fds k) (h_next k).
Definition set_fds (fds : list nat) (k : host) : host :=
  mkHost (h_world k) (h_bpffs k) (h_link k) (h_tmp k) fds (h_next k).

(** A call on the pins of the maps. *)
Definition on_world {A} : stm world A → stm host A := zoom h_world set_world.

(** A call that fails without effect when the schedule says so. *)
Definition host_call {A} (f : host → result (host * A)) : stm host A := λ k,
  let '(fault, rest) := next_fault (w_faults (h_world k)) in
  let k := set_world (mkWorld (w_fs (h_world k)) rest) k in
  if fault then (k, Err (EMsg "system call failed"))
  else match f k with Ok (k, a) => (k, Ok a) | Err e => (k, Err e) end.

(** The links that keep the program attached. *)
Definition attached (k : host) (id : nat) : Prop := h_link k = Some id ∨ h_tmp k = Some id ∨ id ∈ h_fds k.
Definition exit_process (k : host) : host := set_fds [] k.

(** ** [bpf_pin.rs] *)

(** The pin root itself is always there in [PinAbi]'s directory; creating it may fail. *)
Definition prepare_pin_directory : stm host unit := λ k,
  if negb (h_bpffs k) then (k, Err (EMsg "bpffs is not mounted at /sys/fs/bpf"))
  else st_context "failed to create BPF pin directory" (host_call (λ k, Ok (k, ()))) k.

(** What the loader is asked for: the object, the globals it overrides and the maps
    pinned by name. *)
Record LoadRequest : Type := mkLoadRequest {
  lr_object : bytes;
  lr_globals : option LsmOffsets;
  lr_pins : list bytes
}.

(** [load] stands for [EbpfLoader::load] and what the caller takes from the object. *)
Definition load_with_map_pinning {E} (load : LoadRequest → stm world E) (bytecode : bytes) : stm host E :=
  _ ← prepare_pin_directory;
  _ ← on_world recreate_mismatched_process_maps;
  st_context "failed to load eBPF object with bpffs map pinning"
    (on_world (load (mkLoadRequest bytecode None PINNED_PROCESS_MAPS))).

(** ** [lsm_pin.rs] *)

(** [path.is_file()] of a map pin. *)
Definition is_pin (w : world) (name : bytes) : bool :=
  match w_fs w !! PRoot name with Some (NPin _) => true | _ => false end.

(** [classify_enforcement_pins]; an unreadable directory counts as not staged. *)
Definition classify_enforcement_pins (k : host) : EnforcementPinState :=
  let w := h_world k in
  let maps_ok := is_pin w PATH_DENY_LIST_MAP && is_pin w PATH_DENY_COUNT_MAP in
  let link_ok := bool_decide (is_Some (h_link k)) in
  let staged := match select_deny_legacy_dir w with (_, Ok (Some _)) => true | _ => false end in
  if staged && negb maps_ok then PinsMigrationInProgress
  else if link_ok && negb maps_ok then InconsistentLinkWithoutMaps
  else if maps_ok then MapsReady link_ok
  else PinsCold.

Definition deny_map_seed_plan (pinned_maps_reused : bool) (active_count : Z) : result DenyMapSeedPlan :=
  if negb pinned_maps_reused then Ok PlanBootstrap
  else if bool_decide (active_count = 0) then
    Err (EMsg "pinned PATH_DENY_COUNT reports 0 active entries: refusing to resume")
  else Ok (PlanResumePinned active_count).

(** [now] is the clock reading. *)
Definition policy_state_for_pinned_resume (now : Z) : PolicySyncState :=
  mkPolicySyncState (now - POLICY_STALE_AFTER - secs 1) (lit "pinned-resume") true.

Record EnforcementPinPaths : Type := mkEnforcementPinPaths {
  ep_list : bytes; ep_count : bytes; ep_link : bytes; ep_link_tmp : bytes
}.

(** [Path::join] with a relative name. *)
Definition join (root name : bytes) : bytes := root ++ [47] ++ name.
Definition enforcement_pin_paths (root : bytes) : EnforcementPinPaths :=
  mkEnforcementPinPaths (join root PATH_DENY_LIST_MAP) (join root PATH_DENY_COUNT_MAP)
    (join root LSM_LINK_PIN_NAME) (join root LSM_LINK_PIN_TMP_NAME).

(** The calls of the handoff. *)
Definition remove_tmp : stm host unit :=
  host_call (λ k, match h_tmp k with Some _ => Ok (set_links (h_link k) None k, ()) | None => Err (EMsg "ENOENT") end).
Definition remove_link : stm host unit :=
  host_call (λ k, match h_link k with Some _ => Ok (set_links None (h_tmp k) k, ()) | None => Err (EMsg "ENOENT") end).
(** [program.attach()]: a new link, held open by the program. *)
Definition attach : stm host nat :=
  host_call (λ k, Ok (mkHost (h_world k) (h_bpffs k) (h_link k) (h_tmp k) (h_next k :: h_fds k) (S (h_next k)),
                      h_next k)).
Definition take_link (id : nat) : stm host nat := host_call (λ k, Ok (k, id)).
Definition close_fd (id : nat) (k : host) : host := set_fds (filter (λ x, x ≠ id) (h_fds k)) k.
(** [fd_link.pin(path)] consumes the link: on failure its descriptor is closed. *)
Definition pin_tmp (id : nat) : stm host unit := λ k,
  match host_call (λ k, match h_tmp k with
                        | None => Ok (set_links (h_link k) (Some id) k, ())
                        | Some _ => Err (EMsg "EEXIST")
                        end) k with
  | (k, Ok u) => (k, Ok u)
  | (k, Err e) => (close_fd id k, Err e)
  end.
(** [drop(pinned_tmp)]: the pin stays. *)
Definition drop_pinned (id : nat) : stm host unit := λ k, (close_fd id k, Ok ()).
Definition rename_tmp_to_link : stm host unit :=
  host_call (λ k, match h_tmp k with Some id => Ok (set_links (Some id) None k, ()) | None => Err (EMsg "ENOENT") end).
(** [PinnedLink::from_pin(&paths.link)]. *)
Definition from_pin : stm host nat :=
  host_call (λ k, match h_link k with
                  | Some id => Ok (set_fds (id :: h_fds k) k, id)
                  | None => Err (EMsg "ENOENT")
                  end).

Definition attach_and_pin_lsm_fail_closed : stm host nat :=
  _ ← st_context "bpffs pin directory unavailable" prepare_pin_directory;
  k ← st_get;
  _ ← (if bool_decide (is_Some (h_tmp k))
       then st_context "failed to remove stale temp LSM link pin" remove_tmp else mret ());
  link_id ← st_context "LSM bprm_check_security attach failed" attach;
  fd_link ← st_context "failed to take ownership of LSM link" (take_link link_id);
  _ ← st_context "failed to pin LSM link" (pin_tmp fd_link);
  _ ← drop_pinned fd_link;
  k ← st_get;
  _ ← (if bool_decide (is_Some (h_link k))
       then st_context "failed to remove previous LSM link pin" remove_link else mret ());
  _ ← st_context "failed to finalize LSM link pin" rename_tmp_to_link;
  st_context "LSM link pin could not be re-opened" from_pin.

(** [maps.count.get(&0, 0)]. *)
Definition active_deny_count {ML MC} `{ArrayMap Z MC} (m : PathDenyMaps ML MC) : result Z :=
  ok_or (EMsg "failed to read PATH_DENY_COUNT[0]") (am_get (pdm_count m) 0).

(** ** Lemmas *)

(** What the two link names refer to, and the next link the kernel creates. *)
Definition links (l t : option nat) (n : nat) (k : host) : Prop := h_link k = l ∧ h_tmp k = t ∧ h_next k = n.

Lemma hoare_call {A} (E P : host → Prop) f (Q : A → host → Prop) :
  (∀ w k, P k → P (set_world w k)) → (∀ k, P k → E k) →
  (∀ k, P k → match f k with Ok (k', a) => Q a k' | Err _ => True end) →
  hoare E P (host_call f) Q.
Proof.
  intros Hw HE Hf k Hk. unfold host_call. destruct (next_fault _) as [[] rest].
  - by apply HE, Hw.
  - specialize (Hf _ (Hw (mkWorld (w_fs (h_world k)) rest) k Hk)).
    destruct (f _) as [[k' a]|e]; [done|]. by apply HE, Hw.
Qed.

(** One call of the handoff: its effect on the two names. *)
Section calls.
Context (E : host → Prop) (l t : option nat) (n : nat) (HE : ∀ k, links l t n k → E k).

Lemma call_prepare : hoare E (links l t n) prepare_pin_directory (λ _, links l t n).
Proof.
  intros k Hk. unfold prepare_pin_directory. destruct (h_bpffs k); cbn [negb]; [|by apply HE].
  revert k Hk. by apply hoare_context, hoare_call.
Qed.
Lemma call_attach : hoare E (links l t n) attach (λ id k, id = n ∧ links l t (S n) k).
Proof. apply hoare_call; [done|done|]. intros k (? & ? & <-). by split. Qed.
Lemma call_take_link id : hoare E (links l t n) (take_link id) (λ i k, i = id ∧ links l t n k).
Proof. by apply hoare_call. Qed.
Lemma call_drop id : hoare E (links l t n) (drop_pinned id) (λ _, links l t n).
Proof. by intros k. Qed.
Lemma call_remove_tmp : hoare E (links l t n) remove_tmp (λ _, links l None n).
Proof. apply hoare_call; [done|done|]. intros k (? & -> & ?). by destruct t. Qed.
Lemma call_remove_link : hoare E (links l t n) remove_link (λ _, links None t n).
Proof. apply hoare_call; [done|done|]. intros k (-> & ? & ?). by destruct l. Qed.
Lemma call_pin_tmp id : hoare E (links l t n) (pin_tmp id) (λ _, links l (Some id) n).
Proof.
  intros k Hk. unfold pin_tmp.
  assert (hoare (links l t n) (links l t n)
    (host_call (λ k, match h_tmp k with
                     | None => Ok (set_links (h_link k) (Some id) k, ())
                     | Some _ => Err (EMsg "EEXIST") end)) (λ _, links l (Some id) n)) as Hc.
  { apply hoare_call; [done|done|]. intros k' (? & ? & ?). by destruct (h_tmp k'). }
  specialize (Hc k Hk). destruct (host_call _ k) as [k' [u|e]]; [done|]. by apply HE.
Qed.
Lemma call_rename : hoare E (links l t n) rename_tmp_to_link (λ _ k, ∃ id, t = Some id ∧ links (Some id) None n k).
Proof. apply hoare_call; [done|done|]. intros k (? & -> & ?). destruct t as [id|]; [|done]. by exists id. Qed.
Lemma call_from_pin : hoare E (links l t n) from_pin (λ id k, l = Some id ∧ links l t n k ∧ id ∈ h_fds k).
Proof. apply hoare_call; [done|done|]. intros k (Hl & ? & ?). rewrite Hl. destruct l; [|done]. split; [done|]. split; [done|]. apply list_elem_of_here. Qed.
End calls.

(** What follows the removal of a stale temporary pin. *)
Definition attach_tail : stm host nat :=
  link_id ← st_context "LSM bprm_check_security attach failed" attach;
  fd_link ← st_context "failed to take ownership of LSM link" (take_link link_id);
  _ ← st_context "failed to pin LSM link" (pin_tmp fd_link);
  _ ← drop_pinned fd_link;
  k ← st_get;
  _ ← (if bool_decide (is_Some (h_link k))
       then st_context "failed to remove previous LSM link pin" remove_link else mret ());
  _ ← st_context "failed to finalize LSM link pin" rename_tmp_to_link;
  st_context "LSM link pin could not be re-opened" from_pin.

Lemma attach_tail_spec (E : host → Prop) l n :
  (∀ m k, links l None m k → E k) →
  (∀ l' t' m k, l' = Some n ∨ t' = Some n → links l' t' m k → E k) →
  hoare E (links l None n) attach_tail
    (λ id k, id = n ∧ links (Some n) None (S n) k ∧ id ∈ h_fds k).
Proof.
  intros HE HP. unfold attach_tail.
  eapply hoare_bind; [apply hoare_context, (call_attach E l None n); exact (HE _)|]. intros link_id.
  apply hoare_pure. intros ->.
  eapply hoare_bind; [apply hoare_context, (call_take_link E l None (S n)); exact (HE _)|]. intros fd_link.
  apply hoare_pure. intros ->.
  eapply hoare_bind; [apply hoare_context, (call_pin_tmp E l None (S n)); exact (HE _)|]. intros u.
  eapply hoare_bind; [apply (call_drop E l (Some n) (S n))|]. intros u'.
  intros k Hk. cbn [st_get mbind stm_bind]. rewrite stm_bind_run. cbn [st_get]. revert k Hk.
  assert (∀ k0 : host, h_link k0 = l → hoare E (links l (Some n) (S n))
    (if bool_decide (is_Some (h_link k0)) then st_context "failed to remove previous LSM link pin" remove_link else mret ())
    (λ _, links None (Some n) (S n))) as Hrm.
  { intros k0 ->. case_bool_decide as Hl.
    - apply hoare_context, call_remove_link. intros k. apply HP. by right.
    - apply hoare_ret. intros s Hs. destruct l; [|done]. by destruct Hl. }
  intros k Hk. pose proof Hk as [Hl _]. revert k Hk Hl.
  enough (∀ k0 : host, h_link k0 = l → hoare E (links l (Some n) (S n))
    (_ ← (if bool_decide (is_Some (h_link k0))
       then st_context "failed to remove previous LSM link pin" remove_link else mret ());
     _ ← st_context "failed to finalize LSM link pin" rename_tmp_to_link;
     st_context "LSM link pin could not be re-opened" from_pin)
    (λ id k, id = n ∧ links (Some n) None (S n) k ∧ id ∈ h_fds k)) as Hgo.
  { intros k Hk Hl. exact (Hgo k Hl k Hk). }
  intros k0 Hl. eapply hoare_bind; [by apply Hrm|]. intros u2.
  eapply hoare_bind; [apply hoare_context, (call_rename E None (Some n) (S n)); intros k; apply HP; by right|]. intros u3.
  intros k (id & [= <-] & Hk). revert k Hk. apply hoare_context.
  eapply hoare_weaken; [apply (call_from_pin E (Some n) None (S n)); intros k; apply HP; by left|done|].
  intros id k ([= <-] & Hk & Hf). done.
Qed.

(** The start of the call: the directory and a stale temporary pin. *)
Lemma attach_and_pin_run k :
  attach_and_pin_lsm_fail_closed k =
  (_ ← st_context "bpffs pin directory unavailable" prepare_pin_directory;
   k ← st_get;
   _ ← (if bool_decide (is_Some (h_tmp k))
        then st_context "failed to remove stale temp LSM link pin" remove_tmp else mret ());
   attach_tail) k.
Proof. done. Qed.

(** Without a stale temporary pin the call is its tail, after the directory check. *)
Lemma attach_and_pin_spec (E : host → Prop) l n :
  (∀ m k, links l None m k → E k) →
  (∀ l' t' m k, l' = Some n ∨ t' = Some n → links l' t' m k → E k) →
  hoare E (links l None n) attach_and_pin_lsm_fail_closed
    (λ id k, id = n ∧ links (Some n) None (S n) k ∧ id ∈ h_fds k).
Proof.
  intros HE HP k Hk. rewrite attach_and_pin_run. revert k Hk.
  eapply hoare_bind; [apply hoare_context, (call_prepare E l None n (HE n))|].
  intros u k Hk. rewrite stm_bind_run. cbn [st_get].
  assert (bool_decide (is_Some (h_tmp k)) = false) as ->.
  { apply bool_decide_eq_false_2. destruct Hk as (_ & -> & _). by intros [? ?]. }
  rewrite stm_bind_run. cbn [mret stm_ret]. by apply (attach_tail_spec E l n HE HP).
Qed.

(** C12: The handoff never drops enforcement. When the link of a previous run is pinned
    under its final name and no temporary pin is left over, then wherever the handoff
    stops (any call may fail, and a crash before a call leaves what its failure
    leaves), after the process is gone the previous or the new link is still pinned,
    so a program stays attached. If the handoff succeeds, the new link is the one
    pinned under the final name, no temporary pin is left, and the agent holds it open. *)
Theorem handoff_keeps_enforcement k old :
  h_link k = Some old → h_tmp k = None →
  let '(k', r) := attach_and_pin_lsm_fail_closed k in
  (attached (exit_process k') old ∨ attached (exit_process k') (h_next k)) ∧
  match r with
  | Ok id => id = h_next k ∧ h_link k' = Some id ∧ h_tmp k' = None ∧ id ∈ h_fds k'
  | Err _ => True
  end.
Proof.
  intros Hl Ht. set (E := λ k', attached (exit_process k') old ∨ attached (exit_process k') (h_next k)).
  pose proof (attach_and_pin_spec E (Some old) (h_next k)) as H. unfold hoare in H.
  specialize (H ltac:(intros m k' (? & _); by left; left)).
  specialize (H ltac:(intros l' t' m k' [-> | ->] (? & ? & _); right; [by left|by right; left])).
  specialize (H k (conj Hl (conj Ht eq_refl))).
  destruct (attach_and_pin_lsm_fail_closed k) as [k' [id|e]]; [|by split].
  destruct H as (-> & (? & ? & _) & Hf). split; [right; by left|]. by split_and!.
Qed.

(** ** Witness and counterexample *)

Definition with_faults (faults : list bool) (k : host) : host := set_world (mkWorld (w_fs (h_world k)) faults) k.
Definition demo_host (faults : list bool) : host := mkHost (mkWorld ∅ faults) true (Some 7%nat) None [] 8.

Lemma handoff_keeps_enforcement_witness :
  let '(k', r) := attach_and_pin_lsm_fail_closed (demo_host [false; false; false; false; false; true]) in
  attached (exit_process k') 7 ∨ attached (exit_process k') 8.
Proof.
  pose proof (handoff_keeps_enforcement (demo_host [false; false; false; false; false; true]) 7 eq_refl eq_refl) as H.
  destruct (attach_and_pin_lsm_fail_closed _) as [k' r]. by destruct H.
Defined.

(** A crash between the removal of the old pin and the rename leaves the temporary pin
    as the only one. The next start removes it before it attaches anything, so when that
    start fails the node has no program attached, although a pinned link existed at the
    beginning of both runs. *)
Theorem stale_temp_pin_drops_enforcement :
  let crashed := exit_process (attach_and_pin_lsm_fail_closed (demo_host [false; false; false; false; false; true])).1 in
  let restarted := (attach_and_pin_lsm_fail_closed (with_faults [false; false; true] crashed)).1 in
  attached (demo_host []) 7 ∧ attached crashed 8 ∧ ∀ id, ¬ attached restarted id.
Proof.
  cbn zeta. split_and!; [by left|right; left; by vm_compute|].
  intros id. vm_compute. intros [?|[?|H]]; try done. by inversion H.
Qed.

(** The seed plan resumes only a non-empty list. *)
Theorem seed_plan_spec reused n p :
  deny_map_seed_plan reused n = Ok p ↔
  (reused = false ∧ p = PlanBootstrap) ∨ (reused = true ∧ n ≠ 0 ∧ p = PlanResumePinned n).
Proof. unfold deny_map_seed_plan. destruct reused; cbn; [case_bool_decide|]; naive_solver. Qed.

(** A resumed list is stale until the first synchronisation. *)
Theorem resume_is_stale now later : now ≤ later →
  ps_stale (refresh_stale_flag later (policy_state_for_pinned_resume now)) = true.
Proof.
  intros H. unfold refresh_stale_flag, policy_state_for_pinned_resume, elapsed. cbn. unfold POLICY_STALE_AFTER, secs.
  apply bool_decide_eq_true_2. lia.
Qed.

(** The classification refuses exactly a link without both maps and without staging. *)
Theorem classify_inconsistent_iff k :
  classify_enforcement_pins k = InconsistentLinkWithoutMaps ↔
  is_Some (h_link k) ∧
  ¬ (is_pin (h_world k) PATH_DENY_LIST_MAP = true ∧ is_pin (h_world k) PATH_DENY_COUNT_MAP = true) ∧
  (∀ d, (select_deny_legacy_dir (h_world k)).2 ≠ Ok (Some d)).
Proof.
  unfold classify_enforcement_pins. destruct (select_deny_legacy_dir (h_world k)) as [w' [[d|]|e]]; cbn [snd];
    destruct (is_pin _ PATH_DENY_LIST_MAP), (is_pin _ PATH_DENY_COUNT_MAP); case_bool_decide; cbn; naive_solver.
Qed.

(** From any state of the two names, success leaves the new link under the final one. *)
Lemma attach_and_pin_ok k k' id :
  attach_and_pin_lsm_fail_closed k = (k', Ok id) →
  h_link k' = Some id ∧ h_tmp k' = None ∧ id = h_next k ∧ id ∈ h_fds k'.
Proof.
  intros Hrun. rewrite attach_and_pin_run in Hrun. set (E := λ _ : host, True).
  assert (hoare E (links (h_link k) (h_tmp k) (h_next k))
    (_ ← st_context "bpffs pin directory unavailable" prepare_pin_directory;
     k ← st_get;
     _ ← (if bool_decide (is_Some (h_tmp k))
          then st_context "failed to remove stale temp LSM link pin" remove_tmp else mret ());
     attach_tail) (λ id k', id = h_next k ∧ links (Some (h_next k)) None (S (h_next k)) k' ∧ id ∈ h_fds k')) as Hh.
  { eapply hoare_bind; [by apply hoare_context, call_prepare|]. intros u k1 Hk1. rewrite stm_bind_run. cbn [st_get].
    set (b := bool_decide (is_Some (h_tmp k1))).
    assert (b = bool_decide (is_Some (h_tmp k))) as Hb by (unfold b; by destruct Hk1 as (_ & -> & _)).
    clearbody b. revert k1 Hk1. apply (hoare_bind _ _ _ _ (λ _, links (h_link k) None (h_next k))).
    - subst b. case_bool_decide as Ht.
      + by apply hoare_context, call_remove_tmp.
      + apply hoare_ret. intros k1 Hk1. destruct (h_tmp k); [|done]. by destruct Ht.
    - intros u'. by apply attach_tail_spec. }
  specialize (Hh k (conj eq_refl (conj eq_refl eq_refl))). rewrite Hrun in Hh.
  destruct Hh as (-> & (E1 & E2 & _) & Hf). done.
Qed.
