(* ===== verification/Metrics.v ===== *)
(** * Counters and the health monitor ([observability/metrics.rs], [health.rs])

    A Prometheus counter is a number; the library stores it as a double, which is
    exact below [2^53]. A labelled counter is a map from the label. The monitor task
    is the sequence of its ticks, interleaved with the increments other tasks make. *)

From S2P Require Import Prelude RustStd Common.

Record AgentMetrics : Type := mkAgentMetrics {
  events_processed : Z;
  events_dropped : Z;
  uptime_seconds : Z;
  integrity_failures : gmap bytes Z;
  identity_invalidations : gmap bytes Z;
  identity_resyncs : gmap bytes Z;
  policy_sync_throttled : Z;
  pin_abi_mismatch : gmap bytes Z;
  pin_abi_migration : gmap bytes Z;
  m_userspace_drops : Z;
  started_at : Z
}.

(** [AgentMetrics::new()] at clock reading [now]; registering the fixed names once
    cannot collide. *)
Definition metrics_new (now : Z) : AgentMetrics := mkAgentMetrics 0 0 0 ∅ ∅ ∅ 0 ∅ ∅ 0 now.

(** [vec.with_label_values(&[label]).inc()] and [.get()]. *)
Definition vec_inc (label : bytes) (v : gmap bytes Z) : gmap bytes Z := <[label := default 0 (v !! label) + 1]> v.
Definition vec_get (label : bytes) (v : gmap bytes Z) : Z := default 0 (v !! label).

Definition record_event_processed (m : AgentMetrics) : AgentMetrics :=
  mkAgentMetrics (events_processed m + 1) (events_dropped m) (uptime_seconds m) (integrity_failures m)
    (identity_invalidations m) (identity_resyncs m) (policy_sync_throttled m) (pin_abi_mismatch m)
    (pin_abi_migration m) (m_userspace_drops m) (started_at m).
(** [fetch_add(1)] wraps. *)
Definition record_userspace_drop (m : AgentMetrics) : AgentMetrics :=
  mkAgentMetrics (events_processed m) (events_dropped m) (uptime_seconds m) (integrity_failures m)
    (identity_invalidations m) (identity_resyncs m) (policy_sync_throttled m) (pin_abi_mismatch m)
    (pin_abi_migration m) (wrapping_add 64 (m_userspace_drops m) 1) (started_at m).
Definition userspace_drops (m : AgentMetrics) : Z := m_userspace_drops m.
Definition inc_dropped_by (delta : Z) (m : AgentMetrics) : AgentMetrics :=
  if bool_decide (0 < delta) then
    mkAgentMetrics (events_processed m) (events_dropped m + delta) (uptime_seconds m) (integrity_failures m)
      (identity_invalidations m) (identity_resyncs m) (policy_sync_throttled m) (pin_abi_mismatch m)
      (pin_abi_migration m) (m_userspace_drops m) (started_at m)
  else m.
Definition saturating_sub (x y : Z) : Z := Z.max 0 (x - y).
(** The new value of [*last_seen] and the counters. *)
Definition reconcile_userspace_drops (last_seen : Z) (m : AgentMetrics) : Z * AgentMetrics :=
  let current := userspace_drops m in
  let delta := saturating_sub current last_seen in
  (current, inc_dropped_by delta m).
Definition refresh_uptime (now : Z) (m : AgentMetrics) : AgentMetrics :=
  mkAgentMetrics (events_processed m) (events_dropped m) (Z.max 0 (now - started_at m)) (integrity_failures m)
    (identity_invalidations m) (identity_resyncs m) (policy_sync_throttled m) (pin_abi_mismatch m)
    (pin_abi_migration m) (m_userspace_drops m) (started_at m).
Definition processed_total (m : AgentMetrics) : Z := events_processed m.
Definition dropped_total (m : AgentMetrics) : Z := events_dropped m.

Definition record_integrity_failure (reason : bytes) (m : AgentMetrics) : AgentMetrics :=
  mkAgentMetrics (events_processed m) (events_dropped m) (uptime_seconds m) (vec_inc reason (integrity_failures m))
    (identity_invalidations m) (identity_resyncs m) (policy_sync_throttled m) (pin_abi_mismatch m)
    (pin_abi_migration m) (m_userspace_drops m) (started_at m).
Definition integrity_failure_total (reason : bytes) (m : AgentMetrics) : Z := vec_get reason (integrity_failures m).
Definition record_identity_invalidation (reason : bytes) (m : AgentMetrics) : AgentMetrics :=
  mkAgentMetrics (events_processed m) (events_dropped m) (uptime_seconds m) (integrity_failures m)
    (vec_inc reason (identity_invalidations m)) (identity_resyncs m) (policy_sync_throttled m) (pin_abi_mismatch m)
    (pin_abi_migration m) (m_userspace_drops m) (started_at m).
Definition identity_invalidation_total (reason : bytes) (m : AgentMetrics) : Z := vec_get reason (identity_invalidations m).
Definition record_identity_resync (reason : bytes) (m : AgentMetrics) : AgentMetrics :=
  mkAgentMetrics (events_processed m) (events_dropped m) (uptime_seconds m) (integrity_failures m)
    (identity_invalidations m) (vec_inc reason (identity_resyncs m)) (policy_sync_throttled m) (pin_abi_mismatch m)
    (pin_abi_migration m) (m_userspace_drops m) (started_at m).
Definition identity_resync_total (reason : bytes) (m : AgentMetrics) : Z := vec_get reason (identity_resyncs m).
Definition record_policy_sync_throttled (m : AgentMetrics) : AgentMetrics :=
  mkAgentMetrics (events_processed m) (events_dropped m) (uptime_seconds m) (integrity_failures m)
    (identity_invalidations m) (identity_resyncs m) (policy_sync_throttled m + 1) (pin_abi_mismatch m)
    (pin_abi_migration m) (m_userspace_drops m) (started_at m).
Definition policy_sync_throttled_total (m : AgentMetrics) : Z := policy_sync_throttled m.
Definition record_pin_abi_mismatch (map : bytes) (m : AgentMetrics) : AgentMetrics :=
  mkAgentMetrics (events_processed m) (events_dropped m) (uptime_seconds m) (integrity_failures m)
    (identity_invalidations m) (identity_resyncs m) (policy_sync_throttled m) (vec_inc map (pin_abi_mismatch m))
    (pin_abi_migration m) (m_userspace_drops m) (started_at m).
Definition record_pin_abi_migration (result : bytes) (m : AgentMetrics) : AgentMetrics :=
  mkAgentMetrics (events_processed m) (events_dropped m) (uptime_seconds m) (integrity_failures m)
    (identity_invalidations m) (identity_resyncs m) (policy_sync_throttled m) (pin_abi_mismatch m)
    (vec_inc result (pin_abi_migration m)) (m_userspace_drops m) (started_at m).

(** ** [health.rs] *)
Definition DEFAULT_HEALTH_INTERVAL_SECS : Z := 5.

(** The per-CPU values of the map, summed as [u64]. *)
Definition sum_rate_limit_drops (values : result (list Z)) : result Z :=
  vs ← with_context "failed to read RLIMIT_DROPS per-CPU values" values;
  Ok (foldl (wrapping_add 64) 0 vs).

Definition health_interval_secs (var : option bytes) : Z :=
  default DEFAULT_HEALTH_INTERVAL_SECS (v ← var; parse_u64 v).
(** [tokio::time::interval] panics on a zero period: the task ends there. *)
Definition monitor_starts (var : option bytes) : bool := bool_decide (health_interval_secs var ≠ 0).

(** The locals of the task and the shared counters. *)
Record health : Type := mkHealth {
  last_kernel_drops : Z;
  last_userspace_drops : Z;
  h_metrics : AgentMetrics
}.

Definition health_tick (sample : result (list Z)) (now : Z) (h : health) : health :=
  let '(lk, m) :=
    match sum_rate_limit_drops sample with
    | Ok kernel_total =>
        let kernel_delta := saturating_sub kernel_total (last_kernel_drops h) in
        (kernel_total, inc_dropped_by kernel_delta (h_metrics h))
    | Err _ => (last_kernel_drops h, h_metrics h)
    end in
  let '(lu, m) := reconcile_userspace_drops (last_userspace_drops h) m in
  mkHealth lk lu (refresh_uptime now m).

(** The monitor beside the tasks that count events. *)
Inductive health_event : Type :=
| HProcessed
| HUserspaceDrop
| HTick (sample : result (list Z)) (now : Z).

Definition health_step (h : health) (ev : health_event) : health :=
  match ev with
  | HProcessed => mkHealth (last_kernel_drops h) (last_userspace_drops h) (record_event_processed (h_metrics h))
  | HUserspaceDrop => mkHealth (last_kernel_drops h) (last_userspace_drops h) (record_userspace_drop (h_metrics h))
  | HTick sample now => health_tick sample now h
  end.
Definition health_start (now : Z) : health := mkHealth 0 0 (metrics_new now).

(** ** Lemmas *)
Lemma inc_dropped_by_spec d m : 0 ≤ d →
  events_dropped (inc_dropped_by d m) = events_dropped m + d ∧
  m_userspace_drops (inc_dropped_by d m) = m_userspace_drops m ∧
  events_processed (inc_dropped_by d m) = events_processed m.
Proof. intros. unfold inc_dropped_by. case_bool_decide; cbn; split_and!; lia. Qed.

Lemma vec_get_inc l l' v : vec_get l (vec_inc l' v) = vec_get l v + (if bool_decide (l = l') then 1 else 0).
Proof.
  unfold vec_get, vec_inc. case_bool_decide as H.
  - subst. by rewrite lookup_insert_eq.
  - rewrite lookup_insert_ne by done. lia.
Qed.

(** What has been counted so far: the drops of both sides, up to the last sample. *)
Definition accounted (h : health) : Prop :=
  events_dropped (h_metrics h) = last_kernel_drops h + last_userspace_drops h ∧
  0 ≤ last_kernel_drops h ∧ 0 ≤ last_userspace_drops h ≤ m_userspace_drops (h_metrics h).

(** The kernel's total, where the sample could be read. *)
Definition sample_total (s : result (list Z)) : option Z :=
  match sum_rate_limit_drops s with Ok t => Some t | Err _ => None end.

(** The kernel counters never go back, from the last total on. *)
Fixpoint kernel_monotone (last : Z) (evs : list health_event) : Prop :=
  match evs with
  | [] => True
  | HTick s _ :: evs =>
      match sample_total s with
      | Some t => last ≤ t ∧ kernel_monotone t evs
      | None => kernel_monotone last evs
      end
  | _ :: evs => kernel_monotone last evs
  end.

Fixpoint drop_events (evs : list health_event) : Z :=
  match evs with
  | [] => 0
  | HUserspaceDrop :: evs => 1 + drop_events evs
  | _ :: evs => drop_events evs
  end.

Lemma drop_events_nonneg evs : 0 ≤ drop_events evs.
Proof. induction evs as [|[] evs IH]; cbn; lia. Qed.
Lemma drop_events_app evs evs' : drop_events (evs ++ evs') = drop_events evs + drop_events evs'.
Proof. induction evs as [|[] evs IH]; cbn; lia. Qed.

Lemma sample_total_nonneg s t : sample_total s = Some t → 0 ≤ t.
Proof.
  unfold sample_total, sum_rate_limit_drops. destruct s as [vs|e]; cbn; [|done]. intros [= <-].
  assert (∀ a, 0 ≤ a → 0 ≤ foldl (wrapping_add 64) a vs) as H; [|by apply H].
  induction vs as [|v vs IH]; intros a Ha; cbn; [done|]. apply IH. apply (wrapping_add_range 64). lia.
Qed.

(** One tick keeps the account, and settles it with the totals of the moment. *)
Lemma health_tick_spec s now h : accounted h →
  (∀ t, sample_total s = Some t → last_kernel_drops h ≤ t) →
  let h' := health_tick s now h in
  accounted h' ∧ last_kernel_drops h' = default (last_kernel_drops h) (sample_total s) ∧
  last_userspace_drops h' = m_userspace_drops (h_metrics h) ∧
  m_userspace_drops (h_metrics h') = m_userspace_drops (h_metrics h).
Proof.
  intros (Hd & Hk & Hu) Hm. unfold health_tick, reconcile_userspace_drops, userspace_drops, saturating_sub.
  unfold sample_total in Hm. unfold sample_total. destruct (sum_rate_limit_drops s) as [t|e]; cbn.
  - specialize (Hm t eq_refl). set (d := Z.max 0 (t - last_kernel_drops h)).
    destruct (inc_dropped_by_spec d (h_metrics h)) as (E1 & E2 & _); [lia|].
    set (d' := Z.max 0 (m_userspace_drops (inc_dropped_by d (h_metrics h)) - last_userspace_drops h)).
    destruct (inc_dropped_by_spec d' (inc_dropped_by d (h_metrics h))) as (E3 & E4 & _); [lia|].
    unfold accounted. cbn. split_and!; lia.
  - set (d' := Z.max 0 (m_userspace_drops (h_metrics h) - last_userspace_drops h)).
    destruct (inc_dropped_by_spec d' (h_metrics h)) as (E3 & E4 & _); [lia|].
    unfold accounted. cbn. split_and!; lia.
Qed.

Lemma health_drop_spec h : accounted h → m_userspace_drops (h_metrics h) + 1 < 2 ^ 64 →
  let h' := health_step h HUserspaceDrop in
  accounted h' ∧ m_userspace_drops (h_metrics h') = m_userspace_drops (h_metrics h) + 1.
Proof.
  intros (Hd & Hk & Hu) Hw. unfold accounted. cbn. unfold wrapping_add.
  rewrite Z.mod_small by lia. split_and!; try lia; done.
Qed.

(** The account along a run, and what its continuation may rely on. *)
Lemma health_run evs evs' h :
  accounted h → kernel_monotone (last_kernel_drops h) (evs ++ evs') →
  m_userspace_drops (h_metrics h) + drop_events evs < 2 ^ 64 →
  let h' := foldl health_step h evs in
  accounted h' ∧ kernel_monotone (last_kernel_drops h') evs' ∧
  m_userspace_drops (h_metrics h') = m_userspace_drops (h_metrics h) + drop_events evs.
Proof.
  revert h. induction evs as [|ev evs IH]; intros h Ha Hm Hw; cbn [foldl drop_events app] in *.
  { split_and!; [done..|lia]. }
  pose proof (drop_events_nonneg evs) as Hn. destruct ev as [| |s now]; cbn in Hm.
  - by apply (IH (health_step h HProcessed)).
  - destruct (health_drop_spec h Ha ltac:(lia)) as [H1 H2].
    destruct (IH (health_step h HUserspaceDrop) H1 Hm) as (H3 & H4 & H5); [rewrite H2; lia|].
    split_and!; [exact H3|exact H4|]. rewrite H5, H2. lia.
  - destruct (health_tick_spec s now h Ha) as (H1 & H2 & _ & H4).
    { intros t Ht. rewrite Ht in Hm. by destruct Hm. }
    destruct (IH (health_step h (HTick s now))) as (H5 & H6 & H7); [done| | |].
    + cbn [health_step]. rewrite H2. destruct (sample_total s); cbn; [by destruct Hm|done].
    + cbn [health_step]. by rewrite H4.
    + split_and!; [exact H5|exact H6|]. rewrite H7. cbn [health_step]. by rewrite H4.
Qed.

(** Dropped events are counted once. Whatever the interleaving of processed events,
    user-space drops and health ticks, and whichever samples fail, as long as the kernel's
    counters do not go back, after a tick that read them the exported total of dropped
    events is the kernel's total plus the number of user-space drops. *)
Theorem drops_counted_once start evs s now t :
  kernel_monotone 0 (evs ++ [HTick s now]) → drop_events evs < 2 ^ 64 → sample_total s = Some t →
  dropped_total (h_metrics (foldl health_step (health_start start) (evs ++ [HTick s now]))) = t + drop_events evs.
Proof.
  intros Hm Hw Ht. assert (accounted (health_start start)) as Ha by (by split_and!).
  destruct (health_run evs [HTick s now] (health_start start) Ha Hm) as (H1 & Hk & H2); [cbn; lia|].
  cbn in Hk. rewrite Ht in Hk. destruct Hk as [Hk _].
  rewrite foldl_app. set (h := foldl health_step (health_start start) evs) in *. cbn [foldl health_step].
  destruct (health_tick_spec s now h H1) as ((E & _) & H3 & H4 & _).
  { intros t'. rewrite Ht. intros [= <-]. done. }
  unfold dropped_total. rewrite E, H3, H4, H2, Ht. done.
Qed.

Lemma drops_counted_once_witness :
  dropped_total (h_metrics (foldl health_step (health_start 0)
    ([HUserspaceDrop; HTick (Ok [3; 4]) 5; HUserspaceDrop; HTick (Err (EMsg "read")) 10; HProcessed] ++
     [HTick (Ok [5; 9]) 15]))) = 14 + 2.
Proof. apply drops_counted_once; [by vm_compute|by vm_compute|by vm_compute]. Defined.

(** An interval of zero ends the monitor before its first sample; nothing clamps it. *)
Theorem zero_health_interval_panics : monitor_starts (Some (lit "0")) = false ∧ monitor_starts None = true.
Proof. by vm_compute. Qed.
