(* ===== verification/Integrity.v ===== *)
(** * Runtime integrity and the health endpoint ([integrity.rs], [healthz.rs], [prometheus.rs])

    The periodic checks after start-up and the verdict the kubelet polls. What a check
    sees of the node is a [node_view]: files by path, which pins are there, and what
    opening the pinned link reports. The text of a failure is shortened to its fixed
    part; its label is kept. *)

From S2P Require Import Prelude RustStd Common Bpf PathDeny Attestation PolicySync LsmHook PinAbi LsmPin Metrics.

Definition DEFAULT_INTERVAL_SECS : Z := 45.
Definition MIN_INTERVAL_SECS : Z := 30.
Definition MAX_INTERVAL_SECS : Z := 60.

Definition REASON_EXE_DIGEST : bytes := lit "exe_digest".
Definition REASON_ON_DISK_BINARY : bytes := lit "on_disk_binary".
Definition REASON_LSM_LINK : bytes := lit "lsm_link".
Definition REASON_PINNED_MAP : bytes := lit "pinned_map".

Record IntegrityFailure : Type := mkIntegrityFailure { if_reason : bytes; if_detail : string }.

(** [Result<(), IntegrityFailure>]: [None] is [Ok]. *)
Abbreviation check := (option IntegrityFailure).

Record IntegrityConfig : Type := mkIntegrityConfig {
  ic_interval : Z;
  ic_exit_on_failure : bool;
  ic_exe_path : bytes;
  ic_on_disk_path : bytes;
  ic_expected_exe_digest : bytes;
  ic_pin_paths : EnforcementPinPaths
}.

Record node_view : Type := mkNodeView {
  nv_read : bytes → result bytes;
  nv_is_file : bytes → bool;
  nv_open_link : bytes → result (result Z)
}.

(** ** Configuration *)

Definition interval_from_env (var : option bytes) : Z :=
  let s := default DEFAULT_INTERVAL_SECS (v ← var; parse_u64 v) in
  secs (Z.min (Z.max s MIN_INTERVAL_SECS) MAX_INTERVAL_SECS).

Definition exit_on_failure_from_env (var : option bytes) : bool :=
  match var with
  | Some v =>
      let v := to_ascii_lowercase (trim v) in
      negb (bool_decide (v = lit "0") || bool_decide (v = lit "false") || bool_decide (v = lit "no")
            || bool_decide (v = lit "off"))
  | None => true
  end.

Definition strip_linux_deleted_suffix (path : bytes) : bytes :=
  default path (strip_suffix (from_utf8_lossy path) (lit " (deleted)")).

(** [readlink] is what [/proc/self/exe] points to. *)
Definition resolve_on_disk_path (var : option bytes) (readlink : result bytes) : result bytes :=
  let from_link :=
    link ← with_context "failed to readlink /proc/self/exe" readlink;
    Ok (strip_linux_deleted_suffix link) in
  match var with
  | Some v =>
      if is_empty (trim v) then from_link
      else if negb (is_absolute (trim v)) then Err (EMsg "NEUROMESH_AGENT_ON_DISK_PATH must be an absolute path")
      else Ok (trim v)
  | None => from_link
  end.

Definition is_ascii_hexdigit (b : Z) : bool :=
  bool_decide (48 ≤ b ≤ 57) || bool_decide (65 ≤ b ≤ 70) || bool_decide (97 ≤ b ≤ 102).

Definition validate_digest_format (digest : bytes) : result unit :=
  if negb (starts_with digest (lit "sha256:")) || negb (bool_decide (length digest = (7 + 64)%nat))
  then Err (EMsg "digest must be sha256:<64 lowercase hex>")
  else if negb (forallb is_ascii_hexdigit (drop 7 digest)) then Err (EMsg "digest hex is not hexadecimal")
  else Ok ().

Section integrity.
Context `{Cosign}.

Definition hash_file (v : node_view) (path : bytes) : result bytes :=
  bs ← with_context "failed to read" (nv_read v path);
  Ok (sha256_digest bs).

Definition integrity_config_from_env (interval exit on_disk digest : option bytes) (v : node_view) (readlink : result bytes)
    (root exe_path : bytes) : result IntegrityConfig :=
  on_disk_path ← with_context "resolve on-disk install path" (resolve_on_disk_path on_disk readlink);
  let baseline := with_context "failed to capture baseline digest" (hash_file v exe_path) in
  expected ← (match digest with
              | Some d =>
                  if is_empty (trim d) then baseline
                  else _ ← with_context "NEUROMESH_AGENT_EXE_DIGEST" (validate_digest_format (trim d)); Ok (trim d)
              | None => baseline
              end);
  Ok (mkIntegrityConfig (interval_from_env interval) (exit_on_failure_from_env exit) exe_path on_disk_path
        expected (enforcement_pin_paths root)).

(** ** Checks *)

Definition check_exe_digest (v : node_view) (exe_path expected : bytes) : check :=
  match hash_file v exe_path with
  | Err _ => Some (mkIntegrityFailure REASON_EXE_DIGEST "failed to hash")
  | Ok actual =>
      if bool_decide (actual ≠ expected) then Some (mkIntegrityFailure REASON_EXE_DIGEST "exe digest mismatch")
      else None
  end.

Definition check_on_disk_binary (v : node_view) (on_disk_path expected : bytes) : check :=
  match hash_file v on_disk_path with
  | Err _ => Some (mkIntegrityFailure REASON_ON_DISK_BINARY "failed to hash on-disk install path")
  | Ok actual =>
      if bool_decide (actual ≠ expected)
      then Some (mkIntegrityFailure REASON_ON_DISK_BINARY "on-disk binary digest mismatch")
      else None
  end.

Definition check_lsm_link_pin (v : node_view) (link_path : bytes) : check :=
  if negb (nv_is_file v link_path) then Some (mkIntegrityFailure REASON_LSM_LINK "LSM link pin missing")
  else match nv_open_link v link_path with
       | Err _ => Some (mkIntegrityFailure REASON_LSM_LINK "failed to open LSM link pin")
       | Ok (Err _) => Some (mkIntegrityFailure REASON_LSM_LINK "FdLink::info failed")
       | Ok (Ok program_id) =>
           if bool_decide (program_id = 0)
           then Some (mkIntegrityFailure REASON_LSM_LINK "pinned LSM link reports program_id=0") else None
       end.

Definition check_pinned_deny_maps (v : node_view) (paths : EnforcementPinPaths) : check :=
  if negb (nv_is_file v (ep_list paths)) then Some (mkIntegrityFailure REASON_PINNED_MAP "pinned map PATH_DENY_LIST missing")
  else if negb (nv_is_file v (ep_count paths)) then Some (mkIntegrityFailure REASON_PINNED_MAP "pinned map PATH_DENY_COUNT missing")
  else None.

Definition run_integrity_checks (v : node_view) (cfg : IntegrityConfig) : list IntegrityFailure :=
  option_list (check_exe_digest v (ic_exe_path cfg) (ic_expected_exe_digest cfg)) ++
  option_list (check_on_disk_binary v (ic_on_disk_path cfg) (ic_expected_exe_digest cfg)) ++
  option_list (check_lsm_link_pin v (ep_link (ic_pin_paths cfg))) ++
  option_list (check_pinned_deny_maps v (ic_pin_paths cfg)).

Definition handle_integrity_failures (exit_on_failure : bool) (failures : list IntegrityFailure) (m : AgentMetrics)
    : AgentMetrics * bool :=
  if bool_decide (failures = []) then (m, false)
  else (foldl (λ m f, record_integrity_failure (if_reason f) m) m failures, exit_on_failure).

(** One tick of the monitor: [Some 78] is [std::process::exit(78)]. *)
Definition integrity_tick (v : node_view) (cfg : IntegrityConfig) (m : AgentMetrics) : AgentMetrics * option Z :=
  let failures := run_integrity_checks v cfg in
  let '(m, exit) := handle_integrity_failures (ic_exit_on_failure cfg) failures m in
  (m, if exit then Some 78 else None).

(** The loop: it ends at the first tick that exits. *)
Fixpoint integrity_monitor (views : list node_view) (cfg : IntegrityConfig) (m : AgentMetrics) : AgentMetrics * option Z :=
  match views with
  | [] => (m, None)
  | v :: views =>
      match integrity_tick v cfg m with
      | (m, Some code) => (m, Some code)
      | (m, None) => integrity_monitor views cfg m
      end
  end.

(** ** [healthz.rs] *)

Record HealthReport : Type := mkHealthReport {
  hr_live : bool;
  hr_lsm_link_pin_ok : bool;
  hr_deny_map_pins_ok : bool;
  hr_enforcement_failures : list IntegrityFailure;
  hr_policy_sync_stale : bool;
  hr_policy_sync_version : bytes
}.

Record EnforcementHealth : Type := mkEnforcementHealth {
  eh_ok : bool; eh_lsm_link_pin_ok : bool; eh_deny_map_pins_ok : bool; eh_failures : list IntegrityFailure
}.

Definition evaluate_enforcement (v : node_view) (paths : EnforcementPinPaths) : EnforcementHealth :=
  let link := check_lsm_link_pin v (ep_link paths) in
  let maps := check_pinned_deny_maps v paths in
  let failures := option_list link ++ option_list maps in
  mkEnforcementHealth (bool_decide (failures = [])) (bool_decide (link = None)) (bool_decide (maps = None)) failures.

(** [None] is a contended lock. *)
Definition evaluate_policy_sync (state : option PolicySyncState) : bool * bytes :=
  match state with
  | Some s => (ps_stale s, ps_last_version s)
  | None => (true, lit "unknown")
  end.

Definition evaluate (v : node_view) (paths : EnforcementPinPaths) (state : option PolicySyncState) : HealthReport :=
  let e := evaluate_enforcement v paths in
  let p := evaluate_policy_sync state in
  mkHealthReport (eh_ok e) (eh_lsm_link_pin_ok e) (eh_deny_map_pins_ok e) (eh_failures e) p.1 p.2.

(** The body before serialisation. *)
Record HealthBody : Type := mkHealthBody {
  hb_status : bytes; hb_service : bytes; hb_lsm_link_pin : bytes; hb_deny_map_pins : bytes;
  hb_stale : bool; hb_last_version : bytes; hb_affects_liveness : bool; hb_failures : list IntegrityFailure
}.
Definition to_json (r : HealthReport) : HealthBody :=
  mkHealthBody (if hr_live r then lit "ok" else lit "unhealthy") (lit "agent-ebpf-sensor")
    (if hr_lsm_link_pin_ok r then lit "ok" else lit "failed") (if hr_deny_map_pins_ok r then lit "ok" else lit "failed")
    (hr_policy_sync_stale r) (hr_policy_sync_version r) false (hr_enforcement_failures r).

(** [prometheus.rs]: the status and the body. *)
Definition healthz_handler (v : node_view) (paths : EnforcementPinPaths) (state : option PolicySyncState) : Z * HealthBody :=
  let report := evaluate v paths state in
  (if hr_live report then 200 else 503, to_json report).
Definition metrics_port (var : option bytes) : Z := default 9090 (v ← var; parse_uint u16_max v).
End integrity.

(** ** What the checks establish *)
Section verdicts.
Context `{Cosign} (v : node_view) (cfg : IntegrityConfig).

Definition digest_matches (path : bytes) : Prop :=
  ∃ bs, nv_read v path = Ok bs ∧ sha256_digest bs = ic_expected_exe_digest cfg.
(** The pin is there and its link is that of a loaded program. *)
Definition link_intact (paths : EnforcementPinPaths) : Prop :=
  nv_is_file v (ep_link paths) = true ∧ ∃ id, nv_open_link v (ep_link paths) = Ok (Ok id) ∧ id ≠ 0.
Definition maps_intact (paths : EnforcementPinPaths) : Prop :=
  nv_is_file v (ep_list paths) = true ∧ nv_is_file v (ep_count paths) = true.

Lemma check_exe_digest_spec :
  match check_exe_digest v (ic_exe_path cfg) (ic_expected_exe_digest cfg) with
  | None => digest_matches (ic_exe_path cfg)
  | Some f => if_reason f = REASON_EXE_DIGEST ∧ ¬ digest_matches (ic_exe_path cfg)
  end.
Proof.
  unfold check_exe_digest, hash_file, digest_matches. destruct (nv_read v (ic_exe_path cfg)); cbn; [|naive_solver].
  case_bool_decide; cbn; naive_solver.
Qed.
Lemma check_on_disk_spec :
  match check_on_disk_binary v (ic_on_disk_path cfg) (ic_expected_exe_digest cfg) with
  | None => digest_matches (ic_on_disk_path cfg)
  | Some f => if_reason f = REASON_ON_DISK_BINARY ∧ ¬ digest_matches (ic_on_disk_path cfg)
  end.
Proof.
  unfold check_on_disk_binary, hash_file, digest_matches. destruct (nv_read v (ic_on_disk_path cfg)); cbn; [|naive_solver].
  case_bool_decide; cbn; naive_solver.
Qed.
Lemma check_link_spec paths :
  match check_lsm_link_pin v (ep_link paths) with
  | None => link_intact paths
  | Some f => if_reason f = REASON_LSM_LINK ∧ ¬ link_intact paths
  end.
Proof.
  unfold check_lsm_link_pin, link_intact. destruct (nv_is_file v (ep_link paths)); cbn; [|naive_solver].
  destruct (nv_open_link v (ep_link paths)) as [[id|]|]; [|naive_solver..]. case_bool_decide; naive_solver.
Qed.
Lemma check_maps_spec paths :
  match check_pinned_deny_maps v paths with
  | None => maps_intact paths
  | Some f => if_reason f = REASON_PINNED_MAP ∧ ¬ maps_intact paths
  end.
Proof.
  unfold check_pinned_deny_maps, maps_intact.
  destruct (nv_is_file v (ep_list paths)), (nv_is_file v (ep_count paths)); naive_solver.
Qed.

Definition labelled_checks : list (bytes * check) :=
  [(REASON_EXE_DIGEST, check_exe_digest v (ic_exe_path cfg) (ic_expected_exe_digest cfg));
   (REASON_ON_DISK_BINARY, check_on_disk_binary v (ic_on_disk_path cfg) (ic_expected_exe_digest cfg));
   (REASON_LSM_LINK, check_lsm_link_pin v (ep_link (ic_pin_paths cfg)));
   (REASON_PINNED_MAP, check_pinned_deny_maps v (ic_pin_paths cfg))].

Lemma labelled_checks_run : run_integrity_checks v cfg = concat (map (λ p, option_list p.2) labelled_checks).
Proof. unfold run_integrity_checks, labelled_checks. cbn [map concat snd]. by rewrite app_nil_r. Qed.
End verdicts.

(** Checks whose failures carry their own label, each label once. *)
Definition well_labelled (l : list (bytes * check)) : Prop :=
  NoDup l.*1 ∧ Forall (λ p, ∀ f, p.2 = Some f → if_reason f = p.1) l.

Definition reasons (l : list (bytes * check)) : list bytes := map if_reason (concat (map (λ p, option_list p.2) l)).

Lemma reasons_cons r c l : (∀ f, c = Some f → if_reason f = r) →
  reasons ((r, c) :: l) = (if bool_decide (c = None) then [] else [r]) ++ reasons l.
Proof.
  intros Hc. unfold reasons. cbn [map concat snd]. rewrite map_app. f_equal. destruct c as [f|]; cbn; [|done].
  by rewrite Hc.
Qed.

Lemma reasons_subset l r : Forall (λ p, ∀ f, p.2 = Some f → if_reason f = p.1) l → r ∈ reasons l → r ∈ l.*1.
Proof.
  induction 1 as [|[r' c] l Hc _ IH]; [done|]. rewrite reasons_cons by done. cbn. case_bool_decide; cbn.
  - intros Hr. by apply list_elem_of_further, IH.
  - intros [->|Hr]%elem_of_cons; [apply list_elem_of_here|by apply list_elem_of_further, IH].
Qed.

Lemma reasons_spec l : well_labelled l →
  NoDup (reasons l) ∧ (∀ r c, (r, c) ∈ l → r ∈ reasons l ↔ c ≠ None) ∧
  (reasons l = [] ↔ Forall (λ p, p.2 = None) l).
Proof.
  intros [Hnd Hl]. induction Hl as [|[r c] l Hc Hl IH].
  { split_and!; [constructor|by intros ? ? ?%not_elem_of_nil|done]. }
  cbn in Hnd. apply NoDup_cons in Hnd as [Hr Hnd]. destruct (IH Hnd) as (H1 & H2 & H3).
  rewrite reasons_cons by done. assert (r ∉ reasons l) as Hr' by (intros ?; by apply Hr, reasons_subset).
  case_bool_decide as E; cbn [app]; split_and!.
  - done.
  - intros r' c' [[= -> ->]|Hin]%elem_of_cons; [naive_solver|by apply H2].
  - rewrite Forall_cons, H3. cbn. naive_solver.
  - by constructor.
  - intros r' c' [[= -> ->]|Hin]%elem_of_cons; rewrite elem_of_cons; [naive_solver|].
    rewrite <- (H2 _ _ Hin). split; [|by right]. intros [->|?]; [|done].
    destruct Hr. apply list_elem_of_fmap. by exists (r, c').
  - rewrite Forall_cons. cbn. naive_solver.
Qed.

Lemma labelled_checks_ok `{Cosign} v cfg : well_labelled (labelled_checks v cfg).
Proof.
  split; [apply (bool_decide_eq_true_1 (NoDup _)); vm_compute; reflexivity|].
  pose proof (check_exe_digest_spec v cfg) as H1. pose proof (check_on_disk_spec v cfg) as H2.
  pose proof (check_link_spec v (ic_pin_paths cfg)) as H3. pose proof (check_maps_spec v (ic_pin_paths cfg)) as H4.
  unfold labelled_checks. rewrite !Forall_cons, Forall_nil. cbn [fst snd].
  split_and!; [..|done]; intros f E; rewrite E in *; naive_solver.
Qed.

Lemma record_failures_total fs m r : NoDup (map if_reason fs) →
  integrity_failure_total r (foldl (λ m f, record_integrity_failure (if_reason f) m) m fs) =
  integrity_failure_total r m + (if bool_decide (r ∈ map if_reason fs) then 1 else 0).
Proof.
  revert m. induction fs as [|f fs IH]; intros m Hnd; cbn [foldl map] in *.
  - rewrite bool_decide_eq_false_2 by (apply not_elem_of_nil). lia.
  - apply NoDup_cons in Hnd as [Hf Hnd]. rewrite IH by done. unfold integrity_failure_total. cbn. rewrite vec_get_inc.
    rewrite (bool_decide_ext (r ∈ if_reason f :: map if_reason fs) (r = if_reason f ∨ r ∈ map if_reason fs))
      by apply elem_of_cons.
    repeat case_bool_decide; subst; try lia; naive_solver.
Qed.

(** The counters and the exit code after a tick. *)
Lemma integrity_tick_run `{Cosign} v cfg m :
  integrity_tick v cfg m =
  (foldl (λ m f, record_integrity_failure (if_reason f) m) m (run_integrity_checks v cfg),
   if bool_decide (run_integrity_checks v cfg = []) then None else if ic_exit_on_failure cfg then Some 78 else None).
Proof.
  unfold integrity_tick, handle_integrity_failures. case_bool_decide as E; [by rewrite E|].
  by destruct (ic_exit_on_failure cfg).
Qed.

(** The verdict on a node: what each label stands for. *)
Definition intact `{Cosign} (v : node_view) (cfg : IntegrityConfig) (r : bytes) : Prop :=
  (r = REASON_EXE_DIGEST → digest_matches v cfg (ic_exe_path cfg)) ∧
  (r = REASON_ON_DISK_BINARY → digest_matches v cfg (ic_on_disk_path cfg)) ∧
  (r = REASON_LSM_LINK → link_intact v (ic_pin_paths cfg)) ∧
  (r = REASON_PINNED_MAP → maps_intact v (ic_pin_paths cfg)).

Lemma labelled_check_intact `{Cosign} v cfg r c : (r, c) ∈ labelled_checks v cfg → c = None ↔ intact v cfg r.
Proof.
  pose proof (check_exe_digest_spec v cfg) as H1. pose proof (check_on_disk_spec v cfg) as H2.
  pose proof (check_link_spec v (ic_pin_paths cfg)) as H3. pose proof (check_maps_spec v (ic_pin_paths cfg)) as H4.
  assert (NoDup (labelled_checks v cfg).*1) as Hnd by apply labelled_checks_ok.
  cbn in Hnd. rewrite !NoDup_cons, !not_elem_of_cons in Hnd.
  destruct Hnd as ((D1 & D2 & D3 & _) & (D4 & D5 & _) & (D6 & _) & _).
  unfold labelled_checks. rewrite !elem_of_cons, elem_of_nil. unfold intact.
  intros [[= -> ->]|[[= -> ->]|[[= -> ->]|[[= -> ->]|[]]]]]; (split; [intros E; rewrite E in *|]).
  - naive_solver.
  - intros (G & _). destruct (check_exe_digest _ _ _); [|done]. naive_solver.
  - naive_solver.
  - intros (_ & G & _). destruct (check_on_disk_binary _ _ _); [|done]. naive_solver.
  - naive_solver.
  - intros (_ & _ & G & _). destruct (check_lsm_link_pin _ _); [|done]. naive_solver.
  - naive_solver.
  - intros (_ & _ & _ & G). destruct (check_pinned_deny_maps _ _); [|done]. naive_solver.
Qed.

Definition REASONS : list bytes := [REASON_EXE_DIGEST; REASON_ON_DISK_BINARY; REASON_LSM_LINK; REASON_PINNED_MAP].

(** One integrity tick is exact. For each of the four labels, the counter goes up by
    one if the node is not intact in that respect, and stays otherwise: the running image
    and the file at the install path have the expected digest, the pinned link is there
    and names a program, both deny-map pins are there. No failure hides another. The
    process exits, with status 78, exactly when some respect is violated and exiting is
    configured. *)
Theorem integrity_tick_exact `{Cosign} v cfg m :
  let '(m', code) := integrity_tick v cfg m in
  (∀ r, r ∈ REASONS →
     (intact v cfg r → integrity_failure_total r m' = integrity_failure_total r m) ∧
     (¬ intact v cfg r → integrity_failure_total r m' = integrity_failure_total r m + 1)) ∧
  ((∀ r, r ∈ REASONS → intact v cfg r) → code = None) ∧
  (¬ (∀ r, r ∈ REASONS → intact v cfg r) → code = if ic_exit_on_failure cfg then Some 78 else None).
Proof.
  rewrite integrity_tick_run. pose proof (reasons_spec _ (labelled_checks_ok v cfg)) as (Hnd & Hin & Hnil).
  assert (map if_reason (run_integrity_checks v cfg) = reasons (labelled_checks v cfg)) as Hr
    by (by rewrite labelled_checks_run).
  assert (∀ r, r ∈ REASONS → ∃ c, (r, c) ∈ labelled_checks v cfg) as Hlab.
  { change REASONS with ((labelled_checks v cfg).*1). intros r ([r' c] & -> & Hp)%list_elem_of_fmap. by exists c. }
  assert (run_integrity_checks v cfg = [] ↔ ∀ r, r ∈ REASONS → intact v cfg r) as Hall.
  { transitivity (reasons (labelled_checks v cfg) = []); [rewrite <- Hr; by destruct (run_integrity_checks v cfg)|].
    rewrite Hnil, Forall_forall. split.
    - intros Hc r (c & Hp)%Hlab. apply (labelled_check_intact v cfg r c Hp). by apply (Hc (r, c)).
    - intros Hi [r c] Hp. apply (labelled_check_intact v cfg r c Hp), Hi.
      change REASONS with ((labelled_checks v cfg).*1). apply list_elem_of_fmap. by exists (r, c). }
  split_and!.
  - intros r (c & Hp)%Hlab. rewrite record_failures_total by (by rewrite Hr). rewrite Hr, <- (labelled_check_intact v cfg r c Hp).
    case_bool_decide as E; rewrite (Hin r c Hp) in E; split; intros; try done; try lia.
  - intros Hi. by rewrite bool_decide_eq_true_2 by (by apply Hall).
  - intros Hi. by rewrite bool_decide_eq_false_2 by (by rewrite Hall).
Qed.

(** The health endpoint answers for enforcement alone. It returns 200 exactly when the
    pinned link is intact and both deny-map pins are there, whatever the state of policy
    synchronisation and whether its lock is free; the body reports each check and never
    claims that staleness affects liveness. *)
Theorem healthz_exact `{Cosign} v paths state :
  let '(status, body) := healthz_handler v paths state in
  (status = 200 ∨ status = 503) ∧
  (status = 200 ↔ link_intact v paths ∧ maps_intact v paths) ∧
  (hb_lsm_link_pin body = lit "ok" ↔ link_intact v paths) ∧
  (hb_deny_map_pins body = lit "ok" ↔ maps_intact v paths) ∧
  hb_affects_liveness body = false ∧
  (hb_stale body = false → ∃ s, state = Some s ∧ ps_stale s = false).
Proof.
  assert (lit "failed" ≠ lit "ok") as Hne by (apply (bool_decide_eq_false_1 (_ = _)); vm_compute; reflexivity).
  pose proof (check_link_spec v paths) as H1. pose proof (check_maps_spec v paths) as H2.
  unfold healthz_handler, evaluate, evaluate_enforcement, to_json.
  cbn [hr_live hr_lsm_link_pin_ok hr_deny_map_pins_ok eh_ok eh_lsm_link_pin_ok eh_deny_map_pins_ok
       hb_lsm_link_pin hb_deny_map_pins hb_affects_liveness hb_stale hr_policy_sync_stale].
  destruct (check_lsm_link_pin v (ep_link paths)) as [f|], (check_pinned_deny_maps v paths) as [g|]; cbn;
    (split_and!; [auto|naive_solver..|destruct state; cbn; naive_solver]).
Qed.

(** A node the endpoint calls unhealthy fails the next integrity tick as well. *)
Theorem unhealthy_fails_tick `{Cosign} v cfg m state :
  (healthz_handler v (ic_pin_paths cfg) state).1 = 503 → ic_exit_on_failure cfg = true →
  (integrity_tick v cfg m).2 = Some 78.
Proof.
  intros Hs He. rewrite integrity_tick_run, He. rewrite bool_decide_eq_false_2; [done|]. intros E.
  unfold run_integrity_checks in E. apply app_eq_nil in E as [_ E]. apply app_eq_nil in E as [_ E].
  unfold healthz_handler, evaluate, evaluate_enforcement in Hs. cbn in Hs. by rewrite E in Hs.
Qed.

(** The monitor's period is bounded. Whatever the variable holds (nothing, text that
    is no number, zero, or a number up to the largest [u64]), the interval lies between 30
    and 60 seconds, and a number in that range is taken as it is. *)
Theorem integrity_interval_bounded var :
  secs 30 ≤ interval_from_env var ≤ secs 60 ∧
  (∀ v n, var = Some v → parse_u64 v = Some n → 30 ≤ n ≤ 60 → interval_from_env var = secs n).
Proof.
  unfold interval_from_env, secs, MIN_INTERVAL_SECS, MAX_INTERVAL_SECS. split; [lia|].
  intros v n -> Hp Hn. cbn. rewrite Hp. cbn. lia.
Qed.

(** The digests the monitor computes are lower case. *)
Lemma hex_encode_lower bs : Forall is_byte bs → Forall (λ c, 48 ≤ c ≤ 57 ∨ 97 ≤ c ≤ 102) (hex_encode bs).
Proof.
  unfold is_byte, hex_encode. induction 1 as [|b bs Hb _ IH]; cbn; [constructor|].
  assert (∀ d, 0 ≤ d < 16 → 48 ≤ hex_digit_lower d ≤ 57 ∨ 97 ≤ hex_digit_lower d ≤ 102) as Hd.
  { intros d ?. unfold hex_digit_lower. case_bool_decide; lia. }
  constructor; [|constructor; [|done]].
  - apply Hd. rewrite Z.shiftr_div_pow2 by lia. split; [apply Z.div_pos; lia|apply Z.div_lt_upper_bound; lia].
  - apply Hd. change 15 with (Z.ones 4). rewrite Z.land_ones by lia. apply Z.mod_pos_bound. lia.
Qed.

(** A configured digest with an upper-case digit passes validation and matches no file:
    every tick fails both digest checks. *)
Theorem uppercase_digest_never_matches `{Cosign} d :
  (∀ b, Forall is_byte (sha256 b)) → (∃ c, c ∈ drop 7 d ∧ 65 ≤ c ≤ 70) →
  ∀ v path, check_exe_digest v path d ≠ None ∧ check_on_disk_binary v path d ≠ None.
Proof.
  intros Hsha (c & Hc & Hr) v path.
  assert (∀ bs, sha256_digest bs ≠ d) as Hne.
  { intros bs <-. unfold sha256_digest in Hc. change (lit "sha256:") with (lit "sha256:" ++ []) in Hc.
    assert (drop 7 (lit "sha256:" ++ hex_encode (sha256 bs)) = hex_encode (sha256 bs)) as E
      by (apply (drop_app_length (lit "sha256:"))).
    rewrite app_nil_r, E in Hc. pose proof (hex_encode_lower _ (Hsha bs)) as Hl. rewrite Forall_forall in Hl.
    apply Hl in Hc. lia. }
  unfold check_exe_digest, check_on_disk_binary, hash_file. destruct (nv_read v path) as [bs|e]; cbn; [|done].
  by rewrite bool_decide_eq_true_2 by apply Hne.
Qed.

Example uppercase_digest_validates :
  validate_digest_format (lit "sha256:" ++ replicate 64 65) = Ok ().
Proof. by vm_compute. Qed.
