(* ===== verification/System.v ===== *)
(** * The node as a whole

    The parts that decide whether an execution is allowed, put together: the
    policy loop ([policy_sync.rs]) and the correlator ([identity_correlator/])
    write the BPF maps, the LSM program ([ebpf/src/main.rs]) reads them. A run is a
    sequence of events in any order the tasks' own program order and the map lock
    permit: the policy task goes through its turn one map update at a time
    ([PolicySteps]), the correlator's loop, the policy task's follow-up and start-up
    through their lock sections ([CorrelatorSteps]), and executions come between any
    two of these.

    The specification is the policy in force, a value computed from the answers of
    the policy engine and the clock alone; it knows no BPF map, no side table and
    no task. During a turn it goes through the phases of that turn: the expiry gate,
    the new flag, the new identities, and one phase per slot of a list that is being
    rewritten. The map updates that are in range are taken to succeed.

    Shown: at every moment of every run the verdict of the LSM program is that of the
    policy in force; an execution of a denied path is allowed only for a cgroup of a
    pod whose identity a policy in force named when the pod was looked at; and how
    long past its expiry an exception can last, from the pace of the loop. *)

From stdpp Require Import functions.
From S2P Require Import Prelude RustStd Common Bpf PathDeny LsmHook DenyRefine IdentityAllow Attestation SideTable CgroupPath PodWatch Correlator CorrelatorSteps PolicySync PolicySteps.

(** ** The node *)

(** [nd_turn] is what the policy task has left of the locked part of its turn,
    [nd_work] what the tasks have left of their handlers. *)
Record node (ML MC MH MV R : Type) : Type := mkNode {
  nd_sync : sync_state ML MC MH MV;
  nd_turn : option turn;
  nd_work : worklists;
  nd_stats : list TelemetryHealthStats;
  nd_ring : R
}.
Arguments mkNode {ML MC MH MV R}.
Arguments nd_sync {ML MC MH MV R}.
Arguments nd_turn {ML MC MH MV R}.
Arguments nd_work {ML MC MH MV R}.
Arguments nd_stats {ML MC MH MV R}.
Arguments nd_ring {ML MC MH MV R}.

(** The request timeout of the HTTP client. *)
Definition POLICY_HTTP_TIMEOUT : Z := secs 5.

(** The policy task starts a turn or takes the next step of one; the correlator's loop
    takes a pod event or a batch; start-up begins to register its seeds; a task runs
    its next section; a program is executed. *)
Inductive node_event : Type :=
| NTurn (cfg : sync_config) (ck : clocks)
| NPolicy
| NPod (ev : PodWatchEvent)
| NBatch (client : bool) (paths : list bytes) (over : bool)
| NSeeds (ids : list Z)
| NWork (w : who) (fs : Fs) (live : result (gset bytes))
| NExec (env : LsmEnv) (off : LsmOffsets).

Section node.
Context {ML MC MH MV R : Type}.
Context `{ArrayMap PathDenyEntry ML, ArrayMap Z MC, HashMap Z MH, ArrayMap Z MV, RingBuf ExecEvent R}.
Context `{Cosign} (from_str : bytes → option BundleDoc) (rfc3339 : bytes → option Z).
Context (icfg : IdentityCorrelatorConfig).
Abbreviation state := (node ML MC MH MV R).

(** The maps as the LSM program sees them: the arrays and the hash map are the
    ones user space holds handles to. *)
Definition lsm_view (nd : state) : LsmMaps ML MC MH MV R :=
  let m := co_maps (ss_corr (nd_sync nd)) in
  mkLsmMaps (ss_deny (nd_sync nd)) (iam_allow_cgroups m) (iam_exceptions_valid m) (nd_stats nd) (nd_ring nd).

Definition exec_step (env : LsmEnv) (off : LsmOffsets) (nd : state) : state * Z :=
  let '(m, verdict) := nm_lsm_bprm env off (lsm_view nd) in
  (mkNode (nd_sync nd) (nd_turn nd) (nd_work nd) (lm_stats m) (lm_ring m), verdict).

Definition give_work (w : who) (ms : list micro) (nd : state) : state :=
  mkNode (nd_sync nd) (nd_turn nd) (<[w := ms]> (nd_work nd)) (nd_stats nd) (nd_ring nd).

(** The follow-up of a turn's outcome. *)
Definition followup (o : option IdentitySectionValidity) : list micro :=
  match o with Some (Fresh _) => [MRevoke] | Some (Invalid _) => [MHygiene] | None => [] end.

(** The next step of the policy task; at the end of the locked part it has its
    follow-up to do. *)
Definition policy_task (nd : state) : option state :=
  t ← nd_turn nd;
  match turn_step from_str rfc3339 t (nd_sync nd) with
  | (s, inl t) => Some (mkNode s (Some t) (nd_work nd) (nd_stats nd) (nd_ring nd))
  | (s, inr e) =>
      Some (mkNode s None (<[Policy := followup (te_outcome e)]> (nd_work nd)) (nd_stats nd) (nd_ring nd))
  end.

(** A section of a task: while a turn holds the map lock, none that needs it. *)
Definition node_work (w : who) (fs : Fs) (live : result (gset bytes)) (nd : state) : option state :=
  let locked := match nd_turn nd, nd_work nd w with Some _, m :: _ => needs_maps m | _, _ => false end in
  if locked then None
  else
    '(c, W, _) ← work_step icfg w fs live (ss_corr (nd_sync nd)) (nd_work nd);
    Some (mkNode (mkSyncState (ss_deny (nd_sync nd)) c (ss_state (nd_sync nd)) (ss_expires (nd_sync nd)))
            (nd_turn nd) W (nd_stats nd) (nd_ring nd)).

Definition loop_handler (client : bool) (paths : list bytes) (over : bool) : list micro :=
  if over then [MResync client] else map MTeardown paths.

Definition node_step (nd : state) (ev : node_event) : option state :=
  match ev with
  | NTurn cfg ck =>
      match nd_turn nd, nd_work nd Policy with
      | None, [] =>
          if existsb (λ w, holds_maps (nd_work nd w)) (others Policy) then None
          else Some (mkNode (nd_sync nd) (Some (TGate cfg ck)) (nd_work nd) (nd_stats nd) (nd_ring nd))
      | _, _ => None
      end
  | NPolicy => policy_task nd
  | NPod ev =>
      match nd_work nd Loop with
      | [] => Some (give_work Loop (match ev with Upsert pod => [MPod pod] | Deleted uid => [MGone uid] end) nd)
      | _ => None
      end
  | NBatch client paths over =>
      match nd_work nd Loop with [] => Some (give_work Loop (loop_handler client paths over) nd) | _ => None end
  | NSeeds ids =>
      match nd_work nd Start with [] => Some (give_work Start (map MRegister ids) nd) | _ => None end
  | NWork w fs live => node_work w fs live nd
  | NExec env off => Some (exec_step env off nd).1
  end.

Fixpoint node_run (nd : state) (evs : list node_event) : option state :=
  match evs with
  | [] => Some nd
  | ev :: evs => nd ← node_step nd ev; node_run nd evs
  end.

(** ** Pace

    [due] is the time by which the next turn has gated, or read its clock and written
    its flag. After a turn the loop sleeps what the turn asked for and then waits for
    the interval, whose missed ticks are delayed; the next turn reads the clock once
    its request, which the timeout bounds, has been answered, and its map updates
    follow within [slack], which also covers scheduling and locks. *)
Definition next_due (slack : Z) (ck : clocks) (sleep : Z) : Z :=
  ck_parse ck + Z.max POLICY_SYNC_INTERVAL (POLICY_HTTP_TIMEOUT + sleep) + POLICY_HTTP_TIMEOUT + slack.

(** The latest time of the next event: after the request of a turn, its updates. *)
Definition latest (slack due : Z) (t : option turn) : Z :=
  match t with
  | None | Some (TGate _ _) | Some (TRequest _ _) => due
  | Some t => Z.min due (ck_parse (turn_clocks t) + slack)
  end.

Definition due_after (slack due : Z) (nd : state) (ev : node_event) : Z :=
  match ev, nd_turn nd with
  | NPolicy, Some t =>
      match (turn_step from_str rfc3339 t (nd_sync nd)).2 with
      | inr e => next_due slack (turn_clocks t) (te_sleep e)
      | inl _ => due
      end
  | _, _ => due
  end.

Fixpoint paced (slack due : Z) (nd : state) (evs : list (Z * node_event)) : bool :=
  match evs with
  | [] => true
  | (t, ev) :: evs =>
      bool_decide (t ≤ latest slack due (nd_turn nd)) &&
      (match ev with NTurn _ ck => bool_decide (ck_parse ck ≤ ck_after ck) | _ => true end) &&
      match node_step nd ev with
      | Some nd' => paced slack (due_after slack due nd ev) nd' evs
      | None => false
      end
  end.
End node.

(** ** The policy in force *)
Record policy : Type := mkPolicy {
  po_version : bytes;
  po_deny : list PathDenyEntry;
  po_ids : gset bytes;
  po_expires : option Z;
  po_fresh : bool
}.

Section policy.
Context `{Cosign} (from_str : bytes → option BundleDoc) (rfc3339 : bytes → option Z).

Definition policy_gate (now : Z) (po : policy) : policy :=
  mkPolicy (po_version po) (po_deny po) (po_ids po) (po_expires po)
    (po_fresh po && match po_expires po with Some e => bool_decide (now < e) | None => false end).

Definition policy_identity (hooks : bool) (identity : IdentitySectionValidity) (po : policy) : policy :=
  let '(ids, expires, fresh) :=
    match identity with
    | Fresh i => (list_to_set (ias_spiffe_ids i), Some (ias_expires_at i), true)
    | Invalid _ => (∅, None, false)
    end in
  mkPolicy (po_version po) (po_deny po) (if hooks then ids else po_ids po) expires fresh.

(** The entries of a bundle that can be enforced: each prefix fits, and all do. *)
Definition bundle_entries (parsed : ParsedPolicyBundle) : option (list PathDenyEntry) :=
  match try_map (λ p, ok_or (EMsg "bundle prefix empty or too long") (from_prefix p))
          (pb_deny_path_prefixes parsed) with
  | Ok es => if bool_decide (Z.of_nat (length es) ≤ PATH_DENY_MAX_ENTRIES) then Some es else None
  | Err _ => None
  end.

(** One turn: a bundle that is not verified only lets time pass; a verified one
    replaces the exceptions, and the list when its version is new and it fits. *)
Definition policy_sync (cfg : sync_config) (ck : clocks) (po : policy) : policy :=
  let po := policy_gate (ck_gate ck) po in
  match verified_bundle from_str rfc3339 cfg ck with
  | Err _ => policy_gate (ck_after ck) po
  | Ok parsed =>
      let po := policy_identity (sc_hooks cfg) (pb_identity parsed) po in
      if bool_decide (pb_version parsed = po_version po) then po
      else match bundle_entries parsed with
           | Some es => mkPolicy (pb_version parsed) es (po_ids po) (po_expires po) (po_fresh po)
           | None => policy_gate (ck_after ck) po
           end
  end.

Definition policy_run (po : policy) (ts : list (sync_config * clocks)) : policy :=
  foldl (λ po '(cfg, ck), policy_sync cfg ck po) po ts.

(** The policies in force during a turn, in their order: the one before it; after the
    gate; with the new flag; with the new identities; and, for a list that is rewritten,
    with each number of new entries written, then with the new count. After a failure
    the gate comes once more, and ends the turn. *)
Definition with_deny (es : list PathDenyEntry) (po : policy) : policy :=
  mkPolicy (po_version po) es (po_ids po) (po_expires po) (po_fresh po).

Definition policy_flagged (identity : IdentitySectionValidity) (po : policy) : policy :=
  policy_identity false identity po.

Definition policy_phases (cfg : sync_config) (ck : clocks) (po : policy) : list policy :=
  let gated := policy_gate (ck_gate ck) po in
  [po; gated] ++
  match verified_bundle from_str rfc3339 cfg ck with
  | Err _ => []
  | Ok parsed =>
      let named := policy_identity (sc_hooks cfg) (pb_identity parsed) gated in
      [policy_flagged (pb_identity parsed) gated; named] ++
      match bundle_entries parsed with
      | Some es =>
          if bool_decide (pb_version parsed = po_version po) then []
          else map (λ k, with_deny (splice k es (po_deny po)) named) (seq 0 (S (length es))) ++ [with_deny es named]
      | None => []
      end
  end.

(** The policy in force at a moment: between turns that of the turns so far, in a turn
    one of its phases. *)
Definition in_force (po : policy) (ts : list (sync_config * clocks)) (running : option turn) (po' : policy) : Prop :=
  match running with
  | None => po' = policy_run po ts
  | Some _ => ∃ ts0 cfg ck, ts = ts0 ++ [(cfg, ck)] ∧ po' ∈ policy_phases cfg ck (policy_run po ts0)
  end.

(** The verdict on an execution whose path was read as [path] (or not at all) by a
    task of an excepted cgroup, or not. *)
Definition policy_verdict (po : policy) (path : option bytes) (excepted : bool) : Z :=
  match path with
  | None => LSM_DENY
  | Some path =>
      if map_backed_is_blacklisted path (po_deny po)
         && negb (starts_with path (lit "/tmp/") && po_fresh po && excepted)
      then LSM_DENY else LSM_ALLOW
  end.

(** A bundle in a response holds fewer prefixes than a [u32] counts. *)
Definition turn_fits (cfg : sync_config) (ck : clocks) : Prop :=
  ∀ parsed, verified_bundle from_str rfc3339 cfg ck = Ok parsed →
    Z.of_nat (length (pb_deny_path_prefixes parsed)) < 2 ^ 32.
Definition event_fits (ev : node_event) : Prop :=
  match ev with NTurn cfg ck => turn_fits cfg ck | _ => True end.
End policy.

(** The turns that were started. *)
Definition turns (evs : list node_event) : list (sync_config * clocks) :=
  omap (λ ev, match ev with NTurn cfg ck => Some (cfg, ck) | _ => None end) evs.

(** ** Lemmas: the node against the policy *)
Section refinement.
Context {ML MC MH MV R : Type}.
Context `{HL : ArrayMap PathDenyEntry ML, HC : ArrayMap Z MC, HH : HashMap Z MH, HV : ArrayMap Z MV}.
Context `{HR : RingBuf ExecEvent R}.
Context `{!ArrayMapLaws PathDenyEntry ML PATH_DENY_MAX_ENTRIES, !ArrayMapLaws Z MC 1, !ArrayMapLaws Z MV 1}.
Context `{!ArrayMapReliable PathDenyEntry ML PATH_DENY_MAX_ENTRIES, !ArrayMapReliable Z MC 1, !ArrayMapReliable Z MV 1}.
Context `{!HashMapLaws Z MH}.
Context `{Cosign} (from_str : bytes → option BundleDoc) (rfc3339 : bytes → option Z).
Abbreviation sstate := (sync_state ML MC MH MV).
Abbreviation state := (node ML MC MH MV R).
Implicit Types (s : sstate) (nd : state).

Definition flag_fresh (m : IdentityAllowMaps MH MV) : bool :=
  bool_decide (valid_flag m = Some IDENTITY_EXCEPTIONS_VALID_FRESH).

(** The maps and records hold the policy. *)
Record holds s (po : policy) : Prop := mkHolds {
  ho_deny : active_entries (ss_deny s) = po_deny po;
  ho_typed : deny_typed (ss_deny s);
  ho_version : ps_last_version (ss_state s) = po_version po;
  ho_expires : ss_expires s = po_expires po;
  ho_fresh : flag_fresh (co_maps (ss_corr s)) = po_fresh po;
  ho_ids : co_allowlist (ss_corr s) = po_ids po
}.

Lemma invalidate_flag e now (m : IdentityAllowMaps MH MV) :
  flag_fresh (invalidate_if_expired e now m).1 =
  flag_fresh m && match e with Some e => bool_decide (now < e) | None => false end.
Proof.
  assert (flag_fresh ((set_exceptions_valid false ≫= λ _, mret true : stm _ bool) m).1 = false) as Hoff.
  { rewrite stm_bind_run. pose proof (set_exceptions_valid_ok false m) as Hok.
    destruct (set_exceptions_valid false m) as [m' r] eqn:E. cbn in Hok. subst r.
    apply set_exceptions_valid_spec in E as [_ E]. unfold flag_fresh. cbn. by rewrite E. }
  unfold invalidate_if_expired. destruct e as [x|]; [|by rewrite Hoff, andb_false_r].
  case_bool_decide.
  - by rewrite Hoff, (bool_decide_eq_false_2 (now < x)), andb_false_r by lia.
  - by rewrite (bool_decide_eq_true_2 (now < x)), andb_true_r by lia.
Qed.

(** A turn's step on the identity maps keeps everything else. *)
Lemma on_identity_same {A} (f : stm (IdentityAllowMaps MH MV) A) s :
  ss_deny (on_identity f s).1 = ss_deny s ∧ ss_state (on_identity f s).1 = ss_state s ∧
  ss_expires (on_identity f s).1 = ss_expires s ∧
  co_table (ss_corr (on_identity f s).1) = co_table (ss_corr s) ∧
  co_allowlist (ss_corr (on_identity f s).1) = co_allowlist (ss_corr s) ∧
  co_maps (ss_corr (on_identity f s).1) = (f (co_maps (ss_corr s))).1.
Proof. unfold on_identity, on_corr, on_maps. by destruct (f (co_maps (ss_corr s))). Qed.

Lemma gate_holds now s po :
  holds s po →
  holds (on_identity (invalidate_if_expired (ss_expires s) now) s).1 (policy_gate now po).
Proof.
  intros [Hd Ht Hv He Hf Hi].
  destruct (on_identity_same (invalidate_if_expired (ss_expires s) now) s) as (E1 & E2 & E3 & _ & E5 & E6).
  split; cbn; rewrite ?E1, ?E2, ?E3, ?E5, ?E6; try done. by rewrite invalidate_flag, Hf, He.
Qed.

Lemma prefix_error ps e :
  try_map (λ p, ok_or (EMsg "bundle prefix empty or too long") (from_prefix p)) ps = Err e →
  e = EMsg "bundle prefix empty or too long".
Proof.
  induction ps as [|p ps IH]; [done|]. simpl. destruct (from_prefix p); cbn; [|by intros [= <-]].
  destruct (try_map _ ps); cbn; [done|]. intros [= <-]. by apply IH.
Qed.

Lemma parsed_nonempty body now parsed :
  parse_policy_bundle_json_at from_str rfc3339 body now = Ok parsed → pb_deny_path_prefixes parsed ≠ [].
Proof.
  unfold parse_policy_bundle_json_at. intros Hp. ok_inv Hp. rename x into doc.
  destruct (_ && _); [done|]. destruct (is_empty _); [done|]. case_bool_decide; [done|].
  ok_inv Hp. by injection Hp as <-.
Qed.

(** A state that agrees on what a policy says. *)
Definition same_policy s s' : Prop :=
  ss_deny s' = ss_deny s ∧ ss_state s' = ss_state s ∧ ss_expires s' = ss_expires s ∧
  co_allowlist (ss_corr s') = co_allowlist (ss_corr s) ∧
  iam_exceptions_valid (co_maps (ss_corr s')) = iam_exceptions_valid (co_maps (ss_corr s)).

Lemma same_holds s s' po : same_policy s s' → holds s po → holds s' po.
Proof.
  intros (E1 & E2 & E3 & E4 & E5) [Hd Ht Hv He Hf Hi]. split; rewrite ?E1, ?E2, ?E3, ?E4; try done.
  unfold flag_fresh, valid_flag in *. by rewrite E5.
Qed.

(** ** A turn in progress *)
Abbreviation gated ck po := (policy_gate (ck_gate ck) po).
Abbreviation named cfg ck parsed po := (policy_identity (sc_hooks cfg) (pb_identity parsed) (gated ck po)).
Abbreviation verified cfg ck := (verified_bundle from_str rfc3339 cfg ck).

(** The sleep that follows an error. *)
Definition error_sleep (e : error) : Z :=
  match downcast_rate_limited e with Some (_, ra) => default DEFAULT_RATE_LIMIT_BACKOFF ra | None => 0 end.
Definition sleep_ok (e : error) : Prop := 0 ≤ error_sleep e ≤ secs 300.

(** The maps of a list in rewriting: [k] updates into [es], from the list of [po]. *)
Definition rewriting (po : policy) (es : list PathDenyEntry) (k : nat) s : Prop :=
  ∃ d0 : PathDenyMaps ML MC, active_entries d0 = po_deny po ∧ deny_typed d0 ∧
    written es (λ j, am_get (pdm_list d0) j) (am_get (pdm_count d0) 0) k (ss_deny s).

(** What the maps hold when the policy task is at [t], if they held [po] before. *)
Definition turn_holds (po : policy) (t : turn) s : Prop :=
  match t with
  | TGate cfg ck => holds s po
  | TRequest cfg ck => holds s (gated ck po)
  | TIdentity cfg ck parsed => verified cfg ck = Ok parsed ∧ holds s (gated ck po)
  | TAllow cfg ck parsed => verified cfg ck = Ok parsed ∧ holds s (policy_flagged (pb_identity parsed) (gated ck po))
  | TVersion cfg ck parsed => verified cfg ck = Ok parsed ∧ holds s (named cfg ck parsed po)
  | TWrite cfg ck parsed ops =>
      verified cfg ck = Ok parsed ∧ pb_version parsed ≠ po_version po ∧
      ∃ es k, bundle_entries parsed = Some es ∧ Forall wf_entry es ∧ (k ≤ length (deny_ops es))%nat ∧ ops = drop k (deny_ops es) ∧
        rewriting po es k s ∧ holds s (with_deny (active_entries (ss_deny s)) (named cfg ck parsed po))
  | TFail cfg ck e =>
      sleep_ok e ∧
      ((∃ e', verified cfg ck = Err e' ∧ holds s (gated ck po)) ∨
       ∃ parsed, verified cfg ck = Ok parsed ∧ pb_version parsed ≠ po_version po ∧ bundle_entries parsed = None ∧
         holds s (named cfg ck parsed po))
  end.

Lemma turn_holds_same po t s s' : same_policy s s' → turn_holds po t s → turn_holds po t s'.
Proof.
  intros Hs. pose proof (λ po, same_holds s s' po Hs) as Hh. destruct Hs as (Hd & _).
  destruct t as [cfg ck|cfg ck|cfg ck parsed|cfg ck parsed|cfg ck parsed|cfg ck parsed ops|cfg ck e]; cbn [turn_holds].
  - apply Hh.
  - apply Hh.
  - intros [? ?]; auto.
  - intros [? ?]; auto.
  - intros [? ?]; auto.
  - intros (? & ? & es & k & ? & ? & ? & ? & Hr & Ho). split_and!; [done..|]. exists es, k. split_and!; [done..| |].
    + unfold rewriting in *. by rewrite Hd.
    + rewrite Hd. by apply Hh.
  - intros [? [(e' & ? & ?)|(parsed & ? & ? & ? & ?)]]; (split; [done|]); [left; exists e'; auto|right; exists parsed; auto].
Qed.

(** The list that is being rewritten is one of the phases'. *)
Lemma rewriting_active po es k s :
  Z.of_nat (length es) ≤ PATH_DENY_MAX_ENTRIES → rewriting po es k s →
  active_entries (ss_deny s) = if decide (k ≤ length es)%nat then splice k es (po_deny po) else es.
Proof. intros Hl (d0 & <- & _ & Hw). by apply written_active. Qed.

Lemma rewriting_typed po es k s :
  Z.of_nat (length es) ≤ PATH_DENY_MAX_ENTRIES → Forall wf_entry es → rewriting po es k s → deny_typed (ss_deny s).
Proof.
  intros Hl Hw Hr. pose proof (rewriting_active po es k s Hl Hr) as Ha. destruct Hr as (d0 & Hd0 & Ht & _).
  unfold deny_typed in *. rewrite Hd0 in Ht. rewrite Ha. case_decide; [|by apply wf_array_typed].
  unfold splice. apply Forall_take, Forall_app. split; [apply Forall_take; by apply wf_array_typed|by apply Forall_drop].
Qed.

Lemma entries_fit parsed es :
  bundle_entries parsed = Some es →
  try_map (λ p, ok_or (EMsg "bundle prefix empty or too long") (from_prefix p)) (pb_deny_path_prefixes parsed) = Ok es ∧
  Z.of_nat (length es) ≤ PATH_DENY_MAX_ENTRIES ∧ Forall wf_entry es.
Proof.
  unfold bundle_entries. destruct (try_map _ _) as [es'|] eqn:E; [|done]. case_bool_decide; [|done]. intros [= <-].
  split_and!; [done..|]. by apply try_map_from_prefix in E as [? _].
Qed.

Lemma holds_phase po t s :
  turn_holds po t s → ∃ po', po' ∈ policy_phases from_str rfc3339 (turn_config t) (turn_clocks t) po ∧ holds s po'.
Proof.
  destruct t as [cfg ck|cfg ck|cfg ck parsed|cfg ck parsed|cfg ck parsed|cfg ck parsed ops|cfg ck e];
    cbn [turn_holds turn_config turn_clocks]; unfold policy_phases.
  - intros Hs. exists po. split; [by left|done].
  - intros Hs. exists (gated ck po). split; [right; by left|done].
  - intros [Hv Hs]. exists (gated ck po). split; [right; by left|done].
  - intros [Hv Hs]. eexists. split; [|exact Hs]. rewrite Hv. apply elem_of_app. right. by left.
  - intros [Hv Hs]. eexists. split; [|exact Hs]. rewrite Hv. apply elem_of_app. right. right. by left.
  - intros (Hv & Hne & es & k & Hes & Hwf & Hk & _ & Hr & Hs). eexists. split; [|exact Hs].
    destruct (entries_fit _ _ Hes) as (_ & Hl & _). rewrite (rewriting_active po es k s Hl Hr), Hv, Hes.
    rewrite bool_decide_eq_false_2 by done. apply elem_of_app. right. apply elem_of_app. right. apply elem_of_app. case_decide as Hd.
    + left. apply list_elem_of_fmap. exists k. split; [done|]. apply elem_of_seq. lia.
    + right. by left.
  - intros [_ [(e' & Hv & Hs)|(parsed & Hv & _ & _ & Hs)]]; eexists; (split; [|exact Hs]).
    + right; by left.
    + rewrite Hv. apply elem_of_app. right. right. by left.
Qed.
(** Only an answer of status 429 asks for a sleep, and of five minutes at most. *)
Lemma parse_error_plain body now e :
  parse_policy_bundle_json_at from_str rfc3339 body now = Err e → downcast_rate_limited e = None.
Proof.
  unfold parse_policy_bundle_json_at, identity_of_doc, parse_opt_time, parse_rfc3339, ok_or. intros Hp.
  repeat (case_match || (cbn in Hp)); simplify_eq; done.
Qed.

Lemma retry_after_range raw d : parse_retry_after_secs raw = Some d → 0 ≤ d ≤ secs 300.
Proof.
  unfold parse_retry_after_secs. destruct raw as [s|]; [|done]. cbn.
  destruct (parse_u64 (trim s)) as [n|] eqn:Hn; [|done]. cbn. intros [= <-].
  apply parse_uint_range in Hn; [|done]. unfold secs. lia.
Qed.

Lemma verified_error_sleep cfg ck e u ra :
  verified_bundle from_str rfc3339 cfg ck = Err e → downcast_rate_limited e = Some (u, ra) →
  0 ≤ default DEFAULT_RATE_LIMIT_BACKOFF ra ≤ secs 300.
Proof.
  unfold verified_bundle. destruct (fetch_policy_bundle _ _ _) as [fb|e0] eqn:Hf; cbn.
  - unfold verify_bundle_signature, verify_bundle_temporal, verify_bundle_temporal_with_skew.
    destruct (fb_signature_b64 fb); [|by intros [= <-]]. destruct (is_empty _); [by intros [= <-]|].
    destruct (verify_cosign_blob_signature _ _ _); [|by intros [= <-]]. cbn.
    destruct (parse_policy_bundle_json_at _ _ _ _) as [parsed|e1] eqn:Hp; cbn.
    + intros He. repeat (case_match || (cbn in He)); simplify_eq; done.
    + intros [= <-]. apply parse_error_plain in Hp as ->. done.
  - intros [= <-]. unfold fetch_policy_bundle, ok_or in Hf.
    destruct (is_empty _); [by injection Hf as <-|]. destruct (sc_get cfg _ _) as [resp|]; cbn in Hf; [|by injection Hf as <-].
    case_bool_decide; [injection Hf as <-; intros [= <- <-]
                      |by repeat (case_match || (cbn in Hf)); simplify_eq].
    destruct (parse_retry_after_secs _) as [d|] eqn:Hr; cbn; [by eapply retry_after_range|].
    unfold DEFAULT_RATE_LIMIT_BACKOFF, secs. lia.
Qed.

Lemma plain_sleep e : downcast_rate_limited e = None → sleep_ok e.
Proof. unfold sleep_ok, error_sleep, secs. intros ->. lia. Qed.
Lemma verified_sleep cfg ck e : verified cfg ck = Err e → sleep_ok e.
Proof.
  intros Hv. destruct (downcast_rate_limited e) as [[u ra]|] eqn:Hd; [|by apply plain_sleep].
  unfold sleep_ok, error_sleep. rewrite Hd. by eapply verified_error_sleep.
Qed.

(** ** A turn computes the policy's turn *)
Definition turn_after (po : policy) (t : turn) (r : turn + turn_end) s : Prop :=
  match r with
  | inl t' => turn_config t' = turn_config t ∧ turn_clocks t' = turn_clocks t ∧ turn_holds po t' s
  | inr e => holds s (policy_sync from_str rfc3339 (turn_config t) (turn_clocks t) po) ∧ 0 ≤ te_sleep e ≤ secs 300
  end.

Lemma identity_step po cfg ck parsed s :
  turn_holds po (TIdentity cfg ck parsed) s →
  let '(s', r) := turn_step from_str rfc3339 (TIdentity cfg ck parsed) s in turn_after po (TIdentity cfg ck parsed) r s'.
Proof.
  intros [Hv [Hd Ht Hve He Hf Hi]]. cbn [turn_step].
  destruct (on_identity_same (apply_identity_validity (pb_identity parsed)) s) as (E1 & E2 & E3 & _ & E5 & E6).
  assert ((on_identity (apply_identity_validity (pb_identity parsed)) s).2 = Ok () ∧
    flag_fresh (apply_identity_validity (pb_identity parsed) (co_maps (ss_corr s))).1 =
      match pb_identity parsed with Fresh _ => true | Invalid _ => false end) as [Hok Hfl].
  { unfold on_identity, on_corr, on_maps, apply_identity_validity, flag_fresh.
    destruct (pb_identity parsed).
    - pose proof (set_exceptions_valid_ok true (co_maps (ss_corr s))) as Hb.
      destruct (set_exceptions_valid true _) as [m r] eqn:E. cbn in Hb. subst r. apply set_exceptions_valid_spec in E as [_ E]. cbn. by rewrite E.
    - pose proof (set_exceptions_valid_ok false (co_maps (ss_corr s))) as Hb.
      destruct (set_exceptions_valid false _) as [m r] eqn:E. cbn in Hb. subst r. apply set_exceptions_valid_spec in E as [_ E]. cbn. by rewrite E. }
  destruct (on_identity _ s) as [s1 r]. cbn [fst snd] in *. subst r. cbn [turn_after turn_config turn_clocks turn_holds].
  split_and!; [done..|]. unfold policy_flagged, policy_identity. split; cbn; rewrite ?E1, ?E2, ?E3, ?E5, ?E6; try done;
    rewrite ?Hfl; by destruct (pb_identity parsed).
Qed.

Lemma allow_step po cfg ck parsed s :
  turn_holds po (TAllow cfg ck parsed) s →
  let '(s', r) := turn_step from_str rfc3339 (TAllow cfg ck parsed) s in turn_after po (TAllow cfg ck parsed) r s'.
Proof.
  intros [Hv [Hd Ht Hve He Hf Hi]]. cbn [turn_step turn_after turn_config turn_clocks turn_holds]. split_and!; [done..|].
  unfold update_allowlist, policy_flagged, policy_identity in *. destruct (sc_hooks cfg).
  - destruct (pb_identity parsed); split; cbn in *; try done.
  - destruct (pb_identity parsed); by split.
Qed.

Lemma version_step po cfg ck parsed s :
  turn_fits from_str rfc3339 cfg ck → turn_holds po (TVersion cfg ck parsed) s →
  let '(s', r) := turn_step from_str rfc3339 (TVersion cfg ck parsed) s in turn_after po (TVersion cfg ck parsed) r s'.
Proof.
  intros Hfit [Hv Hs]. cbn [turn_step]. pose proof Hs as [Hd Ht Hve He Hf Hi].
  assert (po_version (named cfg ck parsed po) = po_version po) as Hpv
    by (unfold policy_identity; by destruct (pb_identity parsed)).
  assert (po_deny (named cfg ck parsed po) = po_deny po) as Hpd
    by (unfold policy_identity; by destruct (pb_identity parsed)).
  rewrite Hve, Hpv. case_bool_decide as Hver.
  { cbn [turn_done turn_after turn_config turn_clocks te_sleep]. split; [|unfold secs; lia].
    unfold policy_sync. rewrite Hv, bool_decide_eq_true_2 by (by rewrite Hpv). split; cbn; try done. congruence. }
  pose proof (verified_bundle_ok _ _ _ _ _ Hv) as (fb & _ & _ & Hne%parsed_nonempty & _).
  destruct (try_map _ _) as [es|e] eqn:Hes.
  - pose proof (proj1 (try_map_Ok _ _ _) Hes) as Hall. pose proof (Forall2_length _ _ _ Hall) as Hl.
    destruct (try_map_from_prefix _ _ _ Hes) as [Hw _].
    assert (es ≠ []) as Hnil by (destruct es, (pb_deny_path_prefixes parsed); done).
    specialize (Hfit _ Hv). assert (bundle_entries parsed =
      if bool_decide (Z.of_nat (length es) ≤ PATH_DENY_MAX_ENTRIES) then Some es else None) as Hbe by (unfold bundle_entries; by rewrite Hes).
    unfold deny_sizes, as_uint. rewrite (bool_decide_eq_false_2 (es = [])), Z.mod_small by (done || lia).
    destruct (decide (Z.of_nat (length es) ≤ PATH_DENY_MAX_ENTRIES)) as [Hfit'|Hbig].
    + rewrite bool_decide_eq_false_2 by lia. rewrite bool_decide_eq_true_2 in Hbe by done.
      cbn [turn_after turn_config turn_clocks turn_holds]. split_and!; [done..|].
      exists es, 0%nat. split_and!; [done|done|lia|by rewrite drop_0| |].
      * exists (ss_deny s). split_and!; [congruence|done|]. apply written_start.
      * rewrite Hd. by destruct (named cfg ck parsed po).
    + rewrite bool_decide_eq_true_2 by lia. rewrite bool_decide_eq_false_2 in Hbe by done.
      cbn [turn_after turn_config turn_clocks turn_holds]. split_and!; [done..|by apply plain_sleep|]. right. by exists parsed.
  - cbn [turn_after turn_config turn_clocks turn_holds]. split_and!; [done..|by apply prefix_error in Hes as ->; apply plain_sleep|].
    right. exists parsed. split_and!; [done..| |done]. unfold bundle_entries. by rewrite Hes.
Qed.

Lemma write_step po cfg ck parsed ops s :
  turn_holds po (TWrite cfg ck parsed ops) s →
  let '(s', r) := turn_step from_str rfc3339 (TWrite cfg ck parsed ops) s in turn_after po (TWrite cfg ck parsed ops) r s'.
Proof.
  intros (Hv & Hver & es & k & Hes & Hwf & Hk & -> & Hr & Hs). destruct (entries_fit _ _ Hes) as (_ & Hl & _).
  assert (po_version (named cfg ck parsed po) = po_version po) as Hpv by (unfold policy_identity; by destruct (pb_identity parsed)).
  destruct (drop k (deny_ops es)) as [|op ops] eqn:Hdrop; cbn [turn_step].
  - cbn [turn_done turn_after turn_config turn_clocks te_sleep]. split; [|unfold secs; lia].
    assert (active_entries (ss_deny s) = es) as Ha.
    { rewrite (rewriting_active po es k s Hl Hr). apply (f_equal length) in Hdrop. rewrite length_drop in Hdrop. cbn in Hdrop.
      pose proof (length_deny_ops es). rewrite decide_False by lia. done. }
    rewrite Ha in Hs. destruct Hs as [Hd Ht Hve He Hf Hi]. unfold policy_sync. rewrite Hv, Hpv, bool_decide_eq_false_2, Hes by done.
    by split.
  - assert (deny_ops es !! k = Some op) as Hop.
    { rewrite <- (Nat.add_0_r k), <- lookup_drop. by rewrite Hdrop. }
    unfold on_deny. pose proof (run_op_total es op (ss_deny s)) as Htot.
    destruct (run_op op (ss_deny s)) as [d r] eqn:E. cbn [snd] in Htot.
    assert (r = Ok ()) as ->.
    { apply Htot; [intros; by apply am_set_ok|intros; apply am_set_ok; lia|done|done|by eapply list_elem_of_lookup_2]. }
    clear Htot.
    set (s' := mkSyncState d _ _ _). cbn [turn_after turn_config turn_clocks turn_holds]. split_and!; [done..|].
    assert (rewriting po es (S k) s') as Hr'.
    { destruct Hr as (d0 & H1 & H2 & H3). exists d0. split_and!; [done..|]. by apply (written_step es _ _ Hl k op (ss_deny s)). }
    exists es, (S k). split_and!; [done..| | |done|].
    + apply lookup_lt_Some in Hop. lia.
    + rewrite (drop_S _ _ _ Hop) in Hdrop. by injection Hdrop.
    + destruct Hs as [Hd Ht Hve He Hf Hi]. split; cbn; try done. by eapply (rewriting_typed po es (S k) s').
Qed.

Lemma turn_step_holds po t s :
  turn_fits from_str rfc3339 (turn_config t) (turn_clocks t) → turn_holds po t s →
  let '(s', r) := turn_step from_str rfc3339 t s in turn_after po t r s'.
Proof.
  destruct t as [cfg ck|cfg ck|cfg ck parsed|cfg ck parsed|cfg ck parsed|cfg ck parsed ops|cfg ck e]; intros Hfit Hs.
  - cbn. split_and!; [done..|]. by apply gate_holds.
  - cbn [turn_step turn_after]. destruct (verified cfg ck) as [parsed|e] eqn:Hv; cbn [turn_config turn_clocks turn_holds].
    + by split_and!.
    + split_and!; [done..|by apply (verified_sleep cfg ck)|]. left. by exists e.
  - by apply identity_step.
  - by apply allow_step.
  - by apply version_step.
  - by apply write_step.
  - destruct Hs as [Hsl Hs]. cbn [turn_step turn_after turn_config turn_clocks te_sleep]. split; [|done]. unfold policy_sync.
    assert (∀ po', holds s po' → holds (on_identity (invalidate_if_expired (ss_expires s) (ck_after ck))
      (set_state (refresh_stale_flag (ck_instant ck) (ss_state s)) s).1).1 (policy_gate (ck_after ck) po')) as Hg.
    { intros po' [Hd Ht Hve He Hf Hi]. apply (gate_holds (ck_after ck) (mkSyncState (ss_deny s) (ss_corr s)
        (refresh_stale_flag (ck_instant ck) (ss_state s)) (ss_expires s))). by split. }
    destruct Hs as [(e' & -> & Hs)|(parsed & -> & Hver & -> & Hs)]; [by apply Hg|].
    assert (po_version (named cfg ck parsed po) = po_version po) as -> by (unfold policy_identity; by destruct (pb_identity parsed)).
    rewrite bool_decide_eq_false_2 by done. by apply Hg.
Qed.

(** ** The node against the policy in force *)
Context (icfg : IdentityCorrelatorConfig).
Abbreviation node_step := (node_step from_str rfc3339 icfg).
Abbreviation node_run := (node_run from_str rfc3339 icfg).
Abbreviation in_force := (in_force from_str rfc3339).
Abbreviation policy_run := (policy_run from_str rfc3339).

Definition node_holds (po : policy) (ts : list (sync_config * clocks)) nd : Prop :=
  match nd_turn nd with
  | None => holds (nd_sync nd) (policy_run po ts)
  | Some t => ∃ ts0, ts = ts0 ++ [(turn_config t, turn_clocks t)] ∧
      turn_fits from_str rfc3339 (turn_config t) (turn_clocks t) ∧ turn_holds (policy_run po ts0) t (nd_sync nd)
  end.

Lemma node_holds_force po ts nd :
  node_holds po ts nd → ∃ po', in_force po ts (nd_turn nd) po' ∧ holds (nd_sync nd) po'.
Proof.
  unfold node_holds, System.in_force. destruct (nd_turn nd) as [t|]; [|by eexists].
  intros (ts0 & -> & _ & (po' & Hin & Hs)%holds_phase). exists po'. split; [|done]. by eexists ts0, _, _.
Qed.

Lemma node_work_same w fs live nd nd' :
  node_work icfg w fs live nd = Some nd' →
  same_policy (nd_sync nd) (nd_sync nd') ∧ nd_turn nd' = nd_turn nd ∧
  ∃ r, work_step icfg w fs live (ss_corr (nd_sync nd)) (nd_work nd) = Some (ss_corr (nd_sync nd'), nd_work nd', r).
Proof.
  unfold node_work. destruct (match nd_turn nd with Some _ => _ | None => _ end); [done|].
  destruct (work_step _ _ _ _ _ _) as [[[c W] r]|] eqn:E; [|done]. intros [= <-]. cbn. split_and!; [|done|by exists r].
  apply work_step_inv in E as (m & ms & r' & _ & _ & Hm & _). apply micro_maps in Hm as (H1 & H2 & _). by split_and!.
Qed.

Lemma node_step_holds po ts nd ev nd' :
  node_step nd ev = Some nd' → event_fits from_str rfc3339 ev → node_holds po ts nd →
  node_holds po (ts ++ turns [ev]) nd'.
Proof.
  destruct ev as [cfg ck| |ev|client paths over|ids|w fs live|env off]; cbn [System.node_step turns omap list_omap]; rewrite ?app_nil_r.
  - unfold node_holds. destruct (nd_turn nd) as [t|]; [done|]. destruct (nd_work nd Policy); [|done].
    destruct (existsb _ _); [done|]. intros [= <-] Hfit Hs. cbn. by exists ts.
  - unfold policy_task, node_holds. destruct (nd_turn nd) as [t|]; [|done]. cbn [mbind option_bind].
    intros E _ (ts0 & -> & Hfit & Hs). pose proof (turn_step_holds _ t _ Hfit Hs) as Ht.
    destruct (turn_step from_str rfc3339 t (nd_sync nd)) as [s' [t'|e]]; injection E as <-; cbn [nd_turn nd_sync].
    + destruct Ht as (H1 & H2 & Ht). exists ts0. by rewrite H1, H2.
    + destruct Ht as [Ht _]. unfold System.policy_run. by rewrite foldl_app.
  - destruct (nd_work nd Loop); [|done]. by intros [= <-].
  - destruct (nd_work nd Loop); [|done]. by intros [= <-].
  - destruct (nd_work nd Start); [|done]. by intros [= <-].
  - intros (Hsame & Ht & _)%node_work_same _. unfold node_holds. rewrite Ht. destruct (nd_turn nd) as [t|]; [|by apply same_holds].
    intros (ts0 & -> & Hfit & Hs). exists ts0. split_and!; [done..|]. by eapply turn_holds_same.
  - unfold exec_step. destruct (nm_lsm_bprm _ _ _). by intros [= <-].
Qed.

Lemma turns_app evs evs' : turns (evs ++ evs') = turns evs ++ turns evs'.
Proof. apply omap_app. Qed.

Lemma node_run_holds po ts nd evs nd' :
  node_run nd evs = Some nd' → Forall (event_fits from_str rfc3339) evs → node_holds po ts nd →
  node_holds po (ts ++ turns evs) nd'.
Proof.
  revert ts nd. induction evs as [|ev evs IH]; intros ts nd; simpl.
  { intros [= <-] _. by rewrite app_nil_r. }
  destruct (node_step nd ev) as [nd1|] eqn:E; [|done]. cbn [mbind option_bind]. intros Hr [Hf Hfs]%Forall_cons Hs.
  pose proof (node_step_holds po ts nd ev nd1 E Hf Hs) as H1. pose proof (IH _ _ Hr Hfs H1) as H2.
  rewrite <- app_assoc, <- turns_app in H2. done.
Qed.

(** The task's cgroup is in the allow map. *)
Definition excepted nd (env : LsmEnv) : bool :=
  bool_decide (allowed_cgroup (co_maps (ss_corr (nd_sync nd))) (current_cgroup_id env) = Some IDENTITY_ALLOW_VALUE).

Definition path_read (env : LsmEnv) (off : LsmOffsets) : option bytes :=
  match read_bprm_path_prefix env off with inl path => Some path | inr _ => None end.

Lemma exec_verdict nd po env off :
  holds (nd_sync nd) po →
  (exec_step env off nd).2 = policy_verdict po (path_read env off) (excepted nd env).
Proof.
  intros [Hd Ht _ _ Hf _]. unfold exec_step, path_read.
  pose proof (hook_cases env off (lsm_view nd)) as Hc.
  destruct (nm_lsm_bprm env off (lsm_view nd)) as [m v]. cbn [snd]. revert Hc.
  destruct (read_bprm_path_prefix env off) as [path|]; cbn; [|by intros [= _ ->]].
  rewrite is_blacklisted_active, Hd by done. change IDENTITY_EXCEPTION_SCOPE_PREFIX with (lit "/tmp/").
  assert (identity_exception_allows env (lsm_view nd) = po_fresh po && excepted nd env) as ->.
  { apply eq_bool_prop_intro. rewrite !Is_true_true, identity_exception_iff, andb_true_iff, <- Hf.
    unfold flag_fresh, excepted. by rewrite !bool_decide_eq_true. }
  destruct (map_backed_is_blacklisted path (po_deny po)), (starts_with path (lit "/tmp/")), (po_fresh po),
    (excepted nd env); cbn; by intros [= _ ->].
Qed.


(** A node whose tasks are idle and whose maps hold a policy. *)
Definition idle_node nd (po : policy) : Prop :=
  holds (nd_sync nd) po ∧ nd_turn nd = None ∧ (∀ w, nd_work nd w = []).

Lemma idle_holds nd po : idle_node nd po → node_holds po [] nd.
Proof. intros (Hs & Ht & _). unfold node_holds. by rewrite Ht. Qed.

(** ** Where exceptions come from *)

(** At some moment of [evs] a task looked at the pod and found its identity among those
    of the policy in force then. *)
Definition named_pod (po : policy) nd (evs : list node_event) (pod : PodView) : Prop :=
  ∃ pre w fs live post nd1 po1 ms, evs = pre ++ NWork w fs live :: post ∧ node_run nd pre = Some nd1 ∧
    nd_work nd1 w = MPod pod :: ms ∧ in_force po (turns pre) (nd_turn nd1) po1 ∧ pod_spiffe icfg pod ∈ po_ids po1.
(** And a container of the pod had the cgroup when a task resolved it. *)
Definition granted (po : policy) nd (evs : list node_event) (c : Z) : Prop :=
  ∃ pod w fs live, named_pod po nd evs pod ∧ NWork w fs live ∈ evs ∧ resolves icfg fs pod c.

Lemma node_run_app nd evs evs' : node_run nd (evs ++ evs') = (nd1 ← node_run nd evs; node_run nd1 evs').
Proof. revert nd. induction evs as [|ev evs IH]; intros nd; simpl; [done|]. destruct (node_step nd ev); [apply IH|done]. Qed.

Lemma named_pod_mono po nd evs ev pod : named_pod po nd evs pod → named_pod po nd (evs ++ [ev]) pod.
Proof.
  intros (pre & w & fs & live & post & nd1 & po1 & ms & -> & H1 & H2 & H3 & H4).
  exists pre, w, fs, live, (post ++ [ev]), nd1, po1, ms. split_and!; try done. by rewrite <- app_assoc.
Qed.
Lemma granted_mono po nd evs ev c : granted po nd evs c → granted po nd (evs ++ [ev]) c.
Proof.
  intros (pod & w & fs & live & Hn & Hin & Hr). exists pod, w, fs, live. split_and!; [by apply named_pod_mono| |done].
  apply elem_of_app. by left.
Qed.

(** Everything excepted, or about to be, was excepted at the start or is granted. *)
Definition node_provenance (po : policy) nd0 (evs : list node_event) nd : Prop :=
  provenance (named_pod po nd0 evs) (λ c, excepted_cgroup c (ss_corr (nd_sync nd0)) ∨ granted po nd0 evs c)
    (ss_corr (nd_sync nd)) (nd_work nd).

Lemma given_provenance (C : PodView → Prop) (G : Z → Prop) w ms (c c' : corr MH MV) W :
  (∀ m, m ∈ ms → match m with MContainer _ _ _ | MSeed _ _ => False | _ => True end) →
  iam_allow_cgroups (co_maps c') = iam_allow_cgroups (co_maps c) →
  provenance C G c W → provenance C G c' (<[w := ms]> W).
Proof.
  intros Hms Hal (H1 & H2 & H3). split_and!.
  - intros v pod sp ct. destruct (decide (v = w)) as [->|Hne]; [rewrite fn_insert_eq|rewrite fn_insert_ne by done; apply H1].
    intros Hin. by destruct (Hms _ Hin).
  - intros v leaf x. destruct (decide (v = w)) as [->|Hne]; [rewrite fn_insert_eq|rewrite fn_insert_ne by done; apply H2].
    intros Hin. by destruct (Hms _ Hin).
  - intros x. unfold excepted_cgroup, allowed_cgroup. rewrite Hal. apply H3.
Qed.
Lemma same_provenance (C : PodView → Prop) (G : Z → Prop) (c c' : corr MH MV) W :
  iam_allow_cgroups (co_maps c') = iam_allow_cgroups (co_maps c) → provenance C G c W → provenance C G c' W.
Proof.
  intros Hal (H1 & H2 & H3). split_and!; [done..|]. intros x. unfold excepted_cgroup, allowed_cgroup. rewrite Hal. apply H3.
Qed.

(** No step of a turn touches the allow map. *)
Lemma turn_allow t s :
  let '(s', _) := turn_step from_str rfc3339 t s in
  iam_allow_cgroups (co_maps (ss_corr s')) = iam_allow_cgroups (co_maps (ss_corr s)).
Proof.
  assert (∀ e now s0, iam_allow_cgroups (co_maps (ss_corr (on_identity (invalidate_if_expired e now) s0).1)) =
    iam_allow_cgroups (co_maps (ss_corr s0))) as Hgate.
  { intros e now s0. destruct (on_identity_same (invalidate_if_expired e now) s0) as (_ & _ & _ & _ & _ & ->).
    pose proof (expiry_gate e now (co_maps (ss_corr s0))) as Hg. by destruct (invalidate_if_expired e now _), Hg. }
  destruct t as [cfg ck|cfg ck|cfg ck parsed|cfg ck parsed|cfg ck parsed|cfg ck parsed [|op ops]|cfg ck e]; cbn [turn_step turn_done].
  - apply Hgate.
  - done.
  - unfold on_identity, on_corr, on_maps, apply_identity_validity. destruct (pb_identity parsed).
    + destruct (set_exceptions_valid true _) as [m r] eqn:E. apply set_exceptions_valid_spec in E as [E _]. by destruct r.
    + destruct (set_exceptions_valid false _) as [m r] eqn:E. apply set_exceptions_valid_spec in E as [E _]. by destruct r.
  - unfold update_allowlist. by destruct (sc_hooks cfg).
  - case_bool_decide; [done|]. by destruct (try_map _ _).
  - done.
  - unfold on_deny. destruct (run_op op _) as [d [u|e]]; done.
  - apply (Hgate _ _ (mkSyncState _ _ _ _)).
Qed.

Lemma node_step_provenance po nd0 evs nd ev nd' :
  node_run nd0 evs = Some nd → node_step nd ev = Some nd' → node_holds po (turns evs) nd →
  node_provenance po nd0 evs nd → node_provenance po nd0 (evs ++ [ev]) nd'.
Proof.
  intros Hrun E Hh Hp.
  assert (node_provenance po nd0 (evs ++ [ev]) nd) as Hp'.
  { eapply provenance_mono, Hp; [intros; by apply named_pod_mono|]. intros c [?|?]; [by left|right]. by apply granted_mono. }
  unfold node_provenance in *. destruct ev as [cfg ck| |ev|client paths over|ids|w fs live|env off]; cbn [System.node_step] in E.
  - destruct (nd_turn nd) as [t|]; [done|]. destruct (nd_work nd Policy); [|done]. destruct (existsb _ _); [done|]. by injection E as <-.
  - unfold policy_task in E. destruct (nd_turn nd) as [t|]; [|done]. cbn [mbind option_bind] in E. pose proof (turn_allow t (nd_sync nd)) as Ha.
    destruct (turn_step from_str rfc3339 t (nd_sync nd)) as [s' [t'|e]]; injection E as <-; cbn [nd_sync nd_work].
    + by eapply same_provenance.
    + eapply given_provenance; [|done|exact Hp']. intros m. unfold followup.
      destruct (te_outcome e) as [[]|]; [intros ->%list_elem_of_singleton..|intros ?%not_elem_of_nil]; done.
  - destruct (nd_work nd Loop); [|done]. injection E as <-. eapply given_provenance; [|done|exact Hp'].
    intros m Hm. destruct ev; by apply list_elem_of_singleton in Hm as ->.
  - destruct (nd_work nd Loop); [|done]. injection E as <-. eapply given_provenance; [|done|exact Hp'].
    intros m Hm. unfold loop_handler in Hm. destruct over; [by apply list_elem_of_singleton in Hm as ->|].
    by apply list_elem_of_fmap in Hm as (x & -> & _).
  - destruct (nd_work nd Start); [|done]. injection E as <-. eapply given_provenance; [|done|exact Hp'].
    intros m Hm. by apply list_elem_of_fmap in Hm as (x & -> & _).
  - apply node_work_same in E as (_ & _ & r & Hw). eapply (work_provenance icfg _ _ _ _ w fs live _ _ _ _ r Hw Hp).
    + intros pod. apply named_pod_mono.
    + intros c [?|?]; [by left|right]. by apply granted_mono.
    + intros pod ms Hpod Hal. destruct (node_holds_force po (turns evs) nd Hh) as (po1 & Hf & Hs).
      exists evs, w, fs, live, [], nd, po1, ms. split_and!; try done. by rewrite <- (ho_ids _ _ Hs).
    + intros pod c Hn Hres. right. exists pod, w, fs, live. split_and!; [by apply named_pod_mono| |done].
      apply elem_of_app. right. by left.
  - unfold exec_step in E. destruct (nm_lsm_bprm _ _ _). by injection E as <-.
Qed.

Lemma node_run_provenance po nd0 evs nd :
  idle_node nd0 po → Forall (event_fits from_str rfc3339) evs → node_run nd0 evs = Some nd → node_provenance po nd0 evs nd.
Proof.
  intros Hidle. revert nd. induction evs as [|ev evs IH] using rev_ind; intros nd Hf Hr.
  { injection Hr as <-. destruct Hidle as (_ & _ & Hw). split_and!; [intros w ??? Hin|intros w ?? Hin|by left];
      rewrite Hw in Hin; by apply not_elem_of_nil in Hin. }
  apply Forall_app in Hf as [Hf Hf1]. rewrite node_run_app in Hr. destruct (node_run nd0 evs) as [nd1|] eqn:E; [|done].
  cbn [mbind option_bind System.node_run] in Hr. destruct (node_step nd1 ev) as [nd2|] eqn:E2; [|done]. injection Hr as <-.
  eapply node_step_provenance; [done|done| |by apply IH].
  apply (node_run_holds po [] nd0 evs nd1 E Hf). by apply idle_holds.
Qed.

(** ** Time *)
Lemma policy_sync_unexpired cfg ck po :
  ck_parse ck ≤ ck_after ck → po_fresh (policy_sync from_str rfc3339 cfg ck po) = true →
  ∃ e, po_expires (policy_sync from_str rfc3339 cfg ck po) = Some e ∧ ck_parse ck < e.
Proof.
  intros Hck. unfold policy_sync.
  assert (∀ po', po_fresh (policy_gate (ck_after ck) po') = true →
    ∃ e, po_expires (policy_gate (ck_after ck) po') = Some e ∧ ck_parse ck < e) as Hgate.
  { intros po'. cbn. rewrite andb_true_iff. intros [_ Hx]. destruct (po_expires po') as [e|]; [|done].
    bool_split. exists e. split; [done|lia]. }
  destruct (verified_bundle from_str rfc3339 cfg ck) as [parsed|e] eqn:Hv; [|apply Hgate].
  apply verified_bundle_ok in Hv as (fb & _ & _ & Hp & _).
  assert (∀ hooks po', po_fresh (policy_identity hooks (pb_identity parsed) po') = true →
    ∃ e, po_expires (policy_identity hooks (pb_identity parsed) po') = Some e ∧ ck_parse ck < e) as Hid.
  { intros hooks po'. unfold policy_identity. destruct (pb_identity parsed) as [i|] eqn:Hi; [|done].
    intros _. eexists. split; [done|]. by eapply parse_fresh_unexpired. }
  case_bool_decide; [apply Hid|]. destruct (bundle_entries parsed); [apply Hid|apply Hgate].
Qed.

(** The longest an exception can outlive its expiry. *)
Definition EXCEPTION_OVERRUN : Z := secs 310.

(** At [due] no exception in force is past its expiry by more. *)
Definition overrun_ok (slack due : Z) (po : policy) : Prop :=
  po_fresh po = true → ∃ e, po_expires po = Some e ∧ due < e + EXCEPTION_OVERRUN + slack.


(** The flag that a turn has written is not past its expiry at the turn's clock. *)
Lemma named_unexpired cfg ck parsed hooks po' :
  verified cfg ck = Ok parsed → po_fresh (policy_identity hooks (pb_identity parsed) po') = true →
  ∃ e, po_expires (policy_identity hooks (pb_identity parsed) po') = Some e ∧ ck_parse ck < e.
Proof.
  intros (fb & _ & _ & Hp & _)%verified_bundle_ok. unfold policy_identity. destruct (pb_identity parsed) as [i|] eqn:Hi; [|done].
  intros _. eexists. split; [done|]. by eapply parse_fresh_unexpired.
Qed.

Definition flag_ok (slack due : Z) nd : Prop :=
  flag_fresh (co_maps (ss_corr (nd_sync nd))) = true →
  ∃ e, ss_expires (nd_sync nd) = Some e ∧ latest slack due (nd_turn nd) < e + EXCEPTION_OVERRUN + slack.

(** The steps after the flag. *)
Definition late (t : turn) : bool := match t with TGate _ _ | TRequest _ _ | TIdentity _ _ _ => false | _ => true end.

Definition requested (t : turn) : Prop := match t with TGate _ _ | TRequest _ _ => False | _ => True end.

Lemma turn_step_late t s s' t' :
  turn_step from_str rfc3339 t s = (s', inl t') → requested t → late t' = true.
Proof.
  destruct t as [cfg ck|cfg ck|cfg ck parsed|cfg ck parsed|cfg ck parsed|cfg ck parsed [|op ops]|cfg ck e]; cbn [turn_step turn_done]; try done.
  - destruct (on_identity _ _) as [s1 []]; by intros [= _ <-].
  - by intros [= _ <-].
  - case_bool_decide; [done|]. destruct (try_map _ _) as [es|e]; [destruct (deny_sizes es)|]; by intros [= _ <-].
  - destruct (on_deny _ _) as [s1 []]; by intros [= _ <-].
Qed.

Lemma late_unexpired po t s parsed :
  turn_holds po t s → late t = true → verified (turn_config t) (turn_clocks t) = Ok parsed →
  flag_fresh (co_maps (ss_corr s)) = true → ∃ e, ss_expires s = Some e ∧ ck_parse (turn_clocks t) < e.
Proof.
  destruct t as [cfg ck|cfg ck|cfg ck p|cfg ck p|cfg ck p|cfg ck p ops|cfg ck e]; try done;
    cbn [turn_holds turn_config turn_clocks]; intros Hs _ Hv Hf.
  - destruct Hs as [Hv' Hs]. rewrite (ho_expires _ _ Hs). rewrite (ho_fresh _ _ Hs) in Hf. by apply (named_unexpired cfg ck p false).
  - destruct Hs as [Hv' Hs]. rewrite (ho_expires _ _ Hs). rewrite (ho_fresh _ _ Hs) in Hf. by apply (named_unexpired cfg ck p (sc_hooks cfg)).
  - destruct Hs as (Hv' & _ & es & k & _ & _ & _ & _ & _ & Hs). rewrite (ho_expires _ _ Hs). rewrite (ho_fresh _ _ Hs) in Hf.
    by apply (named_unexpired cfg ck p (sc_hooks cfg)).
  - destruct Hs as [_ [(e' & Hv' & _)|(p & Hv' & _ & _ & Hs)]]; [congruence|]. rewrite (ho_expires _ _ Hs). rewrite (ho_fresh _ _ Hs) in Hf.
    by apply (named_unexpired cfg ck p (sc_hooks cfg)).
Qed.

Lemma late_verified po t s s' t' :
  turn_holds po t s → turn_step from_str rfc3339 t s = (s', inl t') →
  requested t → ∃ parsed, verified (turn_config t) (turn_clocks t) = Ok parsed.
Proof.
  destruct t as [cfg ck|cfg ck|cfg ck p|cfg ck p|cfg ck p|cfg ck p ops|cfg ck e]; try done; cbn [turn_holds turn_config turn_clocks].
  - intros [Hv _]. by eexists.
  - intros [Hv _]. by eexists.
  - intros [Hv _]. by eexists.
  - intros [Hv _]. by eexists.
Qed.

Lemma latest_late slack due t : late t = true → latest slack due (Some t) ≤ ck_parse (turn_clocks t) + slack.
Proof. destruct t; try done; cbn; lia. Qed.

Lemma policy_flag_step slack due po t nd nd' :
  nd_turn nd = Some t → policy_task from_str rfc3339 nd = Some nd' →
  turn_fits from_str rfc3339 (turn_config t) (turn_clocks t) → turn_holds po t (nd_sync nd) →
  ck_parse (turn_clocks t) ≤ ck_after (turn_clocks t) → flag_ok slack due nd →
  flag_ok slack (due_after from_str rfc3339 slack due nd NPolicy) nd'.
Proof.
  intros Hturn E Hfit Hs Hck Hok. unfold policy_task, due_after in *. rewrite Hturn in *. cbn [mbind option_bind] in E.
  pose proof (turn_step_holds po t _ Hfit Hs) as Ht. unfold flag_ok in Hok |- *. rewrite Hturn in Hok.
  destruct (turn_step from_str rfc3339 t (nd_sync nd)) as [s' [t'|e]] eqn:Est; injection E as <-; cbn [snd nd_sync nd_turn]; cbn [turn_after] in Ht.
  - destruct Ht as (Hcfg & Hclk & Ht). intros Hf.
    assert (requested t → ∃ e, ss_expires s' = Some e ∧ latest slack due (Some t') < e + EXCEPTION_OVERRUN + slack) as Hlate.
    { intros Hq. destruct (late_verified _ _ _ _ _ Hs Est Hq) as [parsed Hv]. pose proof (turn_step_late _ _ _ _ Est Hq) as Hl.
      rewrite <- Hcfg, <- Hclk in Hv. destruct (late_unexpired po t' s' parsed Ht Hl Hv Hf) as (e & He & Hlt). exists e. split; [done|].
      pose proof (latest_late slack due t' Hl). unfold EXCEPTION_OVERRUN, secs in *. lia. }
    destruct t as [cfg ck|cfg ck|cfg ck p|cfg ck p|cfg ck p|cfg ck p ops|cfg ck e].
    + injection Est as <- <-. cbn [turn_holds] in Hs, Ht. rewrite (ho_fresh _ _ Ht) in Hf. cbn in Hf.
      destruct (po_fresh po) eqn:Hpo; [|done]. destruct Hok as (e & He & Hlt); [by rewrite (ho_fresh _ _ Hs)|].
      exists e. split; [|done]. by rewrite (ho_expires _ _ Ht), <- He, (ho_expires _ _ Hs).
    + injection Est as <- <-. destruct (Hok Hf) as (e & He & Hlt). exists e. split; [done|]. cbn [latest] in Hlt.
      destruct (verified cfg ck); cbn [latest turn_clocks]; lia.
    + by apply Hlate.
    + by apply Hlate.
    + by apply Hlate.
    + by apply Hlate.
    + by apply Hlate.
  - destruct Ht as [Ht Hsl]. intros Hf. rewrite (ho_fresh _ _ Ht) in Hf. rewrite (ho_expires _ _ Ht).
    destruct (policy_sync_unexpired _ _ _ Hck Hf) as (x & -> & Hlt). exists x. split; [done|].
    cbn [latest]. unfold next_due, EXCEPTION_OVERRUN, POLICY_SYNC_INTERVAL, POLICY_HTTP_TIMEOUT, secs in *. lia.
Qed.

Lemma flag_step slack due po ts nd ev nd' :
  node_step nd ev = Some nd' → node_holds po ts nd →
  (∀ t, nd_turn nd = Some t → ck_parse (turn_clocks t) ≤ ck_after (turn_clocks t)) →
  flag_ok slack due nd → flag_ok slack (due_after from_str rfc3339 slack due nd ev) nd'.
Proof.
  intros E Hh Hck Hok. destruct ev as [cfg ck| |ev|client paths over|ids|w fs live|env off]; cbn [System.node_step] in E.
  - unfold flag_ok, due_after in *. destruct (nd_turn nd) as [t|]; [done|]. destruct (nd_work nd Policy); [|done].
    destruct (existsb _ _); [done|]. by injection E as <-.
  - unfold node_holds in Hh. destruct (nd_turn nd) as [t|] eqn:Ht; [|unfold policy_task in E; by rewrite Ht in E].
    destruct Hh as (ts0 & _ & Hfit & Hs). by apply (policy_flag_step slack due (policy_run po ts0) t); [| | | |apply Hck|].
  - destruct (nd_work nd Loop); [|done]. by injection E as <-.
  - destruct (nd_work nd Loop); [|done]. by injection E as <-.
  - destruct (nd_work nd Start); [|done]. by injection E as <-.
  - apply node_work_same in E as (Hs & Ht & _). unfold flag_ok, due_after in *. rewrite Ht.
    destruct Hs as (_ & _ & -> & _ & Hv). unfold flag_fresh, valid_flag in *. rewrite Hv. exact Hok.
  - unfold exec_step in E. destruct (nm_lsm_bprm _ _ _). by injection E as <-.
Qed.

Lemma clocks_step nd ev nd' :
  node_step nd ev = Some nd' → (match ev with NTurn _ ck => bool_decide (ck_parse ck ≤ ck_after ck) | _ => true end = true) →
  (∀ t, nd_turn nd = Some t → ck_parse (turn_clocks t) ≤ ck_after (turn_clocks t)) →
  ∀ t, nd_turn nd' = Some t → ck_parse (turn_clocks t) ≤ ck_after (turn_clocks t).
Proof.
  intros E Hc Hck t. destruct ev as [cfg ck| |ev|client paths over|ids|w fs live|env off]; cbn [System.node_step] in E.
  - destruct (nd_turn nd) as [t0|]; [done|]. destruct (nd_work nd Policy); [|done]. destruct (existsb _ _); [done|].
    injection E as <-. intros [= <-]. by apply bool_decide_eq_true in Hc.
  - unfold policy_task in E. destruct (nd_turn nd) as [t0|]; [|done]. cbn [mbind option_bind] in E.
    assert (∀ s' t', turn_step from_str rfc3339 t0 (nd_sync nd) = (s', inl t') → turn_clocks t' = turn_clocks t0) as Hsame.
    { intros s' t'. clear. destruct t0 as [cfg ck|cfg ck|cfg ck p|cfg ck p|cfg ck p|cfg ck p [|op ops]|cfg ck e]; cbn [turn_step turn_done]; try done.
      - by intros [= _ <-].
      - intros [= _ <-]. by destruct (verified cfg ck).
      - destruct (on_identity _ _) as [s1 []]; by intros [= _ <-].
      - by intros [= _ <-].
      - case_bool_decide; [done|]. destruct (try_map _ _) as [es|e]; [destruct (deny_sizes es)|]; by intros [= _ <-].
      - destruct (on_deny _ _) as [s1 []]; by intros [= _ <-]. }
    destruct (turn_step from_str rfc3339 t0 (nd_sync nd)) as [s' [t'|e]] eqn:Est; injection E as <-; [|done]. intros [= <-].
    rewrite (Hsame s' t' eq_refl). by apply Hck.
  - destruct (nd_work nd Loop); [|done]. injection E as <-. apply Hck.
  - destruct (nd_work nd Loop); [|done]. injection E as <-. apply Hck.
  - destruct (nd_work nd Start); [|done]. injection E as <-. apply Hck.
  - apply node_work_same in E as (_ & -> & _). apply Hck.
  - unfold exec_step in E. destruct (nm_lsm_bprm _ _ _). injection E as <-. apply Hck.
Qed.

Lemma paced_overrun slack po : ∀ evs due ts nd,
  node_holds po ts nd → Forall (event_fits from_str rfc3339) evs.*2 →
  (∀ t, nd_turn nd = Some t → ck_parse (turn_clocks t) ≤ ck_after (turn_clocks t)) → flag_ok slack due nd →
  ∀ t env off, paced from_str rfc3339 icfg slack due nd (evs ++ [(t, NExec env off)]) = true →
  ∃ nd', node_run nd evs.*2 = Some nd' ∧
    (flag_fresh (co_maps (ss_corr (nd_sync nd'))) = true →
     ∃ e, ss_expires (nd_sync nd') = Some e ∧ t < e + EXCEPTION_OVERRUN + slack).
Proof.
  induction evs as [|[t0 ev] evs IH]; intros due ts nd Hh Hfit Hck Hok t env off; cbn [app paced].
  { rewrite !andb_true_iff. intros [[Ht _] _]. bool_split. exists nd. split; [done|]. intros (e & He & Hlt)%Hok. exists e. split; [done|lia]. }
  rewrite !andb_true_iff. intros [[_ Hc] Hp]. apply Forall_cons in Hfit as [Hev Hfit]. cbn in Hev.
  destruct (node_step nd ev) as [nd1|] eqn:E; [|done].
  destruct (IH (due_after from_str rfc3339 slack due nd ev) (ts ++ turns [ev]) nd1) with (t := t) (env := env) (off := off) as (nd' & Hr & Hx); try done.
  - by eapply node_step_holds.
  - by apply (clocks_step nd ev nd1 E Hc).
  - by eapply flag_step.
  - exists nd'. split; [|done]. cbn. by rewrite E.
Qed.

(** ** Properties *)



(** C7: how long an exception can outlive its expiry. In a run that keeps the pace
    of the loop, an execution of a denied path that is allowed at time [t] comes
    less than 310 seconds, plus the slack of the scheduler, after the expiry on
    record: 300 of them are the longest sleep a rate-limit answer can ask for. The run
    starts with the exceptions off, its tasks idle and its maps holding a policy, and
    its array updates in range succeed; executions may fall between any two steps of
    the tasks. *)
Theorem node_exception_overrun slack due nd po evs t env off path :
  idle_node nd po → po_fresh po = false → Forall (event_fits from_str rfc3339) evs.*2 →
  paced from_str rfc3339 icfg slack due nd (evs ++ [(t, NExec env off)]) = true →
  ∃ nd', node_run nd evs.*2 = Some nd' ∧
    (path_read env off = Some path → is_blacklisted_path (ss_deny (nd_sync nd')) path = true →
     (exec_step env off nd').2 = LSM_ALLOW →
     ∃ e, ss_expires (nd_sync nd') = Some e ∧ t < e + secs 310 + slack).
Proof.
  intros Hi Hf Hfit Hp. pose proof (idle_holds nd po Hi) as Hh. destruct Hi as (Hs & Ht & Hw).
  destruct (paced_overrun slack po evs due [] nd Hh Hfit) with (t := t) (env := env) (off := off) as (nd' & Hr & Hx); [by rewrite Ht| |done|].
  { intros Hfl. rewrite (ho_fresh _ _ Hs), Hf in Hfl. done. }
  exists nd'. split; [done|]. intros Hpath Hden Hallow. apply Hx.
  pose proof (node_run_holds po [] nd evs.*2 nd' Hr Hfit Hh) as Hh'. destruct (node_holds_force _ _ _ Hh') as (po' & _ & Hs').
  rewrite (exec_verdict nd' po') in Hallow by done. rewrite Hpath in Hallow. cbn in Hallow.
  rewrite is_blacklisted_active, (ho_deny _ _ Hs') in Hden by apply Hs'. rewrite Hden in Hallow. rewrite (ho_fresh _ _ Hs').
  by destruct (starts_with path (lit "/tmp/")), (po_fresh po').
Qed.
End refinement.

(** ** Samples

    A node that has just started with the bootstrap list, a synchronisation that
    allows one workload, its pod, and its executions. *)
#[local] Existing Instance demo_cosign.

Abbreviation demo_node_t :=
  (node (rel_array PathDenyEntry PATH_DENY_MAX_ENTRIES) (rel_array Z 1) (rel_hash Z) (rel_array Z 1) (sim_ring ExecEvent)).
Definition demo_node : demo_node_t :=
  mkNode
    (mkSyncState
      (bootstrap_deny_maps 0 (mkPathDenyMaps (mkRelArray PathDenyEntry_default ∅) (mkRelArray 0 ∅))).1
      (mkCorr st_new (mkIdentityAllowMaps (mkRelHash ∅ 1024) (mkRelArray 0 ∅)) ∅ [] true)
      (ps_fresh 0 (lit "bootstrap")) None)
    None (λ _, []) [mkTelemetryHealthStats 0 0] (mkSimRing [] 16).
Definition demo_policy : policy := mkPolicy (lit "bootstrap") bootstrap_list ∅ None false.

Lemma demo_node_idle : idle_node demo_node demo_policy.
Proof.
  split_and!; [|done|done]. split; try by vm_compute.
  unfold deny_typed. apply (Forall_impl wf_entry); [|by intros e [_ ?]].
  apply (bool_decide_eq_true_1 (Forall wf_entry _)). by vm_compute.
Qed.

Abbreviation demo_bundle := (demo_from_str demo_prefixes (lit "190")).
(** A whole turn: five steps up to the writes, 65 updates, the end. *)
Definition demo_turn (n : nat) : list node_event := NTurn demo_ok_cfg (demo_clocks (secs 120)) :: replicate n NPolicy.
Definition demo_node_evs : list node_event :=
  demo_turn 71 ++ replicate 2 (NWork Policy demo_fs (Ok ∅)) ++
  [NPod (Upsert (demo_pod (lit "web")))] ++ replicate 4 (NWork Loop demo_fs (Ok ∅)).
Definition demo_after (evs : list node_event) : demo_node_t :=
  default demo_node (node_run demo_bundle demo_rfc3339 demo_cfg demo_node evs).

Lemma demo_after_run evs :
  bool_decide (is_Some (node_run demo_bundle demo_rfc3339 demo_cfg demo_node evs)) = true →
  node_run demo_bundle demo_rfc3339 demo_cfg demo_node evs = Some (demo_after evs).
Proof. intros [nd Hn]%bool_decide_eq_true. unfold demo_after. by rewrite Hn. Qed.

Lemma demo_turn_fits : turn_fits demo_bundle demo_rfc3339 demo_ok_cfg (demo_clocks (secs 120)).
Proof. intros parsed Hv. vm_compute in Hv. injection Hv as <-. vm_compute. reflexivity. Qed.
Lemma demo_fits n rest :
  Forall (λ ev, match ev with NTurn _ _ => false | _ => true end = true) rest →
  Forall (event_fits demo_bundle demo_rfc3339) (demo_turn n ++ rest).
Proof.
  intros Hr. apply Forall_app. split; [|eapply Forall_impl; [exact Hr|]; by intros []].
  constructor; [apply demo_turn_fits|]. induction n; by constructor.
Qed.



(** The turn at 120 seconds, the pod and its execution twenty seconds later. *)
Definition demo_timed : list (Z * node_event) :=
  map (pair (secs 120)) (demo_turn 71) ++ map (pair (secs 130)) (drop 72 demo_node_evs).

Lemma node_exception_overrun_witness :
  ∃ nd', node_run demo_bundle demo_rfc3339 demo_cfg demo_node demo_timed.*2 = Some nd' ∧
    (path_read (demo_env (lit "/tmp/tool") 42) demo_offsets = Some (prefix_of_path (lit "/tmp/tool")) →
     is_blacklisted_path (ss_deny (nd_sync nd')) (prefix_of_path (lit "/tmp/tool")) = true →
     (exec_step (demo_env (lit "/tmp/tool") 42) demo_offsets nd').2 = LSM_ALLOW →
     ∃ e, ss_expires (nd_sync nd') = Some e ∧ secs 140 < e + secs 310 + secs 1).
Proof.
  refine (node_exception_overrun demo_bundle demo_rfc3339 demo_cfg (secs 1) (secs 200) demo_node demo_policy demo_timed (secs 140)
    (demo_env (lit "/tmp/tool") 42) demo_offsets (prefix_of_path (lit "/tmp/tool")) demo_node_idle eq_refl _ _).
  - assert (demo_timed.*2 = demo_node_evs) as -> by reflexivity.
    apply demo_fits. apply (bool_decide_eq_true_1 (Forall _ _)). vm_compute. reflexivity.
  - vm_compute. reflexivity.
Defined.
