(* ===== verification/Startup.v ===== *)
(** * Start-up ([main.rs], [startup.rs], [startup_sequence.rs], [visibility.rs])

    The phases that take a node from process start to enforcement, composed from the
    components: attestation, BTF offsets, pin migration, loading, the exception maps,
    the deny list, the link handoff, and the visibility programs. The state is the host
    of [LsmPin], the maps behind the loaded enforcement object, the correlator's state,
    the objects given to the kernel so far and the log lines written.

    [load] stands for aya's loader: it takes a request and, from the pins it finds,
    yields the maps of the object.

    The tasks that start-up spawns run beside it from then on. The correlator's tasks are
    spawned before the manual seeds are registered, the policy task at the end of the
    arming phase, and its first turn is due at once. [background] stands at every point
    where start-up goes from one call to the next; what the tasks do there is the next
    part of a schedule, any sequence of steps of the node's tasks ([System]) and of the
    branches in which the policy task does not synchronise. *)

From stdpp Require Import functions.
From S2P Require Import Prelude RustStd Common Bpf PathDeny LsmHook DenyRefine IdentityAllow Attestation SideTable CgroupPath PodWatch Correlator CorrelatorSteps PolicySync PolicySteps System PinAbi BtfOffsets LsmPin Metrics Integrity.

(** ** [startup_sequence.rs] *)
Definition LOG_INITIALIZING : bytes := lit "🚀 [Neuromesh] Initializing Enterprise Agent...".
Definition LOG_ATTESTATION_OK : bytes :=
  lit "🔏 Bytecode attestation verified (signed manifest + embedded digests match)".
Definition LOG_BTF_OFFSETS_PREFIX : bytes :=
  lit "🔎 Resolved kernel-specific struct offsets via BTF: linux_binprm.filename=".
Definition LOG_DENY_BOOTSTRAP : bytes := lit "🛡️ Path-prefix deny list: cold bootstrap (fail-closed defaults)".
Definition LOG_DENY_RESUME_PREFIX : bytes := lit "🛡️ Path-prefix deny list: resuming ".
Definition LOG_LSM_PINNED_PREFIX : bytes := lit "📌 LSM link pinned at ".
Definition LOG_PROCESS_VISIBILITY : bytes := lit "👁️ Process visibility armed via sys_enter_execve + sys_enter_execveat tracepoints (execveat attach also covers fexecve).".
Definition LOG_NETWORK_VISIBILITY : bytes := lit "🌐 Network visibility armed via tcp_connect kprobe.".
Definition LOG_CORRELATION : bytes := lit "🔗 Lock-free correlation engine armed (DashMap PID → process name).".
Definition LOG_CORRELATION_KAFKA : bytes := lit "📨 Correlation Kafka ingestion armed (bounded MPSC → idempotent rdkafka).".
Definition LOG_XDR : bytes := lit "🛡️ XDR enforcement armed. LSM bprm_check_security active blocking enabled.".
Definition LOG_DETECTION_BRAIN : bytes := lit "⚡ Detection brain armed. RuleEngine + DataNormalizer active on ExecEvent v1 streams...".
Definition LOG_PROMETHEUS : bytes := lit "📈 Prometheus /metrics exporter armed (default port 9090, override via NEUROMESH_METRICS_PORT)".
Definition LOG_KAFKA_ARMED : bytes := lit "📡 Kafka Slow Path armed (topic: neuromesh.telemetry.v1)".
Definition LOG_KAFKA_DISABLED : bytes := lit "📡 Kafka Slow Path disabled (set NEUROMESH_KAFKA_BROKERS to enable)".

Definition btf_offsets_log_line (filename real_parent tgid : Z) : bytes :=
  LOG_BTF_OFFSETS_PREFIX ++ to_dec filename ++ lit " task_struct.real_parent=" ++ to_dec real_parent ++
  lit " task_struct.tgid=" ++ to_dec tgid.
Definition deny_resume_log_line (count : Z) : bytes :=
  LOG_DENY_RESUME_PREFIX ++ to_dec count ++ lit " pinned entries (skip bootstrap; STALE until policy sync)".
Definition lsm_pinned_log_line (path : bytes) : bytes :=
  LOG_LSM_PINNED_PREFIX ++ path ++ lit " (enforcement survives agent process exit)".
Definition manual_seeds_log_line (count : Z) : bytes :=
  lit "⚠️ Manual identity cgroup seeds applied (lab/test): " ++ to_dec count ++
  lit " id(s) — VALID still requires fresh PE identity section".
Definition map_pinning_log_line (root : bytes) : bytes :=
  lit "📌 eBPF map pinning active under " ++ root ++ lit " (" ++ PROCESS_EVENTS_MAP ++ lit ", " ++ RATE_LIMIT_BUCKET_MAP ++ lit ")".
Definition health_monitor_log_line : bytes :=
  lit "🩺 Health monitor armed (kernel " ++ lit "RLIMIT_DROPS" ++ lit " + user-space channel backpressure)".

Definition runtime_armed_log_lines (root : bytes) (kafka_brokers_set : bool) : list bytes :=
  [LOG_PROCESS_VISIBILITY; LOG_NETWORK_VISIBILITY; LOG_CORRELATION; LOG_CORRELATION_KAFKA; LOG_XDR;
   LOG_DETECTION_BRAIN; map_pinning_log_line root; LOG_PROMETHEUS; health_monitor_log_line;
   if kafka_brokers_set then LOG_KAFKA_ARMED else LOG_KAFKA_DISABLED].

(** ** The environment and the state *)
Record start_env : Type := mkStartEnv {
  se_read : bytes → read_outcome;
  se_manifest_path : option bytes; se_sig_path : option bytes; se_key_path : option bytes;
  se_sys_exec : bytes; se_network_filter : bytes; se_enforcement : bytes;
  se_attestation_only : option bytes;
  se_btf : result bytes;
  se_pin_root : option bytes;
  se_manual_seeds : option bytes;
  se_correlator : option bytes; se_node_name : option bytes; se_cgroup_root : option bytes; se_trust_domain : option bytes;
  se_cgroup_fs : Fs;
  se_integrity : node_view; se_readlink : result bytes;
  se_interval : option bytes; se_exit : option bytes; se_on_disk : option bytes; se_digest : option bytes;
  se_kafka_brokers : option bytes;
  se_policy_url : option bytes; se_policy_token : result bytes; se_policy_pem : result bytes;
  se_now : Z
}.

(** ** The spawned tasks *)

(** Where the policy task is: not spawned yet; in the branch that ends synchronisation,
    before and after its flag is written; idle in that branch; or in the loop. *)
Inductive policy_phase : Type :=
| PUnspawned
| PDisable (reason : string)
| PClear (reason : string)
| PIdle (reason : string)
| PLoop (base_url token pem : bytes).

(** A step of a task: one of the node's; the next step of a disabled policy task, and a
    tick of its idle loop. *)
Inductive bg_event : Type :=
| BNode (ev : node_event)
| BDisable
| BIdle (now : Z).

Record bg (R : Type) : Type := mkBg {
  bg_correlator : bool;
  bg_policy : policy_phase;
  bg_state : PolicySyncState; bg_expires : option Z;
  bg_turn : option turn; bg_work : worklists;
  bg_stats : list TelemetryHealthStats; bg_ring : R;
  bg_schedule : list (list bg_event)
}.
Arguments mkBg {R}.
Arguments bg_correlator {R}.
Arguments bg_policy {R}.
Arguments bg_state {R}.
Arguments bg_expires {R}.
Arguments bg_turn {R}.
Arguments bg_work {R}.
Arguments bg_stats {R}.
Arguments bg_ring {R}.
Arguments bg_schedule {R}.

(** The steps the spawned tasks can take. A turn is run with the address, token and key
    the task was started with. Executions write no map that start-up or a task reads. *)
Definition may_run {R} (b : bg R) (ev : node_event) : bool :=
  match ev with
  | NTurn cfg _ =>
      match bg_policy b with
      | PLoop url token pem =>
          bool_decide (sc_base_url cfg = url ∧ sc_token cfg = token ∧ sc_pem cfg = pem ∧ sc_hooks cfg = true)
      | _ => false
      end
  | NPolicy => match bg_policy b with PLoop _ _ _ => true | _ => false end
  | NWork Policy _ _ => match bg_policy b with PUnspawned => false | _ => true end
  | NPod _ | NBatch _ _ _ | NWork Loop _ _ => bg_correlator b
  | NSeeds _ | NWork Start _ _ | NExec _ _ => false
  end.

Section startup.
Context `{Cosign} (manifest_from_slice : bytes → option Manifest).
Context (from_str : bytes → option BundleDoc) (rfc3339 : bytes → option Z).
Context {ML MC MH MV R : Type} `{ArrayMap PathDenyEntry ML, ArrayMap Z MC, HashMap Z MH, ArrayMap Z MV}.
Context `{RingBuf ExecEvent R}.

Record sys : Type := mkSys {
  y_host : host;
  y_deny : PathDenyMaps ML MC;
  y_corr : corr MH MV;
  y_loaded : list LoadRequest;
  y_metrics : AgentMetrics;
  y_log : list bytes;
  y_bg : bg R
}.

(** The maps the loader hands over. *)
Context (load_enforcement : LoadRequest → stm world (PathDenyMaps ML MC * IdentityAllowMaps MH MV)).
Context (load_visibility : LoadRequest → stm world unit).
Context (env : start_env).

Definition on_host {A} : stm host A → stm sys A :=
  zoom y_host (λ k s, mkSys k (y_deny s) (y_corr s) (y_loaded s) (y_metrics s) (y_log s) (y_bg s)).
Definition on_deny {A} : stm (PathDenyMaps ML MC) A → stm sys A :=
  zoom y_deny (λ d s, mkSys (y_host s) d (y_corr s) (y_loaded s) (y_metrics s) (y_log s) (y_bg s)).
Definition on_corr {A} : stm (corr MH MV) A → stm sys A :=
  zoom y_corr (λ c s, mkSys (y_host s) (y_deny s) c (y_loaded s) (y_metrics s) (y_log s) (y_bg s)).
Definition on_metrics (f : AgentMetrics → AgentMetrics) : stm sys unit := λ s,
  (mkSys (y_host s) (y_deny s) (y_corr s) (y_loaded s) (f (y_metrics s)) (y_log s) (y_bg s), Ok ()).
Definition log_line (l : bytes) : stm sys unit := λ s,
  (mkSys (y_host s) (y_deny s) (y_corr s) (y_loaded s) (y_metrics s) (y_log s ++ [l]) (y_bg s), Ok ()).
(** The kernel has accepted an object. *)
Definition loaded (req : LoadRequest) : stm sys unit := λ s,
  (mkSys (y_host s) (y_deny s) (y_corr s) (y_loaded s ++ [req]) (y_metrics s) (y_log s) (y_bg s), Ok ()).
(** A call into the kernel or another library that may fail. *)
Definition library_call : stm sys unit := on_host (host_call (λ k, Ok (k, ()))).

(** ** The tasks beside start-up *)
Definition set_bg (b : bg R) (s : sys) : sys :=
  mkSys (y_host s) (y_deny s) (y_corr s) (y_loaded s) (y_metrics s) (y_log s) b.

(** The node the tasks work on, and what is left of it. *)
Definition node_of (s : sys) : System.node ML MC MH MV R :=
  let b := y_bg s in
  mkNode (mkSyncState (y_deny s) (y_corr s) (bg_state b) (bg_expires b)) (bg_turn b) (bg_work b) (bg_stats b) (bg_ring b).
Definition with_node (nd : System.node ML MC MH MV R) (p : policy_phase) (s : sys) : sys :=
  let b := y_bg s in
  mkSys (y_host s) (ss_deny (nd_sync nd)) (ss_corr (nd_sync nd)) (y_loaded s) (y_metrics s) (y_log s)
    (mkBg (bg_correlator b) p (ss_state (nd_sync nd)) (ss_expires (nd_sync nd)) (nd_turn nd) (nd_work nd)
       (nd_stats nd) (nd_ring nd) (bg_schedule b)).

(** The disabled policy task switches the exceptions off under the map lock, clears the
    allowlist, and has its follow-up to do before it idles. *)
Definition disable_step (s : sys) : option sys :=
  let nd := node_of s in
  match bg_policy (y_bg s) with
  | PDisable reason =>
      if existsb (λ w, holds_maps (nd_work nd w)) (others Policy) then None
      else
        let st := (on_identity (apply_identity_validity (Invalid reason)) (nd_sync nd)).1 in
        Some (with_node (mkNode st (nd_turn nd) (nd_work nd) (nd_stats nd) (nd_ring nd)) (PClear reason) s)
  | PClear reason =>
      let st := (PolicySync.on_corr (λ c, (set_allowlist (pe_clear (co_allowlist c)) c, Ok ())) (nd_sync nd)).1 in
      Some (with_node (mkNode st (nd_turn nd) (<[Policy := followup (Some (Invalid reason))]> (nd_work nd))
                         (nd_stats nd) (nd_ring nd)) (PIdle reason) s)
  | _ => None
  end.

Definition bg_step (icfg : IdentityCorrelatorConfig) (ev : bg_event) (s : sys) : option sys :=
  match ev with
  | BNode ev =>
      if may_run (y_bg s) ev then
        nd ← node_step from_str rfc3339 icfg (node_of s) ev; Some (with_node nd (bg_policy (y_bg s)) s)
      else None
  | BDisable => disable_step s
  | BIdle now =>
      match bg_policy (y_bg s), bg_work (y_bg s) Policy with
      | PIdle reason, [] =>
          let nd := node_of s in
          Some (with_node (mkNode (idle_tick reason now (nd_sync nd)) (nd_turn nd) (nd_work nd) (nd_stats nd) (nd_ring nd))
                  (PIdle reason) s)
      | _, _ => None
      end
  end.

(** A step that cannot be taken is not taken. *)
Definition bg_run (icfg : IdentityCorrelatorConfig) (evs : list bg_event) (s : sys) : sys :=
  foldl (λ s ev, default s (bg_step icfg ev s)) s evs.

Definition background (icfg : IdentityCorrelatorConfig) : stm sys unit := λ s,
  let b := y_bg s in
  match bg_schedule b with
  | [] => (s, Ok ())
  | evs :: rest =>
      (bg_run icfg evs (set_bg (mkBg (bg_correlator b) (bg_policy b) (bg_state b) (bg_expires b) (bg_turn b) (bg_work b)
                                 (bg_stats b) (bg_ring b) rest) s), Ok ())
  end.

Definition spawn_correlator : stm sys unit := λ s,
  let b := y_bg s in
  (set_bg (mkBg true (bg_policy b) (bg_state b) (bg_expires b) (bg_turn b) (bg_work b) (bg_stats b) (bg_ring b)
             (bg_schedule b)) s, Ok ()).

(** The policy task with the state of the seeded list and no expiry yet; which branch it
    takes is settled by its environment. *)
Definition spawn_policy (st : PolicySyncState) : stm sys unit := λ s,
  let b := y_bg s in
  let p := match sync_startup (se_policy_url env) (se_policy_token env) (se_policy_pem env) with
           | StartDisabled reason => PDisable reason
           | StartRunning url token pem => PLoop url token pem
           end in
  (set_bg (mkBg (bg_correlator b) p st None None (bg_work b) (bg_stats b) (bg_ring b) (bg_schedule b)) s, Ok ()).

(** ** [startup.rs] *)
Definition embedded_artifacts : list EmbeddedArtifact :=
  [mkEmbeddedArtifact (lit "sys_exec.bpf.o") (se_sys_exec env);
   mkEmbeddedArtifact (lit "network_filter.bpf.o") (se_network_filter env);
   mkEmbeddedArtifact (lit "agent-ebpf-sensor-ebpf") (se_enforcement env)].

Definition attestation : option (ares unit) :=
  verify_startup manifest_from_slice (se_read env) (se_manifest_path env) (se_sig_path env) (se_key_path env) embedded_artifacts.

Definition attest_bytecode_only : stm sys unit :=
  _ ← st_of_result (match attestation with
                    | Some (AOk _) => Ok ()
                    | Some (AErr _) => Err (EMsg "bytecode attestation failed")
                    | None => Err (EMsg "panic")
                    end);
  log_line LOG_ATTESTATION_OK.

Definition resolve_enforcement_offsets (btf : bytes) : result ResolvedOffsets :=
  match resolve_offsets btf with
  | Ret o => Ok o
  | _ => Err (EMsg "BTF-based struct offset resolution failed")
  end.

Record EnforcementLoaded : Type := mkEnforcementLoaded {
  el_correlator_cfg : IdentityCorrelatorConfig;
  el_manual_seeds : list Z;
  el_maps_preexisted : bool;
  el_deny_seed_override : DenySeedOverride
}.

Definition migration_label (r : MigrationResult) : bytes :=
  match r with
  | Migrated => lit "migrated"
  | ResumedMigration => lit "resumed"
  | BootstrapFallback => lit "bootstrap_fallback"
  | ProcessMapRecreated => lit "process_map_recreated"
  | MCompatible => lit "compatible"
  end.

Definition is_resume (o : DenySeedOverride) : bool := match o with ResumePinned => true | _ => false end.
Definition is_migrated (o : DenySeedOverride) : bool := match o with MigratedEntries _ _ => true | _ => false end.

(** The maps of the fresh object, with a new correlator state over them and no task yet. *)
Definition take_maps (m : PathDenyMaps ML MC * IdentityAllowMaps MH MV) : stm sys unit := λ s,
  let b := y_bg s in
  (mkSys (y_host s) m.1 (mkCorr st_new m.2 pe_new [] true) (y_loaded s) (y_metrics s) (y_log s)
     (mkBg false PUnspawned (bg_state b) (bg_expires b) None (λ _, []) (bg_stats b) (bg_ring b) (bg_schedule b)), Ok ()).

Definition enforcement_request (o : ResolvedOffsets) : LoadRequest :=
  mkLoadRequest (se_enforcement env)
    (Some (mkLsmOffsets (bprm_filename_offset o) (task_real_parent_offset o) (task_tgid_offset o)))
    PINNED_ENFORCEMENT_MAPS.

Definition attest_and_load_enforcement : stm sys EnforcementLoaded :=
  _ ← attest_bytecode_only;
  btf ← st_of_result (with_context "failed to load kernel BTF from /sys/kernel/btf/vmlinux" (se_btf env));
  o ← st_of_result (resolve_enforcement_offsets btf);
  _ ← log_line (btf_offsets_log_line (bprm_filename_offset o) (task_real_parent_offset o) (task_tgid_offset o));
  _ ← st_context "bpffs pin directory unavailable" (on_host prepare_pin_directory);
  prepared ← st_context "pinned BPF map ABI reconcile failed" (on_host (on_world prepare_pin_root_for_load));
  s ← st_get;
  _ ← (match classify_enforcement_pins (y_host s) with
       | InconsistentLinkWithoutMaps => st_fail (EMsg "inconsistent enforcement pins")
       | _ => mret ()
       end);
  maps ← st_context "failed to load enforcement eBPF object"
    (on_host (on_world (load_enforcement (enforcement_request o))));
  _ ← loaded (enforcement_request o);
  _ ← take_maps maps;
  _ ← st_context "failed to initialize ID_EXCEPT_VALID=0" (on_corr (on_maps (set_exceptions_valid false)));
  seeds ← st_context "failed to apply NEUROMESH_IDENTITY_ALLOW_CGROUP_IDS"
    (on_corr (on_maps (apply_manual_cgroup_seeds_from_env (se_manual_seeds env))));
  _ ← (if bool_decide (seeds = []) then mret () else log_line (manual_seeds_log_line (Z.of_nat (length seeds))));
  cfg ← st_of_result (with_context "invalid identity correlator configuration"
    (config_from_env (se_correlator env) (se_node_name env) (se_cgroup_root env) (se_trust_domain env)));
  _ ← on_metrics (λ _, metrics_new (se_now env));
  _ ← for_each (λ r, on_metrics (record_pin_abi_migration (migration_label r))) prepared.2;
  _ ← (if is_migrated prepared.1 then on_metrics (record_pin_abi_mismatch PATH_DENY_LIST_MAP) else mret ());
  mret (mkEnforcementLoaded cfg seeds (is_resume prepared.1) prepared.1).

(** The registration of one seed, a section at a time, with the tasks in between. *)
Definition register_seed (icfg : IdentityCorrelatorConfig) (id : Z) : stm sys unit :=
  _ ← background icfg;
  more ← on_corr (micro_step icfg (se_cgroup_fs env) (Ok ∅) (MRegister id));
  for_each (λ m, _ ← background icfg;
                 _ ← on_corr (micro_step icfg (se_cgroup_fs env) (Ok ∅) m);
                 mret ()) more.

(** The correlator task and its command channel exist exactly when it is enabled. *)
Definition arm_correlator (l : EnforcementLoaded) : stm sys unit :=
  if bool_decide (el_manual_seeds l ≠ []) && negb (cfg_enabled (el_correlator_cfg l)) then
    st_fail (EMsg "manual seeds set but the correlator is disabled")
  else if cfg_enabled (el_correlator_cfg l) then
    _ ← spawn_correlator;
    st_context "failed to register manual cgroup seeds"
      (for_each (register_seed (el_correlator_cfg l)) (el_manual_seeds l))
  else
    if bool_decide (el_manual_seeds l = []) then mret ()
    else st_fail (EMsg "manual cgroup seeds applied but the correlator did not start").

Definition bootstrap_deny : stm sys PolicySyncState :=
  _ ← log_line LOG_DENY_BOOTSTRAP;
  st_context "failed to bootstrap path-prefix deny list" (on_deny (bootstrap_deny_maps (se_now env))).

Definition seed_deny (l : EnforcementLoaded) : stm sys PolicySyncState :=
  match el_deny_seed_override l with
  | Bootstrap => bootstrap_deny
  | ResumePinned =>
      s ← st_get;
      active_count ← st_of_result (active_deny_count (y_deny s));
      seed_plan ← st_of_result (deny_map_seed_plan (el_maps_preexisted l) active_count);
      match seed_plan with
      | PlanBootstrap => bootstrap_deny
      | PlanResumePinned count =>
          _ ← log_line (deny_resume_log_line count);
          mret (policy_state_for_pinned_resume (se_now env))
      end
  | MigratedEntries entries _ =>
      _ ← st_context "failed to seed deny list after pinned-map ABI migration" (on_deny (apply_deny_entries entries));
      mret (policy_state_for_pinned_resume (se_now env))
  end.

(** [program_mut], the conversion and [lsm_program.load]: three calls. *)
Definition load_lsm_program : stm sys unit := _ ← library_call; _ ← library_call; library_call.

Definition arm_correlator_deny_and_lsm (l : EnforcementLoaded) : stm sys (nat * PolicySyncState) :=
  let tasks := background (el_correlator_cfg l) in
  _ ← arm_correlator l;
  _ ← tasks;
  policy_state ← seed_deny l;
  _ ← tasks;
  _ ← load_lsm_program;
  _ ← tasks;
  link ← on_host attach_and_pin_lsm_fail_closed;
  _ ← log_line (lsm_pinned_log_line (ep_link (enforcement_pin_paths (pin_root (se_pin_root env)))));
  _ ← tasks;
  _ ← st_context "failed to cleanup legacy_abi_* after LSM handoff" (on_host (on_world cleanup_legacy_abi_dirs));
  _ ← st_context "failed to cleanup proc_abi_* after LSM handoff" (on_host (on_world cleanup_proc_abi_dirs));
  _ ← tasks;
  _ ← spawn_policy policy_state;
  mret (link, policy_state).

(** ** [visibility.rs] *)
Definition sys_exec_request : LoadRequest := mkLoadRequest (se_sys_exec env) None PINNED_PROCESS_MAPS.
Definition network_request : LoadRequest := mkLoadRequest (se_network_filter env) None [].

Definition arm_visibility_and_observability (icfg : IdentityCorrelatorConfig) : stm sys IntegrityConfig :=
  let tasks := background icfg in
  _ ← tasks; (* ingestion::spawn_from_env *)
  _ ← on_host (load_with_map_pinning load_visibility (se_sys_exec env));
  _ ← loaded sys_exec_request;
  _ ← tasks;
  _ ← st_context "RLIMIT_DROPS map missing from object file" library_call;
  cfg ← st_of_result (with_context "failed to initialize runtime integrity monitor"
    (integrity_config_from_env (se_interval env) (se_exit env) (se_on_disk env) (se_digest env) (se_integrity env)
       (se_readlink env) (pin_root (se_pin_root env)) (lit "/proc/self/exe")));
  _ ← tasks;
  _ ← library_call; (* start_process_monitor *)
  _ ← tasks;
  _ ← library_call; (* spawn_metrics_server *)
  _ ← tasks;
  _ ← on_host (on_world (load_visibility network_request));
  _ ← loaded network_request;
  _ ← tasks;
  _ ← library_call; (* start_network_monitor *)
  _ ← tasks;
  _ ← library_call; (* TELEMETRY_STATS *)
  _ ← tasks;
  _ ← library_call; (* TELEMETRY_RINGBUF *)
  _ ← tasks;
  _ ← library_call; (* AsyncFd::new *)
  _ ← tasks; (* telemetry_stream::spawn_from_env *)
  mret cfg.

Definition emit_runtime_armed : stm sys unit :=
  for_each log_line (runtime_armed_log_lines (pin_root (se_pin_root env)) (bool_decide (is_Some (se_kafka_brokers env)))).

(** ** [main.rs] up to [event_loop::run] *)
Definition main_phases : stm sys unit :=
  _ ← log_line LOG_INITIALIZING;
  l ← attest_and_load_enforcement;
  _ ← arm_correlator_deny_and_lsm l;
  _ ← arm_visibility_and_observability (el_correlator_cfg l);
  emit_runtime_armed.

Definition main : stm sys unit :=
  if bool_decide (se_attestation_only env = Some (lit "1")) then attest_bytecode_only else main_phases.
End startup.

(** ** What each step leaves alone *)
Section frame_lemmas.
Context `{Cosign} (from_str : bytes → option BundleDoc) (rfc3339 : bytes → option Z).
Context {ML MC MH MV R : Type} `{ArrayMap PathDenyEntry ML, ArrayMap Z MC, HashMap Z MH, ArrayMap Z MV}.
Context `{RingBuf ExecEvent R}.
Abbreviation sys := (@sys ML MC MH MV R).

Definition host_links (k : host) : option nat * option nat * nat := (h_link k, h_tmp k, h_next k).
Definition sys_links (s : sys) := host_links (y_host s).

Lemma on_world_links {A} (m : stm world A) : frames host_links (on_world m).
Proof. by apply frames_zoom. Qed.
Lemma null_call_links : frames host_links (host_call (λ k, Ok (k, ()))).
Proof. intros k. unfold host_call. by destruct (next_fault _) as [[] rest]. Qed.
Lemma prepare_pin_directory_links : frames host_links prepare_pin_directory.
Proof.
  intros k. unfold prepare_pin_directory. destruct (h_bpffs k); cbn [negb]; [|done].
  by apply (frames_context host_links _ _ null_call_links).
Qed.
Lemma load_with_map_pinning_links {E} (load : LoadRequest → stm world E) bytecode :
  frames host_links (load_with_map_pinning load bytecode).
Proof.
  unfold load_with_map_pinning. apply frames_bind; [apply prepare_pin_directory_links|intros u].
  apply frames_bind; [apply on_world_links|intros r]. apply frames_context, on_world_links.
Qed.

Lemma on_host_links {A} (m : stm host A) : frames host_links m → frames sys_links (on_host (ML:=ML) (MC:=MC) (MH:=MH) (MV:=MV) (R:=R) m).
Proof. intros Hm s. unfold on_host, zoom. specialize (Hm (y_host s)). by destruct (m (y_host s)). Qed.

Section other_views.
Context {A : Type} {V : Type}.
Lemma on_host_frames (view : sys → V) (m : stm host A) :
  (∀ k s, view (mkSys k (y_deny s) (y_corr s) (y_loaded s) (y_metrics s) (y_log s) (y_bg s)) = view s) → frames view (on_host m).
Proof. intros Hv. apply frames_zoom. exact Hv. Qed.
Lemma on_deny_frames (view : sys → V) (m : stm (PathDenyMaps ML MC) A) :
  (∀ d s, view (mkSys (y_host s) d (y_corr s) (y_loaded s) (y_metrics s) (y_log s) (y_bg s)) = view s) → frames view (on_deny m).
Proof. intros Hv. apply frames_zoom. exact Hv. Qed.
Lemma on_corr_frames (view : sys → V) (m : stm (corr MH MV) A) :
  (∀ c s, view (mkSys (y_host s) (y_deny s) c (y_loaded s) (y_metrics s) (y_log s) (y_bg s)) = view s) → frames view (on_corr m).
Proof. intros Hv. apply frames_zoom. exact Hv. Qed.
End other_views.

(** The tasks write the maps, the correlator's state and their own. *)
Section task_views.
Context {V : Type} (view : sys → V).
Hypothesis Hview : ∀ d c b s, view (mkSys (y_host s) d c (y_loaded s) (y_metrics s) (y_log s) b) = view s.

Lemma bg_step_view icfg ev s s' : bg_step from_str rfc3339 icfg ev s = Some s' → view s' = view s.
Proof.
  destruct ev as [ev| |now]; cbn [bg_step].
  - destruct (may_run _ ev); [|done]. destruct (node_step _ _ _ _ _) as [nd|]; [|done]. intros [= <-]. apply Hview.
  - unfold disable_step. destruct (bg_policy (y_bg s)); try done; [destruct (existsb _ _); [done|]|]; intros [= <-]; apply Hview.
  - destruct (bg_policy (y_bg s)); try done. destruct (bg_work _ _); [|done]. intros [= <-]. apply Hview.
Qed.
Lemma bg_run_view icfg evs s : view (bg_run from_str rfc3339 icfg evs s) = view s.
Proof.
  revert s. induction evs as [|ev evs IH]; intros s; [done|]. unfold bg_run in *. cbn [foldl]. rewrite IH.
  destruct (bg_step _ _ _ _ _) as [s'|] eqn:E; [|done]. by apply bg_step_view in E.
Qed.
Lemma background_frames icfg : frames view (background from_str rfc3339 icfg).
Proof. intros s. unfold background. destruct (bg_schedule _) as [|evs rest]; [done|]. cbn. rewrite bg_run_view. apply Hview. Qed.
Lemma spawn_frames_correlator : frames view spawn_correlator.
Proof. intros s. apply Hview. Qed.
Lemma spawn_frames_policy env st : frames view (spawn_policy env st).
Proof. intros s. apply Hview. Qed.
End task_views.
End frame_lemmas.

(** Steps over the parts a view does not look at. *)
Ltac frame_step :=
  repeat first
    [ match goal with |- ∀ _, frames _ _ => intros ? end
    | apply frames_bind
    | apply frames_context
    | apply frames_ret | apply frames_fail | apply frames_of_result | apply frames_get
    | apply frames_for_each
    | apply on_host_links; first [ apply on_world_links | apply null_call_links | apply prepare_pin_directory_links
                                 | apply load_with_map_pinning_links ]
    | apply on_host_frames; done | apply on_deny_frames; done | apply on_corr_frames; done
    | apply background_frames; done | apply spawn_frames_correlator; done | apply spawn_frames_policy; done
    | (match goal with |- frames _ (if ?b then _ else _) => destruct b end)
    | (match goal with |- frames _ (match ?b with _ => _ end) => destruct b end)
    | (let s := fresh in intros s; reflexivity) ].

Section fail_closed.
Context `{Cosign} (manifest_from_slice : bytes → option Manifest).
Context (from_str : bytes → option BundleDoc) (rfc3339 : bytes → option Z).
Context {ML MC MH MV R : Type} `{ArrayMap PathDenyEntry ML, ArrayMap Z MC, HashMap Z MH, ArrayMap Z MV}.
Context `{RingBuf ExecEvent R}.
Context (load_enforcement : LoadRequest → stm world (PathDenyMaps ML MC * IdentityAllowMaps MH MV)).
Context (load_visibility : LoadRequest → stm world unit) (env : start_env).
Abbreviation sys := (@sys ML MC MH MV R).

Lemma seed_deny_frames {V} (view : sys → V) l :
  (∀ d s lg, view (mkSys (y_host s) d (y_corr s) (y_loaded s) (y_metrics s) lg (y_bg s)) = view s) →
  frames view (seed_deny env l).
Proof.
  intros Hv. assert (∀ b, frames view (log_line (MH:=MH) (MV:=MV) (R:=R) b)) as Hl by (intros b s; apply (Hv (y_deny s) s)).
  assert (∀ A (m : stm (PathDenyMaps ML MC) A), frames view (on_deny m)) as Hd.
  { intros A m. apply on_deny_frames. intros. apply Hv. }
  assert (frames view (bootstrap_deny env)) as Hb.
  { unfold bootstrap_deny. apply frames_bind; [apply Hl|intros u]. apply frames_context, Hd. }
  unfold seed_deny. destruct (el_deny_seed_override l) as [| |es fl].
  - done.
  - apply frames_bind; [apply frames_get|intros s]. apply frames_bind; [apply frames_of_result|intros n].
    apply frames_bind; [apply frames_of_result|intros p]. destruct p; [done|].
    apply frames_bind; [apply Hl|intros u; apply frames_ret].
  - apply frames_bind; [apply frames_context, Hd|intros u; apply frames_ret].
Qed.

Lemma load_phase_links : frames (λ s : sys, sys_links s) (attest_and_load_enforcement manifest_from_slice load_enforcement env).
Proof. unfold attest_and_load_enforcement, attest_bytecode_only, log_line, loaded, take_maps, on_metrics. frame_step. Qed.

Lemma arm_correlator_frames {V} (view : sys → V) l :
  (∀ d c b s, view (mkSys (y_host s) d c (y_loaded s) (y_metrics s) (y_log s) b) = view s) →
  frames view (arm_correlator from_str rfc3339 env l).
Proof.
  intros Hv. assert (∀ A (m : stm (corr MH MV) A), frames view (on_corr m)) as Hc by (intros A m; apply on_corr_frames; intros; apply Hv).
  unfold arm_correlator, register_seed.
  frame_step; first [by apply background_frames | by apply spawn_frames_correlator | apply Hc].
Qed.

Lemma arm_phase_loaded l : frames (λ s : sys, y_loaded s) (arm_correlator_deny_and_lsm from_str rfc3339 env l).
Proof.
  unfold arm_correlator_deny_and_lsm, load_lsm_program, library_call, log_line.
  apply frames_bind; [by apply arm_correlator_frames|intros u]. apply frames_bind; [by apply background_frames|intros u'].
  apply frames_bind; [by apply seed_deny_frames|]. frame_step.
Qed.

Lemma visibility_links icfg : frames (λ s : sys, sys_links s) (arm_visibility_and_observability from_str rfc3339 load_visibility env icfg).
Proof. unfold arm_visibility_and_observability, library_call, loaded. frame_step. Qed.

Lemma emit_frames {V} (view : sys → V) :
  (∀ s lg, view (mkSys (y_host s) (y_deny s) (y_corr s) (y_loaded s) (y_metrics s) lg (y_bg s)) = view s) →
  frames view (emit_runtime_armed env).
Proof. intros Hv. unfold emit_runtime_armed. apply frames_for_each. intros x s. apply Hv. Qed.

(** ** Which objects reach the kernel *)
Definition attested : Prop := attestation manifest_from_slice env = Some (AOk ()).
Definition resolved (o : ResolvedOffsets) : Prop :=
  ∃ btf, se_btf env = Ok btf ∧ resolve_offsets btf = Ret o.
Definition load_sequence (o : ResolvedOffsets) : list LoadRequest :=
  [enforcement_request env o; sys_exec_request env; network_request env].

(** The objects loaded since [L0]: none, or after attestation an initial part of the
    three embedded ones, the first with the offsets of the running kernel. *)
Definition authentic (L0 : list LoadRequest) (s : sys) : Prop :=
  ∃ new, y_loaded s = L0 ++ new ∧
    (new = [] ∨ attested ∧ ∃ o, resolved o ∧ new `prefix_of` load_sequence o).

Lemma authentic_none L0 s : y_loaded s = L0 → authentic L0 s.
Proof. intros E. exists []. rewrite app_nil_r. auto. Qed.
Lemma authentic_some L0 o new s : attested → resolved o → new `prefix_of` load_sequence o →
  y_loaded s = L0 ++ new → authentic L0 s.
Proof. intros Ha Ho Hp E. exists new. split; [done|]. right. eauto. Qed.

(** A step that loads nothing. *)
Lemma hoare_unloaded {A} (E : sys → Prop) L (m : stm sys A) :
  frames (λ s : sys, y_loaded s) m → (∀ s, y_loaded s = L → E s) →
  hoare E (λ s, y_loaded s = L) m (λ _ s, y_loaded s = L).
Proof. intros Hm HE. exact (hoare_frames (λ s : sys, y_loaded s) m E (λ l, l = L) Hm HE). Qed.

Lemma hoare_loaded (E : sys → Prop) L req :
  hoare E (λ s, y_loaded s = L) (loaded req) (λ _ s, y_loaded s = L ++ [req]).
Proof. intros s <-. done. Qed.

Lemma load_phase_spec L0 :
  hoare (authentic L0) (λ s, y_loaded s = L0) (attest_and_load_enforcement manifest_from_slice load_enforcement env)
    (λ _ s, attested ∧ ∃ o, resolved o ∧ y_loaded s = L0 ++ [enforcement_request env o]).
Proof.
  pose proof (authentic_none L0) as HE.
  unfold attest_and_load_enforcement, attest_bytecode_only.
  eapply hoare_bind with (Q := λ _ s, attested ∧ y_loaded s = L0).
  { eapply hoare_bind; [apply (hoare_of_result _ _ _ (λ _ s, attested ∧ y_loaded s = L0)); [apply HE|]|].
    - intros [] s Ha Hs. split; [|done]. unfold attested. by destruct (attestation _ _) as [[[]|]|].
    - intros u. apply hoare_pure. intros Ha. eapply hoare_weaken; [apply (hoare_unloaded _ L0 (log_line _)); [by intros s|apply HE]|done|].
      intros u' s Hs. by split. }
  intros u. apply hoare_pure. intros Ha.
  eapply hoare_bind; [apply (hoare_of_result _ _ _ (λ b s, with_context "failed to load kernel BTF from /sys/kernel/btf/vmlinux" (se_btf env) = Ok b ∧ y_loaded s = L0)); [apply HE|by intros]|].
  intros btf. apply hoare_pure. intros Hbtf. apply with_context_Ok in Hbtf.
  eapply hoare_bind; [apply (hoare_of_result _ _ _ (λ o s, resolve_enforcement_offsets btf = Ok o ∧ y_loaded s = L0)); [apply HE|by intros]|].
  intros o. apply hoare_pure. intros Ho.
  assert (resolved o) as Hres.
  { exists btf. split; [done|]. unfold resolve_enforcement_offsets in Ho. destruct (resolve_offsets btf); naive_solver. }
  do 5 (eapply hoare_bind; [apply (hoare_unloaded _ L0); [unfold log_line; frame_step|apply HE]|intros ?]).
  eapply hoare_bind; [apply (hoare_unloaded _ L0); [frame_step|apply HE]|intros maps].
  eapply hoare_bind; [apply hoare_loaded|intros ?].
  eapply hoare_weaken; [apply (hoare_unloaded _ (L0 ++ [enforcement_request env o])); [unfold take_maps, log_line, on_metrics; frame_step|]|done|].
  - intros s Hs. eapply authentic_some; [done|done| |done]. by exists [sys_exec_request env; network_request env].
  - intros l s Hs. split; [done|]. by exists o.
Qed.

Lemma visibility_phase_spec icfg L0 o : attested → resolved o →
  hoare (authentic L0) (λ s, y_loaded s = L0 ++ [enforcement_request env o])
    (arm_visibility_and_observability from_str rfc3339 load_visibility env icfg) (λ _ s, y_loaded s = L0 ++ load_sequence o).
Proof.
  intros Ha Ho.
  assert (∀ new s, new `prefix_of` load_sequence o → y_loaded s = L0 ++ new → authentic L0 s) as HE
    by (intros; by eapply authentic_some).
  assert (∀ s, y_loaded s = L0 ++ [enforcement_request env o] → authentic L0 s) as HE1
    by (intros s; apply HE; by exists [sys_exec_request env; network_request env]).
  assert (∀ s, y_loaded s = (L0 ++ [enforcement_request env o]) ++ [sys_exec_request env] → authentic L0 s) as HE2.
  { intros s Hs. rewrite <- app_assoc in Hs. apply (HE _ s) in Hs; [done|]. by exists [network_request env]. }
  assert (∀ s, y_loaded s = ((L0 ++ [enforcement_request env o]) ++ [sys_exec_request env]) ++ [network_request env] →
    authentic L0 s) as HE3.
  { intros s Hs. rewrite <- !app_assoc in Hs. by apply (HE _ s) in Hs. }
  unfold arm_visibility_and_observability, library_call.
  do 2 (eapply hoare_bind; [apply hoare_unloaded; [frame_step|exact HE1]|intros ?]).
  eapply hoare_bind; [apply hoare_loaded|intros ?].
  do 9 (eapply hoare_bind; [apply hoare_unloaded; [frame_step|exact HE2]|intros ?]).
  eapply hoare_bind; [apply hoare_loaded|intros ?].
  eapply hoare_weaken; [apply hoare_unloaded; [frame_step|exact HE3]|done|].
  intros c s ->. by rewrite <- !app_assoc.
Qed.

Lemma main_loads L0 :
  hoare (authentic L0) (λ s, y_loaded s = L0) (main manifest_from_slice from_str rfc3339 load_enforcement load_visibility env)
    (λ _, authentic L0).
Proof.
  unfold main. case_bool_decide.
  { eapply hoare_weaken; [apply (hoare_unloaded _ L0); [|apply authentic_none]|done|intros u s; apply authentic_none].
    unfold attest_bytecode_only, log_line. frame_step. }
  unfold main_phases. eapply hoare_bind; [apply (hoare_unloaded _ L0); [unfold log_line; frame_step|apply authentic_none]|intros u].
  eapply hoare_bind; [apply load_phase_spec|intros l].
  intros s (Ha & o & Ho & Hs). revert s Hs.
  eapply hoare_bind; [apply hoare_unloaded; [apply arm_phase_loaded|]|intros r].
  { intros s Hs. eapply authentic_some; [done|done| |done]. by exists [sys_exec_request env; network_request env]. }
  eapply hoare_bind; [by apply visibility_phase_spec|intros c].
  eapply hoare_weaken; [apply (hoare_unloaded _ (L0 ++ load_sequence o)); [by apply emit_frames|]|done|];
    intros; by eapply authentic_some.
Qed.

(** ** Which link stays pinned *)
Definition still_attached (old n : nat) (s : sys) : Prop :=
  attached (exit_process (y_host s)) old ∨ attached (exit_process (y_host s)) n.

Lemma hoare_links {A} (E : sys → Prop) v (m : stm sys A) :
  frames (λ s : sys, sys_links s) m → (∀ s, sys_links s = v → E s) →
  hoare E (λ s, sys_links s = v) m (λ _ s, sys_links s = v).
Proof. intros Hm HE. exact (hoare_frames (λ s : sys, sys_links s) m E (λ l, l = v) Hm HE). Qed.

Lemma attach_links old n :
  hoare (still_attached old n) (λ s, sys_links s = (Some old, None, n))
    (on_host attach_and_pin_lsm_fail_closed) (λ id s, id = n ∧ sys_links s = (Some n, None, S n)).
Proof.
  apply hoare_zoom. intros s [= Hl Ht Hn].
  pose proof (attach_and_pin_spec (λ k, attached (exit_process k) old ∨ attached (exit_process k) n) (Some old) n) as Hs.
  specialize (Hs ltac:(intros m k (? & _); by left; left)).
  specialize (Hs ltac:(intros l' t' m k [-> | ->] (? & ? & _); right; [by left|by right; left])).
  specialize (Hs (y_host s) (conj Hl (conj Ht Hn))).
  destruct (attach_and_pin_lsm_fail_closed (y_host s)) as [k [id|e]]; [|done].
  destruct Hs as (-> & (E1 & E2 & E3) & _). split; [done|]. unfold sys_links, host_links. cbn. congruence.
Qed.

Lemma main_keeps_link old n :
  hoare (still_attached old n) (λ s, sys_links s = (Some old, None, n))
    (main manifest_from_slice from_str rfc3339 load_enforcement load_visibility env) (λ _, still_attached old n).
Proof.
  assert (∀ s, sys_links s = (Some old, None, n) → still_attached old n s) as HO.
  { intros s [= Hl _ _]. left. by left. }
  assert (∀ s, sys_links s = (Some n, None, S n) → still_attached old n s) as HN.
  { intros s [= Hl _ _]. right. by left. }
  unfold main. case_bool_decide.
  { eapply hoare_weaken; [apply (hoare_links _ (Some old, None, n)); [|exact HO]|done|intros u s; apply HO].
    unfold attest_bytecode_only, log_line. frame_step. }
  unfold main_phases. eapply hoare_bind; [apply hoare_links; [unfold log_line; frame_step|exact HO]|intros u].
  eapply hoare_bind; [apply hoare_links; [apply load_phase_links|exact HO]|intros l].
  eapply hoare_bind with (Q := λ _ s, sys_links s = (Some n, None, S n)).
  - unfold arm_correlator_deny_and_lsm, load_lsm_program, library_call.
    eapply hoare_bind; [apply hoare_links; [by apply arm_correlator_frames|exact HO]|intros u1].
    eapply hoare_bind; [apply hoare_links; [frame_step|exact HO]|intros u2].
    eapply hoare_bind; [apply hoare_links; [by apply seed_deny_frames|exact HO]|intros ps].
    do 3 (eapply hoare_bind; [apply hoare_links; [frame_step|exact HO]|intros ?]).
    eapply hoare_bind; [apply attach_links|intros id]. apply hoare_pure. intros ->.
    apply hoare_links; [unfold log_line; frame_step|exact HN].
  - intros r. eapply hoare_bind; [apply hoare_links; [apply visibility_links|exact HN]|intros c].
    eapply hoare_weaken; [apply hoare_links; [by apply emit_frames|exact HN]|done|intros u' s; apply HN].
Qed.

(** C9: Start-up is fail-closed. Wherever it stops: the objects given to the kernel are an
    initial part of the three embedded ones, in order, none of them unless the attestation
    of exactly those bytes succeeded, and the enforcement object only with offsets resolved
    from the running kernel's BTF; if the attestation does not succeed, the run fails with
    host and maps untouched; and if a previous run left its link pinned and no temporary
    pin, then even after the process is gone that link or the new one is pinned, so some
    program stays attached. *)
Theorem startup_fail_closed s :
  let '(s', r) := main manifest_from_slice from_str rfc3339 load_enforcement load_visibility env s in
  authentic (y_loaded s) s' ∧
  (¬ attested → y_host s' = y_host s ∧ y_deny s' = y_deny s ∧ y_corr s' = y_corr s ∧ is_ok r = false) ∧
  (∀ old, h_link (y_host s) = Some old → h_tmp (y_host s) = None → still_attached old (h_next (y_host s)) s').
Proof.
  pose proof (main_loads (y_loaded s) s eq_refl) as Hloads.
  pose proof (λ old Hl Ht, main_keeps_link old (h_next (y_host s)) s (f_equal2 pair (f_equal2 pair Hl Ht) eq_refl)) as Hlinks.
  assert (¬ attested → ∃ lg e, main manifest_from_slice from_str rfc3339 load_enforcement load_visibility env s =
    (mkSys (y_host s) (y_deny s) (y_corr s) (y_loaded s) (y_metrics s) lg (y_bg s), Err e)) as Hun.
  { intros Hna. assert (∀ t : sys, ∃ e, attest_bytecode_only manifest_from_slice env t = (t, Err e)) as Hat.
    { intros t. unfold attest_bytecode_only. rewrite stm_bind_run. unfold st_of_result, attested in *.
      destruct (attestation manifest_from_slice env) as [[[]|]|]; [done|by eexists..]. }
    unfold main. case_bool_decide.
    - destruct (Hat s) as [e ->]. exists (y_log s), e. by destruct s.
    - unfold main_phases, attest_and_load_enforcement. rewrite stm_bind_run. unfold log_line at 1.
      rewrite !stm_bind_run. set (t := mkSys _ _ _ _ _ _ _). destruct (Hat t) as [e ->]. by exists (y_log s ++ [LOG_INITIALIZING]), e. }
  destruct (main manifest_from_slice from_str rfc3339 load_enforcement load_visibility env s) as [s' [u|e]]; split_and!; auto;
    intros Hna; destruct (Hun Hna) as (lg & e' & [= -> Hr]); try done.
Qed.
End fail_closed.

(** ** A start-up that succeeds *)
Lemma frames_Ok {S V A} (view : S → V) (m : stm S A) s s' r : frames view m → m s = (s', r) → view s' = view s.
Proof. intros Hm E. specialize (Hm s). by rewrite E in Hm. Qed.

Section success.
Context `{Cosign} (manifest_from_slice : bytes → option Manifest).
Context (from_str : bytes → option BundleDoc) (rfc3339 : bytes → option Z).
Context {ML MC MH MV R : Type} `{HL : ArrayMap PathDenyEntry ML, HC : ArrayMap Z MC, HH : HashMap Z MH, HV : ArrayMap Z MV}.
Context `{RingBuf ExecEvent R}.
Context `{!ArrayMapLaws PathDenyEntry ML PATH_DENY_MAX_ENTRIES, !ArrayMapLaws Z MC 1}.
Context `{!HashMapLaws Z MH, !ArrayMapLaws Z MV 1}.
Context (load_enforcement : LoadRequest → stm world (PathDenyMaps ML MC * IdentityAllowMaps MH MV)).
Context (load_visibility : LoadRequest → stm world unit) (env : start_env).
Abbreviation sys := (@sys ML MC MH MV R).
Implicit Types (s : sys).

(** The validity flag the hook reads. *)
Definition flag_map (s : sys) : MV := iam_exceptions_valid (co_maps (y_corr s)).

Lemma manual_seeds_flag var : frames (λ m : IdentityAllowMaps MH MV, iam_exceptions_valid m) (apply_manual_cgroup_seeds_from_env var).
Proof.
  unfold apply_manual_cgroup_seeds_from_env. destruct var as [raw|]; [|apply frames_ret].
  destruct (is_empty (trim raw)); [apply frames_ret|].
  apply frames_bind; [apply frames_of_result|intros ids]. apply frames_bind; [|intros u; apply frames_ret].
  apply frames_for_each. intros c m. destruct (seed_allow_cgroup c m) as [m' r] eqn:E.
  by apply seed_allow_cgroup_spec in E as [? _].
Qed.

(** The part of the state that the tasks leave alone as long as the policy task is not
    there. *)
Definition calm (s : sys) : option (PathDenyMaps ML MC * MV) :=
  match bg_policy (y_bg s), bg_turn (y_bg s) with
  | PUnspawned, None => Some (y_deny s, flag_map s)
  | _, _ => None
  end.

Lemma calm_Some s d f : calm s = Some (d, f) → y_deny s = d ∧ flag_map s = f.
Proof. unfold calm. destruct (bg_policy (y_bg s)), (bg_turn (y_bg s)); try done. by intros [= <- <-]. Qed.

Lemma calm_same s s' :
  y_deny s' = y_deny s → flag_map s' = flag_map s → bg_policy (y_bg s') = bg_policy (y_bg s) →
  bg_turn (y_bg s') = bg_turn (y_bg s) → calm s' = calm s.
Proof. unfold calm. by intros -> -> -> ->. Qed.

Lemma work_calm icfg w fs live (nd nd' : System.node ML MC MH MV R) :
  node_work icfg w fs live nd = Some nd' →
  ss_deny (nd_sync nd') = ss_deny (nd_sync nd) ∧ nd_turn nd' = nd_turn nd ∧
  iam_exceptions_valid (co_maps (ss_corr (nd_sync nd'))) = iam_exceptions_valid (co_maps (ss_corr (nd_sync nd))).
Proof. intros ((? & _ & _ & _ & ?) & ? & _)%node_work_same. by split_and!. Qed.

Lemma bg_step_calm icfg ev s s' : bg_step from_str rfc3339 icfg ev s = Some s' → calm s' = calm s.
Proof.
  destruct ev as [ev| |now]; cbn [bg_step].
  - destruct (may_run (y_bg s) ev) eqn:Hm; [|done]. destruct (node_step _ _ _ _ _) as [nd|] eqn:E; [|done].
    intros [= <-]. destruct ev as [cfg ck| |ev|client paths over|ids|[]|]; cbn [may_run] in Hm; try done; cbn [node_step] in E.
    all: try (unfold calm; cbn; by destruct (bg_policy (y_bg s))).
    1,2: destruct (nd_work _ Loop); [|done]; by injection E as <-.
    apply work_calm in E as (E1 & E2 & E3). by apply calm_same.
  - unfold disable_step, calm. destruct (bg_policy (y_bg s)); try done; [destruct (existsb _ _); [done|]|]; by intros [= <-].
  - unfold calm. destruct (bg_policy (y_bg s)); try done. destruct (bg_work _ _); [|done]. by intros [= <-].
Qed.
Lemma bg_run_calm icfg evs s : calm (bg_run from_str rfc3339 icfg evs s) = calm s.
Proof.
  revert s. induction evs as [|ev evs IH]; intros s; [done|]. unfold bg_run in *. cbn [foldl]. rewrite IH.
  destruct (bg_step _ _ _ _ _) as [s'|] eqn:E; [|done]. by apply bg_step_calm in E.
Qed.
Lemma background_calm icfg : frames calm (background from_str rfc3339 icfg).
Proof. intros s. unfold background. destruct (bg_schedule _) as [|evs rest]; [done|]. cbn. by rewrite bg_run_calm. Qed.

Lemma section_calm icfg fs live m : frames calm (on_corr (micro_step icfg fs live m)).
Proof.
  intros s. unfold on_corr, zoom. destruct (micro_step icfg fs live m (y_corr s)) as [c r] eqn:E.
  apply micro_maps in E as (_ & E & _). by apply calm_same.
Qed.

Lemma arm_correlator_calm l : frames calm (arm_correlator from_str rfc3339 env l).
Proof.
  unfold arm_correlator, register_seed. frame_step; first [apply background_calm | apply section_calm | by intros s].
Qed.

(** The flag after the load phase. *)
Lemma load_phase_flag s s' l :
  attest_and_load_enforcement manifest_from_slice load_enforcement env s = (s', Ok l) →
  calm s' = Some (y_deny s', flag_map s') ∧ am_get (flag_map s') 0 = Some IDENTITY_EXCEPTIONS_VALID_STALE.
Proof.
  unfold attest_and_load_enforcement. intros Hr.
  do 10 (apply stm_bind_Ok in Hr as (? & ? & _ & Hr)).
  apply stm_bind_Ok in Hr as (s0 & ? & [= <- _] & Hr).
  apply stm_bind_Ok in Hr as (s1 & u & Hflag & Hr). apply stm_context_Ok in Hflag.
  unfold on_corr in Hflag. apply zoom_Ok in Hflag as (c & Hm & ->). unfold on_maps in Hm.
  destruct (set_exceptions_valid false _) as [m [v|e]] eqn:E; [|done]. injection Hm as <- _.
  apply set_exceptions_valid_spec in E as [_ E].
  apply stm_bind_Ok in Hr as (s2 & seeds & Hseeds & Hr). apply stm_context_Ok in Hseeds.
  unfold on_corr in Hseeds. apply zoom_Ok in Hseeds as (c2 & Hm2 & ->). unfold on_maps in Hm2. cbn in Hm2.
  pose proof (manual_seeds_flag (se_manual_seeds env) m) as Hf.
  destruct (apply_manual_cgroup_seeds_from_env _ m) as [m2 [sd|e]]; [|done]. injection Hm2 as <- _. cbn in Hf.
  match type of Hr with ?m ?t = _ =>
    assert (frames flag_map m) as Hrest by (unfold log_line, on_metrics; frame_step);
    assert (frames (λ y : sys, y_bg y) m) as Hbg by (unfold log_line, on_metrics; frame_step);
    pose proof (frames_Ok _ _ _ _ _ Hbg Hr) as Hb; pose proof (frames_Ok _ _ _ _ _ Hrest Hr) as Hfl end.
  split; [unfold calm; by rewrite Hb|]. rewrite Hfl. unfold flag_map. cbn. rewrite Hf. exact E.
Qed.

Definition root_fs (s : sys) : gmap ppath node := w_fs (h_world (y_host s)).

Lemma prepare_pin_directory_fs : frames (λ k, w_fs (h_world k)) prepare_pin_directory.
Proof.
  intros k. unfold prepare_pin_directory. destruct (h_bpffs k); cbn [negb]; [|done].
  apply (frames_context (λ k, w_fs (h_world k))). intros k'. unfold host_call. by destruct (next_fault _) as [[] rest].
Qed.

(** What the load phase hands to the next: the seed the pins call for, and the maps of
    the loaded object. *)
Lemma load_phase_seed s s' l :
  attest_and_load_enforcement manifest_from_slice load_enforcement env s = (s', Ok l) →
  ∃ w res o wl ident, w_fs w = root_fs s ∧
    (prepare_pin_root_for_load w).2 = Ok (el_deny_seed_override l, res) ∧
    el_maps_preexisted l = is_resume (el_deny_seed_override l) ∧
    resolved env o ∧ (load_enforcement (enforcement_request env o) wl).2 = Ok (y_deny s', ident).
Proof.
  unfold attest_and_load_enforcement. intros Hr.
  apply stm_bind_Ok in Hr as (s1 & u1 & H1 & Hr). apply stm_bind_Ok in Hr as (s2 & btf & H2 & Hr).
  apply stm_bind_Ok in Hr as (s3 & o & H3 & Hr). apply stm_bind_Ok in Hr as (s4 & u4 & H4 & Hr).
  apply stm_bind_Ok in Hr as (s5 & u5 & H5 & Hr). apply stm_bind_Ok in Hr as (s6 & prepared & H6 & Hr).
  apply stm_bind_Ok in Hr as (s7 & t7 & H7 & Hr). apply stm_bind_Ok in Hr as (s8 & u8 & H8 & Hr).
  apply stm_bind_Ok in Hr as (s9 & maps & H9 & Hr). apply stm_bind_Ok in Hr as (s10 & u10 & H10 & Hr).
  apply stm_bind_Ok in Hr as (s11 & u11 & H11 & Hr).
  apply st_of_result_Ok in H2 as [-> Hbtf]. apply with_context_Ok in Hbtf. apply st_of_result_Ok in H3 as [-> Ho].
  apply stm_context_Ok in H5, H6, H9. unfold on_host, on_world in H5, H6, H9.
  apply zoom_Ok in H6 as (k6 & Hk6 & ->). apply zoom_Ok in Hk6 as (w6 & Hw6 & ->).
  apply zoom_Ok in H9 as (k9 & Hk9 & ->). apply zoom_Ok in Hk9 as (w9 & Hw9 & ->).
  exists (h_world (y_host s5)), prepared.2, o, (h_world (y_host s8)), maps.2.
  assert (root_fs s5 = root_fs s) as Hfs.
  { apply zoom_Ok in H5 as (k5 & Hk5 & ->).
    pose proof (frames_Ok _ _ _ _ _ prepare_pin_directory_fs Hk5) as E5. unfold root_fs. cbn in *. rewrite E5.
    injection H4 as <- _. cbn.
    assert (frames (λ t : sys, root_fs t) (attest_bytecode_only manifest_from_slice env)) as Ha
      by (unfold attest_bytecode_only, log_line; frame_step).
    exact (frames_Ok _ _ _ _ _ Ha H1). }
  assert (y_deny s' = maps.1 ∧ el_deny_seed_override l = prepared.1 ∧ el_maps_preexisted l = is_resume prepared.1) as (Hd & Hov & Hpre).
  { injection H11 as <- _.
    apply stm_bind_Ok in Hr as (s12 & u12 & H12 & Hr). apply stm_bind_Ok in Hr as (s13 & seeds & H13 & Hr).
    apply stm_bind_Ok in Hr as (s14 & u14 & H14 & Hr). apply stm_bind_Ok in Hr as (s15 & cfg & H15 & Hr).
    apply stm_bind_Ok in Hr as (s16 & u16 & H16 & Hr). apply stm_bind_Ok in Hr as (s17 & u17 & H17 & Hr).
    apply stm_bind_Ok in Hr as (s18 & u18 & H18 & Hr). injection Hr as <- <-. cbn. split_and!; [|done..].
    assert (frames (λ t : sys, y_deny t) (if is_migrated prepared.1 then on_metrics (record_pin_abi_mismatch PATH_DENY_LIST_MAP) else mret ()))
      as F18 by (unfold on_metrics; frame_step).
    rewrite (frames_Ok _ _ _ _ _ F18 H18). clear H18 F18.
    match type of H17 with ?m _ = _ => assert (frames (λ t : sys, y_deny t) m) as F17 by (unfold on_metrics; frame_step) end.
    rewrite (frames_Ok _ _ _ _ _ F17 H17). injection H16 as <- _. cbn. apply st_of_result_Ok in H15 as [-> _].
    match type of H14 with ?m _ = _ => assert (frames (λ t : sys, y_deny t) m) as F14 by (unfold log_line; frame_step) end.
    rewrite (frames_Ok _ _ _ _ _ F14 H14).
    match type of H13 with ?m _ = _ => assert (frames (λ t : sys, y_deny t) m) as F13 by frame_step end.
    rewrite (frames_Ok _ _ _ _ _ F13 H13).
    match type of H12 with ?m _ = _ => assert (frames (λ t : sys, y_deny t) m) as F12 by frame_step end.
    by rewrite (frames_Ok _ _ _ _ _ F12 H12). }
  rewrite Hov, Hpre, Hd. split_and!; [done| |done| |].
  - rewrite Hw6. by destruct prepared.
  - exists btf. split; [done|]. unfold resolve_enforcement_offsets in Ho. destruct (resolve_offsets btf); naive_solver.
  - rewrite Hw9. by destruct maps.
Qed.

(** The deny list after seeding. *)
Definition deny_as_seeded (seed : DenySeedOverride) (before after : PathDenyMaps ML MC) : Prop :=
  deny_count after ≠ 0 ∧
  match seed with
  | Bootstrap => active_entries after = bootstrap_list
  | ResumePinned => after = before
  | MigratedEntries es _ => active_entries after = es
  end.

Lemma applied_count es (d d' : PathDenyMaps ML MC) : apply_deny_entries es d = (d', Ok ()) → deny_count d' ≠ 0.
Proof.
  intros E. destruct (apply_ok_length _ _ _ E) as [Hne Hlen]. destruct (apply_ok_written _ _ _ E) as [_ Hc].
  unfold deny_count. rewrite Hc. destruct es; [done|]. cbn [length] in *. case_bool_decide; lia.
Qed.

Lemma seed_deny_ok l s s' p : seed_deny env l s = (s', Ok p) →
  el_maps_preexisted l = is_resume (el_deny_seed_override l) →
  deny_as_seeded (el_deny_seed_override l) (y_deny s) (y_deny s').
Proof.
  intros Hr Hp. unfold seed_deny in Hr.
  assert (∀ (t t' : sys) q, bootstrap_deny env t = (t', Ok q) → deny_count (y_deny t') ≠ 0 ∧ active_entries (y_deny t') = bootstrap_list) as Hboot.
  { intros t t' q Hb. unfold bootstrap_deny in Hb. apply stm_bind_Ok in Hb as (t1 & u & [= <- _] & Hb).
    apply stm_context_Ok, zoom_Ok in Hb as (d & Hd & ->). unfold bootstrap_deny_maps in Hd. cbn [y_deny] in *.
    rewrite bootstrap_entries_ok in Hd. apply stm_bind_Ok in Hd as (d1 & es & [= <- <-] & Hd).
    apply stm_bind_Ok in Hd as (d2 & u' & Hap & [= <- _]). destruct u'.
    split; [by eapply applied_count|by eapply apply_ok_active]. }
  unfold deny_as_seeded. destruct (el_deny_seed_override l) as [| |es fl].
  - by apply Hboot in Hr as [? ?].
  - apply stm_bind_Ok in Hr as (s1 & t & [= <- <-] & Hr). apply stm_bind_Ok in Hr as (s2 & n & Hn & Hr).
    apply st_of_result_Ok in Hn as [-> Hn]. apply stm_bind_Ok in Hr as (s3 & plan & Hplan & Hr).
    apply st_of_result_Ok in Hplan as [-> Hplan]. apply seed_plan_spec in Hplan. rewrite Hp in Hplan.
    destruct Hplan as [[? _]|(_ & Hne & ->)]; [done|].
    apply stm_bind_Ok in Hr as (s4 & u & [= <- _] & [= <- _]). cbn. split; [|done].
    unfold active_deny_count in Hn. apply ok_or_Ok in Hn. unfold deny_count. rewrite Hn.
    case_bool_decide; [done|lia].
  - apply stm_bind_Ok in Hr as (s1 & u & Hap & [= <- _]). destruct u.
    apply stm_context_Ok, zoom_Ok in Hap as (d & Hd & ->). cbn.
    split; [by eapply applied_count|by eapply apply_ok_active].
Qed.

(** The arming phase leaves the deny list seeded, the validity flag alone, and the new link
    pinned; then the policy task is there. *)
Lemma arm_phase_ok l s s' r :
  arm_correlator_deny_and_lsm from_str rfc3339 env l s = (s', Ok r) → el_maps_preexisted l = is_resume (el_deny_seed_override l) →
  calm s = Some (y_deny s, flag_map s) →
  deny_as_seeded (el_deny_seed_override l) (y_deny s) (y_deny s') ∧ flag_map s' = flag_map s ∧
  (bg_policy (y_bg s') ≠ PUnspawned ∧ bg_turn (y_bg s') = None) ∧
  ∃ id, h_link (y_host s') = Some id ∧ h_tmp (y_host s') = None.
Proof.
  intros Harm Hpre Hc0. unfold arm_correlator_deny_and_lsm in Harm. cbv zeta in Harm.
  apply stm_bind_Ok in Harm as (t1 & v1 & A1 & Harm). apply stm_bind_Ok in Harm as (t2 & v2 & A2 & Harm).
  apply stm_bind_Ok in Harm as (t3 & ps & A3 & Harm).
  pose proof (frames_Ok _ _ _ _ _ (arm_correlator_calm l) A1) as C1.
  pose proof (frames_Ok _ _ _ _ _ (background_calm _) A2) as C2. rewrite C1, Hc0 in C2.
  destruct (calm_Some _ _ _ C2) as [D2 F2].
  pose proof (seed_deny_ok _ _ _ _ A3 Hpre) as Hseed. rewrite D2 in Hseed.
  assert (frames (λ y : sys, (flag_map y, y_bg y)) (seed_deny env l)) as Fs by (by apply seed_deny_frames).
  pose proof (frames_Ok _ _ _ _ _ Fs A3) as [= F3 B3].
  assert (calm t3 = Some (y_deny t3, flag_map t3)) as C3.
  { revert C2. unfold calm. rewrite B3. by destruct (bg_policy (y_bg t2)), (bg_turn (y_bg t2)). }
  apply stm_bind_Ok in Harm as (t4 & v4 & A4 & Harm). apply stm_bind_Ok in Harm as (t5 & v5 & A5 & Harm).
  apply stm_bind_Ok in Harm as (t6 & v6 & A6 & Harm). apply stm_bind_Ok in Harm as (t7 & id & A7 & Harm).
  assert (frames calm load_lsm_program) as Fl by (unfold load_lsm_program, library_call; frame_step).
  pose proof (frames_Ok _ _ _ _ _ (background_calm _) A4) as C4. pose proof (frames_Ok _ _ _ _ _ Fl A5) as C5.
  pose proof (frames_Ok _ _ _ _ _ (background_calm _) A6) as C6.
  assert (frames calm (on_host attach_and_pin_lsm_fail_closed)) as Fa by frame_step.
  pose proof (frames_Ok _ _ _ _ _ Fa A7) as C7. rewrite C6, C5, C4, C3 in C7.
  apply zoom_Ok in A7 as (k7 & K7 & ->). apply attach_and_pin_ok in K7 as (L1 & L2 & _).
  apply stm_bind_Ok in Harm as (t8 & v8 & A8 & Harm). apply stm_bind_Ok in Harm as (t9 & v9 & A9 & Harm).
  apply stm_bind_Ok in Harm as (t10 & v10 & A10 & Harm). apply stm_bind_Ok in Harm as (t11 & v11 & A11 & Harm).
  apply stm_bind_Ok in Harm as (t12 & v12 & A12 & Harm). apply stm_bind_Ok in Harm as (t13 & v13 & A13 & [= -> _]).
  assert (∀ A (m : stm sys A) y y' x, frames calm m → frames (λ y : sys, sys_links y) m → m y = (y', Ok x) →
    calm y' = calm y ∧ sys_links y' = sys_links y) as Hboth.
  { intros A m y y' x Hm1 Hm2 E. split; [exact (frames_Ok _ _ _ _ _ Hm1 E)|exact (frames_Ok _ _ _ _ _ Hm2 E)]. }
  apply Hboth in A8 as [C8 L8]; [|unfold log_line; frame_step..].
  apply Hboth in A9 as [C9 L9]; [|apply background_calm|frame_step].
  apply Hboth in A10 as [C10 L10]; [|frame_step..]. apply Hboth in A11 as [C11 L11]; [|frame_step..].
  apply Hboth in A12 as [C12 L12]; [|apply background_calm|frame_step].
  rewrite C11, C10, C9, C8, C7 in C12. destruct (calm_Some _ _ _ C12) as [D12 F12].
  injection A13 as <- _. cbn [y_deny set_bg y_bg y_host].
  change (flag_map (set_bg _ t12)) with (flag_map t12). split_and!.
  - by rewrite D12.
  - congruence.
  - by destruct (sync_startup _ _ _).
  - done.
  - exists id. rewrite L11, L10, L9, L8 in L12. injection L12 as M1 M2 _. cbn in M1, M2. split; congruence.
Qed.

(** ** The tasks beside the visibility phase *)

(** What a step of a task reads. *)
Definition task_view (s : sys) := (node_of s, bg_policy (y_bg s), bg_correlator (y_bg s)).

Lemma with_node_view nd p s s' : bg_correlator (y_bg s) = bg_correlator (y_bg s') →
  task_view (with_node nd p s) = task_view (with_node nd p s').
Proof. intros E. unfold task_view, node_of, with_node. cbn. by rewrite E. Qed.

Lemma bg_step_task_view icfg ev s s' : task_view s = task_view s' →
  task_view <$> bg_step from_str rfc3339 icfg ev s = task_view <$> bg_step from_str rfc3339 icfg ev s'.
Proof.
  intros E. pose proof E as [= _ _ _ _ _ Hw _ _ Hp Hc]. assert (node_of s = node_of s') as Hn by exact (f_equal (λ p, p.1.1) E).
  destruct ev as [ev| |now]; cbn [bg_step].
  - assert (may_run (y_bg s) ev = may_run (y_bg s') ev) as ->
      by (destruct ev as [| | | | |[]|]; cbn; by rewrite ?Hp, ?Hc).
    destruct (may_run _ ev); [|done]. rewrite Hn, Hp. destruct (node_step _ _ _ _ _); [|done].
    cbn [fmap option_fmap option_map mbind option_bind]. f_equal. by apply with_node_view.
  - unfold disable_step. rewrite Hn, Hp. destruct (bg_policy (y_bg s')); try done; [destruct (existsb _ _); [done|]|];
      cbn [fmap option_fmap option_map]; f_equal; by apply with_node_view.
  - rewrite Hp, Hw, Hn. destruct (bg_policy (y_bg s')); try done. destruct (bg_work _ _); [|done].
    cbn [fmap option_fmap option_map]. f_equal. by apply with_node_view.
Qed.

Lemma bg_run_task_view icfg evs s s' : task_view s = task_view s' →
  task_view (bg_run from_str rfc3339 icfg evs s) = task_view (bg_run from_str rfc3339 icfg evs s').
Proof.
  revert s s'. induction evs as [|ev evs IH]; intros s s' E; [done|]. unfold bg_run in *. cbn [foldl]. apply IH.
  pose proof (bg_step_task_view icfg ev s s' E) as Hs. destruct (bg_step _ _ _ _ s), (bg_step _ _ _ _ s'); try done.
  exact (f_equal (default (task_view s)) Hs).
Qed.

(** The tasks have gone on from [s0]. *)
Definition tasks_from (icfg : IdentityCorrelatorConfig) (s0 s : sys) : Prop :=
  ∃ evs, task_view s = task_view (bg_run from_str rfc3339 icfg evs s0).

Lemma tasks_from_background icfg s0 s s' u :
  background from_str rfc3339 icfg s = (s', Ok u) → tasks_from icfg s0 s → tasks_from icfg s0 s'.
Proof.
  intros Hb (evs & E). unfold background in Hb. destruct (bg_schedule (y_bg s)) as [|more rest]; injection Hb as <- _; [by exists evs|].
  exists (evs ++ more). unfold bg_run at 2. rewrite foldl_app. apply bg_run_task_view. exact E.
Qed.

Lemma hoare_tasks icfg s0 : hoare (λ _, True) (tasks_from icfg s0) (background from_str rfc3339 icfg) (λ _, tasks_from icfg s0).
Proof.
  intros s Hs. destruct (background from_str rfc3339 icfg s) as [s' [u|e]] eqn:E; [|done]. by eapply tasks_from_background.
Qed.
Lemma hoare_no_tasks {A} icfg s0 (m : stm sys A) :
  frames (λ y : sys, (y_deny y, y_corr y, y_bg y)) m → hoare (λ _, True) (tasks_from icfg s0) m (λ _, tasks_from icfg s0).
Proof.
  intros Hm s (evs & Hs). specialize (Hm s). destruct (m s) as [s' [a|e]]; [|done]. injection Hm as E1 E2 E3. exists evs.
  rewrite <- Hs. unfold task_view, node_of. by rewrite E1, E2, E3.
Qed.

Lemma visibility_tasks icfg s0 :
  hoare (λ _, True) (tasks_from icfg s0) (arm_visibility_and_observability from_str rfc3339 load_visibility env icfg)
    (λ _, tasks_from icfg s0).
Proof.
  unfold arm_visibility_and_observability, library_call, loaded. cbv zeta.
  repeat (eapply hoare_bind; [first [apply hoare_tasks | apply hoare_no_tasks; frame_step]|intros ?]).
  apply hoare_no_tasks, frames_ret.
Qed.

(** A step that brings no verified bundle. *)
Definition unverified (ev : bg_event) : Prop :=
  match ev with
  | BNode (NTurn cfg ck) => is_ok (verified_bundle from_str rfc3339 cfg ck) = false
  | _ => True
  end.

(** The list is [d], the flag is not set, and the turn that runs, if any, has no bundle. *)
Definition quiet (d : PathDenyMaps ML MC) (s : sys) : Prop :=
  y_deny s = d ∧ am_get (flag_map s) 0 ≠ Some IDENTITY_EXCEPTIONS_VALID_FRESH ∧
  match bg_turn (y_bg s) with
  | None | Some (TFail _ _ _) => True
  | Some (TGate cfg ck) | Some (TRequest cfg ck) => is_ok (verified_bundle from_str rfc3339 cfg ck) = false
  | _ => False
  end.

Lemma flag_off (m m' : IdentityAllowMaps MH MV) r :
  set_exceptions_valid false m = (m', r) → valid_flag m ≠ Some IDENTITY_EXCEPTIONS_VALID_FRESH →
  valid_flag m' ≠ Some IDENTITY_EXCEPTIONS_VALID_FRESH.
Proof.
  unfold set_exceptions_valid, valid_flag. destruct (am_set _ _ _) as [a []] eqn:E; intros [= <- _] Hm; cbn.
  - by rewrite (am_set_same _ _ _ _ E).
  - by rewrite (am_set_fail _ _ _ _ _ E).
Qed.

Lemma identity_off (A : Type) (f : stm (IdentityAllowMaps MH MV) A) (st : sync_state ML MC MH MV) :
  (∀ m, valid_flag m ≠ Some IDENTITY_EXCEPTIONS_VALID_FRESH → valid_flag (f m).1 ≠ Some IDENTITY_EXCEPTIONS_VALID_FRESH) →
  valid_flag (co_maps (ss_corr st)) ≠ Some IDENTITY_EXCEPTIONS_VALID_FRESH →
  valid_flag (co_maps (ss_corr (on_identity f st).1)) ≠ Some IDENTITY_EXCEPTIONS_VALID_FRESH ∧
  ss_deny (on_identity f st).1 = ss_deny st.
Proof.
  intros Hf Hs. destruct (on_identity_same f st) as (E1 & _ & _ & _ & _ & E6). rewrite E6. auto.
Qed.

Lemma gate_off e now (m : IdentityAllowMaps MH MV) :
  valid_flag m ≠ Some IDENTITY_EXCEPTIONS_VALID_FRESH →
  valid_flag (invalidate_if_expired e now m).1 ≠ Some IDENTITY_EXCEPTIONS_VALID_FRESH.
Proof.
  intros Hm. assert (valid_flag ((set_exceptions_valid false ≫= λ _, mret true : stm _ bool) m).1 ≠ Some IDENTITY_EXCEPTIONS_VALID_FRESH) as Hoff.
  { rewrite stm_bind_run. destruct (set_exceptions_valid false m) as [m' r] eqn:E. apply flag_off in E; [|done]. by destruct r. }
  unfold invalidate_if_expired. destruct e; [case_bool_decide|]; done.
Qed.

Lemma turn_quiet d t (st : sync_state ML MC MH MV) :
  ss_deny st = d → valid_flag (co_maps (ss_corr st)) ≠ Some IDENTITY_EXCEPTIONS_VALID_FRESH →
  match t with
  | TFail _ _ _ => True
  | TGate cfg ck | TRequest cfg ck => is_ok (verified_bundle from_str rfc3339 cfg ck) = false
  | _ => False
  end →
  let '(st', r) := turn_step from_str rfc3339 t st in
  ss_deny st' = d ∧ valid_flag (co_maps (ss_corr st')) ≠ Some IDENTITY_EXCEPTIONS_VALID_FRESH ∧
  match r with
  | inr _ | inl (TFail _ _ _) => True
  | inl (TRequest cfg ck) => is_ok (verified_bundle from_str rfc3339 cfg ck) = false
  | _ => False
  end.
Proof.
  intros Hd Hf Ht. destruct t as [cfg ck|cfg ck| | | | |cfg ck e]; try done; cbn [turn_step].
  - destruct (identity_off bool (invalidate_if_expired (ss_expires st) (ck_gate ck)) st) as [H1 H2]; [apply gate_off|done|].
    rewrite H2. by split_and!.
  - destruct (verified_bundle _ _ _ _); [done|]. by split_and!.
  - set (st1 := (set_state _ st).1).
    destruct (identity_off bool (invalidate_if_expired (ss_expires st1) (ck_after ck)) st1) as [H1 H2]; [apply gate_off|done|].
    rewrite H2. by split_and!.
Qed.

Lemma bg_step_quiet icfg d ev s s' :
  bg_step from_str rfc3339 icfg ev s = Some s' → unverified ev → quiet d s → quiet d s'.
Proof.
  intros Hs Hu (Hd & Hf & Ht). destruct ev as [ev| |now]; cbn [bg_step] in Hs.
  - destruct (may_run (y_bg s) ev) eqn:Hm; [|done]. destruct (node_step _ _ _ _ _) as [nd|] eqn:E; [|done]. injection Hs as <-.
    destruct ev as [cfg ck| |ev|client paths over|ids|w fs live|]; cbn [may_run] in Hm; try done; cbn [node_step] in E.
    + cbn [node_of nd_turn nd_work] in E. destruct (bg_turn (y_bg s)); [done|]. destruct (bg_work _ _); [|done]. destruct (existsb _ _); [done|].
      by injection E as <-.
    + unfold policy_task in E. cbn [node_of nd_turn nd_sync] in E. destruct (bg_turn (y_bg s)) as [t|]; [|done]. cbn [mbind option_bind] in E.
      pose proof (turn_quiet d t (mkSyncState (y_deny s) (y_corr s) (bg_state (y_bg s)) (bg_expires (y_bg s))) Hd Hf) as Hq.
      specialize (Hq ltac:(by destruct t)).
      destruct (turn_step _ _ _ _) as [st [t'|e]]; injection E as <-; destruct Hq as (H1 & H2 & H3); split_and!; try done.
      by destruct t'.
    + destruct (nd_work _ Loop); [|done]. by injection E as <-.
    + destruct (nd_work _ Loop); [|done]. by injection E as <-.
    + apply work_calm in E as (E1 & E2 & E3). unfold quiet, flag_map. cbn. rewrite E1, E2, E3. by split_and!.
  - unfold disable_step in Hs. destruct (bg_policy (y_bg s)); try done.
    + destruct (existsb _ _); [done|]. injection Hs as <-.
      destruct (identity_off unit (apply_identity_validity (Invalid reason)) (nd_sync (node_of s))) as [H1 H2]; [|done|].
      { intros m Hm. unfold apply_identity_validity. destruct (set_exceptions_valid false m) as [m' r] eqn:E. by apply flag_off in E. }
      split_and!; [by rewrite <- Hd; exact H2|exact H1|done].
    + injection Hs as <-. by split_and!.
  - destruct (bg_policy (y_bg s)); try done. destruct (bg_work _ _); [|done]. injection Hs as <-. unfold idle_tick.
    case_bool_decide; by split_and!.
Qed.

Lemma bg_run_quiet icfg d evs s :
  Forall unverified evs → quiet d s → quiet d (bg_run from_str rfc3339 icfg evs s).
Proof.
  intros Hu. revert s. induction Hu as [|ev evs Hev _ IH]; intros s Hs; [done|]. unfold bg_run in *. cbn [foldl]. apply IH.
  destruct (bg_step _ _ _ _ _) as [s'|] eqn:E; [|done]. by eapply bg_step_quiet.
Qed.

End success.

(** ** A node that starts

    The toy signature scheme of [PolicySync]: a signature is the message itself and a
    digest the bytes themselves. *)
#[local] Instance start_cosign : Cosign := {
  p256_key := unit; ecdsa_sig := bytes; ed25519_key := unit;
  base64_decode s := Some s;
  p256_from_pem _ := Some (); ecdsa_from_der s := Some s; ecdsa_from_slice s := Some s;
  p256_verify _ msg sig := bool_decide (msg = sig);
  ed25519_from_pem _ := None; ed25519_verify_strict _ _ _ := false;
  sha256 b := b
}.

Definition demo_object (b : Z) : bytes := replicate 32 b.
Definition demo_manifest (_ : bytes) : option Manifest :=
  Some (mkManifest 1 (lit "sha") (lit "now")
    [mkManifestArtifact (lit "sys_exec.bpf.o") (sha256_digest (demo_object 1));
     mkManifestArtifact (lit "network_filter.bpf.o") (sha256_digest (demo_object 2));
     mkManifestArtifact (lit "agent-ebpf-sensor-ebpf") (sha256_digest (demo_object 3))]).

Definition demo_start_env : start_env :=
  mkStartEnv (λ _, ReadOk (lit "manifest")) None None None (demo_object 1) (demo_object 2) (demo_object 3) None
    (Ok demo_blob) None (Some (lit "42")) (Some (lit "1")) (Some (lit "node-1")) None None
    (λ p, if bool_decide (p = lit "/sys/fs/cgroup") then Some (FDir (Some 1) Readable [(lit "lab", FDir (Some 42) Readable [])])
          else if bool_decide (p = lit "/sys/fs/cgroup/lab") then Some (FDir (Some 42) Readable []) else None)
    (mkNodeView (λ _, Ok (lit "agent")) (λ _, true) (λ _, Ok (Ok 5))) (Ok (lit "/usr/local/bin/agent-ebpf-sensor"))
    None None None None None (Some (lit "http://pe")) (Ok (lit "token")) (Ok (lit "pem")) 0.

Definition demo_load (req : LoadRequest) :
    stm world (PathDenyMaps (rel_array PathDenyEntry 64) (rel_array Z 1) * IdentityAllowMaps (rel_hash Z) (rel_array Z 1)) := λ w,
  (mkWorld (<[PRoot PATH_DENY_LIST_MAP := NPin fresh_list]> (<[PRoot PATH_DENY_COUNT_MAP := NPin fresh_count]> (w_fs w))) (w_faults w),
   Ok (mkPathDenyMaps (mkRelArray PathDenyEntry_default ∅) (mkRelArray 0 ∅),
       mkIdentityAllowMaps (mkRelHash ∅ 1024) (mkRelArray 0 ∅))).

(** The tasks in this run: the correlator looks at a pod while the seed is registered, and
    the policy task makes its first turn, whose request fails, before the event loop. *)
Definition demo_turn : sync_config :=
  mkSyncConfig (λ _ _, None) (lit "http://pe") (lit "token") (lit "pem") None true.
Definition demo_schedule : list (list bg_event) :=
  [[BNode (NPod (Deleted (lit "pod-1")))]; [BNode (NWork Loop (λ _, None) (Ok ∅))]; []; []; []; []; [];
   [BNode (NTurn demo_turn (mkClocks 0 0 0 0 0))]; [BNode NPolicy; BNode NPolicy]; [BNode NPolicy]].

Definition demo_sys (faults : list bool) :
    sys (ML:=rel_array PathDenyEntry 64) (MC:=rel_array Z 1) (MH:=rel_hash Z) (MV:=rel_array Z 1) (R:=sim_ring ExecEvent) :=
  mkSys (mkHost (mkWorld ∅ faults) true None None [] 8) (mkPathDenyMaps (mkRelArray PathDenyEntry_default ∅) (mkRelArray 0 ∅))
    (mkCorr st_new (mkIdentityAllowMaps (mkRelHash ∅ 1024) (mkRelArray 0 ∅)) pe_new [] true) [] (metrics_new 0) []
    (mkBg false PUnspawned (policy_state_for_pinned_resume 0) None None (λ _, []) [] (mkSimRing [] 8) demo_schedule).

Definition demo_main (faults : list bool) :=
  main demo_manifest (λ _, None) (λ _, None) demo_load (λ _, mret ()) demo_start_env (demo_sys faults).

Lemma demo_main_ok : demo_main [] = ((demo_main []).1, Ok ()).
Proof. apply run_result. vm_compute. reflexivity. Qed.

(** The schedule was played: the turn has begun and ended. *)
Example demo_main_tasks :
  bg_schedule (y_bg (demo_main []).1) = [] ∧ bg_turn (y_bg (demo_main []).1) = None ∧
  bg_correlator (y_bg (demo_main []).1) = true ∧ bg_policy (y_bg (demo_main []).1) = PLoop (lit "http://pe") (lit "token") (lit "pem").
Proof. by vm_compute. Qed.

