(* ===== verification/Ingestion.v ===== *)
(** * Correlation ingestion ([ingestion/])

    The bounded channel between the network monitor and the Kafka publisher, its
    pressure-drop policy and its counters. The tasks run in parallel, so each is
    cut at its atomic operations (a channel operation, one atomic counter update) and
    a behaviour is a list of actions of the tasks in the order they happen.
    [prost]'s encoder, the Kafka client and the clock are parameters or answers
    carried by the actions. *)

From S2P Require Import Prelude RustStd Common ExecMapper Detection Metrics.

(** ** Configuration ([ingestion/channel.rs]) *)
Module Channel.

Definition DEFAULT_CHANNEL_CAPACITY : Z := 8192.
Definition PRESSURE_DROP_THRESHOLD_PCT : Z := 90.
Definition DEFAULT_CORRELATION_TOPIC : bytes := lit "neuromesh.correlation.v1".

Record CorrelationIngestionConfig : Type := mkCorrelationIngestionConfig {
  ci_brokers : bytes;
  ci_topic : bytes;
  ci_node_name : bytes;
  ci_channel_capacity : Z
}.

(** [CorrelationIngestionConfig::from_env] over the variables it reads. *)
Definition ingestion_config_from_env (brokers_var topic_var node_var hostname_var capacity_var : option bytes) :
    option CorrelationIngestionConfig :=
  brokers ← brokers_var;
  if is_empty (trim brokers) then None
  else Some {| ci_brokers := brokers;
               ci_topic := default DEFAULT_CORRELATION_TOPIC topic_var;
               ci_node_name :=
                 match node_var with
                 | Some n => n
                 | None => default (lit "unknown-node") hostname_var
                 end;
               ci_channel_capacity := default DEFAULT_CHANNEL_CAPACITY (capacity_var ≫= parse_u64) |}.

Definition pressure_drop_threshold (c : CorrelationIngestionConfig) : Z :=
  saturating_mul 64 (ci_channel_capacity c) PRESSURE_DROP_THRESHOLD_PCT / 100.

(** The configuration [spawn_noop] uses. *)
Definition noop_config : CorrelationIngestionConfig :=
  mkCorrelationIngestionConfig [] [] (lit "noop-node") DEFAULT_CHANNEL_CAPACITY.

(** ** Counters *)
Record CorrelationIngestionStats : Type := mkStats {
  st_enqueued : Z;
  st_dropped_events : Z;
  st_published : Z;
  st_publish_failures : Z;
  st_queued : Z
}.
Definition stats_default : CorrelationIngestionStats := mkStats 0 0 0 0 0.

(** The atomic updates; [fetch_add] and [fetch_sub] wrap around. [record_enqueued]
    is the two updates [add_enqueued] and [add_queued] in this order. *)
Definition add_enqueued (s : CorrelationIngestionStats) : CorrelationIngestionStats :=
  mkStats (wrapping_add 64 (st_enqueued s) 1) (st_dropped_events s) (st_published s) (st_publish_failures s) (st_queued s).
Definition add_queued (s : CorrelationIngestionStats) : CorrelationIngestionStats :=
  mkStats (st_enqueued s) (st_dropped_events s) (st_published s) (st_publish_failures s) (wrapping_add 64 (st_queued s) 1).
Definition record_dropped (s : CorrelationIngestionStats) : CorrelationIngestionStats :=
  mkStats (st_enqueued s) (wrapping_add 64 (st_dropped_events s) 1) (st_published s) (st_publish_failures s) (st_queued s).
Definition decrement_queued (s : CorrelationIngestionStats) : CorrelationIngestionStats :=
  mkStats (st_enqueued s) (st_dropped_events s) (st_published s) (st_publish_failures s) (wrapping_add 64 (st_queued s) (-1)).
Definition record_published (s : CorrelationIngestionStats) : CorrelationIngestionStats :=
  mkStats (st_enqueued s) (st_dropped_events s) (wrapping_add 64 (st_published s) 1) (st_publish_failures s) (st_queued s).
Definition record_publish_failure (s : CorrelationIngestionStats) : CorrelationIngestionStats :=
  mkStats (st_enqueued s) (st_dropped_events s) (st_published s) (wrapping_add 64 (st_publish_failures s) 1) (st_queued s).

(** ** The message ([ingestion/encoder.rs], [proto-definitions]) *)
Definition ENRICHED_NETWORK_EVENT_SCHEMA_VERSION : Z := 1.

Record ProtoEnrichedNetworkEvent : Type := mkProtoEnrichedNetworkEvent {
  pe_schema_version : Z;
  pe_event_id : bytes;
  pe_timestamp_ns : Z;
  pe_node_name : bytes;
  pe_pid : Z;
  pe_uid : Z;
  pe_dest_ip : Z;
  pe_dest_port : Z;
  pe_process_name : bytes
}.

(** The message [encode_enriched_network_event] serialises into its cleared buffer. *)
Definition proto_message (node_name event_id : bytes) (timestamp_ns : Z) (e : EnrichedNetworkEvent) :
    ProtoEnrichedNetworkEvent :=
  {| pe_schema_version := ENRICHED_NETWORK_EVENT_SCHEMA_VERSION;
     pe_event_id := event_id;
     pe_timestamp_ns := timestamp_ns;
     pe_node_name := node_name;
     pe_pid := en_pid e;
     pe_uid := en_uid e;
     pe_dest_ip := en_dest_ip e;
     pe_dest_port := en_dest_port e;
     pe_process_name := en_process_name e |}.

(** [format!("{}-{}-{}", node_name, pid, timestamp_ns)]. *)
Definition event_id_of (node_name : bytes) (e : EnrichedNetworkEvent) (timestamp_ns : Z) : bytes :=
  node_name ++ lit "-" ++ to_dec (en_pid e) ++ lit "-" ++ to_dec_signed timestamp_ns.

(** ** The tasks *)

(** The publisher task: constructing its Kafka producer; waiting in [recv]; holding
    an event it has not yet taken off the [queued] counter; handling an event; gone
    (its receiver is dropped, so the channel is closed). *)
Inductive publisher : Type :=
| Starting
| Waiting
| Received (e : EnrichedNetworkEvent)
| Handling (e : EnrichedNetworkEvent)
| Exited.

(** A record handed to the Kafka client: topic, key, payload. *)
Record kafka_record : Type := mkKafkaRecord { kr_topic : bytes; kr_key : bytes; kr_payload : bytes }.

#[export] Instance enriched_eq_dec : EqDecision EnrichedNetworkEvent.
Proof. solve_decision. Defined.
#[export] Instance publisher_eq_dec : EqDecision publisher.
Proof. solve_decision. Defined.

(** The shared channel and counters, the calls of [try_enqueue] in progress by the
    point they have reached, the live handles, the publisher, its producer's health
    flag and the records the broker has acknowledged. *)
Record ingestion : Type := mkIngestion {
  ig_chan : list EnrichedNetworkEvent;
  ig_stats : CorrelationIngestionStats;
  ig_passed : list EnrichedNetworkEvent;
  ig_dropping : nat;
  ig_sent : nat;
  ig_counted : nat;
  ig_handles : nat;
  ig_publisher : publisher;
  ig_healthy : bool;
  ig_delivered : list kafka_record
}.

(** [CorrelationIngestionHandle::new] and the spawned publisher; [mpsc::channel]
    panics on a capacity it does not support. With [noop] the task is the drain loop of [spawn_noop]. *)
Definition ingestion_new (noop : bool) (c : CorrelationIngestionConfig) : option ingestion :=
  if negb (channel_opens (ci_channel_capacity c)) then None
  else Some {| ig_chan := []; ig_stats := stats_default; ig_passed := []; ig_dropping := 0; ig_sent := 0;
               ig_counted := 0; ig_handles := 1; ig_publisher := if noop then Waiting else Starting;
               ig_healthy := true; ig_delivered := [] |}.

(** [spawn] and [spawn_from_env] of [ingestion/mod.rs]; without the feature
    [kafka-ingestion] the configuration is not read. The flag says which task runs. *)
Definition ingestion_spawn_noop : option (bool * ingestion) :=
  s ← ingestion_new true noop_config; Some (true, s).
Definition ingestion_spawn (kafka_ingestion : bool) (c : CorrelationIngestionConfig) : option (bool * ingestion) :=
  if kafka_ingestion then s ← ingestion_new false c; Some (false, s) else ingestion_spawn_noop.
Definition ingestion_spawn_from_env (kafka_ingestion : bool) (config : option CorrelationIngestionConfig) :
    option (bool * ingestion) :=
  match config with
  | Some c => if kafka_ingestion then ingestion_spawn true c else ingestion_spawn_noop
  | None => ingestion_spawn_noop
  end.

(** [KafkaProducerManager::new]: the producer's settings, and the health flag a new
    manager ends up with, that of its first metadata request. *)
Definition producer_settings (c : CorrelationIngestionConfig) : list (bytes * bytes) :=
  [(lit "bootstrap.servers", ci_brokers c); (lit "enable.idempotence", lit "true"); (lit "acks", lit "all");
   (lit "delivery.timeout.ms", lit "30000"); (lit "message.timeout.ms", lit "30000")].
Definition manager_new (create : list (bytes * bytes) → result ()) (metadata : bool) (c : CorrelationIngestionConfig) :
    result bool :=
  _ ← with_context "failed to create idempotent rdkafka producer" (create (producer_settings c));
  Ok metadata.

(** What the environment answers while the publisher handles one event. *)
Record kafka_reply : Type := mkKafkaReply { ky_timestamp_ns : Z; ky_delivered : bool; ky_metadata : bool }.

Inductive action : Type :=
| Clone                                   (* a handle is cloned *)
| DropHandle                              (* an idle handle is dropped *)
| Check (e : EnrichedNetworkEvent)        (* [should_apply_drop_policy] at the head of [try_enqueue] *)
| TrySend (i : nat)                       (* one of the calls past the check makes its [try_send] *)
| RecordDropped                           (* the drop counter of a rejected event *)
| AddEnqueued                             (* first update of [record_enqueued] *)
| AddQueued                               (* second update of [record_enqueued] *)
| Connect (created healthy : bool)        (* [manager_new] succeeds or not, with its flag *)
| Recv                                    (* [rx.recv()] returns *)
| Decrement                               (* [decrement_queued] *)
| Publish (k : kafka_reply).              (* the rest of the loop body *)

Section tasks.
Context (noop : bool) (c : CorrelationIngestionConfig).
Context (encode : ProtoEnrichedNetworkEvent → option bytes).

Definition in_flight (s : ingestion) : nat :=
  length (ig_passed s) + ig_dropping s + ig_sent s + ig_counted s.

Definition should_apply_drop_policy (s : ingestion) : bool :=
  bool_decide (pressure_drop_threshold c ≤ st_queued (ig_stats s)).

(** The channel is closed exactly when the receiver is gone. *)
Definition try_send_ok (s : ingestion) : bool :=
  bool_decide (ig_publisher s ≠ Exited) && bool_decide (Z.of_nat (length (ig_chan s)) < ci_channel_capacity c).

Definition producer_step (a : action) (s : ingestion) : option ingestion :=
  let '(mkIngestion chan stats passed dropping sent counted handles pub healthy delivered) := s in
  match a with
  | Clone =>
      if bool_decide (0 < handles)%nat
      then Some (mkIngestion chan stats passed dropping sent counted (S handles) pub healthy delivered) else None
  | DropHandle =>
      if bool_decide (in_flight s < handles)%nat
      then Some (mkIngestion chan stats passed dropping sent counted (pred handles) pub healthy delivered) else None
  | Check e =>
      if bool_decide (in_flight s < handles)%nat then
        Some (if should_apply_drop_policy s
              then mkIngestion chan stats passed (S dropping) sent counted handles pub healthy delivered
              else mkIngestion chan stats (passed ++ [e]) dropping sent counted handles pub healthy delivered)
      else None
  | TrySend i =>
      e ← passed !! i;
      Some (if try_send_ok s
            then mkIngestion (chan ++ [e]) stats (delete i passed) dropping (S sent) counted handles pub healthy delivered
            else mkIngestion chan stats (delete i passed) (S dropping) sent counted handles pub healthy delivered)
  | RecordDropped =>
      match dropping with
      | O => None
      | S dropping => Some (mkIngestion chan (record_dropped stats) passed dropping sent counted handles pub healthy delivered)
      end
  | AddEnqueued =>
      match sent with
      | O => None
      | S sent => Some (mkIngestion chan (add_enqueued stats) passed dropping sent (S counted) handles pub healthy delivered)
      end
  | AddQueued =>
      match counted with
      | O => None
      | S counted => Some (mkIngestion chan (add_queued stats) passed dropping sent counted handles pub healthy delivered)
      end
  | _ => None
  end.

(** The body of [kafka_publisher_loop] after [decrement_queued]: the counters, the
    producer's health flag and the record if the broker acknowledged it. A failed
    send refreshes the flag from the metadata request and sleeps when it is down. *)
Definition publish_event (k : kafka_reply) (e : EnrichedNetworkEvent) (stats : CorrelationIngestionStats)
    (healthy : bool) : CorrelationIngestionStats * bool * list kafka_record :=
  let event_id := event_id_of (ci_node_name c) e (ky_timestamp_ns k) in
  match encode (proto_message (ci_node_name c) event_id (ky_timestamp_ns k) e) with
  | None => (record_publish_failure stats, healthy, [])
  | Some payload =>
      if ky_delivered k
      then (record_published stats, true, [mkKafkaRecord (ci_topic c) event_id payload])
      else (record_publish_failure stats, ky_metadata k, [])
  end.

(** The publisher task: [kafka_publisher_loop], or the drain loop of [spawn_noop].
    [recv] returns [None] when the channel is empty and no handle is left. *)
Definition publisher_step (a : action) (s : ingestion) : option ingestion :=
  let '(mkIngestion chan stats passed dropping sent counted handles pub healthy delivered) := s in
  match a, pub with
  | Connect created metadata, Starting =>
      Some (if created
            then mkIngestion chan stats passed dropping sent counted handles Waiting metadata delivered
            else mkIngestion [] stats passed dropping sent counted handles Exited healthy delivered)
  | Recv, Waiting =>
      match chan with
      | e :: chan => Some (mkIngestion chan stats passed dropping sent counted handles (Received e) healthy delivered)
      | [] => if bool_decide (handles = 0%nat)
              then Some (mkIngestion [] stats passed dropping sent counted handles Exited healthy delivered) else None
      end
  | Decrement, Received e =>
      Some (mkIngestion chan (decrement_queued stats) passed dropping sent counted handles (Handling e) healthy delivered)
  | Publish k, Handling e =>
      if noop
      then Some (mkIngestion chan (record_published stats) passed dropping sent counted handles Waiting healthy delivered)
      else let '(stats, healthy, records) := publish_event k e stats healthy in
           Some (mkIngestion chan stats passed dropping sent counted handles Waiting healthy (delivered ++ records))
  | _, _ => None
  end.

Definition ingestion_step (a : action) (s : ingestion) : option ingestion :=
  match a with
  | Connect _ _ | Recv | Decrement | Publish _ => publisher_step a s
  | _ => producer_step a s
  end.

(** A behaviour: the actions in order, each enabled when it happens. *)
Fixpoint ingestion_run (acts : list action) (s : ingestion) : option ingestion :=
  match acts with
  | [] => Some s
  | a :: acts => s' ← ingestion_step a s; ingestion_run acts s'
  end.
End tasks.

(** ** Accounting *)

(** Events the publisher has taken from the channel: all, and those still counted in
    [queued]. *)
Definition in_hand (s : ingestion) : Z :=
  match ig_publisher s with Received _ | Handling _ => 1 | _ => 0 end.
Definition holding (s : ingestion) : Z := match ig_publisher s with Received _ => 1 | _ => 0 end.

Abbreviation zlen l := (Z.of_nat (length l)).

(** The calls of [try_enqueue] a behaviour makes. *)
Fixpoint arrivals (acts : list action) : Z :=
  match acts with
  | [] => 0
  | Check _ :: acts => 1 + arrivals acts
  | _ :: acts => arrivals acts
  end.

(** After [n] calls: each is counted dropped, counted enqueued, or still in progress;
    each event sent is in the channel, with the publisher, or counted published or
    failed ([lost] are those in the channel when the publisher ended); [queued] is the
    length of the channel up to the updates not yet made, modulo the width. *)
Record accounted (c : CorrelationIngestionConfig) (n lost : Z) (s : ingestion) : Prop := mkAccounted {
  acc_calls : n = st_dropped_events (ig_stats s) + Z.of_nat (ig_dropping s) + zlen (ig_passed s) + Z.of_nat (ig_sent s)
                  + st_enqueued (ig_stats s);
  acc_sent : st_enqueued (ig_stats s) + Z.of_nat (ig_sent s)
             = zlen (ig_chan s) + in_hand s + st_published (ig_stats s) + st_publish_failures (ig_stats s) + lost;
  acc_queued : st_queued (ig_stats s)
               = (zlen (ig_chan s) + holding s + lost - Z.of_nat (ig_sent s) - Z.of_nat (ig_counted s)) mod 2 ^ 64;
  acc_capacity : zlen (ig_chan s) ≤ ci_channel_capacity c;
  acc_lost : 0 ≤ lost ∧ (ig_publisher s ≠ Exited → lost = 0);
  acc_nonneg : 0 ≤ st_dropped_events (ig_stats s) ∧ 0 ≤ st_enqueued (ig_stats s) ∧ 0 ≤ st_published (ig_stats s)
               ∧ 0 ≤ st_publish_failures (ig_stats s)
}.

Lemma wrapping_incr x : 0 ≤ x → x + 1 < 2 ^ 64 → wrapping_add 64 x 1 = x + 1.
Proof. intros. apply Z.mod_small. lia. Qed.
Lemma wrapping_shift x y d : x = y mod 2 ^ 64 → wrapping_add 64 x d = (y + d) mod 2 ^ 64.
Proof. intros ->. unfold wrapping_add. by rewrite Zplus_mod_idemp_l. Qed.

(** Opens a state and its accounting, and closes the counting goals. *)
Ltac open_state s :=
  destruct s as [chan [enq drp pubd pfl qd] passed dropping sent counted handles pub healthy delivered].
Ltac project :=
  cbn [ig_chan ig_stats ig_passed ig_dropping ig_sent ig_counted ig_handles ig_publisher ig_healthy
       ig_delivered st_enqueued st_dropped_events st_published st_publish_failures st_queued
       add_enqueued add_queued record_dropped decrement_queued record_published record_publish_failure
       arrivals in_hand holding length] in *.
Ltac count :=
  constructor; unfold in_hand, holding in *; project;
  rewrite ?length_app, ?wrapping_incr by lia; project;
  first [done | lia | (etrans; [eassumption|f_equal; lia])
        | match goal with H : ?q = _ |- wrapping_add 64 ?q _ = _ => rewrite (wrapping_shift _ _ _ H); f_equal; lia end
        | split; [lia|intros; try congruence; match goal with H : _ ∧ (_ → _ = 0) |- _ => apply H; congruence end] | idtac].

Lemma producer_accounted c a n lost s s' :
  accounted c n lost s → n + arrivals [a] < 2 ^ 64 → producer_step c a s = Some s' →
  accounted c (n + arrivals [a]) lost s'.
Proof.
  open_state s. intros [Hn Hs Hq Hc Hl H0] Hb Hstep. project.
  destruct a as [| |e|i| | | | | | |]; cbn [producer_step] in Hstep; try done; project.
  - case_bool_decide; simplify_eq; count.
  - case_bool_decide; simplify_eq; count.
  - case_bool_decide; [|done]. destruct (should_apply_drop_policy _ _); simplify_eq; count.
  - destruct (passed !! i) as [e|] eqn:He; [|done]. cbn in Hstep.
    pose proof (lookup_lt_Some _ _ _ He). pose proof (length_delete passed i ltac:(by eexists)).
    destruct (try_send_ok _ _) eqn:Ht; simplify_eq; count.
    unfold try_send_ok in Ht. apply andb_true_iff in Ht as [_ Ht]. apply bool_decide_eq_true in Ht. project. lia.
  - destruct dropping; simplify_eq; count.
  - destruct sent; simplify_eq; count.
  - destruct counted; simplify_eq; count.
Qed.

Lemma publish_event_accounted c encode k e n lost s s' :
  accounted c n lost s → n < 2 ^ 64 → ig_publisher s = Handling e →
  publisher_step false c encode (Publish k) s = Some s' → accounted c n lost s'.
Proof.
  open_state s. intros [Hn Hs Hq Hc Hl H0] Hb Hp Hstep. project. subst pub. cbn [publisher_step] in Hstep.
  unfold publish_event in Hstep. destruct (encode _); [destruct (ky_delivered k)|]; simplify_eq; count.
Qed.

Lemma publisher_accounted noop c encode a n lost s s' :
  accounted c n lost s → n < 2 ^ 64 → 0 ≤ ci_channel_capacity c →
  publisher_step noop c encode a s = Some s' →
  ∃ lost', accounted c n lost' s'.
Proof.
  intros Hacc Hb Hcap Hstep. pose proof Hacc as Hacc'. revert Hacc' Hstep. open_state s.
  intros [Hn Hs Hq Hc Hl H0] Hstep. project.
  destruct a as [| |e|i| | | |created metadata| | |k], pub as [| |e'|e'|]; cbn [publisher_step] in Hstep; try done.
  - destruct created; simplify_eq; [exists lost; count|exists (lost + zlen chan); count].
  - destruct chan as [|e chan]; [case_bool_decide; [|done]|]; simplify_eq; exists lost; count.
  - simplify_eq. exists lost. count.
  - destruct noop; [simplify_eq; exists lost; count|].
    exists lost. exact (publish_event_accounted c encode k e' n lost _ s' Hacc Hb eq_refl Hstep).
Qed.

Lemma arrivals_nonneg acts : 0 ≤ arrivals acts.
Proof. induction acts as [|[] acts IH]; cbn [arrivals]; lia. Qed.
Lemma arrivals_cons a acts : arrivals (a :: acts) = arrivals [a] + arrivals acts.
Proof. destruct a; cbn [arrivals]; lia. Qed.
Lemma arrivals_app acts1 acts2 : arrivals (acts1 ++ acts2) = arrivals acts1 + arrivals acts2.
Proof.
  induction acts1 as [|a acts1 IH]; [done|]. cbn [app]. rewrite (arrivals_cons a), (arrivals_cons a acts1), IH. lia.
Qed.
Lemma arrivals_one a : 0 ≤ arrivals [a] ≤ 1.
Proof. destruct a; cbn [arrivals]; lia. Qed.

Lemma step_accounted noop c encode a n lost s s' :
  accounted c n lost s → n + arrivals [a] < 2 ^ 64 → 0 ≤ ci_channel_capacity c →
  ingestion_step noop c encode a s = Some s' → ∃ lost', accounted c (n + arrivals [a]) lost' s'.
Proof.
  intros Hacc Hn Hcap Hstep.
  assert (Hpub : arrivals [a] = 0 → publisher_step noop c encode a s = Some s' →
                 ∃ lost', accounted c (n + arrivals [a]) lost' s').
  { intros Ha Hp. rewrite Ha, Z.add_0_r in *. by eapply publisher_accounted. }
  destruct a; cbn [ingestion_step] in Hstep; auto; exists lost; eapply producer_accounted; eauto.
Qed.

Lemma run_accounted noop c encode acts n lost s s' :
  accounted c n lost s → n + arrivals acts < 2 ^ 64 → 0 ≤ ci_channel_capacity c →
  ingestion_run noop c encode acts s = Some s' → ∃ lost', accounted c (n + arrivals acts) lost' s'.
Proof.
  revert n lost s. induction acts as [|a acts IH]; intros n lost s Hacc Hn Hcap; cbn [ingestion_run].
  - intros [= <-]. exists lost. cbn [arrivals]. by rewrite Z.add_0_r.
  - destruct (ingestion_step noop c encode a s) as [s1|] eqn:Hs; [|done]. intros Hrun.
    rewrite arrivals_cons in *. pose proof (arrivals_nonneg acts).
    destruct (step_accounted noop c encode a n lost s s1 Hacc ltac:(lia) Hcap Hs) as [lost1 Hacc1].
    rewrite Z.add_assoc. eapply IH; eauto. lia.
Qed.

Lemma new_accounted noop c s : 0 ≤ ci_channel_capacity c → ingestion_new noop c = Some s → accounted c 0 0 s.
Proof.
  unfold ingestion_new. intros Hcap. destruct (channel_opens _); [|done]. intros [= <-].
  by destruct noop; count.
Qed.

(** C30: the counters of the ingestion channel account for every event, whatever the
    interleaving of the calls of [try_enqueue], on any number of clones of the handle,
    with the publisher, and whatever Kafka answers: up to the calls still in progress
    every event is counted exactly once as dropped or as enqueued, every enqueued event
    is in the channel, in the publisher's hands, or counted exactly once as published
    or failed, or was left behind in the channel when the publisher ended, of which there
    are none while it has not; and the channel never exceeds its capacity. The calls are
    fewer than a [u64] counts. *)
Theorem ingestion_conserves noop c encode acts s0 s :
  0 ≤ ci_channel_capacity c → ingestion_new noop c = Some s0 → arrivals acts < 2 ^ 64 →
  ingestion_run noop c encode acts s0 = Some s →
  ∃ lost, accounted c (arrivals acts) lost s.
Proof.
  intros Hcap Hnew Hn Hrun.
  exact (run_accounted noop c encode acts 0 0 s0 s (new_accounted noop c s0 Hcap Hnew) Hn Hcap Hrun).
Qed.

(** ** One handle *)

(** The agent keeps one handle, in the network monitor: its calls do not overlap. *)
Record single (c : CorrelationIngestionConfig) (s : ingestion) : Prop := mkSingle {
  sg_handles : (ig_handles s ≤ 1)%nat;
  sg_flight : (in_flight s ≤ ig_handles s)%nat;
  sg_threshold : zlen (ig_chan s) + zlen (ig_passed s) ≤ pressure_drop_threshold c
}.

(** [queued] read between two calls is the number of events sent and not yet taken off. *)
Lemma queued_idle c n lost s : accounted c n lost s → n < 2 ^ 64 → in_flight s = 0%nat →
  st_queued (ig_stats s) = zlen (ig_chan s) + holding s + lost.
Proof.
  open_state s. intros [Hn Hs Hq Hc Hl H0] Hb Hf. unfold in_flight, in_hand, holding in *. project.
  rewrite Hq. destruct pub; rewrite Z.mod_small; lia.
Qed.

Lemma threshold_nonneg c : 0 ≤ ci_channel_capacity c → 0 ≤ pressure_drop_threshold c.
Proof. intros. unfold pressure_drop_threshold, saturating_mul, PRESSURE_DROP_THRESHOLD_PCT. apply Z.div_pos; lia. Qed.
Lemma threshold_below_capacity c : 0 < ci_channel_capacity c → pressure_drop_threshold c < ci_channel_capacity c.
Proof.
  intros. unfold pressure_drop_threshold, saturating_mul, PRESSURE_DROP_THRESHOLD_PCT.
  apply Z.div_lt_upper_bound; lia.
Qed.

Lemma holding_nonneg s : 0 ≤ holding s.
Proof. unfold holding. case_match; lia. Qed.

Lemma producer_single c a n lost s s' :
  accounted c n lost s → n < 2 ^ 64 → a ≠ Clone → single c s → producer_step c a s = Some s' → single c s'.
Proof.
  intros Hacc Hn Ha [Hh Hf Ht] Hstep. pose proof (queued_idle c n lost s Hacc Hn) as Hidle.
  destruct Hacc as [_ _ _ _ [Hl _] _]. pose proof (holding_nonneg s) as Hp. revert Hstep Hidle Hh Hf Ht Hp.
  open_state s. intros Hstep Hidle Hh Hf Ht Hp.
  destruct a as [| |e|i| | | | | | |]; cbn [producer_step] in Hstep; try done; unfold in_flight in *; project.
  - case_bool_decide; simplify_eq. constructor; unfold in_flight; project; lia.
  - case_bool_decide; [|done]. destruct (should_apply_drop_policy _ _) eqn:Hd; simplify_eq.
    { constructor; unfold in_flight; project; lia. }
    unfold should_apply_drop_policy in Hd. apply bool_decide_eq_false in Hd. project.
    constructor; unfold in_flight; project; rewrite ?length_app; cbn [length]; lia.
  - destruct (passed !! i) as [e|] eqn:He; [|done]. cbn in Hstep.
    pose proof (lookup_lt_Some _ _ _ He). pose proof (length_delete passed i ltac:(by eexists)).
    destruct (try_send_ok _ _); simplify_eq; constructor; unfold in_flight; project; rewrite ?length_app; cbn [length]; lia.
  - destruct dropping; simplify_eq; constructor; unfold in_flight; project; lia.
  - destruct sent; simplify_eq; constructor; unfold in_flight; project; lia.
  - destruct counted; simplify_eq; constructor; unfold in_flight; project; lia.
Qed.

Lemma publisher_single noop c encode a s s' :
  single c s → publisher_step noop c encode a s = Some s' → single c s'.
Proof.
  open_state s. intros [Hh Hf Ht] Hstep. unfold in_flight in *. project.
  destruct a as [| |e|i| | | |created metadata| | |k], pub as [| |e'|e'|]; cbn [publisher_step] in Hstep; try done.
  - destruct created; simplify_eq; constructor; unfold in_flight; project; lia.
  - destruct chan as [|e chan]; [case_bool_decide; [|done]|]; simplify_eq; constructor; unfold in_flight; project; lia.
  - simplify_eq. constructor; unfold in_flight; project; lia.
  - destruct noop; [simplify_eq; constructor; unfold in_flight; project; lia|].
    destruct (publish_event _ _ _ _ _) as [[stats h] rs]. simplify_eq. constructor; unfold in_flight; project; lia.
Qed.

Lemma run_single noop c encode acts n lost s s' :
  accounted c n lost s → n + arrivals acts < 2 ^ 64 → 0 ≤ ci_channel_capacity c → Clone ∉ acts → single c s →
  ingestion_run noop c encode acts s = Some s' → single c s'.
Proof.
  revert n lost s. induction acts as [|a acts IH]; intros n lost s Hacc Hn Hcap Hclone Hs; cbn [ingestion_run].
  - by intros [= <-].
  - destruct (ingestion_step noop c encode a s) as [s1|] eqn:Hstep; [|done]. intros Hrun.
    rewrite arrivals_cons in *. pose proof (arrivals_nonneg acts). pose proof (arrivals_one a).
    destruct (step_accounted noop c encode a n lost s s1 Hacc ltac:(lia) Hcap Hstep) as [lost1 Hacc1].
    apply not_elem_of_cons in Hclone as [Ha Hclone].
    apply (IH (n + arrivals [a]) lost1 s1 Hacc1 ltac:(lia) Hcap Hclone); [|done].
    destruct a; cbn [ingestion_step] in Hstep;
      first [exact (publisher_single noop c encode _ s s1 Hs Hstep)
            | exact (producer_single c _ n lost s s1 Hacc ltac:(lia) (not_eq_sym Ha) Hs Hstep)].
Qed.

(** With the one handle the agent has, the pressure policy is exact under every
    interleaving with the publisher: the backlog never exceeds the 90% threshold, a call
    that passed the check finds room (the channel-full branch is never taken while the
    publisher lives), and a call drops its event exactly when the events sent and not yet
    taken off have reached the threshold, although [queued] is decremented before or after
    it is incremented. *)
Lemma single_handle_exact noop c encode acts s0 s :
  0 < ci_channel_capacity c → ingestion_new noop c = Some s0 → arrivals acts < 2 ^ 64 → Clone ∉ acts →
  ingestion_run noop c encode acts s0 = Some s → ig_publisher s ≠ Exited →
  zlen (ig_chan s) + zlen (ig_passed s) ≤ pressure_drop_threshold c ∧
  (ig_passed s ≠ [] → try_send_ok c s = true) ∧
  (in_flight s = 0%nat →
   should_apply_drop_policy c s = bool_decide (pressure_drop_threshold c ≤ zlen (ig_chan s) + holding s)).
Proof.
  intros Hcap Hnew Hn Hclone Hrun Hpub.
  pose proof (new_accounted noop c s0 ltac:(lia) Hnew) as Hacc0.
  destruct (run_accounted noop c encode acts 0 0 s0 s Hacc0 Hn ltac:(lia) Hrun) as [lost Hacc].
  assert (Hs : single c s).
  { apply (run_single noop c encode acts 0 0 s0 s Hacc0 Hn ltac:(lia) Hclone); [|done]. unfold ingestion_new in Hnew. destruct (channel_opens _); [|done].
    injection Hnew as <-. pose proof (threshold_nonneg c ltac:(lia)). constructor; unfold in_flight; project; lia. }
  destruct Hs as [Hh Hf Ht]. pose proof (threshold_below_capacity c Hcap). split_and!; [done| |].
  - intros Hp. unfold try_send_ok. rewrite bool_decide_true by done. apply bool_decide_eq_true.
    destruct (ig_passed s); [done|]. cbn [length] in Ht. lia.
  - intros Hidle. unfold should_apply_drop_policy. rewrite (queued_idle c _ lost s Hacc) by (done || lia).
    destruct (acc_lost _ _ _ _ Hacc) as [_ Hl]. by rewrite Hl, Z.add_0_r.
Qed.

(** ** Draining *)

(** The publisher alone, handling one event per reply. *)
Definition drain_actions (ks : list kafka_reply) : list action :=
  flat_map (λ k, [Recv; Decrement; Publish k]) ks.

(** The record an event becomes under a reply, if it encodes and the broker takes it. *)
Definition record_of (c : CorrelationIngestionConfig) (encode : ProtoEnrichedNetworkEvent → option bytes)
    (ek : EnrichedNetworkEvent * kafka_reply) : option kafka_record :=
  let event_id := event_id_of (ci_node_name c) ek.1 (ky_timestamp_ns ek.2) in
  payload ← encode (proto_message (ci_node_name c) event_id (ky_timestamp_ns ek.2) ek.1);
  if ky_delivered ek.2 then Some (mkKafkaRecord (ci_topic c) event_id payload) else None.

Lemma publish_event_record c encode k e stats healthy :
  (publish_event c encode k e stats healthy).2 = option_list (record_of c encode (e, k)).
Proof. unfold publish_event, record_of. cbn [fst snd]. destruct (encode _); [destruct (ky_delivered k)|]; done. Qed.

Lemma drain_run c encode ks s :
  ig_publisher s = Waiting → length ks = length (ig_chan s) →
  ∃ s', ingestion_run false c encode (drain_actions ks) s = Some s' ∧ ig_publisher s' = Waiting ∧
        ig_chan s' = [] ∧ in_flight s' = in_flight s ∧
        ig_delivered s' = ig_delivered s ++ omap (record_of c encode) (zip (ig_chan s) ks).
Proof.
  revert s. induction ks as [|k ks IH]; intros s.
  - open_state s. project. intros -> Hlen. destruct chan; [|done].
    eexists. split_and!; [reflexivity|..]; project; rewrite ?app_nil_r; done.
  - open_state s. project. intros -> Hlen. destruct chan as [|e chan]; [done|]. project.
    cbn [drain_actions flat_map app ingestion_run ingestion_step publisher_step mbind option_bind].
    change (flat_map _ ks) with (drain_actions ks).
    destruct (publish_event _ _ _ _ _ _) as [[stats h] rs] eqn:Hp.
    pose proof (publish_event_record c encode k e (decrement_queued (mkStats enq drp pubd pfl qd)) healthy) as Hr.
    cbn [decrement_queued st_enqueued st_dropped_events st_published st_publish_failures st_queued] in Hr.
    rewrite Hp in Hr. cbn [snd] in Hr. subst rs.
    cbn [mbind option_bind].
    match goal with |- context [ingestion_run _ _ _ (drain_actions ks) ?s1] =>
      destruct (IH s1 eq_refl) as (s' & Hrun & Hw & Hc & Hf & Hd) end; [cbn; lia|].
    exists s'. split_and!; [done..|]. rewrite Hd. project. rewrite <-app_assoc. f_equal.
    cbn [zip omap list_omap]. by destruct (record_of c encode (e, k)).
Qed.

Lemma drain_arrivals ks : arrivals (drain_actions ks) = 0.
Proof. induction ks as [|k ks IH]; [done|]. exact IH. Qed.

Lemma run_app noop c encode acts1 acts2 s :
  ingestion_run noop c encode (acts1 ++ acts2) s
  = ingestion_run noop c encode acts1 s ≫= ingestion_run noop c encode acts2.
Proof.
  revert s. induction acts1 as [|a acts1 IH]; intros s; [done|]. cbn [app ingestion_run].
  destruct (ingestion_step noop c encode a s); [apply IH|done].
Qed.

(** C38: nothing stays behind. From any state the pipeline can reach with no call in
    progress and the publisher waiting, the publisher alone handles every event of the
    backlog in order, whatever Kafka answers: the channel is empty and [queued] is zero
    again, the records acknowledged are those of the backlog's events in channel order,
    and every event ever submitted is counted dropped, published or failed. *)
Theorem publisher_drains c encode acts s0 s ks :
  0 ≤ ci_channel_capacity c → ingestion_new false c = Some s0 → arrivals acts < 2 ^ 64 →
  ingestion_run false c encode acts s0 = Some s →
  in_flight s = 0%nat → ig_publisher s = Waiting → length ks = length (ig_chan s) →
  ∃ s', ingestion_run false c encode (drain_actions ks) s = Some s' ∧
        ig_chan s' = [] ∧ st_queued (ig_stats s') = 0 ∧
        ig_delivered s' = ig_delivered s ++ omap (record_of c encode) (zip (ig_chan s) ks) ∧
        arrivals acts = st_dropped_events (ig_stats s') + st_published (ig_stats s')
                        + st_publish_failures (ig_stats s').
Proof.
  intros Hcap Hnew Hn Hrun Hf Hw Hlen.
  destruct (drain_run c encode ks s Hw Hlen) as (s' & Hrun' & Hw' & Hc' & Hf' & Hd').
  exists s'. rewrite Hf in Hf'.
  destruct (run_accounted false c encode (acts ++ drain_actions ks) 0 0 s0 s') as [lost Hacc].
  { exact (new_accounted false c s0 Hcap Hnew). }
  { rewrite arrivals_app, drain_arrivals. lia. }
  { done. }
  { by rewrite run_app, Hrun. }
  rewrite arrivals_app, drain_arrivals, Z.add_0_r in Hacc.
  destruct (acc_lost _ _ _ _ Hacc) as [_ Hl]. rewrite Hw' in Hl. rewrite Hl in Hacc by done.
  split_and!; [done|done| |done|].
  - rewrite (queued_idle c _ 0 s' Hacc) by (done || lia). unfold holding. by rewrite Hc', Hw'.
  - destruct Hacc as [Hn' Hs' _ _ _ _]. unfold in_flight, in_hand in *. rewrite Hc', Hw' in Hs'.
    cbn [length] in *. lia.
Qed.

(** ** Boundaries of the configuration *)

(** A capacity of one makes the threshold zero: every event is dropped although the
    channel is empty. A capacity of zero panics in [mpsc::channel]. *)
Theorem tiny_capacity_drops_all c s noop :
  (ci_channel_capacity c = 1 → 0 ≤ st_queued (ig_stats s) → should_apply_drop_policy c s = true) ∧
  (ci_channel_capacity c = 0 → ingestion_new noop c = None).
Proof.
  split.
  - intros Hc Hq. apply bool_decide_eq_true. by unfold pressure_drop_threshold; rewrite Hc.
  - intros Hc. unfold ingestion_new. by rewrite Hc.
Qed.

Definition demo_config : CorrelationIngestionConfig :=
  mkCorrelationIngestionConfig (lit "kafka:9092") DEFAULT_CORRELATION_TOPIC (lit "node-a") 100.
Definition demo_enriched (pid : Z) : EnrichedNetworkEvent := mkEnrichedNetworkEvent pid 1000 16843009 443 (lit "curl").
Definition demo_encode (m : ProtoEnrichedNetworkEvent) : option bytes := Some (pe_process_name m).
Definition demo_start : ingestion := default (mkIngestion [] stats_default [] 0 0 0 0 Exited true []) (ingestion_new false demo_config).

(** The single-handle hypothesis is needed: on two handles, an event received before its
    sender has counted it leaves [queued] at the maximum, and the other handle drops. *)
Theorem two_handles_drop_on_empty_channel :
  option_map (λ s, (ig_chan s, ig_dropping s, st_queued (ig_stats s)))
    (ingestion_run false demo_config demo_encode
       [Clone; Connect true true; Check (demo_enriched 1); TrySend 0; Recv; Decrement; Check (demo_enriched 2)]
       demo_start)
  = Some ([], 1%nat, u64_max).
Proof. vm_compute. reflexivity. Qed.

(** ** Instances *)
Definition demo_acts : list action :=
  [Check (demo_enriched 7); Connect true true; TrySend 0; AddEnqueued; Recv; AddQueued; Check (demo_enriched 8);
   Decrement; TrySend 0; Publish (mkKafkaReply 5 false false); AddEnqueued; AddQueued].
Definition demo_reached : ingestion :=
  default demo_start (ingestion_run false demo_config demo_encode demo_acts demo_start).

Lemma ingestion_conserves_witness : ∃ lost, accounted demo_config 2 lost demo_reached.
Proof.
  apply (ingestion_conserves false demo_config demo_encode demo_acts demo_start).
  - done.
  - reflexivity.
  - reflexivity.
  - vm_compute. reflexivity.
Defined.

Lemma publisher_drains_witness :
  ∃ s', ingestion_run false demo_config demo_encode (drain_actions [mkKafkaReply 9 true true]) demo_reached = Some s' ∧
        ig_chan s' = [] ∧ st_queued (ig_stats s') = 0 ∧
        ig_delivered s' = ig_delivered demo_reached
          ++ omap (record_of demo_config demo_encode) (zip (ig_chan demo_reached) [mkKafkaReply 9 true true]) ∧
        2 = st_dropped_events (ig_stats s') + st_published (ig_stats s') + st_publish_failures (ig_stats s').
Proof.
  apply (publisher_drains demo_config demo_encode demo_acts demo_start).
  - done.
  - reflexivity.
  - reflexivity.
  - vm_compute. reflexivity.
  - vm_compute. reflexivity.
  - vm_compute. reflexivity.
  - vm_compute. reflexivity.
Defined.
End Channel.
