(* ===== verification/Protobuf.v ===== *)
(** * The correlation records on the wire

    [ingestion/encoder.rs] writes the message of [packages/proto-definitions/
    network_event.proto] with [prost], which is a parameter: the class [Prost], a writer
    and a reader of that message, with the law that a message whose fields have their types
    is read back from its bytes. [ProtobufEncoder] is modelled over it.

    Shown: whatever the tasks do, each record the broker acknowledged is read back, field by
    field, as an event handed to [try_enqueue], under its own key.

    To evaluate records, and to show that the law can be kept, the file has an instance
    after the protobuf encoding: the fields in the order of their tags, those with the
    default value left out, [uint32] and [int64] as variable-length integers, [fixed32] in
    four bytes, strings with their length; the reader accepts the fields in any order, keeps
    the last of a repeated one and skips fields it does not know. *)

From S2P Require Import Prelude RustStd Common ExecMapper Ingestion.
Import Channel.

(** A [String] of the program: valid and not larger than memory. *)
Definition string_ok (s : bytes) : Prop := utf8_valid s = true ∧ Z.of_nat (length s) < 2 ^ 63.
(** The fields of the message in the types of the schema. *)
Definition message_typed (m : ProtoEnrichedNetworkEvent) : Prop :=
  uint 32 (pe_schema_version m) ∧ string_ok (pe_event_id m) ∧ - 2 ^ 63 ≤ pe_timestamp_ns m < 2 ^ 63 ∧
  string_ok (pe_node_name m) ∧ uint 32 (pe_pid m) ∧ uint 32 (pe_uid m) ∧ uint 32 (pe_dest_ip m) ∧
  uint 32 (pe_dest_port m) ∧ string_ok (pe_process_name m).

(** ** [prost] *)
(** [Message::encode] and [Message::decode] of the generated struct. *)
Class Prost : Type := {
  prost_encode : ProtoEnrichedNetworkEvent → bytes;
  prost_decode : bytes → option ProtoEnrichedNetworkEvent
}.
Class ProstLaws `{Prost} : Prop := {
  prost_round_trip m : message_typed m → prost_decode (prost_encode m) = Some m
}.

(** [ProtobufEncoder::encode_enriched_network_event], whose buffer starts empty. *)
Definition encode_enriched_network_event `{Prost} (node_name event_id : bytes) (timestamp_ns : Z) (e : EnrichedNetworkEvent) : bytes :=
  prost_encode (proto_message node_name event_id timestamp_ns e).

(** ** Variable-length integers *)
(** Seven bits at a time, the low ones first; ten bytes hold 64 bits. *)
Fixpoint varint_go (k : nat) (n : Z) : bytes :=
  match k with
  | O => [n]
  | S k => if n <? 128 then [n] else (n mod 128 + 128) :: varint_go k (n / 128)
  end.
Definition varint (n : Z) : bytes := varint_go 9 n.

Fixpoint read_varint_go (k : nat) (s : bytes) : option (Z * bytes) :=
  match k, s with
  | S k, b :: s =>
      if b <? 128 then if bool_decide (k = 0%nat) && (2 <=? b) then None else Some (b, s)
      else '(v, s) ← read_varint_go k s; Some (b - 128 + 128 * v, s)
  | _, _ => None
  end.
Definition read_varint (s : bytes) : option (Z * bytes) := read_varint_go 10 s.

(** ** Fields *)
(** The wire types: 0 a varint, 1 eight bytes, 2 length-delimited, 3 and 4 the ends of a
    group, 5 four bytes. *)
Definition field_key (tag wire : Z) : bytes := varint (tag * 8 + wire).
Definition put_varint (tag n : Z) : bytes := if n =? 0 then [] else field_key tag 0 ++ varint n.
Definition put_fixed32 (tag n : Z) : bytes := if n =? 0 then [] else field_key tag 5 ++ le_encode 4 n.
Definition put_string (tag : Z) (s : bytes) : bytes :=
  if is_empty s then [] else field_key tag 2 ++ varint (Z.of_nat (length s)) ++ s.

Definition proto_encode (m : ProtoEnrichedNetworkEvent) : bytes :=
  put_varint 1 (pe_schema_version m) ++ put_string 2 (pe_event_id m) ++ put_varint 3 (pe_timestamp_ns m mod 2 ^ 64) ++
  put_string 4 (pe_node_name m) ++ put_varint 5 (pe_pid m) ++ put_varint 6 (pe_uid m) ++ put_fixed32 7 (pe_dest_ip m) ++
  put_varint 8 (pe_dest_port m) ++ put_string 9 (pe_process_name m).

Definition take_exactly (n : nat) (s : bytes) : option (bytes * bytes) :=
  if bool_decide (n ≤ length s)%nat then Some (take n s, drop n s) else None.
Definition read_key (s : bytes) : option (Z * Z * bytes) :=
  '(key, s) ← read_varint s;
  if (u32_max <? key) || (key / 8 <? 1) then None else Some (key / 8, key mod 8, s).
Definition read_delimited (s : bytes) : option (bytes * bytes) :=
  '(n, s) ← read_varint s;
  if Z.of_nat (length s) <? n then None else take_exactly (Z.to_nat n) s.
Definition read_string (s : bytes) : option (bytes * bytes) :=
  '(t, s) ← read_delimited s; if utf8_valid t then Some (t, s) else None.

(** The value of a field that is not known; a group ends where its own end tag is. *)
Fixpoint skip_field (fuel : nat) (tag wire : Z) (s : bytes) : option bytes :=
  match fuel with
  | O => None
  | S fuel =>
      if wire =? 0 then snd <$> read_varint s
      else if wire =? 1 then snd <$> take_exactly 8 s
      else if wire =? 2 then snd <$> read_delimited s
      else if wire =? 3 then skip_group fuel tag s
      else if wire =? 5 then snd <$> take_exactly 4 s
      else None
  end
with skip_group (fuel : nat) (tag : Z) (s : bytes) : option bytes :=
  match fuel with
  | O => None
  | S fuel =>
      '(t, w, s) ← read_key s;
      if w =? 4 then if t =? tag then Some s else None
      else s ← skip_field fuel t w s; skip_group fuel tag s
  end.

(** The value of a known field, of the wire type the field must have. *)
Definition read_uint32 (wire : Z) (s : bytes) : option (Z * bytes) :=
  if wire =? 0 then '(v, s) ← read_varint s; Some (v mod 2 ^ 32, s) else None.
Definition signed64 (v : Z) : Z := if v <? 2 ^ 63 then v else v - 2 ^ 64.
Definition read_int64 (wire : Z) (s : bytes) : option (Z * bytes) :=
  if wire =? 0 then '(v, s) ← read_varint s; Some (signed64 v, s) else None.
Definition read_fixed32 (wire : Z) (s : bytes) : option (Z * bytes) :=
  if wire =? 5 then '(t, s) ← take_exactly 4 s; Some (le_decode t, s) else None.
Definition read_text (wire : Z) (s : bytes) : option (bytes * bytes) := if wire =? 2 then read_string s else None.

Definition merge_field (tag wire : Z) (m : ProtoEnrichedNetworkEvent) (s : bytes) : option (ProtoEnrichedNetworkEvent * bytes) :=
  let '(mkProtoEnrichedNetworkEvent v i t n p u d q c) := m in
  match tag with
  | 1 => '(v, s) ← read_uint32 wire s; Some (mkProtoEnrichedNetworkEvent v i t n p u d q c, s)
  | 2 => '(i, s) ← read_text wire s; Some (mkProtoEnrichedNetworkEvent v i t n p u d q c, s)
  | 3 => '(t, s) ← read_int64 wire s; Some (mkProtoEnrichedNetworkEvent v i t n p u d q c, s)
  | 4 => '(n, s) ← read_text wire s; Some (mkProtoEnrichedNetworkEvent v i t n p u d q c, s)
  | 5 => '(p, s) ← read_uint32 wire s; Some (mkProtoEnrichedNetworkEvent v i t n p u d q c, s)
  | 6 => '(u, s) ← read_uint32 wire s; Some (mkProtoEnrichedNetworkEvent v i t n p u d q c, s)
  | 7 => '(d, s) ← read_fixed32 wire s; Some (mkProtoEnrichedNetworkEvent v i t n p u d q c, s)
  | 8 => '(q, s) ← read_uint32 wire s; Some (mkProtoEnrichedNetworkEvent v i t n p u d q c, s)
  | 9 => '(c, s) ← read_text wire s; Some (mkProtoEnrichedNetworkEvent v i t n p u d q c, s)
  | _ => s ← skip_field (S (length s)) tag wire s; Some (m, s)
  end.
Definition proto_default : ProtoEnrichedNetworkEvent := mkProtoEnrichedNetworkEvent 0 [] 0 [] 0 0 0 0 [].
(** Each turn takes a byte at least. *)
Fixpoint read_message (fuel : nat) (m : ProtoEnrichedNetworkEvent) (s : bytes) : option ProtoEnrichedNetworkEvent :=
  match s with
  | [] => Some m
  | _ :: _ =>
      match fuel with
      | O => None
      | S fuel => '(tag, wire, s) ← read_key s; '(m, s) ← merge_field tag wire m s; read_message fuel m s
      end
  end.
Definition proto_decode (s : bytes) : option ProtoEnrichedNetworkEvent := read_message (length s) proto_default s.

(** ** Lemmas: integers *)
Lemma read_varint_go_cons k b s :
  read_varint_go (S k) (b :: s) =
  if b <? 128 then if bool_decide (k = 0%nat) && (2 <=? b) then None else Some (b, s)
  else '(v, s) ← read_varint_go k s; Some (b - 128 + 128 * v, s).
Proof. done. Qed.
Lemma read_varint_go_ok k n r :
  0 ≤ n < 2 ^ (7 * Z.of_nat k + 1) → read_varint_go (S k) (varint_go k n ++ r) = Some (n, r).
Proof.
  revert n. induction k as [|k IH]; intros n Hn.
  - cbn in Hn |- *. rewrite (proj2 (Z.ltb_lt n 128)), (proj2 (Z.leb_gt 2 n)) by lia. done.
  - cbn [varint_go]. destruct (Z.ltb_spec n 128).
    + cbn [app read_varint_go]. by rewrite (proj2 (Z.ltb_lt n 128)) by lia.
    + cbn [app]. rewrite read_varint_go_cons.
      pose proof (Z.mod_pos_bound n 128 ltac:(lia)).
      rewrite (proj2 (Z.ltb_ge (n mod 128 + 128) 128)), IH; [|split; [apply Z.div_pos; lia|]|lia].
      * cbn. do 2 f_equal. pose proof (Z.div_mod n 128). lia.
      * apply Z.div_lt_upper_bound; [lia|]. replace (7 * Z.of_nat (S k) + 1) with (7 + (7 * Z.of_nat k + 1)) in Hn by lia.
        rewrite Z.pow_add_r in Hn by lia. change (2 ^ 7) with 128 in Hn. lia.
Qed.
Lemma read_varint_ok n r : 0 ≤ n < 2 ^ 64 → read_varint (varint n ++ r) = Some (n, r).
Proof. intros. by apply read_varint_go_ok. Qed.

Lemma varint_nonempty n : varint n ≠ [].
Proof. unfold varint. cbn [varint_go]. by destruct (n <? 128). Qed.

Lemma read_key_ok tag wire r : 1 ≤ tag ≤ 9 → 0 ≤ wire < 6 → read_key (field_key tag wire ++ r) = Some (tag, wire, r).
Proof.
  intros. unfold read_key, field_key. rewrite read_varint_ok by lia. cbn [mbind option_bind].
  replace ((tag * 8 + wire) / 8) with tag by (rewrite Z.div_add_l, Z.div_small by lia; lia).
  replace ((tag * 8 + wire) mod 8) with wire by (rewrite Z.add_comm, Z_mod_plus_full, Z.mod_small; lia).
  rewrite (proj2 (Z.ltb_ge u32_max _)), (proj2 (Z.ltb_ge tag 1)) by (unfold u32_max; lia). done.
Qed.

Lemma read_delimited_ok s r :
  Z.of_nat (length s) < 2 ^ 64 → read_delimited (varint (Z.of_nat (length s)) ++ s ++ r) = Some (s, r).
Proof.
  intros. unfold read_delimited. rewrite read_varint_ok by lia. cbn [mbind option_bind].
  rewrite length_app, (proj2 (Z.ltb_ge _ _)), Nat2Z.id by lia. unfold take_exactly. rewrite length_app, bool_decide_true by lia.
  by rewrite take_app_length, drop_app_length.
Qed.

(** ** Lemmas: reading a message field by field *)
(** From the message [m] and the text [s], reading goes on with [m'] and [s']. *)
Definition goes_on (m : ProtoEnrichedNetworkEvent) (s : bytes) (m' : ProtoEnrichedNetworkEvent) (s' : bytes) : Prop :=
  ∀ fuel, (length s ≤ fuel)%nat → ∃ fuel', (length s' ≤ fuel')%nat ∧ read_message fuel m s = read_message fuel' m' s'.

Lemma goes_on_trans m1 s1 m2 s2 m3 s3 : goes_on m1 s1 m2 s2 → goes_on m2 s2 m3 s3 → goes_on m1 s1 m3 s3.
Proof. intros H1 H2 fuel Hf. destruct (H1 fuel Hf) as (f2 & Hf2 & ->). by apply H2. Qed.

Lemma goes_on_field m tag wire v s m' :
  1 ≤ tag ≤ 9 → 0 ≤ wire < 6 → merge_field tag wire m (v ++ s) = Some (m', s) →
  goes_on m ((field_key tag wire ++ v) ++ s) m' s.
Proof.
  intros Ht Hw Hm fuel Hf. rewrite <- app_assoc in *. pose proof (varint_nonempty (tag * 8 + wire)) as Hne.
  assert (read_message fuel m (field_key tag wire ++ v ++ s) = read_message (pred fuel) m' s) as ->.
  { unfold field_key in *. destruct (varint _) as [|b k] eqn:Hk; [done|]. destruct fuel as [|fuel]; [cbn in Hf; lia|].
    cbn [app read_message pred]. change (b :: k ++ v ++ s) with ((b :: k) ++ v ++ s). rewrite <- Hk.
    change (varint (tag * 8 + wire)) with (field_key tag wire). rewrite read_key_ok by done. cbn [mbind option_bind].
    by rewrite Hm. }
  exists (pred fuel). split; [|done]. revert Hf. rewrite !length_app. unfold field_key.
  destruct (varint _); [done|]. cbn [length]. lia.
Qed.

Lemma goes_on_same m s : goes_on m s m s.
Proof. intros fuel Hf. by exists fuel. Qed.

(** A field left out keeps its default. *)
Lemma goes_on_varint m tag n s m' :
  1 ≤ tag ≤ 9 → 0 ≤ n < 2 ^ 64 → merge_field tag 0 m (varint n ++ s) = Some (m', s) → (n = 0 → m' = m) →
  goes_on m (put_varint tag n ++ s) m' s.
Proof.
  intros Ht Hn Hm Hd. unfold put_varint. destruct (Z.eqb_spec n 0) as [H0|H0].
  - rewrite (Hd H0). apply goes_on_same.
  - apply goes_on_field; [done|lia|done].
Qed.
Lemma goes_on_fixed32 m tag n s m' :
  1 ≤ tag ≤ 9 → merge_field tag 5 m (le_encode 4 n ++ s) = Some (m', s) → (n = 0 → m' = m) →
  goes_on m (put_fixed32 tag n ++ s) m' s.
Proof.
  intros Ht Hm Hd. unfold put_fixed32. destruct (Z.eqb_spec n 0) as [H0|H0].
  - rewrite (Hd H0). apply goes_on_same.
  - apply goes_on_field; [done|lia|done].
Qed.
Lemma goes_on_string m tag t s m' :
  1 ≤ tag ≤ 9 → merge_field tag 2 m (varint (Z.of_nat (length t)) ++ t ++ s) = Some (m', s) → (t = [] → m' = m) →
  goes_on m (put_string tag t ++ s) m' s.
Proof.
  intros Ht Hm Hd. unfold put_string. destruct t as [|b t].
  - rewrite (Hd eq_refl). apply goes_on_same.
  - cbn [is_empty]. apply goes_on_field; [done|lia|]. by rewrite <- app_assoc.
Qed.

Lemma read_uint32_ok n r : uint 32 n → read_uint32 0 (varint n ++ r) = Some (n, r).
Proof. intros. unfold read_uint32. cbn [Z.eqb]. rewrite read_varint_ok by lia. cbn. by rewrite Z.mod_small by lia. Qed.
Lemma read_int64_ok n r : - 2 ^ 63 ≤ n < 2 ^ 63 → read_int64 0 (varint (n mod 2 ^ 64) ++ r) = Some (n, r).
Proof.
  intros. unfold read_int64. cbn [Z.eqb]. pose proof (Z.mod_pos_bound n (2 ^ 64) ltac:(lia)).
  rewrite read_varint_ok by lia. cbn [mbind option_bind]. do 2 f_equal. unfold signed64.
  destruct (Z.le_gt_cases 0 n).
  - rewrite Z.mod_small by lia. by rewrite (proj2 (Z.ltb_lt n (2 ^ 63))) by lia.
  - replace (n mod 2 ^ 64) with (n + 2 ^ 64) by (rewrite <- (Z_mod_plus_full n 1), Z.mod_small; lia).
    rewrite (proj2 (Z.ltb_ge _ _)) by lia. lia.
Qed.
Lemma read_fixed32_ok n r : uint 32 n → read_fixed32 5 (le_encode 4 n ++ r) = Some (n, r).
Proof.
  intros. unfold read_fixed32, take_exactly. cbn [Z.eqb]. rewrite bool_decide_true by (rewrite length_app, length_le_encode; lia).
  cbn [mbind option_bind].
  assert (take 4 (le_encode 4 n ++ r) = le_encode 4 n ∧ drop 4 (le_encode 4 n ++ r) = r) as [-> ->] by done.
  rewrite le_decode_encode by (cbn; lia). done.
Qed.
Lemma read_text_ok t r : string_ok t → read_text 2 (varint (Z.of_nat (length t)) ++ t ++ r) = Some (t, r).
Proof. intros [Hu Hl]. unfold read_text, read_string. cbn [Z.eqb]. rewrite read_delimited_ok by lia. cbn. by rewrite Hu. Qed.

(** What was written is read back. *)
Lemma proto_round_trip m : message_typed m → proto_decode (proto_encode m) = Some m.
Proof.
  destruct m as [v i t n p u d q c]. intros (Hv & Hi & Ht & Hn & Hp & Hu & Hd & Hq & Hc).
  cbn [pe_schema_version pe_event_id pe_timestamp_ns pe_node_name pe_pid pe_uid pe_dest_ip pe_dest_port pe_process_name] in *.
  pose proof (Z.mod_pos_bound t (2 ^ 64) ltac:(lia)) as Hm.
  assert (t mod 2 ^ 64 = 0 → t = 0) as Ht0.
  { intros H0. destruct (Z.le_gt_cases 0 t); [rewrite Z.mod_small in H0; lia|].
    rewrite <- (Z_mod_plus_full t 1), Z.mod_small in H0; lia. }
  assert (goes_on proto_default (proto_encode (mkProtoEnrichedNetworkEvent v i t n p u d q c) ++ [])
            (mkProtoEnrichedNetworkEvent v i t n p u d q c) []) as Hg.
  { unfold proto_encode, proto_default. rewrite <- !app_assoc.
    cbn [pe_schema_version pe_event_id pe_timestamp_ns pe_node_name pe_pid pe_uid pe_dest_ip pe_dest_port pe_process_name].
    eapply goes_on_trans; [apply goes_on_varint; [lia|lia|cbn [merge_field]; by rewrite read_uint32_ok|by intros ->]|].
    eapply goes_on_trans; [apply goes_on_string; [lia|cbn [merge_field]; by rewrite read_text_ok|by intros ->]|].
    eapply goes_on_trans; [apply goes_on_varint; [lia|lia|cbn [merge_field]; by rewrite read_int64_ok|by intros ->%Ht0]|].
    eapply goes_on_trans; [apply goes_on_string; [lia|cbn [merge_field]; by rewrite read_text_ok|by intros ->]|].
    eapply goes_on_trans; [apply goes_on_varint; [lia|lia|cbn [merge_field]; by rewrite read_uint32_ok|by intros ->]|].
    eapply goes_on_trans; [apply goes_on_varint; [lia|lia|cbn [merge_field]; by rewrite read_uint32_ok|by intros ->]|].
    eapply goes_on_trans; [apply goes_on_fixed32; [lia|cbn [merge_field]; by rewrite read_fixed32_ok|by intros ->]|].
    eapply goes_on_trans; [apply goes_on_varint; [lia|lia|cbn [merge_field]; by rewrite read_uint32_ok|by intros ->]|].
    apply goes_on_string; [lia|cbn [merge_field]; by rewrite read_text_ok|by intros ->]. }
  unfold proto_decode. rewrite app_nil_r in Hg. destruct (Hg _ (le_n _)) as (fuel & _ & ->). by destruct fuel.
Qed.

#[export] Instance protobuf_prost : Prost | 100 := { prost_encode := proto_encode; prost_decode := proto_decode }.
#[export] Instance protobuf_laws : ProstLaws.
Proof. split. exact proto_round_trip. Qed.

(** ** Lemmas: texts *)
Lemma utf8_step_app b s t n : utf8_step b s = (true, n) → utf8_step b (s ++ t) = (true, n) ∧ (n ≤ S (length s))%nat.
Proof.
  assert (∀ i x, s !! i = Some x → (s ++ t) !! i = Some x ∧ (i < length s)%nat) as Hl.
  { intros i x Hi. split; [by apply lookup_app_l_Some|by eapply lookup_lt_Some]. }
  unfold utf8_step, cont, second_ok3, second_ok4.
  destruct (s !! 0%nat) as [x|] eqn:H0; destruct (s !! 1%nat) as [y|] eqn:H1; destruct (s !! 2%nat) as [z|] eqn:H2;
    try destruct (Hl _ _ H0) as [-> ?]; try destruct (Hl _ _ H1) as [-> ?]; try destruct (Hl _ _ H2) as [-> ?];
    repeat case_match; intros [= <-]; try done; split; try done; lia.
Qed.

Lemma utf8_valid_go_app f s g t :
  utf8_valid_go f s = true → utf8_valid_go g t = true → (length t ≤ g)%nat →
  ∀ h, (length s + g ≤ h)%nat → utf8_valid_go h (s ++ t) = true.
Proof.
  assert (∀ g t h, utf8_valid_go g t = true → (g ≤ h)%nat → utf8_valid_go h t = true) as Hmono.
  { clear. induction g as [|g IH]; intros [|b t] [|h] Ht Hh; try done; try lia. cbn [utf8_valid_go] in *.
    destruct (utf8_step b t) as [ok n]. apply andb_true_iff in Ht as [-> Ht]. by apply IH; [|lia]. }
  revert s. induction f as [|f IH]; intros [|b s] Hs Ht Hg h Hh; cbn [app length] in *; try done; try (by eapply Hmono).
  destruct h as [|h]; [lia|]. cbn [utf8_valid_go] in *. destruct (utf8_step b s) as [ok n] eqn:Hstep.
  apply andb_true_iff in Hs as [-> Hs]. destruct (utf8_step_app b s t n Hstep) as [-> Hn]. cbn [andb].
  rewrite (app_comm_cons s t b). rewrite drop_app_le by (cbn; lia). apply IH; [done..|].
  assert (1 ≤ n)%nat by (unfold utf8_step in Hstep; repeat case_match; simplify_eq; lia).
  rewrite length_drop. cbn [length]. lia.
Qed.
Lemma utf8_valid_app s t : utf8_valid s = true → utf8_valid t = true → utf8_valid (s ++ t) = true.
Proof. intros Hs Ht. eapply utf8_valid_go_app; [done..|]. rewrite length_app. lia. Qed.

Lemma ascii_valid s : Forall (λ b, 0 ≤ b < 128) s → utf8_valid s = true.
Proof.
  unfold utf8_valid. induction s as [|b s IH]; [done|]. intros [Hb Hs]%Forall_cons. cbn [length utf8_valid_go].
  unfold utf8_step at 1. rewrite bool_decide_true by lia. cbn [andb drop]. by apply IH.
Qed.

Lemma length_dec_digits fuel n acc : (length (dec_digits fuel n acc) ≤ fuel + length acc)%nat.
Proof.
  revert n acc. induction fuel as [|fuel IH]; intros n acc; cbn [dec_digits]; [lia|].
  case_bool_decide; [cbn; lia|]. etransitivity; [apply IH|cbn; lia].
Qed.
Lemma digits_ok s : Forall (λ b, 48 ≤ b ≤ 57) s → utf8_valid s = true.
Proof. intros Hs. apply ascii_valid. eapply Forall_impl; [done|]. cbn. lia. Qed.
Lemma to_dec_ok n : 0 ≤ n → utf8_valid (to_dec n) = true ∧ (length (to_dec n) ≤ 20)%nat.
Proof.
  intros Hn. split; [by apply digits_ok, to_dec_digits|]. etransitivity; [apply length_dec_digits|]. cbn. lia.
Qed.
Lemma to_dec_signed_ok n : utf8_valid (to_dec_signed n) = true ∧ (length (to_dec_signed n) ≤ 21)%nat.
Proof.
  unfold to_dec_signed. case_bool_decide.
  - destruct (to_dec_ok (- n)) as [Hu Hl]; [lia|]. split; [|cbn [length]; lia]. by apply (utf8_valid_app [45]).
  - destruct (to_dec_ok n) as [Hu Hl]; [lia|]. split; [done|lia].
Qed.

(** ** The events the monitors hand over *)
Definition enriched_typed (e : EnrichedNetworkEvent) : Prop :=
  uint 32 (en_pid e) ∧ uint 32 (en_uid e) ∧ uint 32 (en_dest_ip e) ∧ uint 16 (en_dest_port e) ∧ string_ok (en_process_name e).
Definition node_typed (node : bytes) : Prop := utf8_valid node = true ∧ Z.of_nat (length node) < 2 ^ 62.

Lemma event_id_ok node e ts : node_typed node → uint 32 (en_pid e) → string_ok (event_id_of node e ts).
Proof.
  intros [Hn Hl] Hp. unfold event_id_of. destruct (to_dec_ok (en_pid e)) as [H1 L1]; [lia|].
  destruct (to_dec_signed_ok ts) as [H2 L2]. split.
  - apply utf8_valid_app; [done|]. apply (utf8_valid_app (lit "-")); [done|]. apply utf8_valid_app; [done|].
    by apply (utf8_valid_app (lit "-")).
  - rewrite !length_app. change (length (lit "-")) with 1%nat. lia.
Qed.

Lemma proto_message_typed node e ts :
  node_typed node → enriched_typed e → - 2 ^ 63 ≤ ts < 2 ^ 63 → message_typed (proto_message node (event_id_of node e ts) ts e).
Proof.
  intros Hn He Ht. pose proof (event_id_ok node e ts Hn) as Hid. destruct He as (? & ? & ? & ? & ?).
  unfold message_typed, proto_message. cbn. split_and!; try done; try apply Hid; try lia; try done; destruct Hn; split; [done|lia].
Qed.

(** ** Every acknowledged record is the message of an event *)
Section records.
Context `{HP : Prost, HPL : !ProstLaws}.
Context (noop : bool) (c : CorrelationIngestionConfig) (submitted : EnrichedNetworkEvent → Prop).
Context (node_ok : node_typed (ci_node_name c)) (submitted_typed : ∀ e, submitted e → enriched_typed e).

(** The message of a submitted event, published at one of the times [times]: each field of
    the schema has the value of its name. *)
Definition shows (times : Z → Prop) (key : bytes) (m : ProtoEnrichedNetworkEvent) : Prop :=
  ∃ e ts, submitted e ∧ times ts ∧ pe_schema_version m = 1 ∧
    key = ci_node_name c ++ lit "-" ++ to_dec (en_pid e) ++ lit "-" ++ to_dec_signed ts ∧
    pe_event_id m = key ∧ pe_timestamp_ns m = ts ∧ pe_node_name m = ci_node_name c ∧
    pe_pid m = en_pid e ∧ pe_uid m = en_uid e ∧ pe_dest_ip m = en_dest_ip e ∧ pe_dest_port m = en_dest_port e ∧
    pe_process_name m = en_process_name e.

(** The record is on the topic and is read back as such a message, under its own key. *)
Definition readable (times : Z → Prop) (r : kafka_record) : Prop :=
  kr_topic r = ci_topic c ∧ ∃ m, prost_decode (kr_payload r) = Some m ∧ shows times (kr_key r) m.
Context (times : Z → Prop).

Definition held_by (p : publisher) : Prop := match p with Received e | Handling e => submitted e | _ => True end.
Record carried (s : ingestion) : Prop := mkCarried {
  ca_chan : Forall submitted (ig_chan s);
  ca_passed : Forall submitted (ig_passed s);
  ca_held : held_by (ig_publisher s);
  ca_delivered : Forall (readable times) (ig_delivered s)
}.

(** What an action brings in from outside. *)
Definition action_ok (a : action) : Prop :=
  match a with
  | Check e => submitted e
  | Publish k => times (ky_timestamp_ns k) ∧ - 2 ^ 63 ≤ ky_timestamp_ns k < 2 ^ 63
  | _ => True
  end.

Lemma published_readable k e stats healthy :
  submitted e → times (ky_timestamp_ns k) ∧ - 2 ^ 63 ≤ ky_timestamp_ns k < 2 ^ 63 →
  Forall (readable times) (publish_event c (λ m, Some (prost_encode m)) k e stats healthy).2.
Proof.
  intros He [Ht Hk]. unfold publish_event. destruct (ky_delivered k); cbn [snd]; [|done]. apply Forall_singleton.
  split; [done|]. exists (proto_message (ci_node_name c) (event_id_of (ci_node_name c) e (ky_timestamp_ns k)) (ky_timestamp_ns k) e).
  split; [apply prost_round_trip, proto_message_typed; auto|]. by exists e, (ky_timestamp_ns k).
Qed.

Lemma carried_step a s s' :
  action_ok a → carried s → ingestion_step noop c (λ m, Some (prost_encode m)) a s = Some s' → carried s'.
Proof.
  intros Ha [Hc Hp Hh Hd] Hs.
  destruct s as [chan stats passed dropping sent counted handles pub healthy delivered].
  cbn [ig_chan ig_passed ig_publisher ig_delivered] in *.
  destruct a; cbn [ingestion_step producer_step publisher_step] in Hs; cbn [action_ok] in Ha.
  - by case_bool_decide; simplify_eq.
  - by case_bool_decide; simplify_eq.
  - case_bool_decide; simplify_eq. destruct (should_apply_drop_policy _ _); split; try done. cbn. by apply Forall_app_2; [|constructor].
  - apply bind_Some in Hs as (e & He & Hs). simplify_eq. pose proof (Forall_lookup_1 _ _ _ _ Hp He).
    destruct (try_send_ok _ _); split; cbn; try done; try (by apply Forall_delete); by apply Forall_app_2; [|constructor].
  - by destruct dropping; simplify_eq.
  - by destruct sent; simplify_eq.
  - by destruct counted; simplify_eq.
  - destruct pub; simplify_eq. by destruct created; split.
  - destruct pub; simplify_eq. destruct chan as [|e chan]; [by case_bool_decide; simplify_eq|].
    simplify_eq. apply Forall_cons in Hc as [He Hc]. by split.
  - destruct pub; simplify_eq. by split.
  - destruct pub as [| | |e|]; simplify_eq. destruct noop; simplify_eq; [by split|].
    pose proof (published_readable k e stats healthy Hh Ha) as Hr.
    destruct (publish_event _ _ k e stats healthy) as [[stats' healthy'] records]. simplify_eq. split; try done.
    cbn. by apply Forall_app_2.
Qed.

Lemma carried_run acts s s' :
  Forall action_ok acts → carried s → ingestion_run noop c (λ m, Some (prost_encode m)) acts s = Some s' → carried s'.
Proof.
  revert s. induction acts as [|a acts IH]; intros s Ha Hs Hrun; cbn [ingestion_run] in Hrun; [by simplify_eq|].
  apply bind_Some in Hrun as (s1 & H1 & Hrun). apply Forall_cons in Ha as [Ha Hl].
  eapply IH; [done| |done]. by eapply carried_step.
Qed.
End records.

(** C14: what the broker acknowledged can be read. The events handed to [try_enqueue], the
    node's name and the clock readings have their types. Whatever the interleaving of the
    producers and the publisher and whatever Kafka answers, every record delivered is on the
    correlation topic, and a protobuf reader of the schema that keeps the law of [Prost]
    reads in it: schema version 1, the record's key as event id, which is the node, the
    process id and the time joined by dashes, the time of a publication, the agent's node,
    and the process id, user id, destination address and port and process name of an event
    handed to [try_enqueue]. *)
Theorem delivered_records_readable `{HP : Prost, HPL : !ProstLaws} noop c acts s s' :
  node_typed (ci_node_name c) → ingestion_new noop c = Some s →
  (∀ e, Check e ∈ acts → enriched_typed e) → (∀ k, Publish k ∈ acts → - 2 ^ 63 ≤ ky_timestamp_ns k < 2 ^ 63) →
  ingestion_run noop c (λ m, Some (prost_encode m)) acts s = Some s' →
  Forall (readable c (λ e, Check e ∈ acts) (λ ts, ∃ k, Publish k ∈ acts ∧ ky_timestamp_ns k = ts)) (ig_delivered s').
Proof.
  intros Hn Hnew He Hk Hrun. set (times := λ ts, ∃ k, Publish k ∈ acts ∧ ky_timestamp_ns k = ts).
  assert (carried c (λ e, Check e ∈ acts) times s) as Hs.
  { unfold ingestion_new in Hnew. destruct (channel_opens _); [|done]. injection Hnew as <-. by split; try constructor; destruct noop. }
  assert (Forall (action_ok (λ e, Check e ∈ acts) times) acts) as Ha.
  { apply Forall_forall. intros [] Hin; cbn; auto. split; [|auto]. by eexists. }
  eapply ca_delivered, carried_run; try done.
Qed.

(** ** A sample *)
(** One event is published at the first attempt, a second one is refused by the broker. *)
Definition demo_actions : list action :=
  [Connect true true; Check (demo_enriched 7); TrySend 0; AddEnqueued; AddQueued; Recv; Decrement;
   Publish (mkKafkaReply 5 true true); Check (demo_enriched 8); TrySend 0; Recv; AddEnqueued; AddQueued; Decrement;
   Publish (mkKafkaReply 6 false true)].
Definition demo_records : list kafka_record :=
  match ingestion_run false demo_config (λ m, Some (prost_encode m)) demo_actions Channel.demo_start with
  | Some s => ig_delivered s
  | None => []
  end.

Lemma delivered_records_readable_witness :
  length demo_records = 1%nat ∧
  Forall (readable demo_config (λ e, Check e ∈ demo_actions) (λ ts, ∃ k, Publish k ∈ demo_actions ∧ ky_timestamp_ns k = ts)) demo_records.
Proof.
  split; [vm_compute; reflexivity|].
  eapply (delivered_records_readable false demo_config demo_actions Channel.demo_start).
  - split; vm_compute; reflexivity.
  - vm_compute. reflexivity.
  - intros e He. apply list_elem_of_In in He. cbn in He.
    repeat (destruct He as [He|He]; [try discriminate He; injection He as <-; repeat split; vm_compute; first [reflexivity|intros HX; discriminate HX]|]). done.
  - intros k Hk. apply list_elem_of_In in Hk. cbn in Hk.
    repeat (destruct Hk as [Hk|Hk]; [try discriminate Hk; injection Hk as <-; cbn; lia|]). done.
  - vm_compute. reflexivity.
Defined.
