(* ===== verification/Monitors.v ===== *)
(** * The running agent ([monitoring/process_monitor.rs], [network_monitor.rs], [event_loop.rs])

    The tasks the agent runs once armed: the poller and the worker of the process
    monitor, joined by a bounded channel; the network monitor, which reads the
    worker's process cache and feeds the ingestion channel; the event loop, which
    takes the worker's telemetry and the enforcement ring. Each task is cut at its
    channel operations, and a behaviour is the list of the tasks' actions in the order
    they happen. *)

From S2P Require Import Prelude RustStd Common ExecMapper Detection Metrics Ingestion.

Definition DEFAULT_PROCESS_CHANNEL_CAPACITY : Z := 8192.
Definition PROCESS_PRESSURE_DROP_THRESHOLD_PCT : Z := 90.
Definition DROP_WARN_INTERVAL : Z := 10000.
Definition DETECTION_CHANNEL_CAPACITY : Z := 4096.

(** The capacity [start_process_monitor] reads from the environment; zero panics in
    [mpsc::channel]. *)
Definition process_channel_capacity (var : option bytes) : Z :=
  default DEFAULT_PROCESS_CHANNEL_CAPACITY (var ≫= parse_u64).

(** ** The tasks *)

(** The process monitor: its channel, whether each task still runs (and so holds its
    end of the channel), the process cache and the handler's counter. *)
Record process_monitor : Type := mkProcessMonitor {
  pm_chan : list ExecEvent;
  pm_poller : bool;
  pm_worker : bool;
  pm_processes : gmap Z bytes;
  pm_seen : Z;
  pm_metrics : AgentMetrics
}.

(** [detection_tx]/[detection_rx]; open while the event loop runs. *)
Record detection_channel : Type := mkDetectionChannel {
  dc_queue : list SecurityTelemetryEvent;
  dc_open : bool
}.

Record network_monitor : Type := mkNetworkMonitor {
  nm_running : bool;
  nm_seen : Z;
  nm_ingestion : Channel.ingestion
}.

Record agent : Type := mkAgent {
  ag_process : process_monitor;
  ag_detection : detection_channel;
  ag_network : network_monitor;
  ag_loop : LoopState
}.

(** Whether the poller warns about a drop: the first and every ten thousandth. *)
Definition drop_warned (total : Z) : bool :=
  bool_decide (total = 1) || bool_decide (total mod DROP_WARN_INTERVAL = 0).

(** One item of the poller's drain: an undecodable record is skipped, a full channel
    counts a drop, a closed one ends the drain. The flag says whether to go on. *)
Definition poll_exec_record (capacity : Z) (record : bytes) (p : process_monitor) : process_monitor * bool :=
  match ringbuf_decode_exec_event record with
  | None => (p, true)
  | Some e =>
      if negb (pm_worker p) then (p, false)
      else if bool_decide (Z.of_nat (length (pm_chan p)) < capacity) then
        (mkProcessMonitor (pm_chan p ++ [e]) (pm_poller p) (pm_worker p) (pm_processes p) (pm_seen p) (pm_metrics p),
         true)
      else (mkProcessMonitor (pm_chan p) (pm_poller p) (pm_worker p) (pm_processes p) (pm_seen p)
              (record_userspace_drop (pm_metrics p)), true)
  end.

(** The whole closure over the records the ring holds, uninterrupted: the records left
    in the ring and the result Tokio sees. *)
Fixpoint process_drain (capacity : Z) (drained_any : bool) (records : list bytes) (p : process_monitor) :
    process_monitor * list bytes * result () :=
  match records with
  | [] => (p, [], ringbuf_drain_outcome drained_any)
  | r :: records =>
      match poll_exec_record capacity r p with
      | (p, true) => process_drain capacity true records p
      | (p, false) => (p, records, Ok ())
      end
  end.

(** [tx.try_send(telemetry)]; a failure is only logged. *)
Definition detection_try_send (t : SecurityTelemetryEvent) (d : detection_channel) : detection_channel :=
  if dc_open d && bool_decide (Z.of_nat (length (dc_queue d)) < DETECTION_CHANNEL_CAPACITY)
  then mkDetectionChannel (dc_queue d ++ [t]) (dc_open d) else d.

(** The worker's handling of one event. *)
Definition work_exec_event (e : ExecEvent) (p : process_monitor) (d : detection_channel) :
    process_monitor * detection_channel :=
  (mkProcessMonitor (pm_chan p) (pm_poller p) (pm_worker p)
     (register_process (ee_pid e) (ee_filename e) (pm_processes p))
     (observe (pm_seen p)).1
     (record_event_processed (pm_metrics p)),
   detection_try_send (exec_event_to_security_telemetry e) d).

(** [wait_for_shutdown_signal]: which signal comes first, the wait for SIGINT being
    fallible, once the SIGTERM handler is installed. *)
Inductive first_signal : Type :=
| SigInt (r : result ())
| SigTerm.
Definition wait_for_shutdown_signal (install : result ()) (first : first_signal) : result () :=
  _ ← with_context "failed to install SIGTERM handler" install;
  match first with
  | SigInt r => with_context "failed to await SIGINT" r
  | SigTerm => Ok ()
  end.

(** What ends or continues a turn of [event_loop::run]. *)
Inductive turn_result : Type :=
| Continue
| Break
| Return (e : error).

(** The branch [select!] takes: the token, the signal, the statistics timer with the
    outcome of the map read, the enforcement ring with the outcome of the poll, one
    visibility event. *)
Inductive turn : Type :=
| OnCancelled
| OnSignal (r : result ())
| OnStats (r : result (Z * Z))
| OnRing (records : list (Tick * bytes * bytes)) (poll : result ())
| OnVisibility (tick : Tick) (siem_now : bytes) (e : SecurityTelemetryEvent).

Section loop.
Context (behavior_json : BehaviorAlert → result bytes) (siem_json : SiemAlert → result bytes).

(** [log_health_metrics]: the printed line. *)
Definition log_health_metrics (stats : Z * Z) : bytes :=
  [240; 159; 147; 138] ++ lit " Telemetry Health | events_processed=" ++ to_dec stats.1 ++ lit " lost_events_count=" ++ to_dec stats.2.

Definition of_result (r : result ()) : turn_result :=
  match r with Ok _ => Continue | Err e => Return e end.

Definition loop_turn (t : turn) (s : LoopState) : LoopState * turn_result :=
  match t with
  | OnCancelled => (s, Break)
  | OnSignal (Ok _) => (s, Break)
  | OnSignal (Err e) => (s, Return e)
  | OnStats (Ok stats) =>
      (mkLoopState (ls_pipeline s) (ls_stream s) (ls_stdout s ++ [log_health_metrics stats]), Continue)
  | OnStats (Err e) => (s, Return e)
  | OnRing records poll => (drain_records behavior_json siem_json records s, of_result poll)
  | OnVisibility tick siem_now e => ((emit_pipeline_output behavior_json siem_json tick siem_now e s).1, Continue)
  end.

(** [event_loop::run] over the branches taken: the state when it ends, and how. *)
Fixpoint run_loop (turns : list turn) (s : LoopState) : LoopState * turn_result :=
  match turns with
  | [] => (s, Continue)
  | t :: turns => match loop_turn t s with
                  | (s, Continue) => run_loop turns s
                  | r => r
                  end
  end.

Inductive agent_action : Type :=
| PollExec (record : bytes)                              (* the poller takes an exec record off the ring *)
| Work                                                   (* the worker handles the next event *)
| PollConnect (record : bytes)                           (* the network monitor takes a connect record *)
| Ingest (a : Channel.action)                            (* the rest of its [try_enqueue], and the publisher *)
| Visibility (tick : Tick) (siem_now : bytes)            (* the event loop takes a visibility event *)
| Enforcement (records : list (Tick * bytes * bytes))    (* it drains the enforcement ring *)
| StopPoller | StopWorker | StopNetwork | StopLoop.      (* the cancelled branches *)

Section step.
Context (capacity : Z) (noop : bool) (c : Channel.CorrelationIngestionConfig).
Context (encode : Channel.ProtoEnrichedNetworkEvent → option bytes).

(** One item of the network monitor's drain up to the pressure check of [try_enqueue]:
    a record that does not decode or whose process is unknown makes no call. *)
Definition poll_connect_record (processes : gmap Z bytes) (record : bytes) (n : network_monitor) :
    option network_monitor :=
  match decode_network_event record with
  | None => Some n
  | Some event =>
      match correlate processes event with
      | None => Some (mkNetworkMonitor (nm_running n) (network_observe (nm_seen n)).1 (nm_ingestion n))
      | Some enriched =>
          ig ← Channel.producer_step c (Channel.Check enriched) (nm_ingestion n);
          Some (mkNetworkMonitor (nm_running n) (network_observe (nm_seen n)).1 ig)
      end
  end.

(** The actions of the ingestion tasks the network monitor's single handle can take. *)
Definition monitor_action (a : Channel.action) : bool :=
  match a with Channel.Clone | Channel.DropHandle | Channel.Check _ => false | _ => true end.

Definition agent_step (a : agent_action) (s : agent) : option agent :=
  let '(mkAgent p d n l) := s in
  match a with
  | PollExec record =>
      if pm_poller p then Some (mkAgent (poll_exec_record capacity record p).1 d n l) else None
  | Work =>
      match pm_worker p, pm_chan p with
      | true, e :: chan =>
          let p := mkProcessMonitor chan (pm_poller p) (pm_worker p) (pm_processes p) (pm_seen p) (pm_metrics p) in
          let '(p, d) := work_exec_event e p d in Some (mkAgent p d n l)
      | true, [] =>
          if pm_poller p then None
          else Some (mkAgent (mkProcessMonitor [] false false (pm_processes p) (pm_seen p) (pm_metrics p)) d n l)
      | false, _ => None
      end
  | PollConnect record =>
      if nm_running n && bool_decide (Channel.in_flight (nm_ingestion n) = 0%nat)
      then n ← poll_connect_record (pm_processes p) record n; Some (mkAgent p d n l)
      else None
  | Ingest a =>
      if monitor_action a
      then ig ← Channel.ingestion_step noop c encode a (nm_ingestion n);
           Some (mkAgent p d (mkNetworkMonitor (nm_running n) (nm_seen n) ig) l)
      else None
  | Visibility tick siem_now =>
      match dc_open d, dc_queue d with
      | true, e :: queue =>
          Some (mkAgent p (mkDetectionChannel queue true) n (loop_turn (OnVisibility tick siem_now e) l).1)
      | _, _ => None
      end
  | Enforcement records =>
      if dc_open d then Some (mkAgent p d n (loop_turn (OnRing records (Ok ())) l).1) else None
  | StopPoller =>
      Some (mkAgent (mkProcessMonitor (pm_chan p) false (pm_worker p) (pm_processes p) (pm_seen p) (pm_metrics p)) d n l)
  | StopWorker =>
      Some (mkAgent (mkProcessMonitor [] (pm_poller p) false (pm_processes p) (pm_seen p) (pm_metrics p)) d n l)
  | StopNetwork =>
      if nm_running n then
        ig ← Channel.producer_step c Channel.DropHandle (nm_ingestion n);
        Some (mkAgent p d (mkNetworkMonitor false (nm_seen n) ig) l)
      else None
  | StopLoop => Some (mkAgent p (mkDetectionChannel [] false) n l)
  end.

Fixpoint agent_run (acts : list agent_action) (s : agent) : option agent :=
  match acts with
  | [] => Some s
  | a :: acts => s' ← agent_step a s; agent_run acts s'
  end.
End step.
End loop.

(** The tasks as they are spawned. *)
Definition agent_new (now : Z) (ig : Channel.ingestion) (l : LoopState) : agent :=
  mkAgent (mkProcessMonitor [] true true ∅ 0 (metrics_new now)) (mkDetectionChannel [] true)
          (mkNetworkMonitor true 0 ig) l.

(** ** What the process monitor guarantees *)

(** The decodable records the poller has taken, in order. *)
Definition decoded (acts : list agent_action) : list ExecEvent :=
  omap (λ a, match a with PollExec r => ringbuf_decode_exec_event r | _ => None end) acts.

Definition register_all (log : list ExecEvent) : gmap Z bytes :=
  foldl (λ m e, register_process (ee_pid e) (ee_filename e) m) ∅ log.

(** After the records [hist]: [log] are the events the worker has handled. *)
Record pipelined (capacity : Z) (hist log : list ExecEvent) (p : process_monitor) : Prop := mkPipelined {
  pl_order : log ++ pm_chan p `sublist_of` hist;
  pl_processed : events_processed (pm_metrics p) = Z.of_nat (length log);
  pl_drops : 0 ≤ m_userspace_drops (pm_metrics p);
  pl_total : Z.of_nat (length log) + Z.of_nat (length (pm_chan p)) + m_userspace_drops (pm_metrics p)
             ≤ Z.of_nat (length hist);
  pl_exact : pm_worker p = true →
             Z.of_nat (length hist) = Z.of_nat (length log) + Z.of_nat (length (pm_chan p))
                                      + m_userspace_drops (pm_metrics p);
  pl_capacity : Z.of_nat (length (pm_chan p)) ≤ capacity;
  pl_cache : pm_processes p = register_all log
}.

Lemma poll_pipelined capacity r hist log p :
  pipelined capacity hist log p →
  Z.of_nat (length (hist ++ option_list (ringbuf_decode_exec_event r))) < 2 ^ 64 →
  pipelined capacity (hist ++ option_list (ringbuf_decode_exec_event r)) log (poll_exec_record capacity r p).1.
Proof.
  intros [Ho Hp Hd Ht He Hc Hm] Hn. unfold poll_exec_record.
  destruct (ringbuf_decode_exec_event r) as [e|]; [change (option_list (Some e)) with [e] in *|by change (option_list None) with (@nil ExecEvent); rewrite app_nil_r; constructor].
  rewrite length_app in Hn. cbn [length] in Hn.
  assert (Hgrow : hist `sublist_of` hist ++ [e]) by (apply sublist_inserts_r; reflexivity).
  destruct (pm_worker p) eqn:Hw; cbn [negb]; [specialize (He eq_refl); case_bool_decide|]; cbn [fst]; constructor;
    cbn [pm_chan pm_worker pm_metrics pm_processes record_userspace_drop events_processed m_userspace_drops];
    rewrite ?length_app, ?Channel.wrapping_incr by lia; cbn [length]; try done; try lia; try (by etrans).
  all: try congruence. all: try (intros _; lia). 
  rewrite app_assoc. by apply sublist_app.
Qed.

Lemma register_all_snoc log e : register_all (log ++ [e]) = register_process (ee_pid e) (ee_filename e) (register_all log).
Proof. unfold register_all. by rewrite foldl_app. Qed.

Lemma work_pipelined capacity hist log e chan p d :
  pipelined capacity hist log p → pm_chan p = e :: chan →
  pipelined capacity hist (log ++ [e])
    (work_exec_event e (mkProcessMonitor chan (pm_poller p) (pm_worker p) (pm_processes p) (pm_seen p) (pm_metrics p)) d).1.
Proof.
  intros [Ho Hp Hd Ht He Hc Hm] Hch. rewrite Hch in *. cbn [length] in *.
  constructor; cbn [fst work_exec_event pm_chan pm_worker pm_metrics pm_processes record_event_processed
                    events_processed m_userspace_drops];
    rewrite ?length_app, ?register_all_snoc, <-?app_assoc; cbn [length app]; try done; try lia; try congruence.
  intros Hw. specialize (He Hw). lia.
Qed.

Lemma step_pipelined bj sj capacity noop c encode a hist log s s' :
  0 ≤ capacity → pipelined capacity hist log (ag_process s) →
  Z.of_nat (length (hist ++ decoded [a])) < 2 ^ 64 → agent_step bj sj capacity noop c encode a s = Some s' →
  ∃ log', pipelined capacity (hist ++ decoded [a]) log' (ag_process s').
Proof.
  destruct s as [p d n l]. cbn [ag_process]. intros Hcap Hpl Hn Hstep.
  destruct a; cbn [agent_step decoded omap list_omap] in *; rewrite ?app_nil_r in *.
  - destruct (pm_poller p); simplify_eq. exists log. cbn [ag_process].
    pose proof (poll_pipelined capacity record hist log p Hpl) as Hpoll.
    destruct (ringbuf_decode_exec_event record) as [e|];
      [by apply Hpoll|change (option_list None) with (@nil ExecEvent) in Hpoll; rewrite ?app_nil_r in *; auto].
  - destruct (pm_worker p) eqn:Hw; [|done]. destruct (pm_chan p) as [|e chan] eqn:Hch.
    + destruct (pm_poller p); simplify_eq. exists log. destruct Hpl as [Ho Hp Hd Ht He Hc Hm]. rewrite Hch in *.
      by constructor.
    + cbn in Hstep. simplify_eq. exists (log ++ [e]).
      pose proof (work_pipelined capacity hist log e chan p d Hpl Hch) as Hk. by rewrite Hw in Hk.
  - destruct (_ && _); [|done]. destruct (poll_connect_record _ _ _ _); simplify_option_eq. by exists log.
  - destruct (monitor_action a); [|done]. destruct (Channel.ingestion_step _ _ _ _ _); simplify_option_eq. by exists log.
  - destruct (dc_open d), (dc_queue d); simplify_eq. by exists log.
  - destruct (dc_open d); simplify_eq. by exists log.
  - simplify_eq. exists log. by destruct Hpl; constructor.
  - simplify_eq. exists log. destruct Hpl as [Ho Hp Hd Ht He Hc Hm]. constructor; cbn [ag_process pm_chan pm_worker pm_metrics pm_processes length] in *; try done; try lia.
    rewrite app_nil_r. by etrans; [apply sublist_inserts_r|].
  - destruct (nm_running n); [|done]. destruct (Channel.producer_step _ _ _); simplify_option_eq. by exists log.
  - simplify_eq. by exists log.
Qed.

Lemma decoded_cons a acts : decoded (a :: acts) = decoded [a] ++ decoded acts.
Proof. unfold decoded. cbn [omap list_omap]. by case_match. Qed.

Lemma run_pipelined bj sj capacity noop c encode acts hist log s s' :
  0 ≤ capacity → pipelined capacity hist log (ag_process s) →
  Z.of_nat (length (hist ++ decoded acts)) < 2 ^ 64 → agent_run bj sj capacity noop c encode acts s = Some s' →
  ∃ log', pipelined capacity (hist ++ decoded acts) log' (ag_process s').
Proof.
  intros Hcap. revert hist log s. induction acts as [|a acts IH]; intros hist log s Hpl Hn Hrun; cbn [agent_run] in Hrun.
  - simplify_eq. exists log. by rewrite app_nil_r.
  - destruct (agent_step _ _ _ _ _ _ a s) as [s1|] eqn:Hs; [|done].
    rewrite decoded_cons, app_assoc in *. rewrite length_app in Hn.
    destruct (step_pipelined bj sj capacity noop c encode a hist log s s1 Hcap Hpl ltac:(lia) Hs) as [log1 Hpl1].
    apply (IH _ log1 s1); [done|by rewrite length_app|done].
Qed.

(** The cache holds for each pid but zero the name of the last program executed. *)
Lemma register_all_lookup log pid :
  register_all log !! pid
  = if bool_decide (pid = 0) then None
    else (λ e, argv0_to_process_name (ee_filename e)) <$> last (filter (λ e, ee_pid e = pid) log).
Proof.
  induction log as [|e log IH] using rev_ind; [by case_bool_decide|].
  rewrite register_all_snoc. unfold register_process. rewrite filter_app.
  destruct (decide (ee_pid e = pid)) as [He|He].
  - rewrite filter_cons_True by done. rewrite filter_nil, last_snoc. cbn [fmap option_fmap option_map].
    subst pid. case_bool_decide as H0; [exact IH|by rewrite lookup_insert_eq].
  - rewrite filter_cons_False by done. rewrite filter_nil, app_nil_r, <-IH.
    destruct (bool_decide (ee_pid e = 0)); [reflexivity|by apply lookup_insert_ne].
Qed.

(** The enrichment a connect record of process [pid] gets after the worker handled [log]. *)
Definition attributed (log : list ExecEvent) (event : NetworkEvent) : option EnrichedNetworkEvent :=
  if bool_decide (ne_pid event = 0) then None
  else e ← last (filter (λ e, ee_pid e = ne_pid event) log);
       Some (mkEnrichedNetworkEvent (ne_pid event) (ne_uid event) (ne_dest_ip event) (ne_dest_port event)
               (argv0_to_process_name (ee_filename e))).

Lemma correlate_attributed log event : correlate (register_all log) event = attributed log event.
Proof.
  unfold correlate, attributed, fields. rewrite register_all_lookup. case_bool_decide; [done|].
  by destruct (last _).
Qed.

(** C32: the exec pipeline between the ring and the process cache, under every
    interleaving of the poller, the worker, the network monitor and the event loop: the
    events handled and those queued are decodable records in ring order, none twice; while
    the worker runs every decodable record is handled, queued, or counted exactly once as a
    user-space drop; the queue is within its capacity; and a connect record is attributed
    to the last program the worker handled for its pid, or to none. *)
Theorem exec_pipeline bj sj capacity noop c encode acts now ig l s :
  0 ≤ capacity → Z.of_nat (length (decoded acts)) < 2 ^ 64 →
  agent_run bj sj capacity noop c encode acts (agent_new now ig l) = Some s →
  let p := ag_process s in
  ∃ log, log ++ pm_chan p `sublist_of` decoded acts ∧
         processed_total (pm_metrics p) = Z.of_nat (length log) ∧
         (pm_worker p = true →
          Z.of_nat (length (decoded acts))
          = processed_total (pm_metrics p) + Z.of_nat (length (pm_chan p)) + userspace_drops (pm_metrics p)) ∧
         Z.of_nat (length (pm_chan p)) ≤ capacity ∧
         (∀ event, correlate (pm_processes p) event = attributed log event).
Proof.
  intros Hcap Hn Hrun p.
  assert (Hpl0 : pipelined capacity [] [] (ag_process (agent_new now ig l))) by (by constructor).
  destruct (run_pipelined bj sj capacity noop c encode acts [] [] _ s Hcap Hpl0 Hn Hrun) as [log [Ho Hp Hd Ht He Hc Hm]].
  exists log. unfold processed_total, userspace_drops. split_and!; try done.
  - intros Hw. unfold p. rewrite Hp. by apply He.
  - intros event. unfold p. rewrite Hm. apply correlate_attributed.
Qed.

(** ** The ingestion channel as the agent uses it *)

(** The calls of [try_enqueue] are at most the connect records taken. *)
Fixpoint connects (acts : list agent_action) : Z :=
  match acts with
  | [] => 0
  | PollConnect _ :: acts => 1 + connects acts
  | _ :: acts => connects acts
  end.

Lemma ingestion_run_one noop c encode a s s' :
  Channel.ingestion_step noop c encode a s = Some s' → Channel.ingestion_run noop c encode [a] s = Some s'.
Proof. intros Hs. cbn [Channel.ingestion_run]. by rewrite Hs. Qed.

Lemma step_refines bj sj capacity noop c encode a s s' :
  agent_step bj sj capacity noop c encode a s = Some s' →
  ∃ igs, Channel.Clone ∉ igs ∧ Channel.arrivals igs ≤ connects [a] ∧
         Channel.ingestion_run noop c encode igs (nm_ingestion (ag_network s)) = Some (nm_ingestion (ag_network s')).
Proof.
  destruct s as [p d n l]. intros Hstep. cbn [ag_network].
  assert (Hskip : nm_ingestion (ag_network s') = nm_ingestion n → 0 ≤ connects [a] →
    ∃ igs, Channel.Clone ∉ igs ∧ Channel.arrivals igs ≤ connects [a] ∧
           Channel.ingestion_run noop c encode igs (nm_ingestion n) = Some (nm_ingestion (ag_network s'))).
  { intros -> Ha. exists []. split_and!; [apply not_elem_of_nil|done|done]. }
  destruct a; cbn [agent_step connects] in *.
  - destruct (pm_poller p); simplify_eq. by apply Hskip.
  - destruct (pm_worker p), (pm_chan p); [destruct (pm_poller p)|..]; cbn in Hstep; simplify_eq; by apply Hskip.
  - destruct (_ && _); [|done]. unfold poll_connect_record in Hstep.
    destruct (decode_network_event record); [|simplify_option_eq; by apply Hskip].
    destruct (correlate _ _) as [e|]; [|simplify_option_eq; by apply Hskip].
    destruct (Channel.producer_step _ _ _) eqn:Hp; [|done]. cbn in Hstep. simplify_eq. exists [Channel.Check e]. split_and!.
    + rewrite list_elem_of_singleton. done.
    + done.
    + exact (ingestion_run_one noop c encode (Channel.Check e) _ _ Hp).
  - destruct (monitor_action a) eqn:Ha; [|done]. destruct (Channel.ingestion_step _ _ _ _ _) eqn:Hs; [|done]. cbn in Hstep.
    simplify_eq. exists [a]. split_and!.
    + rewrite list_elem_of_singleton. by intros <-.
    + by destruct a.
    + by apply ingestion_run_one.
  - destruct (dc_open d), (dc_queue d); simplify_eq. by apply Hskip.
  - destruct (dc_open d); simplify_eq. by apply Hskip.
  - simplify_eq. by apply Hskip.
  - simplify_eq. by apply Hskip.
  - destruct (nm_running n); [|done]. destruct (Channel.producer_step _ _ _) eqn:Hp; [|done]. cbn in Hstep. simplify_eq.
    exists [Channel.DropHandle]. split_and!; [by rewrite list_elem_of_singleton|done|].
    exact (ingestion_run_one noop c encode Channel.DropHandle _ _ Hp).
  - simplify_eq. by apply Hskip.
Qed.

Lemma connects_cons a acts : connects (a :: acts) = connects [a] + connects acts.
Proof. destruct a; cbn [connects]; lia. Qed.

Lemma run_refines bj sj capacity noop c encode acts s s' :
  agent_run bj sj capacity noop c encode acts s = Some s' →
  ∃ igs, Channel.Clone ∉ igs ∧ Channel.arrivals igs ≤ connects acts ∧
         Channel.ingestion_run noop c encode igs (nm_ingestion (ag_network s)) = Some (nm_ingestion (ag_network s')).
Proof.
  revert s. induction acts as [|a acts IH]; intros s Hrun; cbn [agent_run] in Hrun.
  - simplify_eq. exists []. split_and!; [apply not_elem_of_nil|done|done].
  - destruct (agent_step _ _ _ _ _ _ a s) as [s1|] eqn:Hs; [|done].
    destruct (step_refines _ _ _ _ _ _ _ _ _ Hs) as (igs1 & Hc1 & Ha1 & Hr1).
    destruct (IH s1 Hrun) as (igs2 & Hc2 & Ha2 & Hr2).
    exists (igs1 ++ igs2). split_and!.
    + rewrite elem_of_app. tauto.
    + rewrite Channel.arrivals_app, connects_cons. lia.
    + by rewrite Channel.run_app, Hr1.
Qed.


(** A failing alert, an undecodable record or a full stream never ends the event loop: it
    returns an error only on a failed signal wait, statistics read or ring poll. *)
Theorem loop_error_sources bj sj turns s e :
  (run_loop bj sj turns s).2 = Return e →
  ∃ t, t ∈ turns ∧ (t = OnSignal (Err e) ∨ t = OnStats (Err e) ∨ ∃ rs, t = OnRing rs (Err e)).
Proof.
  revert s. induction turns as [|t turns IH]; intros s; cbn [run_loop]; [done|].
  assert (Hrec : ∀ s', (run_loop bj sj turns s').2 = Return e →
    ∃ t', t' ∈ t :: turns ∧ (t' = OnSignal (Err e) ∨ t' = OnStats (Err e) ∨ ∃ rs, t' = OnRing rs (Err e))).
  { intros s' Hs. destruct (IH s' Hs) as (t' & Hin & Ht'). exists t'. by split; [right|]. }
  destruct t as [|[]|[]|rs []|]; cbn [loop_turn of_result]; try done; eauto.
  - intros [= ->]. eexists. split; [left|by left].
  - intros [= ->]. eexists. split; [left|by right; left].
  - intros [= ->]. eexists. split; [left|right; right; by eexists].
Qed.

(** Either signal ends the loop without an error once the handlers work; a handler that
    cannot be installed ends it with one, so the agent does not run deaf to signals. *)
Theorem signals_end_loop bj sj install first turns s :
  let '(s', r) := run_loop bj sj (OnSignal (wait_for_shutdown_signal install first) :: turns) s in
  s' = s ∧ match install, first with
           | Ok _, SigTerm | Ok _, SigInt (Ok _) => r = Break
           | Err e, _ => r = Return (EContext "failed to install SIGTERM handler" e)
           | Ok _, SigInt (Err e) => r = Return (EContext "failed to await SIGINT" e)
           end.
Proof. by destruct install as [[]|e], first as [[[]|e']|]. Qed.

(** ** Instances *)
Definition demo_stream : LoopState := mkLoopState DataNormalizer_new (mkTelemetryStream [] 8 true 0 0) [].
Definition demo_agent : agent := agent_new 0 Channel.demo_start demo_stream.
Definition demo_exec : ExecEvent := set_pid 42 demo_exec_event.
Definition demo_connect : bytes := connect_record 42 1000 8 8 8 8 1 187.
Definition demo_siem : SiemAlert → result bytes := λ _, Ok (lit "siem").
Definition demo_behavior : BehaviorAlert → result bytes := λ _, Ok (lit "behavior").
Definition demo_agent_acts : list agent_action :=
  [PollExec (exec_event_bytes demo_exec); PollExec [1; 2; 3]; PollExec (exec_event_bytes demo_exec); Work;
   PollConnect demo_connect; Ingest (Channel.Connect true true); Ingest (Channel.TrySend 0); Ingest Channel.AddEnqueued;
   Ingest Channel.Recv; Ingest Channel.AddQueued; Visibility (mkTick 0 (lit "t")) (lit "t")].
Definition demo_run (acts : list agent_action) : option agent :=
  agent_run demo_behavior demo_siem 1 false Channel.demo_config Channel.demo_encode acts demo_agent.
Definition demo_agent_reached : agent := default demo_agent (demo_run demo_agent_acts).

Lemma exec_pipeline_witness :
  let p := ag_process demo_agent_reached in
  ∃ log, log ++ pm_chan p `sublist_of` decoded demo_agent_acts ∧
         processed_total (pm_metrics p) = Z.of_nat (length log) ∧
         (pm_worker p = true →
          Z.of_nat (length (decoded demo_agent_acts))
          = processed_total (pm_metrics p) + Z.of_nat (length (pm_chan p)) + userspace_drops (pm_metrics p)) ∧
         Z.of_nat (length (pm_chan p)) ≤ 1 ∧
         (∀ event, correlate (pm_processes p) event = attributed log event).
Proof.
  apply (exec_pipeline demo_behavior demo_siem 1 false Channel.demo_config Channel.demo_encode demo_agent_acts 0
           Channel.demo_start demo_stream).
  - done.
  - vm_compute. reflexivity.
  - vm_compute. reflexivity.
Defined.

