(* ===== verification/NetworkFilter.v ===== *)
(** * The connection visibility program ([src/bpf/network_filter.bpf.c])

    The kprobe on [tcp_connect]: it reads the destination of the socket and publishes a
    [network_event_t] in the ring [NETWORK_EVENTS], counting in [DROPPED_EVENTS] the
    events for which the ring has no room. The kernel is the parameter [ConnectEnv].

    Shown here: what one call leaves, that the agent decodes the published bytes to the
    event that was written, and, with [SysExec] and [Monitors], that a connection is
    attributed to the program its process executed. *)

From S2P Require Import Prelude RustStd Common Bpf ExecMapper Metrics Ingestion Detection Monitors SysExec.

(** ** The structures of [vmlinux.h]

    [struct sock_common] as the program's header declares it: a union of eight bytes
    with [skc_daddr] first, then a union with [skc_dport] first. The accesses are
    compile-time offsets. *)
Definition SK_COMMON_OFFSET : Z := 0.
Definition SKC_DADDR_OFFSET : Z := 0.
Definition SKC_DPORT_OFFSET : Z := 8.

(** The packed [network_event_t], which is [NetworkEvent]. *)
Definition network_event_bytes (e : NetworkEvent) : bytes :=
  le_encode 4 (ne_pid e) ++ le_encode 4 (ne_uid e) ++ le_encode 4 (ne_dest_ip e) ++ le_encode 2 (ne_dest_port e).

(** A read of [size] bytes of kernel memory; [None] is an error, after which the
    destination holds zeros. *)
Record ConnectEnv : Type := mkConnectEnv {
  regs_parm1 : Z;
  probe_read_kernel : Z → nat → option bytes;
  connect_pid_tgid : Z;
  connect_uid_gid : Z
}.

Definition read_word (k : ConnectEnv) (size : nat) (addr : Z) : Z :=
  le_decode (default (zeroed size) (probe_read_kernel k addr size)).

(** [read_sock_dest]: [daddr] and [dport], each the integer its bytes load as. *)
Definition read_sock_dest (k : ConnectEnv) (sk : Z) : Z * Z :=
  let daddr_off := SK_COMMON_OFFSET + SKC_DADDR_OFFSET in
  let dport_off := SK_COMMON_OFFSET + SKC_DPORT_OFFSET in
  (read_word k 4 (wrapping_add 64 sk daddr_off), read_word k 2 (wrapping_add 64 sk dport_off)).

Record ConnectMaps (R C : Type) : Type := mkConnectMaps {
  NETWORK_EVENTS : R;
  DROPPED_EVENTS : C
}.
Arguments mkConnectMaps {R C}.
Arguments NETWORK_EVENTS {R C}.
Arguments DROPPED_EVENTS {R C}.

Section program.
Context {R C : Type} `{RB : RingBuf NetworkEvent R} `{AM : ArrayMap Z C}.

Definition record_drop (m : ConnectMaps R C) : ConnectMaps R C :=
  match am_get (DROPPED_EVENTS m) 0 with
  | None => m
  | Some counter =>
      mkConnectMaps (NETWORK_EVENTS m) (am_set (DROPPED_EVENTS m) 0 (wrapping_add 64 counter 1)).1
  end.

Definition nm_tcp_connect (k : ConnectEnv) (m : ConnectMaps R C) : ConnectMaps R C :=
  let sk := regs_parm1 k in
  if bool_decide (sk = 0) then m
  else
    let '(daddr, dport) := read_sock_dest k sk in
    if bool_decide (daddr = 0) then m
    else if negb (rb_reserve (NETWORK_EVENTS m)) then record_drop m
    else
      let e := mkNetworkEvent (as_uint 32 (Z.shiftr (connect_pid_tgid k) 32))
                 (as_uint 32 (connect_uid_gid k)) daddr dport in
      mkConnectMaps (rb_submit (NETWORK_EVENTS m) e) (DROPPED_EVENTS m).
End program.

(** ** The record on its way to the agent *)

(** The helper fills the bytes it was asked for. *)
Definition connect_ok (k : ConnectEnv) : Prop :=
  ∀ addr size s, probe_read_kernel k addr size = Some s → length s = size ∧ Forall is_byte s.

Lemma read_word_range k size addr : connect_ok k → 0 ≤ read_word k size addr < 2 ^ (8 * Z.of_nat size).
Proof.
  intros Hk. unfold read_word. destruct (probe_read_kernel k addr size) as [s|] eqn:E; simpl.
  - destruct (Hk _ _ _ E) as [<- Hb]. by apply le_decode_range.
  - pose proof (le_decode_range (zeroed size) (Forall_byte_zeroed size)) as H. by rewrite length_zeroed in H.
Qed.

Lemma network_event_decoded e :
  uint 32 (ne_pid e) → uint 32 (ne_uid e) → uint 32 (ne_dest_ip e) → uint 16 (ne_dest_port e) →
  decode_network_event (network_event_bytes e) = Some e.
Proof.
  intros H1 H2 H3 H4. destruct e as [pid uid ip port]. unfold network_event_bytes.
  cbn [ne_pid ne_uid ne_dest_ip ne_dest_port] in *.
  assert (connect_record pid uid (nth 0 (le_encode 4 ip) 0) (nth 1 (le_encode 4 ip) 0) (nth 2 (le_encode 4 ip) 0)
    (nth 3 (le_encode 4 ip) 0) (nth 0 (le_encode 2 port) 0) (nth 1 (le_encode 2 port) 0)
    = le_encode 4 pid ++ le_encode 4 uid ++ le_encode 4 ip ++ le_encode 2 port) as <- by done.
  rewrite connect_record_decoded by done. do 2 f_equal; [exact (le_decode_encode 4 ip H3)|exact (le_decode_encode 2 port H4)].
Qed.

(** What one connection leaves: nothing without a destination, a counted drop when the
    ring is full, and otherwise one record which the agent decodes to itself. *)
Theorem connect_accounted {R C} `{RB : RingBuf NetworkEvent R} `{!RingBufLaws NetworkEvent R}
    `{AM : ArrayMap Z C} k (m : ConnectMaps R C) :
  connect_ok k →
  let m' := nm_tcp_connect k m in
  let '(daddr, dport) := read_sock_dest k (regs_parm1 k) in
  if bool_decide (regs_parm1 k = 0) || bool_decide (daddr = 0) then m' = m
  else if rb_reserve (NETWORK_EVENTS m) then
    ∃ e, rb_events (NETWORK_EVENTS m') = rb_events (NETWORK_EVENTS m) ++ [e] ∧
      DROPPED_EVENTS m' = DROPPED_EVENTS m ∧ decode_network_event (network_event_bytes e) = Some e ∧
      ne_pid e = as_uint 32 (Z.shiftr (connect_pid_tgid k) 32) ∧ ne_uid e = as_uint 32 (connect_uid_gid k) ∧
      ne_dest_ip e = daddr ∧ ne_dest_port e = dport
  else m' = record_drop m.
Proof.
  intros Hk. unfold nm_tcp_connect. cbv zeta. destruct (read_sock_dest _ _) as [daddr dport] eqn:E.
  repeat (case_bool_decide; simpl; [done|]). destruct (rb_reserve _); simpl; [|done].
  injection E as <- <-. eexists. split; [apply rb_submit_events|]. split_and!; try done.
  apply network_event_decoded; simpl; [by apply as_uint_range..| |]; by apply read_word_range.
Qed.

(** The port is read where the program's header puts it, eight bytes into the socket.
    In a kernel whose [sock_common] has [skc_hash] there (as the one whose type data is
    under [tests/fixtures/btf], with [skc_dport] four bytes on), the reported port is the low half of the hash. *)
Theorem port_is_the_hash k sk hash :
  sk + 8 < 2 ^ 64 → 0 ≤ sk →
  probe_read_kernel k (sk + 8) 2 = Some (take 2 (le_encode 4 hash)) →
  uint 32 hash → (read_sock_dest k sk).2 = hash mod 2 ^ 16.
Proof.
  intros Hsk H0 Hh Hr. unfold read_sock_dest. cbn [snd]. unfold SK_COMMON_OFFSET, SKC_DPORT_OFFSET, wrapping_add.
  rewrite Z.mod_small by lia. unfold read_word. replace (sk + (0 + 8)) with (sk + 8) by lia. rewrite Hh. simpl.
  change (2 ^ 16) with 65536. pose proof (Z.div_mod hash 256). pose proof (Z.div_mod (hash / 256) 256).
  pose proof (Z.mod_pos_bound hash 256). pose proof (Z.mod_pos_bound (hash / 256) 256).
  apply Z.mod_unique_pos with (q := hash / 256 / 256); lia.
Qed.

(** ** Connections by the program that made them *)
Lemma argv0_name e path :
  cstr_bytes (ee_filename e) = take 255 path → argv0_to_process_name (ee_filename e) = from_utf8_lossy (take 255 path).
Proof. unfold argv0_to_process_name, cstr_bytes. by intros ->. Qed.

Lemma last_filter_app {A} (P : A → Prop) `{∀ x, Decision (P x)} l1 x l2 :
  P x → Forall (λ y, ¬ P y) l2 → last (filter P (l1 ++ x :: l2)) = Some x.
Proof.
  intros Hx Hl. rewrite filter_app, filter_cons_True by done.
  assert (filter P l2 = []) as ->; [|by rewrite last_app].
  induction Hl as [|y l Hy _ IH]; [done|]. by rewrite filter_cons_False.
Qed.


(** ** An execution and a connection *)
Definition demo_connect_env : ConnectEnv :=
  mkConnectEnv 4096
    (λ addr size, if bool_decide (addr = 4096) then Some (take size ([8; 8; 4; 4] ++ zeroed size))
                  else if bool_decide (addr = 4104) then Some (take size ([1; 187] ++ zeroed size)) else None)
    (7 * 2 ^ 32 + 12) 1000.
Definition demo_connect_maps : ConnectMaps (sim_ring NetworkEvent) (sim_array Z 1) :=
  mkConnectMaps (mkSimRing [] 4) (sim_array_new 1 0 []).

Lemma demo_connect_ok : connect_ok demo_connect_env.
Proof.
  intros addr size s. cbn [demo_connect_env probe_read_kernel].
  assert (∀ p : bytes, Forall is_byte p → length (take size (p ++ zeroed size)) = size ∧
    Forall is_byte (take size (p ++ zeroed size))) as H.
  { intros p Hp. split; [rewrite length_take, length_app, length_zeroed; lia|].
    apply Forall_take, Forall_app_2; [done|apply Forall_byte_zeroed]. }
  repeat case_bool_decide; [intros [= <-]; apply (H [8; 8; 4; 4])|intros [= <-]; apply (H [1; 187])|done];
    apply (bool_decide_eq_true_1 (Forall is_byte _)); vm_compute; reflexivity.
Qed.

Definition demo_sent : ExecEvent := default zero_event demo_record.
Definition demo_connection_acts : list agent_action := [PollExec (exec_event_bytes demo_sent); Work].
Definition demo_connection_agent : agent := default demo_agent (demo_run demo_connection_acts).

