(* ===== verification/Forwarder.v ===== *)
(** * The SIEM forwarders ([apps/datadog-forwarder], [apps/splunk-hec-forwarder])

    Two services with the same structure: a Kafka consumer that parses the agent's
    telemetry envelopes into a bounded queue, and a worker that posts them with bounded
    retries. What differs, the body posted and the reading of the response status, is the
    interface [Sink]; the shared code is written and proved against it, and the two
    services are its instances. [serde_json] (values of type [J]), the HTTP client and
    the Kafka client are parameters. *)

From Stdlib Require Import SpecFloat.
From S2P Require Import Prelude RustStd Common Detection Metrics.

(** ** The envelope ([envelope.rs]) *)
Definition ENVELOPE_SCHEMA_VERSION : bytes := lit "neuromesh.telemetry.v1".
Definition BEHAVIOR_ALERT : bytes := lit "BEHAVIOR_ALERT".
Definition CRITICAL_ALERT : bytes := lit "CRITICAL_ALERT".

Record TelemetryEnvelope (J : Type) : Type := mkTelemetryEnvelope {
  te_event_id : bytes;
  te_timestamp_ns : Z;
  te_node_name : bytes;
  te_schema_version : bytes;
  te_alert_type : bytes;
  te_payload : J
}.
Arguments mkTelemetryEnvelope {J}.
Arguments te_event_id {J}.
Arguments te_timestamp_ns {J}.
Arguments te_node_name {J}.
Arguments te_schema_version {J}.
Arguments te_alert_type {J}.
Arguments te_payload {J}.

Section envelope.
Context {J : Type} (json_get : J → bytes → option J) (json_as_str : J → option bytes).
Context (from_slice : bytes → option (TelemetryEnvelope J)).

Definition validate (env : TelemetryEnvelope J) : result () :=
  if negb (bool_decide (te_schema_version env = ENVELOPE_SCHEMA_VERSION))
  then Err (EMsg "unsupported schema_version")
  else if negb (bool_decide (te_alert_type env = BEHAVIOR_ALERT)) && negb (bool_decide (te_alert_type env = CRITICAL_ALERT))
  then Err (EMsg "unsupported alert_type")
  else Ok ().

Definition parse_json (raw : bytes) : result (TelemetryEnvelope J) :=
  env ← ok_or (EMsg "invalid telemetry JSON") (from_slice raw);
  _ ← validate env;
  Ok env.

Definition rule_id (env : TelemetryEnvelope J) : option bytes := json_get (te_payload env) (lit "rule_id") ≫= json_as_str.
Definition severity (env : TelemetryEnvelope J) : option bytes :=
  match json_get (te_payload env) (lit "severity") ≫= json_as_str with
  | Some s => Some s
  | None => Some (te_alert_type env)
  end.
End envelope.

(** [timestamp_ns as f64 / 1_000_000_000.0] in IEEE double precision. *)
Definition as_f64 (n : Z) : spec_float := binary_normalize 53 1024 n 0 false.
Definition seconds (timestamp_ns : Z) : spec_float := SFdiv 53 1024 (as_f64 timestamp_ns) (as_f64 1000000000).

(** ** The sink *)

(** [DdSendOutcome], [HecSendOutcome]. *)
Inductive SendOutcome : Type :=
| Success
| RetryableFailure
| NonRetryableFailure.

(** [status.is_success()] and [status.is_server_error()]. *)
Definition is_success (status : Z) : bool := bool_decide (200 ≤ status < 300).
Definition is_server_error (status : Z) : bool := bool_decide (500 ≤ status < 600).

(** What the worker needs of a sink: the body of an envelope and the reading of a
    response status; a body keeps the identity of its alert, only a 2xx response is a
    success, and throttling or a server error is worth a retry. *)
Class Sink (J Cfg Body : Type) : Type := {
  sink_body : Cfg → TelemetryEnvelope J → Body;
  sink_outcome : Z → SendOutcome;
  sink_event_id : Body → bytes;
  sink_body_id cfg env : sink_event_id (sink_body cfg env) = te_event_id env;
  sink_success status : sink_outcome status = Success ↔ 200 ≤ status < 300;
  sink_retries status : status = 429 ∨ 500 ≤ status < 600 → sink_outcome status = RetryableFailure
}.

(** ** Retries ([forwarder.rs]) *)
Inductive SendResult : Type :=
| Delivered
| RetryableExhausted
| NonRetryable
| Network.

(** What one HTTP request ends with. *)
Inductive reply : Type :=
| Response (status : Z)
| RequestFailed.

Definition MAX_ATTEMPTS : nat := 4.
Definition INITIAL_BACKOFF_MS : Z := 250.
Definition MAX_BACKOFF_MS : Z := 30000.

(** [( *backoff * 2).min(Duration::from_secs(30))]. *)
Definition next_backoff (backoff : Z) : Z := Z.min (backoff * 2) MAX_BACKOFF_MS.

Section retry.
Context `{Sink J Cfg Body}.

(** [client.send(body)] given the request's end. *)
Definition read_reply (r : reply) : option SendOutcome :=
  match r with Response status => Some (sink_outcome status) | RequestFailed => None end.

(** The [for] loop of [send_with_retry], [remaining] iterations before its end: the result,
    the backoff left to the next envelope and the sleeps made. *)
Fixpoint send_loop (remaining attempt : nat) (answers : nat → reply) (backoff : Z) : SendResult * Z * list Z :=
  match remaining with
  | O => (RetryableExhausted, backoff, [])
  | S remaining =>
      let again := λ exhausted : SendResult,
        if bool_decide (MAX_ATTEMPTS ≤ attempt + 1)%nat then (exhausted, backoff, [])
        else let '(r, b, sleeps) := send_loop remaining (S attempt) answers (next_backoff backoff) in
             (r, b, backoff :: sleeps) in
      match read_reply (answers attempt) with
      | Some Success => (Delivered, backoff, [])
      | Some RetryableFailure => again RetryableExhausted
      | Some NonRetryableFailure => (NonRetryable, backoff, [])
      | None => again Network
      end
  end.
Definition send_with_retry (answers : nat → reply) (backoff : Z) : SendResult * Z * list Z :=
  send_loop MAX_ATTEMPTS 0 answers backoff.
End retry.

(** ** Counters ([metrics.rs]) and the bounded queue *)
Record ForwarderStats : Type := mkForwarderStats {
  fs_enqueued : Z;
  fs_dropped : Z;
  fs_forwarded : Z;
  fs_failed : Z
}.

Record ForwardMetrics : Type := mkForwardMetrics {
  fm_forwarded_total : Z;
  fm_failed_total : gmap bytes Z;
  fm_dropped_total : gmap bytes Z;
  fm_queue_depth : Z
}.
Definition record_success (m : ForwardMetrics) : ForwardMetrics :=
  mkForwardMetrics (fm_forwarded_total m + 1) (fm_failed_total m) (fm_dropped_total m) (fm_queue_depth m).
Definition record_failure (reason : bytes) (m : ForwardMetrics) : ForwardMetrics :=
  mkForwardMetrics (fm_forwarded_total m) (vec_inc reason (fm_failed_total m)) (fm_dropped_total m) (fm_queue_depth m).
Definition record_drop (reason : bytes) (m : ForwardMetrics) : ForwardMetrics :=
  mkForwardMetrics (fm_forwarded_total m) (fm_failed_total m) (vec_inc reason (fm_dropped_total m)) (fm_queue_depth m).
Definition set_queue_depth (depth : Z) (m : ForwardMetrics) : ForwardMetrics :=
  mkForwardMetrics (fm_forwarded_total m) (fm_failed_total m) (fm_dropped_total m) depth.

(** The queue, the envelope the worker is sending, the counters, the worker's backoff
    and the envelopes the sink has acknowledged. The counters are only written, so an
    update is taken together with the channel operation before it. *)
Record forwarder (J : Type) : Type := mkForwarder {
  fw_queue : list (TelemetryEnvelope J);
  fw_sending : option (TelemetryEnvelope J);
  fw_stats : ForwarderStats;
  fw_metrics : ForwardMetrics;
  fw_backoff : Z;
  fw_acked : list (TelemetryEnvelope J)
}.
Arguments mkForwarder {J}.
Arguments fw_queue {J}.
Arguments fw_sending {J}.
Arguments fw_stats {J}.
Arguments fw_metrics {J}.
Arguments fw_backoff {J}.
Arguments fw_acked {J}.

(** A record of the partition. *)
Record partition_record : Type := mkPartitionRecord { pr_offset : Z; pr_value : option bytes }.

(** The consumer task: the next offset to fetch, the records of the current batch still
    to handle and its size, the fetches made, the records handled so far. *)
Record service (J : Type) : Type := mkService {
  sv_next : Z;
  sv_pending : list partition_record;
  sv_batch : nat;
  sv_fetches : nat;
  sv_handled : list partition_record;
  sv_fw : forwarder J
}.
Arguments mkService {J}.
Arguments sv_next {J}.
Arguments sv_pending {J}.
Arguments sv_batch {J}.
Arguments sv_fetches {J}.
Arguments sv_handled {J}.
Arguments sv_fw {J}.

(** The actions of the two tasks. *)
Inductive fw_action : Type :=
| Fetch                           (* [fetch_records(next_offset, ..)] returns *)
| Handle                          (* the consumer handles the next record of the batch *)
| Take                            (* the worker's [recv] *)
| Finish (answers : nat → reply). (* its [send_with_retry] returns *)

Section service.
Context `{Sink J Cfg Body} (capacity : Z) (from_slice : bytes → option (TelemetryEnvelope J)).
Context (fetch : nat → Z → result (list partition_record)).

(** [Forwarder::spawn]; [mpsc::channel] panics on a capacity it does not support. *)
Definition spawn : option (forwarder J) :=
  if channel_opens capacity
  then Some (mkForwarder [] None (mkForwarderStats 0 0 0 0) (mkForwardMetrics 0 ∅ ∅ 0) INITIAL_BACKOFF_MS [])
  else None.

(** [ForwarderHandle::try_enqueue]; the worker outlives the handle, so the channel is
    never closed. *)
Definition fw_try_enqueue (env : TelemetryEnvelope J) (f : forwarder J) : forwarder J :=
  let '(mkForwarder queue sending (mkForwarderStats enq drp fwd fld) metrics backoff acked) := f in
  if bool_decide (Z.of_nat (length queue) < capacity)
  then mkForwarder (queue ++ [env]) sending (mkForwarderStats (wrapping_add 64 enq 1) drp fwd fld) metrics backoff acked
  else mkForwarder queue sending (mkForwarderStats enq (wrapping_add 64 drp 1) fwd fld)
         (record_drop (lit "queue_full") metrics) backoff acked.

(** The body of the consumer's [for] loop. *)
Definition handle_record (r : partition_record) (f : forwarder J) : forwarder J :=
  match parse_json from_slice (default [] (pr_value r)) with
  | Ok env => fw_try_enqueue env f
  | Err _ => mkForwarder (fw_queue f) (fw_sending f) (fw_stats f) (record_drop (lit "malformed") (fw_metrics f))
               (fw_backoff f) (fw_acked f)
  end.

(** The worker's loop up to the request, and after it. *)
Definition worker_take (f : forwarder J) : option (forwarder J) :=
  match fw_sending f, fw_queue f with
  | None, env :: queue =>
      Some (mkForwarder queue (Some env) (fw_stats f) (set_queue_depth (Z.of_nat (length queue)) (fw_metrics f))
              (fw_backoff f) (fw_acked f))
  | _, _ => None
  end.
Definition failure_reason (r : SendResult) : bytes :=
  match r with
  | NonRetryable => lit "non_retryable"
  | Network => lit "network"
  | _ => lit "retryable"
  end.
Definition worker_finish (answers : nat → reply) (f : forwarder J) : option (forwarder J) :=
  let '(mkForwarder queue sending (mkForwarderStats enq drp fwd fld) metrics backoff acked) := f in
  env ← sending;
  let '(r, backoff, _) := send_with_retry answers backoff in
  Some (match r with
        | Delivered =>
            mkForwarder queue None (mkForwarderStats enq drp (wrapping_add 64 fwd 1) fld) (record_success metrics)
              INITIAL_BACKOFF_MS (acked ++ [env])
        | _ =>
            mkForwarder queue None (mkForwarderStats enq drp fwd (wrapping_add 64 fld 1))
              (record_failure (failure_reason r) metrics) backoff acked
        end).

(** One action; a failed fetch ends [run_kafka_consumer] and the process with it. *)
Definition service_step (a : fw_action) (s : service J) : option (service J) :=
  let '(mkService next pending batch fetches handled f) := s in
  match a with
  | Fetch =>
      match pending, fetch fetches next with
      | [], Ok records => Some (mkService next records (length records) (S fetches) handled f)
      | _, _ => None
      end
  | Handle =>
      match pending with
      | [] => None
      | r :: pending =>
          let next := match pending with [] => next + Z.of_nat batch | _ => next end in
          Some (mkService next pending batch fetches (handled ++ [r]) (handle_record r f))
      end
  | Take => f ← worker_take f; Some (mkService next pending batch fetches handled f)
  | Finish answers => f ← worker_finish answers f; Some (mkService next pending batch fetches handled f)
  end.

Fixpoint service_run (acts : list fw_action) (s : service J) : option (service J) :=
  match acts with
  | [] => Some s
  | a :: acts => s' ← service_step a s; service_run acts s'
  end.

Definition service_new : option (service J) := f ← spawn; Some (mkService 0 [] 0 0 [] f).
End service.

(** ** Retries are bounded and exact *)
Section retry_facts.
Context `{Sink J Cfg Body}.

(** The attempt is worth another: a retryable response, or no response. *)
Definition retried (r : reply) : Prop := read_reply r = Some RetryableFailure ∨ read_reply r = None.

(** The result the last attempt decides. *)
Definition result_of (r : reply) : SendResult :=
  match read_reply r with
  | Some Success => Delivered
  | Some RetryableFailure => RetryableExhausted
  | Some NonRetryableFailure => NonRetryable
  | None => Network
  end.

(** The [j]-th sleep from a backoff [b]: doubled each time, thirty seconds at most. *)
Definition sleep_at (b : Z) (j : nat) : Z := Z.min (b * 2 ^ Z.of_nat j) MAX_BACKOFF_MS.

Lemma sleep_at_next b j : 0 ≤ b → sleep_at (next_backoff b) j = sleep_at b (S j).
Proof.
  intros Hb. unfold sleep_at, next_backoff, MAX_BACKOFF_MS. rewrite Nat2Z.inj_succ, Z.pow_succ_r by lia.
  assert (0 < 2 ^ Z.of_nat j) by (apply Z.pow_pos_nonneg; lia). nia.
Qed.

Lemma sleep_at_0 b : b ≤ MAX_BACKOFF_MS → sleep_at b 0 = b.
Proof. unfold sleep_at. cbn. lia. Qed.

(** What a run of the loop from [attempt] promises of its result. *)
Definition retry_promise (attempt : nat) (answers : nat → reply) (b : Z) (out : SendResult * Z * list Z) : Prop :=
  let '(r, b', sleeps) := out in
  let last := (attempt + length sleeps)%nat in
  (last < MAX_ATTEMPTS)%nat ∧
  (∀ j, (attempt ≤ j < last)%nat → retried (answers j)) ∧
  (retried (answers last) → S last = MAX_ATTEMPTS) ∧
  r = result_of (answers last) ∧
  sleeps = map (sleep_at b) (seq 0 (length sleeps)) ∧ b' = sleep_at b (length sleeps).

Lemma retry_promise_stop attempt answers b r :
  (attempt < MAX_ATTEMPTS)%nat → b ≤ MAX_BACKOFF_MS → (retried (answers attempt) → S attempt = MAX_ATTEMPTS) →
  r = result_of (answers attempt) → retry_promise attempt answers b (r, b, []).
Proof.
  intros Ha Hb Hr ->. unfold retry_promise. cbn [length]. rewrite Nat.add_0_r, sleep_at_0 by done.
  split_and!; try done. lia.
Qed.

Lemma retry_promise_again attempt answers b r b' sleeps :
  0 ≤ b ≤ MAX_BACKOFF_MS → retried (answers attempt) →
  retry_promise (S attempt) answers (next_backoff b) (r, b', sleeps) →
  retry_promise attempt answers b (r, b', b :: sleeps).
Proof.
  intros Hb Hr (Hl & Hj & Hlast & Hres & Hs & Hb'). unfold retry_promise. cbn [length].
  rewrite <-plus_n_Sm. split_and!; try done.
  - intros j Hjr. destruct (decide (j = attempt)) as [->|]; [done|]. apply Hj. lia.
  - cbn [seq map]. rewrite sleep_at_0 by lia. f_equal. rewrite Hs at 1. rewrite <-seq_shift, map_map.
    apply map_ext. intros j. apply sleep_at_next. lia.
  - rewrite Hb'. apply sleep_at_next. lia.
Qed.

Lemma send_loop_S remaining attempt answers b :
  send_loop (S remaining) attempt answers b =
  (let again := λ exhausted : SendResult,
     if bool_decide (MAX_ATTEMPTS ≤ attempt + 1)%nat then (exhausted, b, [])
     else let '(r, b', sleeps) := send_loop remaining (S attempt) answers (next_backoff b) in (r, b', b :: sleeps) in
   match read_reply (answers attempt) with
   | Some Success => (Delivered, b, [])
   | Some RetryableFailure => again RetryableExhausted
   | Some NonRetryableFailure => (NonRetryable, b, [])
   | None => again Network
   end).
Proof. done. Qed.

Lemma send_loop_promise remaining attempt answers b :
  (attempt + S remaining = MAX_ATTEMPTS)%nat → 0 ≤ b ≤ MAX_BACKOFF_MS →
  retry_promise attempt answers b (send_loop (S remaining) attempt answers b).
Proof.
  revert attempt b. induction remaining as [|remaining IH]; intros attempt b Ha Hb.
  all: rewrite send_loop_S; cbv zeta; destruct (read_reply (answers attempt)) as [[]|] eqn:Ho.
  all: try (apply retry_promise_stop; unfold retried, result_of; rewrite ?Ho; try done; try lia; by intros [|]).
  all: case_bool_decide.
  all: try (apply retry_promise_stop; unfold retried, result_of; rewrite ?Ho; try done; lia).
  all: try (unfold MAX_ATTEMPTS in *; lia).
  all: specialize (IH (S attempt) (next_backoff b) ltac:(lia) ltac:(unfold next_backoff, MAX_BACKOFF_MS in *; lia)).
  all: destruct (send_loop _ _ _ _) as [[r b'] sleeps].
  all: apply retry_promise_again; [done|by unfold retried; rewrite Ho; auto|done].
Qed.

(** C39: [send_with_retry] returns after one to four requests, and its result is exactly
    what the last of them says: every earlier request ended in a retryable way; a request
    is the last when it was delivered, refused for good, or the fourth; the sleeps between
    requests are the backoff doubled each time and capped at thirty seconds, and the next
    envelope starts from the backoff reached. *)
Theorem retry_exact answers b :
  0 ≤ b ≤ MAX_BACKOFF_MS →
  let '(r, b', sleeps) := send_with_retry answers b in
  let last := length sleeps in
  (last < 4)%nat ∧
  (∀ j, (j < last)%nat → retried (answers j)) ∧
  (retried (answers last) → last = 3%nat) ∧
  r = result_of (answers last) ∧
  sleeps = map (sleep_at b) (seq 0 last) ∧ b' = sleep_at b last.
Proof.
  intros Hb. pose proof (send_loop_promise 3 0 answers b eq_refl Hb) as Hp. unfold send_with_retry.
  change MAX_ATTEMPTS with 4%nat in *. destruct (send_loop _ _ _ _) as [[r b'] sleeps].
  destruct Hp as (Hl & Hj & Hlast & Hres & Hs & Hb'). cbn [Nat.add] in *.
  split_and!; try done.
  - intros j Hlt. apply Hj. lia.
  - intros Hr. specialize (Hlast Hr). by injection Hlast.
Qed.
End retry_facts.

(** ** Accounting of the service *)
Section service_facts.
Context `{Sink J Cfg Body} (capacity : Z) (from_slice : bytes → option (TelemetryEnvelope J)).
Context (fetch : nat → Z → result (list partition_record)).

(** The envelope a record carries, if it is well formed. *)
Definition parsed (r : partition_record) : option (TelemetryEnvelope J) :=
  match parse_json from_slice (default [] (pr_value r)) with Ok env => Some env | Err _ => None end.

(** The state of the forwarder after the records [handled]. *)
Record tallied (handled : list partition_record) (f : forwarder J) : Prop := mkTallied {
  ta_records : Z.of_nat (length handled)
               = vec_get (lit "malformed") (fm_dropped_total (fw_metrics f)) + fs_dropped (fw_stats f)
                 + fs_enqueued (fw_stats f);
  ta_dropped : fs_dropped (fw_stats f) = vec_get (lit "queue_full") (fm_dropped_total (fw_metrics f));
  ta_enqueued : fs_enqueued (fw_stats f)
                = Z.of_nat (length (fw_queue f)) + Z.of_nat (length (option_list (fw_sending f)))
                  + fs_forwarded (fw_stats f) + fs_failed (fw_stats f);
  ta_forwarded : fs_forwarded (fw_stats f) = fm_forwarded_total (fw_metrics f) ∧
                 fs_forwarded (fw_stats f) = Z.of_nat (length (fw_acked f));
  ta_order : fw_acked f ++ option_list (fw_sending f) ++ fw_queue f `sublist_of` omap parsed handled;
  ta_capacity : Z.of_nat (length (fw_queue f)) ≤ capacity;
  ta_backoff : 0 ≤ fw_backoff f ≤ MAX_BACKOFF_MS;
  ta_nonneg : 0 ≤ vec_get (lit "malformed") (fm_dropped_total (fw_metrics f)) ∧ 0 ≤ fs_dropped (fw_stats f)
              ∧ 0 ≤ fs_enqueued (fw_stats f) ∧ 0 ≤ fs_failed (fw_stats f)
}.

Lemma wrapping_one x : 0 ≤ x → x + 1 < 2 ^ 64 → wrapping_add 64 x 1 = x + 1.
Proof. intros. apply Z.mod_small. lia. Qed.

Ltac open_fw f := destruct f as [queue sending [enq drp fwd fld] [fmf fmx fmd fmq] backoff acked].
Ltac fw_project :=
  cbn [fw_queue fw_sending fw_stats fw_metrics fw_backoff fw_acked fs_enqueued fs_dropped fs_forwarded fs_failed
       fm_forwarded_total fm_failed_total fm_dropped_total fm_queue_depth record_drop record_success record_failure
       set_queue_depth length] in *.
Ltac tally :=
  constructor; fw_project; rewrite ?length_app, ?vec_get_inc, ?wrapping_one by lia; fw_project; try done; try lia.

Lemma label_malformed : bool_decide (lit "malformed" = lit "queue_full") = false.
Proof. reflexivity. Qed.
Lemma label_queue_full : bool_decide (lit "queue_full" = lit "malformed") = false.
Proof. reflexivity. Qed.

Lemma handle_record_tallied handled r f :
  tallied handled f → Z.of_nat (S (length handled)) < 2 ^ 64 →
  tallied (handled ++ [r]) (handle_record capacity from_slice r f).
Proof.
  open_fw f. intros [Hr Hd He [Hf Hfa] Ho Hc Hb H0] Hn. fw_project.
  assert (Hgrow : omap parsed handled `sublist_of` omap parsed (handled ++ [r])).
  { rewrite omap_app. by apply sublist_inserts_r. }
  unfold handle_record.
  destruct (parse_json from_slice (default [] (pr_value r))) as [env|err] eqn:Hpr.
  - assert (Hone : omap parsed [r] = [env]) by (cbn; unfold parsed; by rewrite Hpr).
    cbn [fw_try_enqueue]. case_bool_decide.
    + tally. rewrite omap_app, Hone, !app_assoc. rewrite !app_assoc in Ho. by apply sublist_app.
    + tally; rewrite ?label_malformed, ?label_queue_full, ?bool_decide_true by done; try lia. by etrans.
  - tally; rewrite ?label_malformed, ?label_queue_full, ?bool_decide_true by done; try lia. by etrans.
Qed.

Lemma worker_take_tallied handled f f' : tallied handled f → worker_take f = Some f' → tallied handled f'.
Proof.
  open_fw f. intros [Hr Hd He [Hf Hfa] Ho Hc Hb H0] Ht. unfold worker_take in Ht. fw_project.
  destruct sending, queue; simplify_eq. cbn [option_list] in *. tally; cbn in *; try lia.
Qed.

Lemma worker_finish_tallied handled answers f f' :
  tallied handled f → Z.of_nat (length handled) < 2 ^ 64 → worker_finish answers f = Some f' → tallied handled f'.
Proof.
  open_fw f. intros [Hr Hd He [Hf Hfa] Ho Hc Hb H0] Hn Ht. cbn [worker_finish] in Ht. fw_project.
  destruct sending as [env|]; [|done]. cbn [mbind option_bind] in Ht.
  pose proof (send_loop_promise 3 0 answers backoff eq_refl Hb) as Hp. unfold send_with_retry in Ht.
  change MAX_ATTEMPTS with 4%nat in *. destruct (send_loop _ _ _ _) as [[r b'] sleeps].
  destruct Hp as (_ & _ & _ & _ & _ & Hb'). change (length (option_list (Some env))) with 1%nat in He.
  assert (Hb2 : 0 ≤ b' ≤ MAX_BACKOFF_MS).
  { rewrite Hb'. unfold sleep_at, MAX_BACKOFF_MS in *. assert (0 < 2 ^ Z.of_nat (length sleeps)) by (apply Z.pow_pos_nonneg; lia). nia. }
  assert (Hdrop : acked ++ queue `sublist_of` acked ++ [env] ++ queue) by (apply sublist_app; [done|by apply sublist_inserts_l]).
  change (option_list (Some env)) with [env] in Ho.
  destruct r; simplify_eq; tally; change (option_list None) with (@nil (TelemetryEnvelope J)); cbn [app length]; try lia.
  all: try (by etrans). all: try by rewrite <-app_assoc.
Qed.

(** The records a behaviour handles. *)
Fixpoint handles (acts : list fw_action) : nat :=
  match acts with
  | [] => 0
  | Handle :: acts => S (handles acts)
  | _ :: acts => handles acts
  end.

Lemma step_tallied a s s' :
  tallied (sv_handled s) (sv_fw s) → Z.of_nat (length (sv_handled s) + handles [a]) < 2 ^ 64 →
  service_step capacity from_slice fetch a s = Some s' → tallied (sv_handled s') (sv_fw s').
Proof.
  destruct s as [next pending batch fetches handled f]. cbn [sv_handled sv_fw]. intros Ht Hn Hs.
  destruct a; cbn [service_step] in Hs.
  - destruct pending; [|done]. destruct (fetch fetches next); by simplify_eq.
  - destruct pending as [|r pending]; [done|]. simplify_eq. cbn [handles] in Hn. apply handle_record_tallied; [done|lia].
  - destruct (worker_take f) as [f'|] eqn:Hw; simplify_option_eq. by eapply worker_take_tallied.
  - destruct (worker_finish answers f) as [f'|] eqn:Hw; simplify_option_eq.
    eapply worker_finish_tallied; [done| |done]. lia.
Qed.

Lemma step_handled a s s' : service_step capacity from_slice fetch a s = Some s' →
  length (sv_handled s') = (length (sv_handled s) + handles [a])%nat.
Proof.
  destruct s as [next pending batch fetches handled f]. destruct a; cbn [service_step handles sv_handled]; intros Hs.
  - destruct pending; [|done]. destruct (fetch fetches next); simplify_eq. cbn. lia.
  - destruct pending as [|r pending]; [done|]. simplify_eq. cbn [sv_handled]. rewrite length_app. cbn. lia.
  - destruct (worker_take f); simplify_option_eq. cbn. lia.
  - destruct (worker_finish answers f); simplify_option_eq. cbn. lia.
Qed.

Lemma handles_cons a acts : handles (a :: acts) = (handles [a] + handles acts)%nat.
Proof. by destruct a. Qed.

Lemma run_tallied acts s s' :
  tallied (sv_handled s) (sv_fw s) → Z.of_nat (length (sv_handled s) + handles acts) < 2 ^ 64 →
  service_run capacity from_slice fetch acts s = Some s' → tallied (sv_handled s') (sv_fw s').
Proof.
  revert s. induction acts as [|a acts IH]; intros s Ht Hn Hs; cbn [service_run] in Hs; [by simplify_eq|].
  destruct (service_step capacity from_slice fetch a s) as [s1|] eqn:Hstep; [|done].
  rewrite handles_cons in Hn. pose proof (step_handled a s s1 Hstep).
  apply (IH s1); [apply (step_tallied a s s1); [done|lia|done]|lia|done].
Qed.

Lemma new_tallied s : 0 ≤ capacity → service_new capacity = Some s → tallied (sv_handled s) (sv_fw s).
Proof.
  unfold service_new, spawn. intros Hc. destruct (channel_opens capacity); [|done]. intros [= <-].
  by constructor.
Qed.

(** C33: the forwarder accounts for every record: whatever the interleaving of the consumer
    and the worker and whatever the sink answers, each record handled is counted exactly
    once as malformed, dropped for a full queue, or enqueued; each enqueued alert is in
    the queue, being sent, or counted exactly once as forwarded or failed; the queue keeps
    to its capacity; and the alerts acknowledged by the sink are those of well-formed
    records in the order in which the records were handled, none more often than its record
    was. The records handled are fewer than a [u64] counts; which ones the broker hands out,
    and how often, is left open. *)
Theorem forwarder_conserves acts s0 s :
  0 ≤ capacity → service_new capacity = Some s0 → Z.of_nat (handles acts) < 2 ^ 64 →
  service_run capacity from_slice fetch acts s0 = Some s →
  tallied (sv_handled s) (sv_fw s).
Proof.
  intros Hc Hnew Hn Hrun. pose proof (new_tallied s0 Hc Hnew) as Ht.
  apply (run_tallied acts s0 s Ht); [|done].
  unfold service_new, spawn in Hnew. destruct (channel_opens capacity); [|done].
  injection Hnew as <-. exact Hn.
Qed.

(** ** Offsets *)
Section offsets.
Context (log : list partition_record).
(** A fetch answers with the next records of the partition from the offset asked for. *)
Hypothesis fetch_answers : ∀ i off rs, fetch i off = Ok rs →
  ∃ n, rs = take n (filter (λ r, off ≤ pr_offset r) log).

(** No offset of the partition is missing. *)
Definition contiguous : Prop := ∀ i r, log !! i = Some r → pr_offset r = Z.of_nat i.

Lemma filter_from l (from : nat) k :
  (∀ i r, l !! i = Some r → pr_offset r = Z.of_nat (k + i)) → (k ≤ from)%nat →
  filter (λ r, Z.of_nat from ≤ pr_offset r) l = drop (from - k) l.
Proof.
  revert k. induction l as [|r l IH]; intros k Hl Hk; [by rewrite drop_nil|].
  pose proof (Hl 0%nat r eq_refl) as Hr. rewrite Nat.add_0_r in Hr.
  destruct (decide (k = from)) as [->|Hne].
  - rewrite Nat.sub_diag, drop_0. rewrite filter_cons_True by lia. f_equal.
    clear IH Hr. assert (Hall : Forall (λ r, Z.of_nat from ≤ pr_offset r) l).
    { apply Forall_lookup. intros i x Hx. specialize (Hl (S i) x Hx). lia. }
    clear Hl. induction Hall as [|x l Hx _ IHl]; [done|]. rewrite filter_cons_True by done. by f_equal.
  - rewrite filter_cons_False by lia. destruct (from - k)%nat as [|d] eqn:Hd; [lia|].
    cbn [drop]. replace d with (from - S k)%nat by lia. apply IH; [|lia].
    intros i x Hx. rewrite (Hl (S i) x Hx). lia.
Qed.

Lemma contiguous_filter from : contiguous →
  filter (λ r, Z.of_nat from ≤ pr_offset r) log = drop from log.
Proof. intros Hc. rewrite (filter_from log from 0); [by rewrite Nat.sub_0_r|exact Hc|lia]. Qed.

(** The consumer is at [n]: it has handled the first records of the partition, up to the
    batch in progress. *)
Record positioned (s : service J) : Prop := mkPositioned {
  po_prefix : sv_handled s ++ sv_pending s `prefix_of` log;
  po_next : ∃ n : nat, sv_next s = Z.of_nat n ∧
            match sv_pending s with
            | [] => length (sv_handled s) = n
            | pending => (length (sv_handled s) + length pending = n + sv_batch s)%nat
            end
}.

Lemma fetch_positioned s s' : contiguous → positioned s →
  service_step capacity from_slice fetch Fetch s = Some s' → positioned s'.
Proof.
  destruct s as [next pending batch fetches handled f]. intros Hc [Hp (n & Hn & Hlen)] Hs.
  cbn [service_step sv_next sv_pending sv_handled sv_batch] in *. destruct pending; [|done].
  destruct (fetch fetches next) as [rs|] eqn:Hf; [|done]. simplify_eq.
  destruct (fetch_answers _ _ _ Hf) as [m ->]. rewrite contiguous_filter by done. rewrite app_nil_r in Hp.
  destruct Hp as [rest ->]. rewrite drop_app_length.
  constructor; cbn [sv_next sv_pending sv_handled sv_batch].
  - exists (drop m rest). by rewrite <-app_assoc, take_drop.
  - exists (length handled). split; [done|]. destruct (take m rest); [done|]. cbn [length]. lia.
Qed.

Lemma step_positioned a s s' : contiguous → positioned s →
  service_step capacity from_slice fetch a s = Some s' → positioned s'.
Proof.
  intros Hc Hpos Hs. destruct a; [by eapply fetch_positioned|..].
  all: destruct s as [next pending batch fetches handled f]; destruct Hpos as [Hp (n & Hn & Hlen)].
  all: cbn [service_step sv_next sv_pending sv_handled sv_batch] in *.
  - destruct pending as [|r pending]; [done|]. simplify_eq. constructor; cbn [sv_next sv_pending sv_handled sv_batch].
    + by rewrite <-app_assoc.
    + destruct pending as [|r' pending]; rewrite length_app; cbn [length] in *.
      * exists (n + batch)%nat. lia.
      * exists n. lia.
  - destruct (worker_take f); simplify_option_eq. constructor; [done|]. by exists n.
  - destruct (worker_finish answers f); simplify_option_eq. constructor; [done|]. by exists n.
Qed.

Lemma run_positioned acts s s' : contiguous → positioned s →
  service_run capacity from_slice fetch acts s = Some s' → positioned s'.
Proof.
  intros Hc. revert s. induction acts as [|a acts IH]; intros s Hp Hs; cbn [service_run] in Hs; [by simplify_eq|].
  destruct (service_step capacity from_slice fetch a s) as [s1|] eqn:Hstep; [|done].
  eapply IH; [|done]. by eapply step_positioned.
Qed.

(** On a partition without missing offsets the consumer handles every record once, in
    order and without a gap, however the partition is cut into fetches and however the
    worker interleaves: the records handled are always a prefix of the partition, and
    between batches the next offset is the number handled. *)
Theorem consumer_exactly_once acts s0 s :
  contiguous → service_new capacity = Some s0 →
  service_run capacity from_slice fetch acts s0 = Some s →
  sv_handled s `prefix_of` log ∧
  (sv_pending s = [] → sv_next s = Z.of_nat (length (sv_handled s))).
Proof.
  intros Hc Hnew Hrun.
  assert (Hpos0 : positioned s0).
  { unfold service_new, spawn in Hnew. destruct (channel_opens capacity); [|done]. injection Hnew as <-.
    constructor; [apply prefix_nil|by exists 0%nat]. }
  destruct (run_positioned acts s0 s Hc Hpos0 Hrun) as [Hp (n & Hn & Hlen)]. split.
  - etrans; [|exact Hp]. by apply prefix_app_r.
  - intros Hpend. rewrite Hpend in Hlen. by rewrite Hlen.
Qed.
End offsets.
End service_facts.

(** ** Configuration shared by the two crates *)

(** [.ok().map(|v| v.trim().to_string()).filter(|v| !v.is_empty())] of a variable. *)
Definition trimmed_var (v : option bytes) : option bytes :=
  s ← v; let s := trim s in if is_empty s then None else Some s.

(** The broker list: split at commas, trimmed, empty entries removed; none is [None]. *)
Definition kafka_brokers_var (v : option bytes) : option (list bytes) :=
  raw ← v;
  let brokers := filter (λ b, is_empty b = false) (map trim (split_byte 44 raw)) in
  if bool_decide (brokers = []) then None else Some brokers.

(** [load_api_key_file], [load_hec_token_file]: an absolute path to a non-empty file. *)
Definition load_secret_file (read_to_string : bytes → result bytes) (v : option bytes) : result bytes :=
  path ← ok_or (EMsg "secret file variable not set") (trimmed_var v);
  if negb (starts_with path (lit "/")) then Err (EMsg "must be an absolute path")
  else raw ← with_context "read secret file" (read_to_string path);
       let secret := trim raw in
       if is_empty secret then Err (EMsg "secret file is empty") else Ok secret.

(** [trim_start_matches] with a string pattern. *)
Fixpoint trim_start_matches_go (fuel : nat) (p s : bytes) : bytes :=
  match fuel with
  | O => s
  | S fuel => match strip_prefix s p with Some s' => trim_start_matches_go fuel p s' | None => s end
  end.
Definition trim_start_matches (p s : bytes) : bytes := trim_start_matches_go (length s) p s.

Definition result_to_option {A} (r : result A) : option A := match r with Ok a => Some a | Err _ => None end.

(** ** The agent's alerts reach the forwarders *)

(** An alert the pipeline raised. *)
Definition raised (a : StreamAlert) (out : PipelineOutput) : Prop :=
  match a with
  | Behavior b => b ∈ po_behavior_alerts out
  | Critical c => c ∈ po_siem_alerts out
  end.

Lemma burst_severity tick d e n u b : burst_verdict tick d e n u = Some b → ba_severity b = SEVERITY_BEHAVIOR_ALERT.
Proof. unfold burst_verdict. case_bool_decide; [done|]. by intros [= <-]. Qed.

Lemma analyze_severity tick e d b :
  (analyze_parent_frequency tick e d).2 = Some b → ba_severity b = SEVERITY_BEHAVIOR_ALERT.
Proof.
  unfold analyze_parent_frequency. destruct (se_ppid_unresolved e); [|case_bool_decide]; cbn [snd];
    [apply burst_severity|done|apply burst_severity].
Qed.

Lemma ingest_severity tick e d b : (ingest tick e d).2 = Some b → ba_severity b = SEVERITY_BEHAVIOR_ALERT.
Proof.
  unfold ingest, flush. case_bool_decide; [|apply analyze_severity].
  destruct (last _); [apply analyze_severity|done].
Qed.

Lemma raised_type tick siem_now e d a :
  raised a (process tick siem_now e d).2 →
  match a with
  | Behavior b => ba_severity b = BEHAVIOR_ALERT
  | Critical c => sa_severity c = CRITICAL_ALERT
  end.
Proof.
  unfold process. pose proof (ingest_severity tick e d) as Hi. destruct (ingest tick e d) as [d' ob].
  destruct a as [b|c]; cbn [raised snd po_behavior_alerts po_siem_alerts].
  - destruct ob as [b'|]; cbn; [|by intros ?%elem_of_nil]. intros ->%list_elem_of_singleton. by apply Hi.
  - unfold evaluate. destruct (is_whitelisted _); [by intros ?%elem_of_nil|].
    destruct (blacklist_match _); [|by intros ?%elem_of_nil]. by intros ->%list_elem_of_singleton.
Qed.

(** The envelope a Kafka message deserialises to. *)
Definition envelope_of {J} (m : TelemetryKafkaMessage J) : TelemetryEnvelope J :=
  mkTelemetryEnvelope (km_event_id _ m) (km_timestamp_ns _ m) (km_node_name _ m) (km_schema_version _ m)
    (km_alert_type _ m) (km_payload _ m).

Section roundtrip.
Context {J : Type} (behavior_to_value : BehaviorAlert → result J) (siem_to_value : SiemAlert → result J).
Context (message_to_vec : TelemetryKafkaMessage J → result bytes) (parse_from_rfc3339_ns : bytes → option (option Z)).
Context (from_slice : bytes → option (TelemetryEnvelope J)).
Lemma encode_alert_envelope node a m :
  encode_alert behavior_to_value siem_to_value parse_from_rfc3339_ns node a = Ok m →
  km_node_name _ m = node ∧ km_schema_version _ m = ENVELOPE_SCHEMA_VERSION ∧
  km_alert_type _ m = match a with Behavior b => ba_severity b | Critical c => sa_severity c end.
Proof.
  destruct a as [b|c]; cbn [encode_alert]; unfold encode_behavior_alert, encode_critical_alert;
    intros Hm; apply bind_Ok in Hm as (v & _ & Hm); injection Hm as <-; done.
Qed.

(** Every alert the agent publishes is accepted by the forwarders, if the reader reads
    back what the writer wrote: the record of an alert raised by the detection pipeline
    parses and validates to an envelope with the alert's node, type and payload, and its
    event id is the record's key. *)
Lemma alert_record_accepted tick siem_now e d node a k p p' key value :
  (∀ m v, encode_alert behavior_to_value siem_to_value parse_from_rfc3339_ns node a = Ok m →
          message_to_vec m = Ok v → from_slice v = Some (envelope_of m)) →
  raised a (process tick siem_now e d).2 →
  publish_step behavior_to_value siem_to_value message_to_vec parse_from_rfc3339_ns node a k p = (p', Some (key, value)) →
  ∃ env, parse_json from_slice value = Ok env ∧ te_event_id env = key ∧ te_node_name env = node ∧
         te_alert_type env = match a with Behavior _ => BEHAVIOR_ALERT | Critical _ => CRITICAL_ALERT end ∧
         match a with Behavior b => behavior_to_value b | Critical c => siem_to_value c end = Ok (te_payload env).
Proof.
  intros Hread Hr Hp. apply raised_type in Hr. unfold publish_step in Hp.
  destruct (_ && _); [done|]. destruct (encode_alert _ _ _ node a) as [m|] eqn:Hm; [|done].
  destruct (message_to_vec m) as [v|] eqn:Hv; [|done]. destruct (ka_produce k); [|done]. simplify_eq.
  destruct (encode_alert_envelope node a m Hm) as (Hnode & Hschema & Htype).
  exists (envelope_of m). unfold parse_json. rewrite (Hread m value eq_refl Hv). cbn [ok_or mbind result_bind].
  unfold validate. cbn [envelope_of te_schema_version te_alert_type te_event_id te_node_name te_payload].
  rewrite Hschema, Htype, bool_decide_true by done. cbn [negb].
  assert (Hpay : match a with Behavior b => behavior_to_value b | Critical c => siem_to_value c end = Ok (km_payload _ m)).
  { destruct a; cbn [encode_alert] in Hm; unfold encode_behavior_alert, encode_critical_alert in Hm;
      apply bind_Ok in Hm as (v & Hval & Hm); injection Hm as <-; done. }
  destruct a; rewrite Hr; done.
Qed.
End roundtrip.
