(* ===== verification/Datadog.v ===== *)
(** * The Datadog forwarder ([apps/datadog-forwarder])

    Its configuration, the body it posts and the reading of the response: an instance of
    [Sink], on which the retry loop, the worker and the consumer of [Forwarder] run. *)

From Stdlib Require Import SpecFloat.
From S2P Require Import Prelude RustStd Common ExecMapper Detection Metrics Forwarder.

Definition DATADOG_SITE_ENV : bytes := lit "NEUROMESH_DATADOG_SITE".
Definition DATADOG_LOGS_URL_ENV : bytes := lit "NEUROMESH_DATADOG_LOGS_URL".
Definition DATADOG_API_KEY_FILE_ENV : bytes := lit "NEUROMESH_DATADOG_API_KEY_FILE".
Definition DATADOG_SERVICE_ENV : bytes := lit "NEUROMESH_DATADOG_SERVICE".
Definition DATADOG_SOURCE_ENV : bytes := lit "NEUROMESH_DATADOG_SOURCE".
Definition KAFKA_BROKERS_ENV : bytes := lit "NEUROMESH_KAFKA_BROKERS".
Definition KAFKA_TOPIC_ENV : bytes := lit "NEUROMESH_DATADOG_KAFKA_TOPIC".
Definition KAFKA_GROUP_ID_ENV : bytes := lit "NEUROMESH_DATADOG_KAFKA_GROUP_ID".
Definition DEFAULT_KAFKA_TOPIC : bytes := lit "neuromesh.telemetry.v1".
Definition DEFAULT_KAFKA_GROUP : bytes := lit "datadog-forwarder".
Definition DEFAULT_SERVICE : bytes := lit "neuromesh-agent-ebpf-sensor".
Definition DEFAULT_SOURCE : bytes := lit "neuromesh".
Definition DEFAULT_QUEUE_CAPACITY : Z := 8192.
Definition DEFAULT_METRICS_PORT : Z := 9092.
Definition QUEUE_CAPACITY_ENV : bytes := lit "NEUROMESH_DATADOG_QUEUE_CAPACITY".
Definition METRICS_PORT_ENV : bytes := lit "NEUROMESH_DATADOG_METRICS_PORT".
Definition FORBIDDEN_SHARED_KAFKA_GROUP_ENV : bytes := lit "NEUROMESH_KAFKA_GROUP_ID".

Record ForwarderConfig : Type := mkForwarderConfig {
  logs_url : bytes;
  api_key : bytes;
  dd_service : bytes;
  ddsource : bytes;
  kafka_brokers : list bytes;
  kafka_topic : bytes;
  kafka_group_id : bytes;
  queue_capacity : Z;
  metrics_port : Z
}.

Definition site_host (site : bytes) : option bytes :=
  let named := λ names : list string, bool_decide (site ∈ map lit names) in
  if named ["us1"; "datadoghq.com"]%string then Some (lit "http-intake.logs.datadoghq.com")
  else if named ["us3"; "us3.datadoghq.com"]%string then Some (lit "http-intake.logs.us3.datadoghq.com")
  else if named ["us5"; "us5.datadoghq.com"]%string then Some (lit "http-intake.logs.us5.datadoghq.com")
  else if named ["eu"; "eu1"; "datadoghq.eu"]%string then Some (lit "http-intake.logs.datadoghq.eu")
  else if named ["ap1"; "ap1.datadoghq.com"]%string then Some (lit "http-intake.logs.ap1.datadoghq.com")
  else if named ["ap2"; "ap2.datadoghq.com"]%string then Some (lit "http-intake.logs.ap2.datadoghq.com")
  else if named ["uk1"; "uk1.datadoghq.com"]%string then Some (lit "http-intake.logs.uk1.datadoghq.com")
  else if named ["us1-fed"; "ddog-gov.com"]%string then Some (lit "http-intake.logs.ddog-gov.com")
  else if named ["us2-fed"; "us2.ddog-gov.com"]%string then Some (lit "http-intake.logs.us2.ddog-gov.com")
  else None.

Definition intake_url_for_site (site : bytes) : result bytes :=
  let trimmed := trim_end_matches 47 (trim_start_matches (lit "http://") (trim_start_matches (lit "https://") (trim site))) in
  let site := default trimmed (strip_prefix trimmed (lit "app.")) in
  host ← ok_or (EMsg "unknown Datadog site") (site_host site);
  Ok (lit "https://" ++ host ++ lit "/api/v2/logs").

Section config.
Context (read_to_string : bytes → result bytes) (var : bytes → option bytes).

Definition resolve_logs_url : option bytes :=
  match trimmed_var (var DATADOG_LOGS_URL_ENV) with
  | Some url => Some url
  | None => site ← trimmed_var (var DATADOG_SITE_ENV); result_to_option (intake_url_for_site site)
  end.

Definition load_api_key_file : result bytes := load_secret_file read_to_string (var DATADOG_API_KEY_FILE_ENV).

Definition from_env : option ForwarderConfig :=
  logs_url ← resolve_logs_url;
  api_key ← result_to_option load_api_key_file;
  kafka_brokers ← kafka_brokers_var (var KAFKA_BROKERS_ENV);
  Some {| logs_url := logs_url; api_key := api_key;
          dd_service := default DEFAULT_SERVICE (var DATADOG_SERVICE_ENV);
          ddsource := default DEFAULT_SOURCE (var DATADOG_SOURCE_ENV);
          kafka_brokers := kafka_brokers;
          kafka_topic := default DEFAULT_KAFKA_TOPIC (var KAFKA_TOPIC_ENV);
          kafka_group_id := default DEFAULT_KAFKA_GROUP (var KAFKA_GROUP_ID_ENV);
          queue_capacity := default DEFAULT_QUEUE_CAPACITY (var QUEUE_CAPACITY_ENV ≫= parse_u64);
          metrics_port := default DEFAULT_METRICS_PORT (var METRICS_PORT_ENV ≫= parse_uint u16_max) |}.
End config.

Record DatadogLogItem (J : Type) : Type := mkDatadogLogItem {
  dl_message : bytes;
  dl_hostname : bytes;
  dl_service : bytes;
  dl_ddsource : bytes;
  dl_ddtags : bytes;
  dl_event_id : bytes;
  dl_schema_version : bytes;
  dl_alert_type : bytes;
  dl_rule_id : option bytes;
  dl_timestamp : spec_float;
  dl_payload : J
}.
Arguments mkDatadogLogItem {J}.
Arguments dl_event_id {J}.

Section log.
Context {J : Type} (json_get : J → bytes → option J) (json_as_str : J → option bytes).

Definition build_datadog_log (env : TelemetryEnvelope J) (service ddsource : bytes) : DatadogLogItem J :=
  let rule := rule_id json_get json_as_str env in
  {| dl_message := match rule with
                   | Some r => te_alert_type env ++ lit " " ++ r ++ lit " on " ++ te_node_name env
                   | None => te_alert_type env ++ lit " on " ++ te_node_name env
                   end;
     dl_hostname := te_node_name env;
     dl_service := service;
     dl_ddsource := ddsource;
     dl_ddtags := lit "source:" ++ ddsource ++ lit "," ++ lit "alert_type:" ++ te_alert_type env
                  ++ match rule with Some r => lit "," ++ lit "rule_id:" ++ r | None => [] end;
     dl_event_id := te_event_id env;
     dl_schema_version := te_schema_version env;
     dl_alert_type := te_alert_type env;
     dl_rule_id := rule;
     dl_timestamp := seconds (te_timestamp_ns env);
     dl_payload := te_payload env |}.

(** [DatadogLogClient::send] on a response. *)
Definition outcome (status : Z) : SendOutcome :=
  if is_success status then Success
  else if bool_decide (status = 429) || bool_decide (status = 408) || is_server_error status then RetryableFailure
  else NonRetryableFailure.

#[export, program] Instance datadog_sink : Sink J ForwarderConfig (DatadogLogItem J) := {
  sink_body cfg env := build_datadog_log env (dd_service cfg) (ddsource cfg);
  sink_outcome := outcome;
  sink_event_id := dl_event_id
}.
Next Obligation. done. Qed.
Next Obligation.
  unfold outcome, is_success. intros status. case_bool_decide; [done|]. by destruct (_ || _ || _).
Qed.
Next Obligation.
  unfold outcome, is_success, is_server_error. intros status Hs. rewrite bool_decide_false by lia.
  destruct Hs as [->|Hs]; [done|]. by rewrite (bool_decide_true (500 ≤ status < 600)), orb_true_r.
Qed.

(** The Datadog service: the shared retry loop, worker, consumer and main loop on this sink. *)
Definition send_with_retry : (nat → reply) → Z → SendResult * Z * list Z :=
  Forwarder.send_with_retry (H := datadog_sink).
Definition worker_loop : (nat → reply) → forwarder J → option (forwarder J) :=
  Forwarder.worker_finish (H := datadog_sink).
Definition run_kafka_consumer (cfg : ForwarderConfig) (from_slice : bytes → option (TelemetryEnvelope J))
    (fetch : nat → Z → result (list partition_record)) : fw_action → service J → option (service J) :=
  service_step (H := datadog_sink) (queue_capacity cfg) from_slice fetch.
End log.

(** ** Configuration *)

(** The environment with one variable replaced. *)
Definition override (k : bytes) (v : option bytes) (var : bytes → option bytes) : bytes → option bytes :=
  λ k', if bool_decide (k' = k) then v else var k'.

Lemma override_other k v var k' : k' ≠ k → override k v var k' = var k'.
Proof. intros. unfold override. by rewrite bool_decide_false. Qed.

(** The variables the configuration reads. *)
Definition datadog_vars : list bytes :=
  [DATADOG_SITE_ENV; DATADOG_LOGS_URL_ENV; DATADOG_API_KEY_FILE_ENV; DATADOG_SERVICE_ENV; DATADOG_SOURCE_ENV;
   KAFKA_BROKERS_ENV; KAFKA_TOPIC_ENV; KAFKA_GROUP_ID_ENV; QUEUE_CAPACITY_ENV; METRICS_PORT_ENV].

Lemma from_env_ext read var var' :
  (∀ k, k ∈ datadog_vars → var k = var' k) → from_env read var = from_env read var'.
Proof.
  intros Hk. unfold from_env, resolve_logs_url, load_api_key_file.
  rewrite !Hk by (apply (bool_decide_eq_true_1 (_ ∈ _)); vm_compute; reflexivity). done.
Qed.

Lemma trimmed_var_nonempty v s : trimmed_var v = Some s → s ≠ [].
Proof.
  unfold trimmed_var. destruct v as [r|]; [|done]. cbn. destruct (is_empty (trim r)) eqn:He; [done|].
  intros [= <-]. by apply is_empty_false.
Qed.
Lemma load_secret_file_nonempty read v s : load_secret_file read v = Ok s → s ≠ [].
Proof.
  unfold load_secret_file. intros Hs. apply bind_Ok in Hs as (p & _ & Hs).
  destruct (negb _); [done|]. apply bind_Ok in Hs as (raw & _ & Hs).
  destruct (is_empty (trim raw)) eqn:He; [done|]. injection Hs as <-. by apply is_empty_false.
Qed.
Lemma kafka_brokers_var_nonempty v l : kafka_brokers_var v = Some l → l ≠ [] ∧ Forall (λ b, b ≠ []) l.
Proof.
  unfold kafka_brokers_var. destruct v as [raw|]; [|done]. cbn. case_bool_decide; [done|]. intros [= <-].
  split; [done|]. apply Forall_forall. intros b [Hb _]%list_elem_of_filter. by apply is_empty_false.
Qed.

(** The Datadog forwarder is off by default and isolated from its neighbours: it is
    active only with a non-empty intake URL, API key and broker list, and the consumer
    group variable of the threat detector, whatever its value, changes nothing. *)
Theorem datadog_isolated read var v :
  from_env read (override FORBIDDEN_SHARED_KAFKA_GROUP_ENV v var) = from_env read var ∧
  ∀ cfg, from_env read var = Some cfg →
    logs_url cfg ≠ [] ∧ api_key cfg ≠ [] ∧ kafka_brokers cfg ≠ [] ∧ Forall (λ b, b ≠ []) (kafka_brokers cfg).
Proof.
  split.
  - apply from_env_ext. intros k Hk. apply override_other. intros ->. revert Hk.
    apply (bool_decide_eq_false_1 (_ ∈ _)). vm_compute. reflexivity.
  - intros cfg. unfold from_env. destruct (resolve_logs_url var) as [url|] eqn:Hu; [|done]. cbn [mbind option_bind].
    destruct (result_to_option (load_api_key_file read var)) as [key|] eqn:Hk; [|done]. cbn [mbind option_bind].
    destruct (kafka_brokers_var _) as [brokers|] eqn:Hb; [|done]. intros [= <-].
    cbn [logs_url api_key kafka_brokers]. apply kafka_brokers_var_nonempty in Hb as [Hb Hb']. split_and!; [| |done|done].
    + unfold resolve_logs_url in Hu. destruct (trimmed_var (var DATADOG_LOGS_URL_ENV)) eqn:Hl.
      * injection Hu as <-. by eapply trimmed_var_nonempty.
      * destruct (trimmed_var (var DATADOG_SITE_ENV)); [|done]. cbn [mbind option_bind] in Hu.
        unfold intake_url_for_site in Hu. destruct (site_host _); [|done]. cbn in Hu. by injection Hu as <-.
    + destruct (load_api_key_file read var) eqn:Hl; [|done]. cbn in Hk. injection Hk as <-.
      by eapply load_secret_file_nonempty.
Qed.

(** ** Instances *)
Definition demo_envelope (id : bytes) : TelemetryEnvelope bytes :=
  mkTelemetryEnvelope id 1710000000000000000 (lit "node-b") ENVELOPE_SCHEMA_VERSION BEHAVIOR_ALERT (lit "payload").
Definition demo_get (_ : bytes) (_ : bytes) : option bytes := None.
Definition demo_as_str (v : bytes) : option bytes := Some v.
(** A record whose value is the id of its alert; an empty value is malformed. *)
Definition demo_from_slice (v : bytes) : option (TelemetryEnvelope bytes) :=
  if is_empty v then None else Some (demo_envelope v).
Definition demo_log : list partition_record :=
  [mkPartitionRecord 0 (Some (lit "a")); mkPartitionRecord 1 None; mkPartitionRecord 2 (Some (lit "b"))].
Definition demo_gap_log : list partition_record :=
  [mkPartitionRecord 0 (Some (lit "a")); mkPartitionRecord 2 (Some (lit "b"))].
Definition demo_fetch (log : list partition_record) (_ : nat) (off : Z) : result (list partition_record) :=
  Ok (take 2 (filter (λ r, off ≤ pr_offset r) log)).
Definition demo_sink : Sink bytes ForwarderConfig (DatadogLogItem bytes) := datadog_sink demo_get demo_as_str.
Definition demo_service : service bytes :=
  mkService 0 [] 0 0 [] (mkForwarder [] None (mkForwarderStats 0 0 0 0) (mkForwardMetrics 0 ∅ ∅ 0) INITIAL_BACKOFF_MS []).
Definition demo_answers (i : nat) : reply := if bool_decide (i = 0%nat) then RequestFailed else Response 202.
Definition demo_fw_acts : list fw_action := [Fetch; Handle; Take; Handle; Fetch; Finish demo_answers; Handle].
Definition demo_fw_run (log : list partition_record) (acts : list fw_action) : service bytes :=
  default demo_service (service_run (H := demo_sink) 8 demo_from_slice (demo_fetch log) acts demo_service).

(** The next offset is advanced by the number of records, not to the offset after the
    last: on a partition with a missing offset a record is fetched and forwarded twice. *)
Theorem missing_offset_redelivers :
  map pr_offset (sv_handled (demo_fw_run demo_gap_log [Fetch; Handle; Handle; Fetch; Handle])) = [0; 2; 2].
Proof. vm_compute. reflexivity. Qed.

Lemma retry_exact_witness :
  let '(r, b', sleeps) := send_with_retry demo_get demo_as_str demo_answers 250 in
  let last := length sleeps in
  (last < 4)%nat ∧
  (∀ j, (j < last)%nat → retried (H := demo_sink) (demo_answers j)) ∧
  (retried (H := demo_sink) (demo_answers last) → last = 3%nat) ∧
  r = result_of (H := demo_sink) (demo_answers last) ∧
  sleeps = map (sleep_at 250) (seq 0 last) ∧ b' = sleep_at 250 last.
Proof. apply (retry_exact (H := demo_sink) demo_answers 250). done. Defined.

Lemma forwarder_conserves_witness :
  tallied (J := bytes) 8 demo_from_slice (sv_handled (demo_fw_run demo_log demo_fw_acts)) (sv_fw (demo_fw_run demo_log demo_fw_acts)).
Proof.
  apply (forwarder_conserves (H := demo_sink) 8 demo_from_slice (demo_fetch demo_log) demo_fw_acts demo_service).
  - done.
  - reflexivity.
  - reflexivity.
  - vm_compute. reflexivity.
Defined.

Lemma demo_log_contiguous : contiguous demo_log.
Proof. intros [|[|[|]]] r; cbn; intros; simplify_eq; done. Qed.

Lemma consumer_exactly_once_witness :
  sv_handled (demo_fw_run demo_log demo_fw_acts) `prefix_of` demo_log ∧
  (sv_pending (demo_fw_run demo_log demo_fw_acts) = [] →
   sv_next (demo_fw_run demo_log demo_fw_acts) = Z.of_nat (length (sv_handled (demo_fw_run demo_log demo_fw_acts)))).
Proof.
  apply (consumer_exactly_once (H := demo_sink) 8 demo_from_slice (demo_fetch demo_log) demo_log) with (acts := demo_fw_acts) (s0 := demo_service).
  - intros i off rs. unfold demo_fetch. intros [= <-]. by exists 2%nat.
  - exact demo_log_contiguous.
  - reflexivity.
  - vm_compute. reflexivity.
Defined.
