(* ===== verification/Splunk.v ===== *)
(** * The Splunk HEC forwarder ([apps/splunk-hec-forwarder])

    Its configuration, the body it posts and the reading of the response: an instance of
    [Sink], on which the retry loop, the worker and the consumer of [Forwarder] run. *)

From Stdlib Require Import SpecFloat.
From S2P Require Import Prelude RustStd Common Detection Metrics Forwarder.

Definition SPLUNK_HEC_URL_ENV : bytes := lit "NEUROMESH_SPLUNK_HEC_URL".
Definition SPLUNK_HEC_TOKEN_FILE_ENV : bytes := lit "NEUROMESH_SPLUNK_HEC_TOKEN_FILE".
Definition SPLUNK_HEC_INDEX_ENV : bytes := lit "NEUROMESH_SPLUNK_HEC_INDEX".
Definition SPLUNK_HEC_SOURCETYPE_ENV : bytes := lit "NEUROMESH_SPLUNK_HEC_SOURCETYPE".
Definition SPLUNK_HEC_SOURCE_ENV : bytes := lit "NEUROMESH_SPLUNK_HEC_SOURCE".
Definition KAFKA_BROKERS_ENV : bytes := lit "NEUROMESH_KAFKA_BROKERS".
Definition KAFKA_TOPIC_ENV : bytes := lit "NEUROMESH_KAFKA_TOPIC".
Definition KAFKA_GROUP_ID_ENV : bytes := lit "NEUROMESH_KAFKA_GROUP_ID".
Definition DEFAULT_KAFKA_TOPIC : bytes := lit "neuromesh.telemetry.v1".
Definition DEFAULT_KAFKA_GROUP : bytes := lit "splunk-hec-forwarder".
Definition DEFAULT_SOURCETYPE : bytes := lit "neuromesh:alert:v1".
Definition DEFAULT_SOURCE : bytes := lit "neuromesh/agent-ebpf-sensor".
Definition DEFAULT_QUEUE_CAPACITY : Z := 8192.
Definition DEFAULT_METRICS_PORT : Z := 9091.
Definition QUEUE_CAPACITY_ENV : bytes := lit "NEUROMESH_SPLUNK_HEC_QUEUE_CAPACITY".
Definition METRICS_PORT_ENV : bytes := lit "NEUROMESH_SPLUNK_HEC_METRICS_PORT".

Record ForwarderConfig : Type := mkForwarderConfig {
  hec_url : bytes;
  hec_token : bytes;
  hec_index : option bytes;
  sourcetype : bytes;
  source : bytes;
  kafka_brokers : list bytes;
  kafka_topic : bytes;
  kafka_group_id : bytes;
  queue_capacity : Z;
  metrics_port : Z
}.

Section config.
Context (read_to_string : bytes → result bytes) (var : bytes → option bytes).

Definition load_hec_token_file : result bytes := load_secret_file read_to_string (var SPLUNK_HEC_TOKEN_FILE_ENV).

Definition from_env : option ForwarderConfig :=
  hec_url ← trimmed_var (var SPLUNK_HEC_URL_ENV);
  token ← result_to_option load_hec_token_file;
  kafka_brokers ← kafka_brokers_var (var KAFKA_BROKERS_ENV);
  Some {| hec_url := hec_url; hec_token := token;
          hec_index := trimmed_var (var SPLUNK_HEC_INDEX_ENV);
          sourcetype := default DEFAULT_SOURCETYPE (var SPLUNK_HEC_SOURCETYPE_ENV);
          source := default DEFAULT_SOURCE (var SPLUNK_HEC_SOURCE_ENV);
          kafka_brokers := kafka_brokers;
          kafka_topic := default DEFAULT_KAFKA_TOPIC (var KAFKA_TOPIC_ENV);
          kafka_group_id := default DEFAULT_KAFKA_GROUP (var KAFKA_GROUP_ID_ENV);
          queue_capacity := default DEFAULT_QUEUE_CAPACITY (var QUEUE_CAPACITY_ENV ≫= parse_u64);
          metrics_port := default DEFAULT_METRICS_PORT (var METRICS_PORT_ENV ≫= parse_uint u16_max) |}.
End config.

Record HecEventMeta : Type := mkHecEventMeta { hm_producer : bytes; hm_transport : bytes }.
Record HecEventPayload (J : Type) : Type := mkHecEventPayload {
  hp_event_id : bytes;
  hp_schema_version : bytes;
  hp_alert_type : bytes;
  hp_payload : J;
  hp_rule_id : option bytes;
  hp_severity : option bytes;
  hp_meta : HecEventMeta
}.
Arguments mkHecEventPayload {J}.
Arguments hp_event_id {J}.
Record HecEventBody (J : Type) : Type := mkHecEventBody {
  hb_time : spec_float;
  hb_host : bytes;
  hb_source : bytes;
  hb_sourcetype : bytes;
  hb_index : option bytes;
  hb_event : HecEventPayload J
}.
Arguments mkHecEventBody {J}.
Arguments hb_event {J}.

Section event.
Context {J : Type} (json_get : J → bytes → option J) (json_as_str : J → option bytes).

Definition build_hec_event (env : TelemetryEnvelope J) (source sourcetype : bytes) (index : option bytes) :
    HecEventBody J :=
  {| hb_time := seconds (te_timestamp_ns env);
     hb_host := te_node_name env;
     hb_source := source;
     hb_sourcetype := sourcetype;
     hb_index := index;
     hb_event := {| hp_event_id := te_event_id env;
                    hp_schema_version := te_schema_version env;
                    hp_alert_type := te_alert_type env;
                    hp_payload := te_payload env;
                    hp_rule_id := rule_id json_get json_as_str env;
                    hp_severity := severity json_get json_as_str env;
                    hp_meta := mkHecEventMeta (lit "agent-ebpf-sensor") (lit "kafka->hec") |} |}.

(** [SplunkHecClient::send] on a response. *)
Definition outcome (status : Z) : SendOutcome :=
  if is_success status then Success
  else if bool_decide (status = 429) || is_server_error status then RetryableFailure
  else NonRetryableFailure.

#[export, program] Instance splunk_sink : Sink J ForwarderConfig (HecEventBody J) := {
  sink_body cfg env := build_hec_event env (source cfg) (sourcetype cfg) (hec_index cfg);
  sink_outcome := outcome;
  sink_event_id body := hp_event_id (hb_event body)
}.
Next Obligation. done. Qed.
Next Obligation.
  unfold outcome, is_success. intros status. case_bool_decide; [done|]. by destruct (_ || _).
Qed.
Next Obligation.
  unfold outcome, is_success, is_server_error. intros status Hs. rewrite bool_decide_false by lia.
  destruct Hs as [->|Hs]; [done|]. by rewrite (bool_decide_true (500 ≤ status < 600)), orb_true_r.
Qed.

(** The Splunk crate has its own copies of the envelope, the counters, the queue and the
    loops; they are the code of [Forwarder], on this sink. *)
Definition HecSendOutcome : Type := SendOutcome.
Definition HecMetrics : Type := ForwardMetrics.
Definition hec_validate : TelemetryEnvelope J → result () := validate.
Definition hec_parse_json : (bytes → option (TelemetryEnvelope J)) → bytes → result (TelemetryEnvelope J) := parse_json.
Definition hec_rule_id : TelemetryEnvelope J → option bytes := rule_id json_get json_as_str.
Definition hec_severity : TelemetryEnvelope J → option bytes := severity json_get json_as_str.
Definition hec_record_success : HecMetrics → HecMetrics := record_success.
Definition hec_record_failure : bytes → HecMetrics → HecMetrics := record_failure.
Definition hec_record_drop : bytes → HecMetrics → HecMetrics := Forwarder.record_drop.
Definition hec_set_queue_depth : Z → HecMetrics → HecMetrics := set_queue_depth.
Definition hec_try_enqueue (cfg : ForwarderConfig) : TelemetryEnvelope J → forwarder J → forwarder J :=
  fw_try_enqueue (queue_capacity cfg).
Definition hec_spawn (cfg : ForwarderConfig) : option (forwarder J) := spawn (queue_capacity cfg).
Definition hec_recv : forwarder J → option (forwarder J) := worker_take.
Definition send_with_retry : (nat → reply) → Z → SendResult * Z * list Z :=
  Forwarder.send_with_retry (H := splunk_sink).
Definition worker_loop : (nat → reply) → forwarder J → option (forwarder J) :=
  Forwarder.worker_finish (H := splunk_sink).
Definition run_kafka_consumer (cfg : ForwarderConfig) (from_slice : bytes → option (TelemetryEnvelope J))
    (fetch : nat → Z → result (list partition_record)) : fw_action → service J → option (service J) :=
  service_step (H := splunk_sink) (queue_capacity cfg) from_slice fetch.
End event.

(** The Splunk forwarder takes its consumer identity from the variable that names the
    threat detector's group. *)
Theorem splunk_reads_shared_group read var cfg :
  from_env read var = Some cfg →
  kafka_group_id cfg = default DEFAULT_KAFKA_GROUP (var (lit "NEUROMESH_KAFKA_GROUP_ID")).
Proof.
  unfold from_env. destruct (trimmed_var (var SPLUNK_HEC_URL_ENV)); [|done]. cbn [mbind option_bind].
  destruct (result_to_option _); [|done]. cbn [mbind option_bind].
  destruct (kafka_brokers_var _); [|done]. intros Hc. injection Hc as <-. reflexivity.
Qed.
