(* ===== verification/Documents.v ===== *)
(** * The documents the agent reads and writes

    [#[derive(Deserialize)]] and [#[derive(Serialize)]] of the structs that cross the
    agent's borders, over the JSON values of [Json], whose texts are the parameter [SerdeJson]: the policy bundle
    ([identity_allow.rs]), the manifest of the embedded bytecode
    ([bytecode_attestation.rs]), the list and watch replies of the API server
    ([identity_correlator/pod_watch.rs]), the alerts and their Kafka message
    ([rules.rs], [normalizer.rs], [telemetry_stream.rs]) and the envelope the
    forwarders read ([envelope.rs]); and RFC 3339 timestamps. They are instances of
    the parameters the components are modelled over.

    Shown: a bundle is read the same in whatever order its members come and whatever
    else the object holds; an alert the detection pipeline raises reaches the
    forwarders as text they accept, with its rule and severity. *)

From S2P Require Import Prelude RustStd Json Common IdentityAllow Attestation PodWatch ExecMapper Detection Metrics Forwarder.

(** ** RFC 3339

    [DateTime::parse_from_rfc3339], as nanoseconds since the epoch. *)
Definition two_digits (s : bytes) : option (Z * bytes) :=
  match s with
  | a :: b :: r => if jdigit a && jdigit b then Some ((a - 48) * 10 + (b - 48), r) else None
  | _ => None
  end.
Definition expect_byte (ok : Z → bool) (s : bytes) : option bytes :=
  match s with b :: r => if ok b then Some r else None | [] => None end.

(** Days from 1970-01-01 in the proleptic Gregorian calendar. *)
Definition days_from_civil (y m d : Z) : Z :=
  let y := if m <=? 2 then y - 1 else y in
  let era := y / 400 in
  let yoe := y - era * 400 in
  let mp := (m + 9) mod 12 in
  let doy := (153 * mp + 2) / 5 + d - 1 in
  era * 146097 + (yoe * 365 + yoe / 4 - yoe / 100 + doy) - 719468.
Definition is_leap (y : Z) : bool := ((y mod 4 =? 0) && negb (y mod 100 =? 0)) || (y mod 400 =? 0).
Definition days_in_month (y m : Z) : Z :=
  if m =? 2 then (if is_leap y then 29 else 28)
  else if bool_decide (m ∈ [4; 6; 9; 11]) then 30 else 31.

(** Nine digits of a fraction, the rest of which is cut. *)
Definition fraction_nanos (digits : bytes) : Z :=
  dec_value 0 (take 9 (digits ++ replicate 9 48)).

Definition read_offset (s : bytes) : option Z :=
  match s with
  | [z] => if (z =? 90) || (z =? 122) then Some 0 else None
  | sign :: s =>
      '(h, s) ← two_digits s;
      s ← expect_byte (Z.eqb 58) s;
      '(m, s) ← two_digits s;
      if ((sign =? 43) || (sign =? 45)) && is_empty s && (h <? 24) && (m <? 60)
      then Some ((if sign =? 45 then -1 else 1) * (h * 3600 + m * 60)) else None
  | [] => None
  end.

Definition rfc3339 (s : bytes) : option Z :=
  '(c, s) ← two_digits s;
  '(y, s) ← two_digits s;
  let y := c * 100 + y in
  s ← expect_byte (Z.eqb 45) s;
  '(mo, s) ← two_digits s;
  s ← expect_byte (Z.eqb 45) s;
  '(d, s) ← two_digits s;
  s ← expect_byte (λ b, (b =? 84) || (b =? 116) || (b =? 32)) s;
  '(h, s) ← two_digits s;
  s ← expect_byte (Z.eqb 58) s;
  '(mi, s) ← two_digits s;
  s ← expect_byte (Z.eqb 58) s;
  '(sec, s) ← two_digits s;
  '(nanos, s) ← match s with
                | 46 :: f =>
                    let digits := take_while jdigit f in
                    if is_empty digits then None else Some (fraction_nanos digits, skip_while jdigit f)
                | _ => Some (0, s)
                end;
  off ← read_offset s;
  if (1 <=? mo) && (mo <=? 12) && (1 <=? d) && (d <=? days_in_month y mo) && (h <? 24) && (mi <? 60) && (sec <=? 60)
  then Some ((days_from_civil y mo d * 86400 + h * 3600 + mi * 60 + sec - off) * 1000000000 + nanos)
  else None.

(** ** The policy bundle *)
Definition identity_of_json (j : jv) : option IdentityDoc :=
  l ← struct_fields [lit "scope_path_prefix"; lit "spiffe_ids"; lit "issued_at"; lit "expires_at"] 4 j;
  scope ← serde_required serde_string (lit "scope_path_prefix") l;
  ids ← serde_required (serde_vec serde_string) (lit "spiffe_ids") l;
  issued ← serde_required serde_string (lit "issued_at") l;
  expires ← serde_required serde_string (lit "expires_at") l;
  Some (mkIdentityDoc scope ids issued expires).

Definition bundle_of_fields (l : list (bytes * jv)) : option BundleDoc :=
  schema ← serde_required (serde_uint 32) (lit "schema_version") l;
  version ← serde_required serde_string (lit "version") l;
  prefixes ← serde_required (serde_vec serde_string) (lit "deny_path_prefixes") l;
  identity ← serde_default None (serde_option identity_of_json) (lit "identity_allow_exceptions") l;
  not_before ← serde_default None (serde_option serde_string) (lit "not_before") l;
  not_after ← serde_default None (serde_option serde_string) (lit "not_after") l;
  Some (mkBundleDoc schema version prefixes identity not_before not_after).

Definition bundle_names : list bytes :=
  [lit "schema_version"; lit "version"; lit "deny_path_prefixes"; lit "identity_allow_exceptions"; lit "not_before"; lit "not_after"].
Definition bundle_of_json (j : jv) : option BundleDoc := struct_fields bundle_names 3 j ≫= bundle_of_fields.
Definition bundle_from_str `{SerdeJson} (body : bytes) : option BundleDoc := json_from_text body ≫= bundle_of_json.

(** ** The manifest *)
Definition manifest_artifact_of_json (j : jv) : option ManifestArtifact :=
  l ← struct_fields [lit "name"; lit "digest"] 2 j;
  name ← serde_required serde_string (lit "name") l;
  digest ← serde_required serde_string (lit "digest") l;
  Some (mkManifestArtifact name digest).
Definition manifest_of_json (j : jv) : option Manifest :=
  l ← struct_fields [lit "schema_version"; lit "git_sha"; lit "build_timestamp"; lit "artifacts"] 4 j;
  schema ← serde_required (serde_uint 32) (lit "schema_version") l;
  git_sha ← serde_required serde_string (lit "git_sha") l;
  build_timestamp ← serde_required serde_string (lit "build_timestamp") l;
  artifacts ← serde_required (serde_vec manifest_artifact_of_json) (lit "artifacts") l;
  Some (mkManifest schema git_sha build_timestamp artifacts).
Definition manifest_from_json `{SerdeJson} (data : bytes) : option Manifest := json_from_text data ≫= manifest_of_json.

(** ** The API server *)
Definition list_meta_of_json (j : jv) : option (option bytes) :=
  l ← struct_fields [lit "resourceVersion"] 0 j;
  serde_default None (serde_option serde_string) (lit "resourceVersion") l.
Definition pod_list_of_json (j : jv) : option (list jv * option bytes) :=
  l ← struct_fields [lit "items"; lit "metadata"] 2 j;
  items ← serde_default [] (serde_vec Some) (lit "items") l;
  metadata ← serde_default None (serde_option list_meta_of_json) (lit "metadata") l;
  Some (items, match metadata with Some rv => rv | None => None end).
Definition watch_event_of_json (j : jv) : option (bytes * jv) :=
  l ← struct_fields [lit "type"; lit "object"] 2 j;
  event_type ← serde_required serde_string (lit "type") l;
  object ← serde_required Some (lit "object") l;
  Some (event_type, object).

#[export] Instance jv_json `{SerdeJson} : PodWatch.Json jv := {
  json_pointer := value_pointer;
  json_get := value_get;
  json_as_str := value_as_str;
  json_as_array := value_as_array;
  json_watch_event := λ s, json_from_text s ≫= watch_event_of_json;
  json_pod_list := pod_list_of_json
}.

(** ** Alerts *)
(** [to_value] keeps the members of an object sorted by name. *)
Definition behavior_value (a : BehaviorAlert) : jv :=
  VObj [(lit "last_binary_path", VStr (ba_last_binary_path a)); (lit "last_comm", VStr (ba_last_comm a));
        (lit "last_pid", json_int (ba_last_pid a)); (lit "ppid", json_int (ba_ppid a));
        (lit "ppid_unresolved", VBool (ba_ppid_unresolved a)); (lit "rule_id", VStr (ba_rule_id a));
        (lit "rule_name", VStr (ba_rule_name a)); (lit "severity", VStr (ba_severity a));
        (lit "spawn_count", json_int (Z.of_nat (ba_spawn_count a))); (lit "timestamp", VStr (ba_timestamp a));
        (lit "window_secs", json_int (ba_window_secs a))].
Definition siem_value (a : SiemAlert) : jv :=
  VObj [(lit "argv", VStr (sa_argv a)); (lit "argv_trunc_mask", json_int (sa_argv_trunc_mask a));
        (lit "argv_truncated", VBool (sa_argv_truncated a)); (lit "binary_path", VStr (sa_binary_path a));
        (lit "comm", VStr (sa_comm a)); (lit "env", VStr (sa_env a)); (lit "env_redacted", VBool (sa_env_redacted a));
        (lit "env_truncated", VBool (sa_env_truncated a)); (lit "euid", json_int (sa_euid a));
        (lit "matched_pattern", VStr (sa_matched_pattern a)); (lit "pid", json_int (sa_pid a));
        (lit "ppid", json_int (sa_ppid a)); (lit "rule_id", VStr (sa_rule_id a)); (lit "rule_name", VStr (sa_rule_name a));
        (lit "severity", VStr (sa_severity a)); (lit "timestamp", VStr (sa_timestamp a)); (lit "uid", json_int (sa_uid a))].

(** [RuleEngine::format_json] writes the members as the struct declares them. *)
Definition format_json `{SerdeJson} (a : SiemAlert) : bytes :=
  json_to_text (VObj [(lit "timestamp", VStr (sa_timestamp a)); (lit "severity", VStr (sa_severity a));
    (lit "rule_id", VStr (sa_rule_id a)); (lit "rule_name", VStr (sa_rule_name a)); (lit "pid", json_int (sa_pid a));
    (lit "ppid", json_int (sa_ppid a)); (lit "uid", json_int (sa_uid a)); (lit "euid", json_int (sa_euid a));
    (lit "comm", VStr (sa_comm a)); (lit "binary_path", VStr (sa_binary_path a)); (lit "argv", VStr (sa_argv a));
    (lit "argv_truncated", VBool (sa_argv_truncated a)); (lit "argv_trunc_mask", json_int (sa_argv_trunc_mask a));
    (lit "env", VStr (sa_env a)); (lit "env_truncated", VBool (sa_env_truncated a));
    (lit "env_redacted", VBool (sa_env_redacted a)); (lit "matched_pattern", VStr (sa_matched_pattern a))]).

Definition message_value (m : TelemetryKafkaMessage jv) : jv :=
  VObj [(lit "event_id", VStr (km_event_id _ m)); (lit "timestamp_ns", json_int (km_timestamp_ns _ m));
        (lit "node_name", VStr (km_node_name _ m)); (lit "schema_version", VStr (km_schema_version _ m));
        (lit "alert_type", VStr (km_alert_type _ m)); (lit "payload", km_payload _ m)].
Definition message_to_json `{SerdeJson} (m : TelemetryKafkaMessage jv) : result bytes :=
  Ok (json_to_text (message_value m)).

(** ** The envelope *)
Definition envelope_of_json (j : jv) : option (TelemetryEnvelope jv) :=
  l ← struct_fields [lit "event_id"; lit "timestamp_ns"; lit "node_name"; lit "schema_version"; lit "alert_type"; lit "payload"] 6 j;
  event_id ← serde_required serde_string (lit "event_id") l;
  timestamp_ns ← serde_required serde_i64 (lit "timestamp_ns") l;
  node_name ← serde_required serde_string (lit "node_name") l;
  schema_version ← serde_required serde_string (lit "schema_version") l;
  alert_type ← serde_required serde_string (lit "alert_type") l;
  payload ← serde_required Some (lit "payload") l;
  Some (mkTelemetryEnvelope event_id timestamp_ns node_name schema_version alert_type payload).
Definition envelope_from_slice `{SerdeJson} (raw : bytes) : option (TelemetryEnvelope jv) :=
  json_from_text raw ≫= envelope_of_json.

(** ** What the types of the structs promise *)
Definition behavior_typed (a : BehaviorAlert) : Prop :=
  Forall is_byte (ba_timestamp a) ∧ Forall is_byte (ba_severity a) ∧ Forall is_byte (ba_rule_id a) ∧
  Forall is_byte (ba_rule_name a) ∧ Forall is_byte (ba_last_comm a) ∧ Forall is_byte (ba_last_binary_path a) ∧
  uint 32 (ba_ppid a) ∧ uint 64 (Z.of_nat (ba_spawn_count a)) ∧ uint 64 (ba_window_secs a) ∧ uint 32 (ba_last_pid a).
Definition siem_typed (a : SiemAlert) : Prop :=
  Forall (Forall is_byte) [sa_timestamp a; sa_severity a; sa_rule_id a; sa_rule_name a; sa_comm a; sa_binary_path a;
                           sa_argv a; sa_env a; sa_matched_pattern a] ∧
  Forall (λ n, uint 32 n) [sa_pid a; sa_ppid a; sa_uid a; sa_euid a; sa_argv_trunc_mask a].
Definition alert_typed (a : StreamAlert) : Prop :=
  match a with Behavior b => behavior_typed b | Critical c => siem_typed c end.
Definition alert_value (a : StreamAlert) : jv :=
  match a with Behavior b => behavior_value b | Critical c => siem_value c end.
Definition alert_rule (a : StreamAlert) : bytes := match a with Behavior b => ba_rule_id b | Critical c => sa_rule_id c end.

(** ** What a reader finds in the object of an alert *)
Definition member_text (j : jv) (k : string) : option bytes := value_get j (lit k) ≫= value_as_str.
Definition member_uint (j : jv) (k : string) : option Z := value_get j (lit k) ≫= serde_uint 64.
Definition member_bool (j : jv) (k : string) : option bool := value_get j (lit k) ≫= value_as_bool.

(** Each field under the name that the struct declares it with. *)
Definition behavior_shown (a : BehaviorAlert) (j : jv) : Prop :=
  member_text j "timestamp" = Some (ba_timestamp a) ∧ member_text j "severity" = Some (ba_severity a) ∧
  member_text j "rule_id" = Some (ba_rule_id a) ∧ member_text j "rule_name" = Some (ba_rule_name a) ∧
  member_uint j "ppid" = Some (ba_ppid a) ∧ member_bool j "ppid_unresolved" = Some (ba_ppid_unresolved a) ∧
  member_uint j "spawn_count" = Some (Z.of_nat (ba_spawn_count a)) ∧ member_uint j "window_secs" = Some (ba_window_secs a) ∧
  member_uint j "last_pid" = Some (ba_last_pid a) ∧ member_text j "last_comm" = Some (ba_last_comm a) ∧
  member_text j "last_binary_path" = Some (ba_last_binary_path a).
Definition siem_shown (a : SiemAlert) (j : jv) : Prop :=
  member_text j "timestamp" = Some (sa_timestamp a) ∧ member_text j "severity" = Some (sa_severity a) ∧
  member_text j "rule_id" = Some (sa_rule_id a) ∧ member_text j "rule_name" = Some (sa_rule_name a) ∧
  member_uint j "pid" = Some (sa_pid a) ∧ member_uint j "ppid" = Some (sa_ppid a) ∧
  member_uint j "uid" = Some (sa_uid a) ∧ member_uint j "euid" = Some (sa_euid a) ∧
  member_text j "comm" = Some (sa_comm a) ∧ member_text j "binary_path" = Some (sa_binary_path a) ∧
  member_text j "argv" = Some (sa_argv a) ∧ member_bool j "argv_truncated" = Some (sa_argv_truncated a) ∧
  member_uint j "argv_trunc_mask" = Some (sa_argv_trunc_mask a) ∧ member_text j "env" = Some (sa_env a) ∧
  member_bool j "env_truncated" = Some (sa_env_truncated a) ∧ member_bool j "env_redacted" = Some (sa_env_redacted a) ∧
  member_text j "matched_pattern" = Some (sa_matched_pattern a).
Definition alert_shown (a : StreamAlert) (j : jv) : Prop :=
  match a with Behavior b => behavior_shown b j | Critical c => siem_shown c j end.

Lemma alert_value_shown a : alert_typed a → alert_shown a (alert_value a).
Proof.
  destruct a as [b|c]; cbn [alert_typed alert_value alert_shown].
  - intros (_ & _ & _ & _ & _ & _ & ? & ? & ? & ?). unfold behavior_shown, member_text, member_uint, member_bool, value_get, behavior_value.
    serde_lookup. cbn [last mbind option_bind value_as_str value_as_bool]. rewrite !serde_uint_int by lia. done.
  - unfold siem_typed. rewrite !Forall_cons. intros (_ & ? & ? & ? & ? & ? & _).
    unfold siem_shown, member_text, member_uint, member_bool, value_get, siem_value.
    serde_lookup. cbn [last mbind option_bind value_as_str value_as_bool]. rewrite !serde_uint_int by lia. done.
Qed.

Lemma alert_value_ok a : alert_typed a → jv_ok (alert_value a).
Proof.
  destruct a as [b|c]; cbn [alert_typed alert_value].
  - intros (? & ? & ? & ? & ? & ? & ? & ? & ? & ?). unfold behavior_value. obj_ok; try done; apply json_int_ok; lia.
  - unfold siem_typed. rewrite !Forall_cons. intros ((? & ? & ? & ? & ? & ? & ? & ? & ? & _) & ? & ? & ? & ? & ? & _).
    unfold siem_value. obj_ok; try done; apply json_int_ok; lia.
Qed.

(** ** Members in any order *)
Lemma fields_named_perm k l l' :
  (length (fields_named k l) ≤ 1)%nat → l ≡ₚ l' → fields_named k l = fields_named k l'.
Proof.
  intros Hone Hp. assert (fields_named k l ≡ₚ fields_named k l') as Hf by (unfold fields_named; by rewrite Hp).
  destruct (fields_named k l) as [|v [|w t]]; [by apply Permutation_nil in Hf|by apply Permutation_singleton_l in Hf as ->|cbn in Hone; lia].
Qed.

Lemma fields_named_app k l l' : fields_named k (l ++ l') = fields_named k l ++ fields_named k l'.
Proof. unfold fields_named. by rewrite filter_app, map_app. Qed.

Lemma fields_named_other k l : k ∉ l.*1 → fields_named k l = [].
Proof.
  intros Hk. unfold fields_named. induction l as [|[k' v] l IH]; [done|].
  rewrite filter_cons_False by (cbn in *; set_solver). apply IH. cbn in Hk. set_solver.
Qed.

(** Two objects a struct is read the same from. *)
Definition same_fields (names : list bytes) (l l' : list (bytes * jv)) : Prop :=
  Forall (λ k, fields_named k l = fields_named k l') names.

Lemma bundle_same_fields l l' : same_fields bundle_names l l' → bundle_of_fields l = bundle_of_fields l'.
Proof.
  unfold same_fields, bundle_names. rewrite !Forall_cons. intros (H1 & H2 & H3 & H4 & H5 & H6 & _).
  unfold bundle_of_fields, serde_required, serde_default, serde_field. by rewrite H1, H2, H3, H4, H5, H6.
Qed.

(** ** Properties *)

(** What a bundle means does not depend on how it is laid out. Two texts whose
    objects hold the same members of the bundle, in whatever order, each at most once,
    and any other members besides, are the same document to the agent. *)
Theorem bundle_layout_irrelevant `{SerdeJsonLaws} known l l' :
  Forall (λ k, (length (fields_named k known) ≤ 1)%nat) bundle_names →
  jv_ok (VObj l) → jv_ok (VObj l') →
  (∃ extra, l ≡ₚ known ++ extra ∧ Forall (λ k, k ∉ extra.*1) bundle_names) →
  (∃ extra, l' ≡ₚ known ++ extra ∧ Forall (λ k, k ∉ extra.*1) bundle_names) →
  bundle_from_str (json_to_text (VObj l)) = bundle_from_str (json_to_text (VObj l')) ∧
  bundle_from_str (json_to_text (VObj l)) = bundle_of_fields known.
Proof.
  intros Hone Hok Hok' Hl Hl'. unfold bundle_from_str. rewrite !json_round_trip by done. cbn [mbind option_bind].
  assert (∀ l, (∃ extra, l ≡ₚ known ++ extra ∧ Forall (λ k, k ∉ extra.*1) bundle_names) →
    bundle_of_json (VObj l) = bundle_of_fields known) as Heq; [|by rewrite !Heq].
  clear l l' Hok Hok' Hl Hl'. intros l (extra & Hp & Hx). apply bundle_same_fields.
  unfold same_fields. rewrite Forall_forall in *. intros k Hk. symmetry.
  transitivity (fields_named k (known ++ extra)).
  - by rewrite fields_named_app, (fields_named_other k extra), app_nil_r by auto.
  - apply fields_named_perm; [|done]. rewrite fields_named_app, (fields_named_other k extra), app_nil_r by auto. by apply Hone.
Qed.

(** The fields of an envelope as its type has them. *)
Definition envelope_typed (env : TelemetryEnvelope jv) : Prop :=
  Forall is_byte (te_event_id env) ∧ Forall is_byte (te_node_name env) ∧ Forall is_byte (te_schema_version env) ∧
  Forall is_byte (te_alert_type env) ∧ - 2 ^ 63 ≤ te_timestamp_ns env < 2 ^ 63 ∧ jv_ok (te_payload env).

Lemma envelope_read `{SerdeJsonLaws} m :
  envelope_typed (envelope_of m) → envelope_from_slice (json_to_text (message_value m)) = Some (envelope_of m).
Proof.
  intros (H1 & H2 & H3 & H4 & Ht & Hp). unfold envelope_of in *. unfold envelope_from_slice.
  cbn [te_event_id te_timestamp_ns te_node_name te_schema_version te_alert_type te_payload] in H1, H2, H3, H4, Ht, Hp.
  rewrite json_round_trip by (unfold message_value; obj_ok; (done || (apply json_int_ok; lia))). cbn [mbind option_bind].
  unfold envelope_of_json, message_value. cbn [struct_fields mbind option_bind]. serde_lookup.
  cbn [serde_string value_as_str mbind option_bind]. by rewrite serde_i64_int.
Qed.

Section published.
Context `{SerdeJsonLaws}.
(** [timestamp_nanos_opt] of a parsed timestamp, which is an [i64]. *)
Context (parse_from_rfc3339_ns : bytes → option (option Z)).
Context (nanos_i64 : ∀ s n, parse_from_rfc3339_ns s = Some (Some n) → - 2 ^ 63 ≤ n < 2 ^ 63).

Lemma rfc3339_ns_range s : - 2 ^ 63 ≤ parse_rfc3339_ns parse_from_rfc3339_ns s < 2 ^ 63.
Proof.
  unfold parse_rfc3339_ns. destruct (parse_from_rfc3339_ns s) as [[n|]|] eqn:Hs; cbn [default]; [by eapply nanos_i64|lia|lia].
Qed.

Lemma dec_is_byte n : 0 ≤ n → Forall is_byte (to_dec n).
Proof. intros Hn. eapply Forall_impl; [by apply to_dec_digits|]. unfold is_byte. cbn. lia. Qed.

Lemma event_id_bytes r a b :
  Forall is_byte r → 0 ≤ a → 0 ≤ b → Forall is_byte (r ++ lit "-" ++ to_dec a ++ lit "-" ++ to_dec b).
Proof. intros. rewrite !Forall_app. split_and!; try done; try apply lit_is_byte; by apply dec_is_byte. Qed.

Lemma encoded_message_typed node a m :
  alert_typed a → Forall is_byte node →
  encode_alert (λ b, Ok (behavior_value b)) (λ c, Ok (siem_value c)) parse_from_rfc3339_ns node a = Ok m →
  envelope_typed (envelope_of m).
Proof.
  intros Ha Hn Hm. pose proof (alert_value_ok a Ha) as Hv. unfold envelope_typed, envelope_of.
  destruct a as [b|c]; cbn [encode_alert] in Hm; unfold encode_behavior_alert, encode_critical_alert in Hm;
    cbn [mbind result_bind] in Hm; injection Hm as <-; cbn [alert_typed] in Ha;
    cbn [te_event_id te_timestamp_ns te_node_name te_schema_version te_alert_type te_payload
         km_payload km_event_id km_node_name km_schema_version km_alert_type km_timestamp_ns].
  - destruct Ha as (? & ? & ? & ? & ? & ? & ? & ? & ? & ?).
    split_and!; try done; [|apply lit_is_byte|apply rfc3339_ns_range..]. apply event_id_bytes; [done|lia|lia].
  - unfold siem_typed in Ha. rewrite !Forall_cons in Ha. destruct Ha as ((? & ? & ? & ? & ? & ? & ? & ? & ? & _) & ? & ? & _).
    split_and!; try done; [|apply lit_is_byte|apply rfc3339_ns_range..]. apply event_id_bytes; [done|lia|lia].
Qed.

(** The record the agent publishes for an alert the detection pipeline raised is text
    that the forwarders parse and validate; the envelope has the record's key as its
    event id, the agent's node, the type of the alert and its fields as payload, and the
    forwarders find in it the alert's own rule and severity. *)
Lemma published_record_accepted tick siem_now e d node a k p p' key value :
  alert_typed a → Forall is_byte node → raised a (process tick siem_now e d).2 →
  publish_step (λ b, Ok (behavior_value b)) (λ c, Ok (siem_value c)) message_to_json parse_from_rfc3339_ns node a k p
    = (p', Some (key, value)) →
  ∃ env, parse_json envelope_from_slice value = Ok env ∧ envelope_typed env ∧ te_event_id env = key ∧
         te_node_name env = node ∧
         te_alert_type env = match a with Behavior _ => BEHAVIOR_ALERT | Critical _ => CRITICAL_ALERT end ∧
         te_payload env = alert_value a ∧ rule_id value_get value_as_str env = Some (alert_rule a) ∧
         severity value_get value_as_str env = Some (te_alert_type env).
Proof.
  intros Ha Hn Hr Hp. pose proof (raised_type _ _ _ _ _ Hr) as Hsev.
  destruct (alert_record_accepted (λ b, Ok (behavior_value b)) (λ c, Ok (siem_value c)) message_to_json
    parse_from_rfc3339_ns envelope_from_slice tick siem_now e d node a k p p' key value) as (env & H1 & H2 & H3 & H4 & H5);
    [|done|done|].
  { intros m v Hm [= <-]. by eapply envelope_read, encoded_message_typed. }
  assert (envelope_typed env) as Ht.
  { unfold publish_step in Hp. destruct (_ && _); [done|]. destruct (encode_alert _ _ _ node a) as [m|] eqn:Hm; [|done].
    unfold message_to_json in Hp. destruct (ka_produce k); [|done].
    remember (json_to_text (message_value m)) as text eqn:Htext. injection Hp as _ _ <-. subst text.
    pose proof (encoded_message_typed _ _ _ Ha Hn Hm) as Ht. unfold parse_json in H1. rewrite (envelope_read _ Ht) in H1.
    cbn [ok_or mbind result_bind] in H1. by apply bind_Ok in H1 as ([] & _ & [= <-]). }
  exists env. split_and!; try done.
  - destruct a; by injection H5.
  - unfold rule_id. destruct a; injection H5 as <-; unfold value_get, behavior_value, siem_value; by serde_lookup.
  - unfold severity. rewrite H4. destruct a; injection H5 as <-; unfold value_get, behavior_value, siem_value;
      serde_lookup; cbn [last value_as_str mbind option_bind]; by rewrite Hsev.
Qed.
End published.

(** ** Samples *)
(** The alert of a process started under /tmp/, and its record. *)
Definition demo_nanos (_ : bytes) : option (option Z) := Some (Some 1710000000000000000).
Definition demo_tmp_telemetry : SecurityTelemetryEvent := exec_event_to_security_telemetry demo_exec_event.
Definition demo_siem_alert : SiemAlert :=
  match evaluate (lit "2024-03-09T16:00:00+00:00") demo_tmp_telemetry with
  | Alert a => a
  | Suppressed => mkSiemAlert [] [] [] [] 0 0 0 0 [] [] [] false 0 [] false false []
  end.
Definition demo_record : bytes * bytes :=
  default ([], [])
    (publish_step (λ b, Ok (behavior_value b)) (λ c, Ok (siem_value c)) message_to_json demo_nanos (lit "node-b")
       (Critical demo_siem_alert) (mkKafkaAnswer true true) (mkPublisher false 0 0)).2.

(** One bundle, and its members in another order with one the agent does not know. *)
Definition demo_known : list (bytes * jv) :=
  [(lit "schema_version", VNum (lit "1")); (lit "version", VStr (lit "v1")); (lit "deny_path_prefixes", VArr [VStr (lit "/tmp/")])].

Lemma bundle_layout_irrelevant_witness :
  let l' := (lit "issuer", VNull) :: rev demo_known in
  bundle_from_str (json_to_text (VObj demo_known)) = bundle_from_str (json_to_text (VObj l')) ∧
  bundle_from_str (json_to_text (VObj demo_known)) = Some (mkBundleDoc 1 (lit "v1") [lit "/tmp/"] None None None).
Proof.
  apply (bundle_layout_irrelevant demo_known).
  - apply (bool_decide_eq_true_1 (Forall (λ k, (length (fields_named k demo_known) ≤ 1)%nat) bundle_names)). reflexivity.
  - unfold demo_known. obj_ok; cbn; split_and?; try done; apply lit_is_byte.
  - cbn [rev demo_known app]. obj_ok; cbn; split_and?; try done; apply lit_is_byte.
  - exists []. split; [by rewrite app_nil_r|]. repeat constructor; apply not_elem_of_nil.
  - exists [(lit "issuer", VNull)]. split; [rewrite <- Permutation_cons_append; constructor; symmetry; apply Permutation_rev|].
    apply (bool_decide_eq_true_1 (Forall (λ k, k ∉ [(lit "issuer", VNull)].*1) bundle_names)). vm_compute. reflexivity.
Defined.
