(* ===== verification/Loader.v ===== *)
(** * Loading and attaching kernel programs

    What the agent does with an object after the loader has parsed it: the two
    tracepoints of [monitoring/process_monitor.rs], the kprobe of
    [monitoring/network_monitor.rs], the LSM program of [startup.rs], and the
    verification tool [bin/verify_ebpf.rs], which loads every program of an object.

    An object is its programs, by name, and its maps; the kernel verifier and the
    attach points answer through parameters. A program is cast to its type, then
    loaded once, then attached; each of these can fail and the first failure ends
    the function, leaving in place what was attached before it.

    Shown: the process monitor starts exactly when both tracepoints are accepted
    and attachable and the ring buffer is there, so no start leaves one of the two
    system calls unobserved; the tool accepts an object exactly when it has a
    program and the verifier accepts all of them, the LSM program only with the
    offsets of the running kernel. *)

From S2P Require Import Prelude RustStd Common BtfOffsets Startup.

(** ** Objects *)
Inductive prog_kind : Type := KKProbe | KTracePoint | KLsm | KOther.
#[export] Instance prog_kind_eq_dec : EqDecision prog_kind.
Proof. solve_decision. Defined.

Record ebpf_program : Type := mkProgram {
  pg_kind : prog_kind;
  pg_loaded : bool;
  pg_links : list bytes
}.

Record Ebpf : Type := mkEbpf {
  eb_programs : gmap bytes ebpf_program;
  eb_maps : gset bytes
}.

(** What the kernel answers: the verifier per program, an attach point per
    program, and whether a map is a ring buffer that can be polled. *)
Record kernel : Type := mkKernel {
  kn_verifier : bytes → bool;
  kn_attach : bytes → bytes → bool;
  kn_ring : bytes → bool
}.

Section loader.
Context (kn : kernel).

(** [program_mut(name)], [try_into()] and [load()]; a program is loaded once. *)
Definition load_program (name : bytes) (kind : prog_kind) : stm Ebpf unit := λ o,
  match eb_programs o !! name with
  | None => (o, Err (EMsg "eBPF program missing from object file"))
  | Some p =>
      if negb (bool_decide (pg_kind p = kind)) then (o, Err (EMsg "failed to cast eBPF program"))
      else if pg_loaded p || negb (kn_verifier kn name) then (o, Err (EMsg "kernel verifier rejected"))
      else (mkEbpf (<[name := mkProgram kind true (pg_links p)]> (eb_programs o)) (eb_maps o), Ok ())
  end.

(** [attach(point)], of a program that is loaded. *)
Definition attach_program (name point : bytes) : stm Ebpf unit := λ o,
  match eb_programs o !! name with
  | None => (o, Err (EMsg "eBPF program missing from object file"))
  | Some p =>
      if pg_loaded p && kn_attach kn name point
      then (mkEbpf (<[name := mkProgram (pg_kind p) true (pg_links p ++ [point])]> (eb_programs o)) (eb_maps o), Ok ())
      else (o, Err (EMsg "failed to attach"))
  end.

(** [RingBuf::try_from(take_map(name)?)?] and [AsyncFd::new]: the map leaves the
    object even when it is not a ring buffer. *)
Definition take_ring (name : bytes) : stm Ebpf unit := λ o,
  if bool_decide (name ∈ eb_maps o) then
    (mkEbpf (eb_programs o) (eb_maps o ∖ {[name]}),
     if kn_ring kn name then Ok () else Err (EMsg "not a pollable ring buffer"))
  else (o, Err (EMsg "BPF map missing from object file")).

(** ** The monitors: what they do before they spawn their tasks *)
Definition start_process_monitor : stm Ebpf unit :=
  _ ← load_program PROCESS_EVENTS_PROG KTracePoint;
  _ ← attach_program PROCESS_EVENTS_PROG (lit "syscalls/sys_enter_execve");
  _ ← load_program PROCESS_EVENTS_AT_PROG KTracePoint;
  _ ← attach_program PROCESS_EVENTS_AT_PROG (lit "syscalls/sys_enter_execveat");
  take_ring PROCESS_EVENTS_MAP.

Definition start_network_monitor : stm Ebpf unit :=
  _ ← load_program TCP_CONNECT_PROG KKProbe;
  _ ← attach_program TCP_CONNECT_PROG (lit "tcp_connect");
  take_ring NETWORK_EVENTS_MAP.

(** The LSM program before its link is made ([startup.rs]). *)
Definition load_lsm : stm Ebpf unit := load_program LSM_EXEC_GUARD_PROG KLsm.

(** ** [bin/verify_ebpf.rs] *)

(** The object before it is loaded: whether it parses, and what it then is, as a
    function of the offsets injected ([None] without [override_global]). *)
Context (parse : option ResolvedOffsets → bytes → option Ebpf).

(** One of the four blocks of [main]: a program that is present is loaded. *)
Definition verify_program (name : bytes) (kind : prog_kind) (verified : Z) : stm Ebpf Z := λ o,
  match eb_programs o !! name with
  | None => (o, Ok verified)
  | Some _ => (_ ← load_program name kind; mret (verified + 1)) o
  end.

(** The fourth block needs the kernel's type information too. *)
Definition verify_lsm (btf : option bytes) (verified : Z) : stm Ebpf Z := λ o,
  match eb_programs o !! LSM_EXEC_GUARD_PROG with
  | None => (o, Ok verified)
  | Some p =>
      if negb (bool_decide (pg_kind p = KLsm)) then (o, Err (EMsg "failed to cast eBPF program"))
      else match btf with
           | None => (o, Err (EMsg "failed to load kernel BTF (required for LSM verify)"))
           | Some _ => (_ ← load_program LSM_EXEC_GUARD_PROG KLsm; mret (verified + 1)) o
           end
  end.

Definition verify_blocks (btf : option bytes) : stm Ebpf Z :=
  n ← verify_program TCP_CONNECT_PROG KKProbe 0;
  n ← verify_program PROCESS_EVENTS_PROG KTracePoint n;
  n ← verify_program PROCESS_EVENTS_AT_PROG KTracePoint n;
  verify_lsm btf n.

Definition load_enforcement_with_live_btf_offsets (btf : option bytes) (data : bytes) : result Ebpf :=
  btf ← ok_or (EMsg "failed to load kernel BTF from /sys/kernel/btf/vmlinux") btf;
  offsets ← resolve_enforcement_offsets btf;
  ok_or (EMsg "failed to load enforcement eBPF object") (parse (Some offsets) data).

(** The peek, and the load that follows it. *)
Definition load_object (btf : option bytes) (data : bytes) : result Ebpf :=
  peek ← ok_or (EMsg "failed to parse eBPF object file (peek)") (parse None data);
  if bool_decide (is_Some (eb_programs peek !! LSM_EXEC_GUARD_PROG))
  then load_enforcement_with_live_btf_offsets btf data
  else ok_or (EMsg "failed to parse eBPF object file") (parse None data).

(** [main], after the argument was read: [file] is its contents, [btf] what
    [Btf::from_sys_fs] gives, at both of its calls. *)
Definition verify_main (file : option bytes) (btf : option bytes) : result Z :=
  data ← ok_or (EMsg "failed to read eBPF object file") file;
  ebpf ← load_object btf data;
  verified ← (verify_blocks btf ebpf).2;
  if bool_decide (verified = 0) then Err (EMsg "no eBPF programs were verified") else Ok verified.
End loader.

(** ** Lemmas *)
Section lemmas.
Context (kn : kernel).

(** The program is there, of its type, not loaded yet, and the verifier takes it. *)
Definition loadable (o : Ebpf) (name : bytes) (kind : prog_kind) : bool :=
  match eb_programs o !! name with
  | None => false
  | Some p => bool_decide (pg_kind p = kind) && negb (pg_loaded p) && kn_verifier kn name
  end.

Definition startable (o : Ebpf) (name : bytes) (kind : prog_kind) (point : bytes) : bool :=
  loadable o name kind && kn_attach kn name point.

Lemma load_program_spec name kind o :
  let '(o', r) := load_program kn name kind o in
  is_ok r = loadable o name kind ∧ eb_maps o' = eb_maps o ∧
  (∀ other, other ≠ name → eb_programs o' !! other = eb_programs o !! other) ∧
  (is_ok r = true → ∃ links, eb_programs o' !! name = Some (mkProgram kind true links)).
Proof.
  unfold load_program, loadable. destruct (eb_programs o !! name) as [p|]; [|done].
  case_bool_decide; cbn; [|done]. destruct (pg_loaded p); cbn; [done|].
  destruct (kn_verifier kn name); cbn; [|done].
  split_and!; [done|done|intros; by rewrite lookup_insert_ne|]. intros _. eexists. by rewrite lookup_insert_eq.
Qed.

(** Load and attach, in one. *)
Lemma arm_program_spec name kind point o :
  let '(o', r) := (load_program kn name kind ≫= λ _, attach_program kn name point : stm Ebpf unit) o in
  is_ok r = startable o name kind point ∧ eb_maps o' = eb_maps o ∧
  (∀ other, other ≠ name → eb_programs o' !! other = eb_programs o !! other) ∧
  (is_ok r = true → ∃ links, eb_programs o' !! name = Some (mkProgram kind true (links ++ [point]))).
Proof.
  rewrite stm_bind_run. pose proof (load_program_spec name kind o) as Hl. unfold startable.
  destruct (load_program kn name kind o) as [o1 [u|e]]; destruct Hl as (<- & Hm & Ho & Hp); cbn [is_ok andb]; [|done].
  destruct (Hp eq_refl) as [links Hlinks]. unfold attach_program. rewrite Hlinks. cbn.
  destruct (kn_attach kn name point); [|done]. cbn.
  split_and!; [done|done|intros; rewrite lookup_insert_ne by done; by apply Ho|].
  intros _. exists links. by rewrite lookup_insert_eq.
Qed.

Lemma take_ring_spec name o :
  let '(o', r) := take_ring kn name o in
  is_ok r = bool_decide (name ∈ eb_maps o) && kn_ring kn name ∧ eb_programs o' = eb_programs o ∧
  eb_maps o' = eb_maps o ∖ {[name]}.
Proof.
  unfold take_ring. case_bool_decide; [by destruct (kn_ring kn name)|]. split_and!; [done|done|]. set_solver.
Qed.

(** Regrouped: the two armings, then the ring. *)
Lemma start_process_monitor_run o :
  start_process_monitor kn o =
  ((load_program kn PROCESS_EVENTS_PROG KTracePoint ≫= λ _,
      attach_program kn PROCESS_EVENTS_PROG (lit "syscalls/sys_enter_execve") : stm Ebpf unit) ≫= λ _,
   (load_program kn PROCESS_EVENTS_AT_PROG KTracePoint ≫= λ _,
      attach_program kn PROCESS_EVENTS_AT_PROG (lit "syscalls/sys_enter_execveat") : stm Ebpf unit) ≫= λ _,
   take_ring kn PROCESS_EVENTS_MAP : stm Ebpf unit) o.
Proof.
  unfold start_process_monitor. rewrite !stm_bind_run.
  destruct (load_program _ _ _ o) as [o1 [u|e]]; [|done]. rewrite !stm_bind_run.
  destruct (attach_program _ _ _ o1) as [o2 [u'|e]]; [|done]. rewrite !stm_bind_run.
  destruct (load_program _ _ _ o2) as [o3 [u''|e]]; [|done]. by rewrite !stm_bind_run.
Qed.

(** The process monitor starts exactly when both tracepoints can be loaded and
    attached and the ring buffer is in the object; then both are attached, to
    their own system call. *)
Theorem process_monitor_starts_iff o :
  let '(o', r) := start_process_monitor kn o in
  is_ok r = startable o PROCESS_EVENTS_PROG KTracePoint (lit "syscalls/sys_enter_execve")
            && startable o PROCESS_EVENTS_AT_PROG KTracePoint (lit "syscalls/sys_enter_execveat")
            && (bool_decide (PROCESS_EVENTS_MAP ∈ eb_maps o) && kn_ring kn PROCESS_EVENTS_MAP) ∧
  (is_ok r = true →
   (∃ l, eb_programs o' !! PROCESS_EVENTS_PROG = Some (mkProgram KTracePoint true (l ++ [lit "syscalls/sys_enter_execve"]))) ∧
   (∃ l, eb_programs o' !! PROCESS_EVENTS_AT_PROG = Some (mkProgram KTracePoint true (l ++ [lit "syscalls/sys_enter_execveat"]))) ∧
   eb_maps o' = eb_maps o ∖ {[PROCESS_EVENTS_MAP]}).
Proof.
  assert (PROCESS_EVENTS_AT_PROG ≠ PROCESS_EVENTS_PROG) as Hne by by vm_compute.
  rewrite start_process_monitor_run, stm_bind_run.
  pose proof (arm_program_spec PROCESS_EVENTS_PROG KTracePoint (lit "syscalls/sys_enter_execve") o) as H1.
  destruct ((load_program kn PROCESS_EVENTS_PROG KTracePoint ≫= _) o) as [o1 [u|e]];
    destruct H1 as (<- & Hm1 & Ho1 & Hp1); cbn [is_ok andb]; [|done].
  rewrite stm_bind_run.
  pose proof (arm_program_spec PROCESS_EVENTS_AT_PROG KTracePoint (lit "syscalls/sys_enter_execveat") o1) as H2.
  assert (startable o1 PROCESS_EVENTS_AT_PROG KTracePoint (lit "syscalls/sys_enter_execveat") =
          startable o PROCESS_EVENTS_AT_PROG KTracePoint (lit "syscalls/sys_enter_execveat")) as Hs
    by (unfold startable, loadable; by rewrite Ho1).
  destruct ((load_program kn PROCESS_EVENTS_AT_PROG KTracePoint ≫= _) o1) as [o2 [u'|e]];
    destruct H2 as (H2 & Hm2 & Ho2 & Hp2); rewrite <- Hs, <- H2; cbn [is_ok andb]; [|done].
  pose proof (take_ring_spec PROCESS_EVENTS_MAP o2) as H3.
  destruct (take_ring kn PROCESS_EVENTS_MAP o2) as [o3 r]. destruct H3 as (-> & Hp3 & Hm3).
  rewrite Hm2, Hm1 in *. split; [done|]. intros _. rewrite Hp3. split_and!; [|by apply Hp2|done].
  rewrite Ho2 by done. by apply Hp1.
Qed.

(** ** The verification tool *)
Definition present (o : Ebpf) (name : bytes) : Z := if bool_decide (is_Some (eb_programs o !! name)) then 1 else 0.
Definition acceptable (o : Ebpf) (name : bytes) (kind : prog_kind) : bool :=
  bool_decide (eb_programs o !! name = None) || loadable o name kind.

Lemma verify_program_spec name kind v o :
  let '(o', r) := verify_program kn name kind v o in
  (∀ other, other ≠ name → eb_programs o' !! other = eb_programs o !! other) ∧
  if acceptable o name kind then r = Ok (v + present o name) else is_ok r = false.
Proof.
  unfold verify_program, acceptable, present. destruct (eb_programs o !! name) as [p|] eqn:Hp; cbn.
  - rewrite stm_bind_run. pose proof (load_program_spec name kind o) as Hl.
    destruct (load_program kn name kind o) as [o1 [u|e]]; destruct Hl as (Hl & _ & Ho & _); rewrite <- Hl; done.
  - split; [done|]. by rewrite Z.add_0_r.
Qed.
End lemmas.

(** The object that the tool hands to the verifier. *)
Definition verified_object (parse : option ResolvedOffsets → bytes → option Ebpf) (btf : option bytes)
    (data : bytes) (o : Ebpf) : Prop :=
  ∃ peek, parse None data = Some peek ∧
    if bool_decide (is_Some (eb_programs peek !! LSM_EXEC_GUARD_PROG))
    then ∃ b off, btf = Some b ∧ resolve_offsets b = Ret off ∧ parse (Some off) data = Some o
    else o = peek.

Lemma ex_Some_eq {A} (x : A) (Q : A → Prop) : (∃ y, Some x = Some y ∧ Q y) ↔ Q x.
Proof. split; [by intros (? & [= <-] & ?)|]. intros. by exists x. Qed.

Lemma load_object_ok parse btf data o : load_object parse btf data = Ok o ↔ verified_object parse btf data o.
Proof.
  unfold load_object, verified_object, load_enforcement_with_live_btf_offsets, resolve_enforcement_offsets.
  destruct (parse None data) as [peek|]; cbn; [|by split; [|intros (? & ? & _)]].
  rewrite ex_Some_eq. case_bool_decide; [|split; [by intros [= <-]|by intros ->]].
  destruct btf as [b|]; cbn; [|by split; [|intros (? & ? & ? & _)]].
  destruct (resolve_offsets b) as [off| | |] eqn:Hr; cbn;
    [|split; [done|intros (? & ? & [= <-] & ? & _); congruence]..].
  rewrite ok_or_Ok. split; [by exists b, off|]. intros (? & ? & [= <-] & Hr' & ?). congruence.
Qed.

Lemma verify_lsm_spec kn btf v o :
  let '(_, r) := verify_lsm kn btf v o in
  if acceptable kn o LSM_EXEC_GUARD_PROG KLsm
     && (bool_decide (eb_programs o !! LSM_EXEC_GUARD_PROG = None) || bool_decide (is_Some btf))
  then r = Ok (v + present o LSM_EXEC_GUARD_PROG) else is_ok r = false.
Proof.
  unfold verify_lsm, acceptable, present. destruct (eb_programs o !! LSM_EXEC_GUARD_PROG) as [p|] eqn:Hp; cbn;
    [|by rewrite Z.add_0_r].
  unfold loadable. rewrite Hp. case_bool_decide; cbn; [|done].
  destruct btf as [b|]; cbn; [|by rewrite andb_false_r]. rewrite andb_true_r, stm_bind_run.
  pose proof (load_program_spec kn LSM_EXEC_GUARD_PROG KLsm o) as Hl. unfold loadable in Hl. rewrite Hp in Hl.
  rewrite (bool_decide_eq_true_2 (pg_kind p = KLsm)) in Hl by done. cbn in Hl.
  destruct (load_program kn LSM_EXEC_GUARD_PROG KLsm o) as [o1 [u|e]]; destruct Hl as (<- & _); done.
Qed.

Lemma acceptable_ext kn o o' name kind :
  eb_programs o' !! name = eb_programs o !! name → acceptable kn o' name kind = acceptable kn o name kind.
Proof. unfold acceptable, loadable. by intros ->. Qed.
Lemma present_ext o o' name : eb_programs o' !! name = eb_programs o !! name → present o' name = present o name.
Proof. unfold present. by intros ->. Qed.

(** All the blocks pass: every program that is there is accepted. *)
Definition all_accepted (kn : kernel) (btf : option bytes) (o : Ebpf) : bool :=
  acceptable kn o TCP_CONNECT_PROG KKProbe && acceptable kn o PROCESS_EVENTS_PROG KTracePoint
  && acceptable kn o PROCESS_EVENTS_AT_PROG KTracePoint && acceptable kn o LSM_EXEC_GUARD_PROG KLsm
  && (bool_decide (eb_programs o !! LSM_EXEC_GUARD_PROG = None) || bool_decide (is_Some btf)).

Definition programs_present (o : Ebpf) : Z :=
  present o TCP_CONNECT_PROG + present o PROCESS_EVENTS_PROG + present o PROCESS_EVENTS_AT_PROG
  + present o LSM_EXEC_GUARD_PROG.

Lemma verify_blocks_spec kn btf o :
  if all_accepted kn btf o then (verify_blocks kn btf o).2 = Ok (programs_present o)
  else is_ok (verify_blocks kn btf o).2 = false.
Proof.
  unfold verify_blocks, all_accepted, programs_present.
  rewrite stm_bind_run. pose proof (verify_program_spec kn TCP_CONNECT_PROG KKProbe 0 o) as H1.
  destruct (verify_program kn TCP_CONNECT_PROG KKProbe 0 o) as [o1 r1]. destruct H1 as [E1 H1].
  destruct (acceptable kn o TCP_CONNECT_PROG KKProbe); [subst r1|by destruct r1]. cbn [andb].
  rewrite stm_bind_run.
  match goal with |- context [verify_program kn _ _ ?v o1] =>
    pose proof (verify_program_spec kn PROCESS_EVENTS_PROG KTracePoint v o1) as H2 end.
  destruct (verify_program kn PROCESS_EVENTS_PROG KTracePoint _ o1) as [o2 r2]. destruct H2 as [E2 H2].
  rewrite (acceptable_ext kn o o1), (present_ext o o1) in H2 by (by apply E1; vm_compute).
  destruct (acceptable kn o PROCESS_EVENTS_PROG KTracePoint); [subst r2|by destruct r2]. cbn [andb].
  rewrite stm_bind_run.
  match goal with |- context [verify_program kn _ _ ?v o2] =>
    pose proof (verify_program_spec kn PROCESS_EVENTS_AT_PROG KTracePoint v o2) as H3 end.
  destruct (verify_program kn PROCESS_EVENTS_AT_PROG KTracePoint _ o2) as [o3 r3]. destruct H3 as [E3 H3].
  rewrite (acceptable_ext kn o o2), (present_ext o o2) in H3
    by (rewrite E2 by (by vm_compute); by apply E1; vm_compute).
  destruct (acceptable kn o PROCESS_EVENTS_AT_PROG KTracePoint); [subst r3|by destruct r3]. cbn [andb].
  match goal with |- context [verify_lsm kn btf ?v o3] => pose proof (verify_lsm_spec kn btf v o3) as H4 end.
  assert (eb_programs o3 !! LSM_EXEC_GUARD_PROG = eb_programs o !! LSM_EXEC_GUARD_PROG) as El
    by (rewrite E3, E2 by (by vm_compute); by apply E1; vm_compute).
  destruct (verify_lsm kn btf _ o3) as [o4 r4]. rewrite (acceptable_ext kn o o3), (present_ext o o3), El in H4 by done.
  destruct (acceptable kn o LSM_EXEC_GUARD_PROG KLsm && _); [|done]. subst r4. done.
Qed.

(** The tool accepts an object, with the number of its programs, exactly when it
    has one of the four, each of those it has is of its type and passes the
    verifier, and an object with the LSM program was loaded with the offsets
    resolved from the running kernel. *)
Theorem verify_accepts_iff kn parse file btf n :
  verify_main kn parse file btf = Ok n ↔
  ∃ data o, file = Some data ∧ verified_object parse btf data o ∧ all_accepted kn btf o = true ∧
    n = programs_present o ∧ n ≠ 0.
Proof.
  unfold verify_main. destruct file as [data|]; cbn [ok_or mbind]; [|by split; [|intros (? & ? & ? & _)]].
  split.
  - intros Hv. apply bind_Ok in Hv as (d & [= <-] & Hv). apply bind_Ok in Hv as (o & Ho%load_object_ok & Hv). apply bind_Ok in Hv as (v & Hr & Hv).
    exists data, o. pose proof (verify_blocks_spec kn btf o) as Hb. rewrite Hr in Hb.
    destruct (all_accepted kn btf o); [|done]. injection Hb as ->. case_bool_decide; [done|]. by injection Hv as <-.
  - intros (? & o & [= <-] & Ho%load_object_ok & Hall & -> & Hn). cbn. rewrite Ho. cbn.
    pose proof (verify_blocks_spec kn btf o) as Hb. rewrite Hall in Hb. rewrite Hb. cbn.
    by rewrite bool_decide_eq_false_2.
Qed.
