(* ===== verification/MetricEvents.v ===== *)
(** * The metric contract ([packages/telemetry/src/lib.rs])

    [MetricEvent], the envelope of metrics on their way to Kafka, with what its
    attributes ask of serde in both directions: unit variants in
    [SCREAMING_SNAKE_CASE], an internally tagged payload in [snake_case], absent
    labels as [null]; and the line of [to_json_line]. An [f64] is a [spec_float];
    its decimal text and the reading of one are parameters, and a number that is
    not finite is written as [null], as serde_json documents.

    Shown: an event is read back from its line, whatever its strings hold, except
    that a score comes back as the reader of decimals gives it and a score that is
    not finite makes the line unreadable; and the line is one line. *)

From Stdlib Require Import SpecFloat.
From S2P Require Import Prelude RustStd Json.

Inductive MetricSource : Type := EbpfLsm | EbpfTracepoint | Orchestrator | AiEngine.
Inductive MetricKind : Type :=
| KLsmBlock | KTracepointHit | KBehavioralAlert | KAiInference | KHealth.

Record MetricLabels : Type := mkMetricLabels {
  ml_pid : option Z;
  ml_ppid : option Z;
  ml_uid : option Z;
  ml_euid : option Z;
  ml_comm : option bytes;
  ml_binary_path : option bytes;
  ml_rule_id : option bytes;
  ml_severity : option bytes
}.
Definition MetricLabels_default : MetricLabels := mkMetricLabels None None None None None None None None.

Inductive MetricPayload : Type :=
| LsmBlock (denied_path matched_pattern : bytes)
| TracepointHit (binary_path : bytes)
| BehavioralAlert (spawn_count window_secs : Z)
| AiInference (model_id : bytes) (score : spec_float) (classification : bytes)
| Health (events_processed lost_events_count : Z).

Record MetricEvent : Type := mkMetricEvent {
  me_event_id : bytes;
  me_timestamp_ns : Z;
  me_node_name : bytes;
  me_source : MetricSource;
  me_kind : MetricKind;
  me_labels : MetricLabels;
  me_payload : MetricPayload
}.

(** ** Constructors *)
Definition lsm_block (event_id : bytes) (timestamp_ns : Z) (node_name : bytes) (labels : MetricLabels)
    (denied_path matched_pattern : bytes) : MetricEvent :=
  mkMetricEvent event_id timestamp_ns node_name EbpfLsm KLsmBlock labels (LsmBlock denied_path matched_pattern).

Definition tracepoint_hit (event_id : bytes) (timestamp_ns : Z) (node_name : bytes) (labels : MetricLabels)
    (binary_path : bytes) : MetricEvent :=
  mkMetricEvent event_id timestamp_ns node_name EbpfTracepoint KTracepointHit labels (TracepointHit binary_path).

Definition ai_inference (event_id : bytes) (timestamp_ns : Z) (node_name model_id : bytes) (score : spec_float)
    (classification : bytes) : MetricEvent :=
  mkMetricEvent event_id timestamp_ns node_name AiEngine KAiInference MetricLabels_default
    (AiInference model_id score classification).

Abbreviation text_ok := (Forall is_byte).

(** ** Serialisation *)
Definition source_name (s : MetricSource) : bytes :=
  match s with
  | EbpfLsm => lit "EBPF_LSM"
  | EbpfTracepoint => lit "EBPF_TRACEPOINT"
  | Orchestrator => lit "ORCHESTRATOR"
  | AiEngine => lit "AI_ENGINE"
  end.

Definition kind_name (k : MetricKind) : bytes :=
  match k with
  | KLsmBlock => lit "LSM_BLOCK"
  | KTracepointHit => lit "TRACEPOINT_HIT"
  | KBehavioralAlert => lit "BEHAVIORAL_ALERT"
  | KAiInference => lit "AI_INFERENCE"
  | KHealth => lit "HEALTH"
  end.

Definition labels_json (l : MetricLabels) : jv :=
  VObj [(lit "pid", json_opt json_int (ml_pid l)); (lit "ppid", json_opt json_int (ml_ppid l));
        (lit "uid", json_opt json_int (ml_uid l)); (lit "euid", json_opt json_int (ml_euid l));
        (lit "comm", json_opt VStr (ml_comm l)); (lit "binary_path", json_opt VStr (ml_binary_path l));
        (lit "rule_id", json_opt VStr (ml_rule_id l)); (lit "severity", json_opt VStr (ml_severity l))].

Section floats.
(** The shortest decimal text of a finite number, and the reading of a decimal. *)
Context (f64_text : spec_float → bytes) (f64_read : bytes → option spec_float).

Abbreviation json_f64 := (Json.json_f64 f64_text).

(** The tag comes first. *)
Definition payload_json (p : MetricPayload) : jv :=
  match p with
  | LsmBlock denied_path matched_pattern =>
      VObj [(lit "type", VStr (lit "lsm_block")); (lit "denied_path", VStr denied_path);
            (lit "matched_pattern", VStr matched_pattern)]
  | TracepointHit binary_path =>
      VObj [(lit "type", VStr (lit "tracepoint_hit")); (lit "binary_path", VStr binary_path)]
  | BehavioralAlert spawn_count window_secs =>
      VObj [(lit "type", VStr (lit "behavioral_alert")); (lit "spawn_count", json_int spawn_count);
            (lit "window_secs", json_int window_secs)]
  | AiInference model_id score classification =>
      VObj [(lit "type", VStr (lit "ai_inference")); (lit "model_id", VStr model_id);
            (lit "score", json_f64 score); (lit "classification", VStr classification)]
  | Health events_processed lost_events_count =>
      VObj [(lit "type", VStr (lit "health")); (lit "events_processed", json_int events_processed);
            (lit "lost_events_count", json_int lost_events_count)]
  end.

Definition event_json (e : MetricEvent) : jv :=
  VObj [(lit "event_id", VStr (me_event_id e)); (lit "timestamp_ns", json_int (me_timestamp_ns e));
        (lit "node_name", VStr (me_node_name e)); (lit "source", VStr (source_name (me_source e)));
        (lit "kind", VStr (kind_name (me_kind e))); (lit "labels", labels_json (me_labels e));
        (lit "payload", payload_json (me_payload e))].

(** [to_json_line]; writing to a string does not fail. *)
Definition to_json_line `{SerdeJson} (e : MetricEvent) : bytes := json_to_text (event_json e).

(** ** Deserialisation *)
(** A unit variant: its name, or an object with that one member. *)
Definition serde_unit_variant {A} (variants : list (bytes * A)) (j : jv) : option A :=
  name ← match j with VStr s => Some s | VObj [(s, VNull)] => Some s | _ => None end;
  snd <$> find (λ p, bool_decide (p.1 = name)) variants.

Definition source_of : jv → option MetricSource :=
  serde_unit_variant (map (λ s, (source_name s, s)) [EbpfLsm; EbpfTracepoint; Orchestrator; AiEngine]).
Definition kind_of : jv → option MetricKind :=
  serde_unit_variant
    (map (λ k, (kind_name k, k)) [KLsmBlock; KTracepointHit; KBehavioralAlert; KAiInference; KHealth]).

(** An [Option] that is absent is [None]; in an array nothing may be absent. *)
Definition labels_of (j : jv) : option MetricLabels :=
  l ← struct_fields [lit "pid"; lit "ppid"; lit "uid"; lit "euid"; lit "comm"; lit "binary_path"; lit "rule_id"; lit "severity"] 8 j;
  pid ← serde_default None (serde_option (serde_uint 32)) (lit "pid") l;
  ppid ← serde_default None (serde_option (serde_uint 32)) (lit "ppid") l;
  uid ← serde_default None (serde_option (serde_uint 32)) (lit "uid") l;
  euid ← serde_default None (serde_option (serde_uint 32)) (lit "euid") l;
  comm ← serde_default None (serde_option serde_string) (lit "comm") l;
  binary_path ← serde_default None (serde_option serde_string) (lit "binary_path") l;
  rule_id ← serde_default None (serde_option serde_string) (lit "rule_id") l;
  severity ← serde_default None (serde_option serde_string) (lit "severity") l;
  Some (mkMetricLabels pid ppid uid euid comm binary_path rule_id severity).

Definition serde_f64 (j : jv) : option spec_float := match j with VNum t => f64_read t | _ => None end.

(** The tag of an internally tagged enum, and the value without it. *)
Definition serde_tag (tag : bytes) (j : jv) : option (bytes * jv) :=
  match j with
  | VObj l =>
      name ← serde_required serde_string tag l;
      Some (name, VObj (filter (λ p, p.1 ≠ tag) l))
  | VArr (VStr name :: items) => Some (name, VArr items)
  | _ => None
  end.

Definition payload_of (j : jv) : option MetricPayload :=
  '(name, j) ← serde_tag (lit "type") j;
  if bool_decide (name = lit "lsm_block") then
    l ← struct_fields [lit "denied_path"; lit "matched_pattern"] 2 j;
    denied_path ← serde_required serde_string (lit "denied_path") l;
    matched_pattern ← serde_required serde_string (lit "matched_pattern") l;
    Some (LsmBlock denied_path matched_pattern)
  else if bool_decide (name = lit "tracepoint_hit") then
    l ← struct_fields [lit "binary_path"] 1 j;
    binary_path ← serde_required serde_string (lit "binary_path") l;
    Some (TracepointHit binary_path)
  else if bool_decide (name = lit "behavioral_alert") then
    l ← struct_fields [lit "spawn_count"; lit "window_secs"] 2 j;
    spawn_count ← serde_required (serde_uint 64) (lit "spawn_count") l;
    window_secs ← serde_required (serde_uint 64) (lit "window_secs") l;
    Some (BehavioralAlert spawn_count window_secs)
  else if bool_decide (name = lit "ai_inference") then
    l ← struct_fields [lit "model_id"; lit "score"; lit "classification"] 3 j;
    model_id ← serde_required serde_string (lit "model_id") l;
    score ← serde_required serde_f64 (lit "score") l;
    classification ← serde_required serde_string (lit "classification") l;
    Some (AiInference model_id score classification)
  else if bool_decide (name = lit "health") then
    l ← struct_fields [lit "events_processed"; lit "lost_events_count"] 2 j;
    events_processed ← serde_required (serde_uint 64) (lit "events_processed") l;
    lost_events_count ← serde_required (serde_uint 64) (lit "lost_events_count") l;
    Some (Health events_processed lost_events_count)
  else None.

Definition event_of (j : jv) : option MetricEvent :=
  l ← struct_fields [lit "event_id"; lit "timestamp_ns"; lit "node_name"; lit "source"; lit "kind"; lit "labels"; lit "payload"] 7 j;
  event_id ← serde_required serde_string (lit "event_id") l;
  timestamp_ns ← serde_required serde_i64 (lit "timestamp_ns") l;
  node_name ← serde_required serde_string (lit "node_name") l;
  source ← serde_required source_of (lit "source") l;
  kind ← serde_required kind_of (lit "kind") l;
  labels ← serde_required labels_of (lit "labels") l;
  payload ← serde_required payload_of (lit "payload") l;
  Some (mkMetricEvent event_id timestamp_ns node_name source kind labels payload).

(** [serde_json::from_str::<MetricEvent>]. *)
Definition from_json_line `{SerdeJson} (s : bytes) : option MetricEvent := json_from_text s ≫= event_of.

(** ** What the types of the struct promise *)
Definition opt_ok {A} (P : A → Prop) (o : option A) : Prop := match o with Some a => P a | None => True end.
Definition u32_ok (n : Z) : Prop := uint 32 n.

Definition labels_ok (l : MetricLabels) : Prop :=
  opt_ok u32_ok (ml_pid l) ∧ opt_ok u32_ok (ml_ppid l) ∧ opt_ok u32_ok (ml_uid l) ∧ opt_ok u32_ok (ml_euid l) ∧
  opt_ok text_ok (ml_comm l) ∧ opt_ok text_ok (ml_binary_path l) ∧ opt_ok text_ok (ml_rule_id l) ∧ opt_ok text_ok (ml_severity l).
Definition payload_ok (p : MetricPayload) : Prop :=
  match p with
  | LsmBlock a b => text_ok a ∧ text_ok b
  | TracepointHit a => text_ok a
  | BehavioralAlert n m | Health n m => uint 64 n ∧ uint 64 m
  | AiInference a _ b => text_ok a ∧ text_ok b
  end.
Definition event_ok (e : MetricEvent) : Prop :=
  text_ok (me_event_id e) ∧ - 2 ^ 63 ≤ me_timestamp_ns e < 2 ^ 63 ∧ text_ok (me_node_name e) ∧
  labels_ok (me_labels e) ∧ payload_ok (me_payload e).

(** What reading gives for the payload that was written. *)
Definition reread (p : MetricPayload) : option MetricPayload :=
  match p with
  | AiInference model_id score classification =>
      if is_finite score then y ← f64_read (f64_text score); Some (AiInference model_id y classification) else None
  | _ => Some p
  end.
End floats.

(** ** Lemmas *)
Lemma read_opt {A} (dec : jv → option A) (f : A → jv) (P : A → Prop) o :
  (∀ a, P a → dec (f a) = Some a) → (∀ a, f a ≠ VNull) → opt_ok P o → serde_option dec (json_opt f o) = Some o.
Proof.
  intros Hd Hf Ho. destruct o as [a|]; [|done]. cbn [json_opt opt_ok] in *. pose proof (Hf a) as Hn. pose proof (Hd a Ho) as Ha.
  unfold serde_option. destruct (f a); [done|..]; by rewrite Ha.
Qed.

Lemma read_opt_u32 o : opt_ok u32_ok o → serde_option (serde_uint 32) (json_opt json_int o) = Some o.
Proof. apply read_opt; [|done]. intros a Ha. unfold u32_ok in Ha. apply serde_uint_int; lia. Qed.

Lemma read_opt_str o : opt_ok text_ok o → serde_option serde_string (json_opt VStr o) = Some o.
Proof. by apply read_opt. Qed.

Lemma labels_read l : labels_ok l → labels_of (labels_json l) = Some l.
Proof.
  intros (H1 & H2 & H3 & H4 & H5 & H6 & H7 & H8). unfold labels_of, labels_json. cbn [struct_fields mbind option_bind].
  serde_lookup. rewrite !read_opt_u32, !read_opt_str by done. cbn [mbind option_bind]. by destruct l.
Qed.

Lemma source_read s : source_of (VStr (source_name s)) = Some s.
Proof. by destruct s. Qed.
Lemma kind_read k : kind_of (VStr (kind_name k)) = Some k.
Proof. by destruct k. Qed.

Lemma filter_untagged tag v l :
  Forall (λ p : bytes * jv, p.1 ≠ tag) l → filter (λ p, p.1 ≠ tag) ((tag, v) :: l) = l.
Proof.
  intros Hl. rewrite filter_cons_False by (cbn; tauto). induction Hl as [|p l Hp _ IH]; [done|].
  rewrite filter_cons_True by done. by rewrite IH.
Qed.

Lemma tag_read tag name l :
  Forall (λ p, p.1 ≠ tag) l → serde_tag tag (VObj ((tag, VStr name) :: l)) = Some (name, VObj l).
Proof.
  intros Hl. unfold serde_tag, serde_required, serde_field. rewrite fields_named_cons, bool_decide_eq_true_2 by done.
  rewrite filter_untagged by done.
  assert (fields_named tag l = []) as ->; [|done]. unfold fields_named. induction Hl as [|p l Hp _ IH]; [done|].
  by rewrite filter_cons_False.
Qed.

Section floats_lemmas.
Context (f64_text : spec_float → bytes) (f64_read : bytes → option spec_float).

Lemma payload_read p :
  payload_ok p → payload_of f64_read (payload_json f64_text p) = reread f64_text f64_read p.
Proof.
  destruct p as [a b|a|n m|a x b|n m]; unfold payload_of, payload_json; intros Hok;
    rewrite tag_read by (repeat constructor; by vm_compute); cbn [mbind option_bind]; lit_decide;
    cbn [struct_fields mbind option_bind]; serde_lookup; cbn [serde_string value_as_str mbind option_bind]; try done.
  - destruct Hok. rewrite !serde_uint_int by lia. done.
  - cbn [reread]. unfold json_f64. destruct (is_finite x); [|done]. cbn [serde_f64]. by destruct (f64_read _).
  - destruct Hok. rewrite !serde_uint_int by lia. done.
Qed.

Lemma event_read e :
  event_ok e → event_of f64_read (event_json f64_text e) =
    (p ← reread f64_text f64_read (me_payload e);
     Some (mkMetricEvent (me_event_id e) (me_timestamp_ns e) (me_node_name e) (me_source e) (me_kind e) (me_labels e) p)).
Proof.
  intros (H1 & H2 & H3 & H4 & H5). unfold event_of, event_json. cbn [struct_fields mbind option_bind]. serde_lookup.
  cbn [serde_string value_as_str mbind option_bind]. rewrite serde_i64_int, source_read, kind_read, labels_read, payload_read by done.
  done.
Qed.

Lemma opt_jv_ok {A} (f : A → jv) (P : A → Prop) o : (∀ a, P a → jv_ok (f a)) → opt_ok P o → jv_ok (json_opt f o).
Proof. destruct o; cbn; auto. Qed.
Lemma u32_jv_ok n : u32_ok n → jv_ok (json_int n).
Proof. unfold u32_ok. intros. apply json_int_ok. lia. Qed.

Lemma event_jv_ok e :
  (∀ x, is_finite x = true → json_number (f64_text x) = true) → event_ok e → jv_ok (event_json f64_text e).
Proof.
  intros Hf (H1 & H2 & H3 & (L1 & L2 & L3 & L4 & L5 & L6 & L7 & L8) & H5).
  obj_ok.
  - done.
  - apply json_int_ok. lia.
  - done.
  - destruct (me_source e); apply lit_is_byte.
  - destruct (me_kind e); apply lit_is_byte.
  - obj_ok; first [by eapply opt_jv_ok; [apply u32_jv_ok|]|by eapply (opt_jv_ok VStr text_ok)].
  - destruct (me_payload e) as [a b|a|n m|a x b|n m]; cbn [payload_ok] in H5; destruct_and? H5; obj_ok;
      first [done|apply lit_is_byte|by apply json_int_ok; lia|idtac].
    unfold json_f64. destruct (is_finite x) eqn:Hx; [by apply Hf|done].
Qed.

(** ** Properties *)

(** A metric event is read back from its line. Whatever its strings hold
    (quotes, control bytes, braces), [from_str] of the text of [to_json_line] is
    the event, but for the score of an inference, which comes back as the reader of
    decimals gives it; a score that is not finite is written as [null] and makes
    the line unreadable. *)
Theorem metric_line_round_trip `{SerdeJsonLaws} e :
  (∀ x, is_finite x = true → json_number (f64_text x) = true) → event_ok e →
  from_json_line f64_read (to_json_line f64_text e) =
    (p ← reread f64_text f64_read (me_payload e);
     Some (mkMetricEvent (me_event_id e) (me_timestamp_ns e) (me_node_name e) (me_source e) (me_kind e) (me_labels e) p)).
Proof.
  intros Hf He. unfold from_json_line, to_json_line. rewrite json_round_trip by by apply event_jv_ok.
  by apply event_read.
Qed.

(** The line is one line: a string of the event cannot start another. *)
Theorem metric_line_is_one_line `{SerdeJsonLaws} e :
  (∀ x, is_finite x = true → json_number (f64_text x) = true) → event_ok e →
  Forall (λ c, 32 ≤ c) (to_json_line f64_text e).
Proof. intros Hf He. by apply json_one_line, event_jv_ok. Qed.
End floats_lemmas.

(** ** Samples *)
(** Two decimals, enough for the samples: one, and everything else as zero. *)
Definition demo_f64_text (x : spec_float) : bytes :=
  match x with S754_finite _ _ _ => lit "0.97" | _ => lit "0.0" end.
Definition demo_score : spec_float := S754_finite false 8736982 (-23).
Definition demo_f64_read (t : bytes) : option spec_float :=
  if bool_decide (t = lit "0.97") then Some demo_score else if bool_decide (t = lit "0.0") then Some (S754_zero false) else None.

Definition demo_metric (path : bytes) (score : spec_float) : MetricEvent :=
  ai_inference (lit "evt-ai-42") 1700000000000000001 (lit "node-b") path score (lit "lateral_movement").

(** A model name with a quote, a line break and a backslash; and a score that is
    not a number. *)
Lemma metric_line_round_trip_witness :
  let e := demo_metric [97; 34; 10; 92] demo_score in
  from_json_line demo_f64_read (to_json_line demo_f64_text e) = Some e ∧
  from_json_line demo_f64_read (to_json_line demo_f64_text (demo_metric (lit "m") S754_nan)) = None.
Proof.
  assert (∀ x, is_finite x = true → json_number (demo_f64_text x) = true) as Hf by (by intros []).
  split; rewrite (metric_line_round_trip demo_f64_text demo_f64_read _ Hf); try done;
    repeat split; try done; try (apply lit_is_byte); by repeat constructor.
Defined.
