(* ===== verification/SinkBodies.v ===== *)
(** * The requests of the forwarders and the health report

    [#[derive(Serialize)]] of what leaves the node as JSON besides the alerts: the log
    item of the Datadog crate ([logs.rs]), the event of the Splunk crate ([hec.rs]) and
    the body of [GET /healthz] ([observability/healthz.rs]); and the HTTP requests the
    two clients build.

    Shown: an alert the detection pipeline raises and the agent publishes reaches the
    collectors. The request the Datadog worker or the Splunk worker makes for the record
    carries a JSON body in which the collector finds the alert's own fields, under the
    record's key, with the node and the rule. *)

From Stdlib Require Import SpecFloat.
From S2P Require Import Prelude RustStd Json Common ExecMapper Detection Metrics Integrity Forwarder Datadog Splunk Documents.

(** ** Bodies *)
Section bodies.
Context `{SerdeJson} (f64_text : spec_float → bytes).

Definition datadog_value (i : DatadogLogItem jv) : jv :=
  VObj ([(lit "message", VStr (dl_message _ i)); (lit "hostname", VStr (dl_hostname _ i));
         (lit "service", VStr (dl_service _ i)); (lit "ddsource", VStr (dl_ddsource _ i)); (lit "ddtags", VStr (dl_ddtags _ i));
         (lit "event_id", VStr (dl_event_id i)); (lit "schema_version", VStr (dl_schema_version _ i));
         (lit "alert_type", VStr (dl_alert_type _ i))] ++
        match dl_rule_id _ i with Some r => [(lit "rule_id", VStr r)] | None => [] end ++
        [(lit "timestamp", json_f64 f64_text (dl_timestamp _ i)); (lit "payload", dl_payload _ i)]).

Definition hec_meta_value (m : HecEventMeta) : jv :=
  VObj [(lit "producer", VStr (hm_producer m)); (lit "transport", VStr (hm_transport m))].
Definition hec_payload_value (p : HecEventPayload jv) : jv :=
  VObj [(lit "event_id", VStr (hp_event_id p)); (lit "schema_version", VStr (hp_schema_version _ p));
        (lit "alert_type", VStr (hp_alert_type _ p)); (lit "payload", hp_payload _ p);
        (lit "rule_id", json_opt VStr (hp_rule_id _ p)); (lit "severity", json_opt VStr (hp_severity _ p));
        (lit "meta", hec_meta_value (hp_meta _ p))].
Definition hec_value (b : HecEventBody jv) : jv :=
  VObj ([(lit "time", json_f64 f64_text (hb_time _ b)); (lit "host", VStr (hb_host _ b)); (lit "source", VStr (hb_source _ b));
         (lit "sourcetype", VStr (hb_sourcetype _ b))] ++
        match hb_index _ b with Some i => [(lit "index", VStr i)] | None => [] end ++
        [(lit "event", hec_payload_value (hb_event b))]).

(** ** Requests *)
(** A POST: where to, its header besides those of the JSON body, and the body. *)
Record http_post : Type := mkHttpPost { hq_url : bytes; hq_header : bytes * bytes; hq_body : bytes }.

(** [worker_loop] builds the body and [DatadogLogClient::send] posts it. *)
Definition datadog_post (cfg : Datadog.ForwarderConfig) (env : TelemetryEnvelope jv) : http_post :=
  mkHttpPost (logs_url cfg) (lit "DD-API-KEY", api_key cfg)
    (json_to_text (datadog_value (build_datadog_log value_get value_as_str env (dd_service cfg) (ddsource cfg)))).
(** [SplunkHecClient::send]. *)
Definition hec_post (cfg : Splunk.ForwarderConfig) (env : TelemetryEnvelope jv) : http_post :=
  mkHttpPost (hec_url cfg) (lit "Authorization", lit "Splunk " ++ hec_token cfg)
    (json_to_text (hec_value (build_hec_event value_get value_as_str env (source cfg) (sourcetype cfg) (hec_index cfg)))).
End bodies.

(** [AgentHealthProbe::to_json] and the lines of [enforcement_failures]. *)
Definition failure_line (f : IntegrityFailure) : bytes := if_reason f ++ lit ": " ++ lit (if_detail f).
Definition health_value (b : HealthBody) : jv :=
  VObj [(lit "status", VStr (hb_status b)); (lit "service", VStr (hb_service b));
        (lit "checks", VObj [(lit "lsm_link_pin", VStr (hb_lsm_link_pin b)); (lit "deny_map_pins", VStr (hb_deny_map_pins b))]);
        (lit "policy_sync", VObj [(lit "stale", VBool (hb_stale b)); (lit "last_version", VStr (hb_last_version b));
                                  (lit "affects_liveness", VBool (hb_affects_liveness b))]);
        (lit "enforcement_failures", VArr (map (λ f, VStr (failure_line f)) (hb_failures b)))].
Definition health_text `{SerdeJson} (r : HealthReport) : bytes := json_to_text (health_value (to_json r)).

(** ** The programs

    [main] of the two crates: inactive without a configuration, otherwise the queue and
    the worker, then the consumer; the listener of the metrics runs beside them. *)
Inductive forwarder_program : Type :=
| Inactive
| QueuePanics
| Running (s : service jv).
Definition forwarder_main (capacity : option Z) : forwarder_program :=
  match capacity with
  | None => Inactive
  | Some n => match service_new n with Some s => Running s | None => QueuePanics end
  end.
Definition datadog_main (read_to_string : bytes → result bytes) (var : bytes → option bytes) : forwarder_program :=
  forwarder_main (Datadog.queue_capacity <$> Datadog.from_env read_to_string var).
Definition splunk_main (read_to_string : bytes → result bytes) (var : bytes → option bytes) : forwarder_program :=
  forwarder_main (Splunk.queue_capacity <$> Splunk.from_env read_to_string var).

(** A queue capacity of 0 passes the configuration and then panics in [mpsc::channel]. *)
Theorem zero_capacity_panics read var cfg :
  Datadog.from_env read var = Some cfg → var Datadog.QUEUE_CAPACITY_ENV = Some (lit "0") →
  datadog_main read var = QueuePanics.
Proof.
  intros Hcfg Hq. unfold datadog_main. rewrite Hcfg. unfold Datadog.from_env in Hcfg.
  apply bind_Some in Hcfg as (url & _ & Hcfg). apply bind_Some in Hcfg as (key & _ & Hcfg).
  apply bind_Some in Hcfg as (brokers & _ & [= <-]). cbn [Datadog.queue_capacity fmap option_fmap option_map].
  by rewrite Hq.
Qed.

(** ** What the collectors read *)
Section delivery.
Context `{SerdeJsonLaws} (f64_text : spec_float → bytes).
Context (f64_number : ∀ x, is_finite x = true → json_number (f64_text x) = true).
Context (parse_from_rfc3339_ns : bytes → option (option Z)).
Context (nanos_i64 : ∀ s n, parse_from_rfc3339_ns s = Some (Some n) → - 2 ^ 63 ≤ n < 2 ^ 63).

(** The strings of the two configurations. *)
Definition datadog_typed (cfg : Datadog.ForwarderConfig) : Prop :=
  Forall is_byte (dd_service cfg) ∧ Forall is_byte (ddsource cfg).
Definition splunk_typed (cfg : Splunk.ForwarderConfig) : Prop :=
  Forall is_byte (source cfg) ∧ Forall is_byte (sourcetype cfg) ∧
  match hec_index cfg with Some i => Forall is_byte i | None => True end.

Lemma app_is_byte (s t : bytes) : Forall is_byte s → Forall is_byte t → Forall is_byte (s ++ t).
Proof. intros. by rewrite Forall_app. Qed.

Lemma datadog_body_ok cfg env rule :
  datadog_typed cfg → envelope_typed env → rule_id value_get value_as_str env = Some rule → Forall is_byte rule →
  jv_ok (datadog_value f64_text (build_datadog_log value_get value_as_str env (dd_service cfg) (ddsource cfg))).
Proof.
  intros (? & ?) (? & ? & ? & ? & ? & ?) Hr ?. unfold datadog_value, build_datadog_log. rewrite Hr.
  cbn [dl_message dl_hostname dl_service dl_ddsource dl_ddtags dl_event_id dl_schema_version dl_alert_type dl_rule_id
       dl_timestamp dl_payload app].
  obj_ok; cbn [jv_ok]; try done; try (by apply json_f64_ok); repeat (apply app_is_byte || apply lit_is_byte || done).
Qed.

Lemma hec_body_ok cfg env rule sev :
  splunk_typed cfg → envelope_typed env → rule_id value_get value_as_str env = Some rule → Forall is_byte rule →
  severity value_get value_as_str env = Some sev → Forall is_byte sev →
  jv_ok (hec_value f64_text (build_hec_event value_get value_as_str env (source cfg) (sourcetype cfg) (hec_index cfg))).
Proof.
  intros (? & ? & Hi) (? & ? & ? & ? & ? & ?) Hr ? Hs ?. unfold hec_value, build_hec_event. rewrite Hr, Hs.
  cbn [hb_time hb_host hb_source hb_sourcetype hb_index hb_event hp_event_id hp_schema_version hp_alert_type hp_payload
       hp_rule_id hp_severity hp_meta hec_payload_value hec_meta_value hm_producer hm_transport json_opt].
  destruct (hec_index cfg); cbn [app]; obj_ok; try done; try (by apply json_f64_ok);
    obj_ok; try done; obj_ok; apply lit_is_byte.
Qed.

Lemma alert_rule_bytes a : alert_typed a → Forall is_byte (alert_rule a).
Proof.
  destruct a as [b|c]; cbn [alert_typed alert_rule]; [by intros (? & ? & ? & _)|].
  unfold siem_typed. rewrite !Forall_cons. by intros ((_ & _ & ? & _) & _).
Qed.

(** C40: an alert reaches the collectors. For an alert the detection pipeline raised, with
    fields of their types, and configurations whose strings are bytes: the record the agent
    publishes parses and validates in both forwarders, and the request each of them then
    makes goes to the configured address with the configured secret and has a JSON body in
    which a reader finds the record's key, the node, the rule of the alert and, in the
    payload, every field of the alert under its own name. The texts are those of any JSON
    writer and reader that keep the laws of [SerdeJson]. *)
Theorem alerts_reach_collectors dd hec tick siem_now e d node a k p p' key value :
  datadog_typed dd → splunk_typed hec → alert_typed a → Forall is_byte node → raised a (process tick siem_now e d).2 →
  publish_step (λ b, Ok (behavior_value b)) (λ c, Ok (siem_value c)) message_to_json parse_from_rfc3339_ns node a k p
    = (p', Some (key, value)) →
  ∃ env, parse_json envelope_from_slice value = Ok env ∧
    (let post := datadog_post f64_text dd env in
     hq_url post = logs_url dd ∧ hq_header post = (lit "DD-API-KEY", api_key dd) ∧
     ∃ body, json_from_text (hq_body post) = Some body ∧ value_get body (lit "event_id") = Some (VStr key) ∧
       value_get body (lit "hostname") = Some (VStr node) ∧ value_get body (lit "rule_id") = Some (VStr (alert_rule a)) ∧
       ∃ payload, value_get body (lit "payload") = Some payload ∧ alert_shown a payload) ∧
    (let post := hec_post f64_text hec env in
     hq_url post = hec_url hec ∧ hq_header post = (lit "Authorization", lit "Splunk " ++ hec_token hec) ∧
     ∃ body event, json_from_text (hq_body post) = Some body ∧ value_get body (lit "host") = Some (VStr node) ∧
       value_get body (lit "event") = Some event ∧ value_get event (lit "event_id") = Some (VStr key) ∧
       value_get event (lit "rule_id") = Some (VStr (alert_rule a)) ∧
       ∃ payload, value_get event (lit "payload") = Some payload ∧ alert_shown a payload).
Proof.
  intros Hdd Hhec Ha Hn Hr Hp.
  destruct (published_record_accepted parse_from_rfc3339_ns nanos_i64 _ _ _ _ _ _ _ _ _ _ _ Ha Hn Hr Hp)
    as (env & Hparse & Ht & Hid & Hnode & Htype & Hpay & Hrule & Hsev).
  pose proof (alert_rule_bytes a Ha) as Hrb.
  assert (Forall is_byte (te_alert_type env)) as Htb by (by destruct Ht as (_ & _ & _ & ? & _)).
  exists env. split; [done|]. split; cbn zeta.
  - split_and!; [done..|]. eexists. split; [apply json_round_trip; by eapply datadog_body_ok|].
    unfold datadog_value, build_datadog_log. rewrite Hrule, Hid, Hnode, Hpay.
    cbn [dl_message dl_hostname dl_service dl_ddsource dl_ddtags dl_event_id dl_schema_version dl_alert_type dl_rule_id
         dl_timestamp dl_payload app]. unfold value_get. serde_lookup. split_and!; try done.
    exists (alert_value a). split; [done|by apply alert_value_shown].
  - split_and!; [done..|]. eexists _, _. split; [apply json_round_trip; by eapply hec_body_ok|].
    unfold hec_value, build_hec_event. rewrite Hrule, Hsev, Hid, Hnode, Hpay.
    cbn [hb_time hb_host hb_source hb_sourcetype hb_index hb_event hec_payload_value hp_event_id hp_schema_version
         hp_alert_type hp_payload hp_rule_id hp_severity hp_meta json_opt].
    destruct (hec_index hec); cbn [app]; unfold value_get; serde_lookup; split_and!; try done; serde_lookup; try done;
      (exists (alert_value a); split; [done|by apply alert_value_shown]).
Qed.
End delivery.

(** ** A sample *)
Definition demo_seconds_text (_ : spec_float) : bytes := lit "1710000000.0".
Definition demo_dd : Datadog.ForwarderConfig :=
  Datadog.mkForwarderConfig (lit "https://http-intake.logs.datadoghq.eu/api/v2/logs") (lit "dd-key") Datadog.DEFAULT_SERVICE
    Datadog.DEFAULT_SOURCE [lit "kafka:9092"] Datadog.DEFAULT_KAFKA_TOPIC Datadog.DEFAULT_KAFKA_GROUP 8 9092.
Definition demo_hec : Splunk.ForwarderConfig :=
  Splunk.mkForwarderConfig (lit "http://splunk:8088/services/collector/event") (lit "token") (Some (lit "main"))
    DEFAULT_SOURCETYPE Splunk.DEFAULT_SOURCE [lit "kafka:9092"] Splunk.DEFAULT_KAFKA_TOPIC Splunk.DEFAULT_KAFKA_GROUP 8 9091.

Lemma alerts_reach_collectors_witness :
  ∃ env, parse_json envelope_from_slice demo_record.2 = Ok env ∧
    (let post := datadog_post demo_seconds_text demo_dd env in
     hq_url post = logs_url demo_dd ∧ hq_header post = (lit "DD-API-KEY", lit "dd-key") ∧
     ∃ body, json_from_text (hq_body post) = Some body ∧ value_get body (lit "event_id") = Some (VStr demo_record.1) ∧
       value_get body (lit "hostname") = Some (VStr (lit "node-b")) ∧
       value_get body (lit "rule_id") = Some (VStr (lit "NEUROMESH-EXEC-BLACKLIST-PATH")) ∧
       ∃ payload, value_get body (lit "payload") = Some payload ∧ siem_shown demo_siem_alert payload) ∧
    (let post := hec_post demo_seconds_text demo_hec env in
     hq_url post = hec_url demo_hec ∧ hq_header post = (lit "Authorization", lit "Splunk " ++ lit "token") ∧
     ∃ body event, json_from_text (hq_body post) = Some body ∧ value_get body (lit "host") = Some (VStr (lit "node-b")) ∧
       value_get body (lit "event") = Some event ∧ value_get event (lit "event_id") = Some (VStr demo_record.1) ∧
       value_get event (lit "rule_id") = Some (VStr (lit "NEUROMESH-EXEC-BLACKLIST-PATH")) ∧
       ∃ payload, value_get event (lit "payload") = Some payload ∧ siem_shown demo_siem_alert payload).
Proof.
  apply (alerts_reach_collectors demo_seconds_text) with (parse_from_rfc3339_ns := demo_nanos)
    (tick := mkTick 0 (lit "t")) (siem_now := lit "2024-03-09T16:00:00+00:00") (e := demo_tmp_telemetry)
    (d := DataNormalizer_new) (a := Critical demo_siem_alert) (k := mkKafkaAnswer true true)
    (p := mkPublisher false 0 0) (p' := mkPublisher true 1 0).
  - intros x _. reflexivity.
  - intros s n [= <-]. lia.
  - split; apply lit_is_byte.
  - split_and!; apply lit_is_byte.
  - apply (bool_decide_eq_true_1 (siem_typed demo_siem_alert)). vm_compute. reflexivity.
  - apply lit_is_byte.
  - vm_compute. left.
  - vm_compute. reflexivity.
Defined.
