(* ===== verification/AlertStream.v ===== *)
(** * The alert stream, from the pipeline to the collectors

    The tasks of [telemetry_stream.rs] over their bounded channel, in every order of
    the event loop's [try_enqueue], the publisher's [recv] and its request to the
    broker; and the topic they fill as the forwarders of [Forwarder] consume it. *)

From S2P Require Import Prelude RustStd Common Splunk Detection Metrics Json Forwarder Documents.

(** ** State and steps *)

(** The channel and its counters, the alert the worker has received and not yet dealt
    with, the worker's client and counters, and the records (key and value) the broker
    has accepted, oldest first. *)
Record alert_stream : Type := mkAlertStream {
  as_stream : TelemetryStream;
  as_hand : option StreamAlert;
  as_publisher : Publisher;
  as_records : list (bytes * bytes)
}.

(** What the worker does with an alert: [kafka_publisher_loop], or the drain loop. *)
Inductive drain : Type :=
| KafkaPublisher (config : TelemetryStreamConfig)
| NoopDrain.

(** [mpsc::channel(capacity)] and [TelemetryStreamStats::default()]. *)
Definition stream_channel (capacity : Z) : option alert_stream :=
  if channel_opens capacity
  then Some (mkAlertStream (mkTelemetryStream [] (Z.to_nat capacity) true 0 0) None (mkPublisher false 0 0) [])
  else None.

Definition stream_spawn_noop : option (drain * alert_stream) :=
  s ← stream_channel DEFAULT_CHANNEL_CAPACITY; Some (NoopDrain, s).
(** [spawn] with the feature [kafka-stream]; without it the configuration is ignored. *)
Definition stream_spawn (kafka_stream : bool) (config : TelemetryStreamConfig) : option (drain * alert_stream) :=
  if kafka_stream then s ← stream_channel (tc_channel_capacity config); Some (KafkaPublisher config, s)
  else stream_spawn_noop.
Definition stream_spawn_from_env (kafka_stream : bool) (config : option TelemetryStreamConfig) :
    option (drain * alert_stream) :=
  match config with
  | Some config => stream_spawn kafka_stream config
  | None => stream_spawn_noop
  end.

Inductive stream_action : Type :=
| Enqueue (a : StreamAlert)       (* the event loop's [try_enqueue] *)
| Recv                            (* the worker's [recv] *)
| Deal (k : KafkaAnswer).         (* the rest of the worker's turn *)

Section stream.
Context {J : Type} (behavior_to_value : BehaviorAlert → result J) (siem_to_value : SiemAlert → result J).
Context (message_to_vec : TelemetryKafkaMessage J → result bytes) (parse_from_rfc3339_ns : bytes → option (option Z)).
Context (d : drain).

Definition set_queue (q : list StreamAlert) (s : TelemetryStream) : TelemetryStream :=
  mkTelemetryStream q (ts_capacity s) (ts_open s) (ts_enqueued s) (ts_dropped s).

(** The worker's turn on the alert [a]. *)
Definition deal (a : StreamAlert) (k : KafkaAnswer) (p : Publisher) : Publisher * option (bytes * bytes) :=
  match d with
  | KafkaPublisher config =>
      publish_step behavior_to_value siem_to_value message_to_vec parse_from_rfc3339_ns (tc_node_name config) a k p
  | NoopDrain => (noop_step p, None)
  end.

Definition stream_step (act : stream_action) (s : alert_stream) : option alert_stream :=
  let '(mkAlertStream ts hand p records) := s in
  match act with
  | Enqueue a => Some (mkAlertStream (try_enqueue a ts) hand p records)
  | Recv =>
      match hand, ts_queue ts with
      | None, a :: queue => Some (mkAlertStream (set_queue queue ts) (Some a) p records)
      | _, _ => None
      end
  | Deal k =>
      a ← hand;
      let '(p, r) := deal a k p in
      Some (mkAlertStream ts None p (records ++ option_list r))
  end.

Fixpoint stream_run (acts : list stream_action) (s : alert_stream) : option alert_stream :=
  match acts with
  | [] => Some s
  | a :: acts => s' ← stream_step a s; stream_run acts s'
  end.

(** The alerts the event loop hands over. *)
Definition submitted (acts : list stream_action) : list StreamAlert :=
  omap (λ a, match a with Enqueue a => Some a | _ => None end) acts.

(** The record of an alert. *)
Definition record_for (a : StreamAlert) (r : bytes * bytes) : Prop :=
  match d with
  | KafkaPublisher config =>
      ∃ m, encode_alert behavior_to_value siem_to_value parse_from_rfc3339_ns (tc_node_name config) a = Ok m ∧
           km_event_id _ m = r.1 ∧ message_to_vec m = Ok r.2
  | NoopDrain => False
  end.

(** ** Every alert is accounted for *)

(** The stream after the alerts [sub] have been handed over. *)
Record streamed (capacity : Z) (sub : list StreamAlert) (s : alert_stream) : Prop := mkStreamed {
  st_submitted : Z.of_nat (length sub) = ts_enqueued (as_stream s) + ts_dropped (as_stream s);
  st_enqueued : ts_enqueued (as_stream s)
                = Z.of_nat (length (ts_queue (as_stream s))) + Z.of_nat (length (option_list (as_hand s)))
                  + pb_published (as_publisher s) + pb_failed (as_publisher s);
  st_records : ∃ done, done ++ option_list (as_hand s) ++ ts_queue (as_stream s) `sublist_of` sub ∧
                       Forall2 record_for done (as_records s);
  st_published : match d with
                 | KafkaPublisher _ => pb_published (as_publisher s) = Z.of_nat (length (as_records s))
                 | NoopDrain => as_records s = [] ∧ pb_failed (as_publisher s) = 0
                 end;
  st_capacity : Z.of_nat (length (ts_queue (as_stream s))) ≤ capacity ∧ ts_capacity (as_stream s) = Z.to_nat capacity ∧
                ts_open (as_stream s) = true;
  st_nonneg : 0 ≤ ts_dropped (as_stream s) ∧ 0 ≤ ts_enqueued (as_stream s) ∧
              0 ≤ pb_published (as_publisher s) ∧ 0 ≤ pb_failed (as_publisher s)
}.

(** One turn of the worker counts the alert once, and leaves its record exactly when it
    counts it as published to the broker. *)
Lemma deal_spec a k p p' r : deal a k p = (p', r) →
  0 ≤ pb_published p → 0 ≤ pb_failed p → pb_published p + pb_failed p + 1 < 2 ^ 64 →
  (pb_published p' = pb_published p + 1 ∧ pb_failed p' = pb_failed p ∨
   pb_published p' = pb_published p ∧ pb_failed p' = pb_failed p + 1 ∧ r = None) ∧
  (∀ x, r = Some x → record_for a x) ∧
  match d with
  | KafkaPublisher _ => pb_published p' = pb_published p + Z.of_nat (length (option_list r))
  | NoopDrain => r = None ∧ pb_failed p' = pb_failed p
  end.
Proof.
  unfold deal, record_for. destruct d as [config|]; intros Hd H1 H2 Hn.
  - unfold publish_step in Hd. destruct (_ && _).
    { simplify_eq. cbn. rewrite wrapping_one by lia. split_and!; [by right|done|lia]. }
    destruct (encode_alert _ _ _ _ a) as [m|] eqn:Hm.
    2: { simplify_eq. cbn. rewrite wrapping_one by lia. split_and!; [by right|done|lia]. }
    destruct (message_to_vec m) as [v|] eqn:Hv.
    2: { simplify_eq. cbn. rewrite wrapping_one by lia. split_and!; [by right|done|lia]. }
    destruct (ka_produce k); simplify_eq; cbn; rewrite wrapping_one by lia.
    + split_and!; [by left| |done]. intros x [= <-]. by exists m.
    + split_and!; [by right|done|lia].
  - simplify_eq. cbn. rewrite wrapping_one by lia. split_and!; [by left|done..].
Qed.

Lemma step_streamed capacity sub act s s' :
  0 < capacity → Z.of_nat (length (sub ++ submitted [act])) < 2 ^ 64 →
  streamed capacity sub s → stream_step act s = Some s' → streamed capacity (sub ++ submitted [act]) s'.
Proof.
  destruct s as [[queue cap op enq drp] hand p records]. intros Hc Hn [Hs He (dn & Hsub & Hrec) Hp (Hq & Hcap & Hop) H0] Hstep.
  cbn [as_stream as_hand as_publisher as_records ts_queue ts_capacity ts_open ts_enqueued ts_dropped] in *. subst cap op.
  destruct act as [a| |k]; cbn [stream_step ts_queue] in Hstep.
  - injection Hstep as <-. cbn [submitted omap list_omap] in *. rewrite length_app in Hn. cbn [length] in Hn.
    unfold try_enqueue. cbn [ts_queue ts_capacity ts_open ts_enqueued ts_dropped andb].
    case_bool_decide; constructor; cbn [as_stream as_hand as_publisher as_records ts_queue ts_capacity ts_open ts_enqueued ts_dropped];
      rewrite ?length_app, ?wrapping_one by lia; cbn [length]; try lia; try done.
    + exists dn. split; [|done]. rewrite !app_assoc. rewrite !app_assoc in Hsub. by apply sublist_app.
    + exists dn. split; [|done]. by apply sublist_inserts_r.
  - cbn [submitted omap list_omap] in *. rewrite app_nil_r in *. destruct hand, queue as [|a queue]; simplify_eq.
    constructor; cbn in *; try lia; try done. by exists dn.
  - cbn [submitted omap list_omap] in *. rewrite app_nil_r in *. destruct hand as [a|]; [|done].
    cbn [mbind option_bind] in Hstep. destruct (deal a k p) as [p' r] eqn:Hd. injection Hstep as <-.
    change (length (option_list (Some a))) with 1%nat in He. change (option_list (Some a)) with [a] in Hsub.
    destruct (deal_spec a k p p' r Hd) as (Hcnt & Hx & Hm); [lia..|].
    constructor; cbn [as_stream as_hand as_publisher as_records ts_queue ts_capacity ts_open ts_enqueued ts_dropped];
      try lia; try done.
    + change (length (option_list None)) with 0%nat. lia.
    + destruct r as [x|]; cbn [option_list].
      * exists (dn ++ [a]). split; [by rewrite <-app_assoc|]. apply Forall2_app; [done|]. constructor; [by apply Hx|constructor].
      * exists dn. rewrite app_nil_r. split; [|done]. etrans; [|exact Hsub]. apply sublist_app; [done|]. by apply sublist_inserts_l.
    + destruct d; [rewrite length_app; lia|]. destruct Hm as [-> ->]. cbn. by rewrite app_nil_r.
Qed.

Lemma run_streamed capacity acts sub s s' :
  0 < capacity → Z.of_nat (length (sub ++ submitted acts)) < 2 ^ 64 →
  streamed capacity sub s → stream_run acts s = Some s' → streamed capacity (sub ++ submitted acts) s'.
Proof.
  intros Hc. revert sub s. induction acts as [|act acts IH]; intros sub s Hn Hs Hrun; cbn [stream_run] in Hrun.
  { simplify_eq. cbn in *. by rewrite app_nil_r. }
  apply bind_Some in Hrun as (s1 & Hstep & Hrun).
  assert (Heq : submitted (act :: acts) = submitted [act] ++ submitted acts) by (destruct act; reflexivity).
  rewrite Heq, app_assoc in *. apply (IH _ s1); [done| |done].
  apply (step_streamed _ _ _ s); try done. rewrite length_app in Hn. lia.
Qed.

Lemma channel_streamed capacity s : stream_channel capacity = Some s → 0 < capacity ∧ streamed capacity [] s.
Proof.
  unfold stream_channel, channel_opens. case_bool_decide as Hc; [|done]. intros [= <-]. split; [lia|].
  constructor; cbn; try lia; try done; [|by destruct d]. exists []. by split.
Qed.
End stream.

(** ** From the pipeline to the collectors *)

(** The partition the records make, from offset zero. *)
Definition topic_records (records : list (bytes * bytes)) : list partition_record :=
  imap (λ i r, mkPartitionRecord (Z.of_nat i) (Some r.2)) records.

Lemma topic_records_length records : length (topic_records records) = length records.
Proof. apply length_imap. Qed.

Lemma topic_contiguous records : contiguous (topic_records records).
Proof.
  intros i r. unfold topic_records. rewrite list_lookup_imap. destruct (records !! i); [|done]. by intros [= <-].
Qed.

(** A part of the second list belongs to a part of the first. *)
Lemma Forall2_sublist {A B} (P : A → B → Prop) l k k' :
  Forall2 P l k → k' `sublist_of` k → ∃ l', l' `sublist_of` l ∧ Forall2 P l' k'.
Proof.
  intros HP. revert k'. induction HP as [|a b l k Hab HP IH]; intros k' Hk.
  { apply sublist_nil_r in Hk as ->. by exists []. }
  apply sublist_cons_r in Hk as [Hk|(k1 & -> & Hk)]; destruct (IH _ Hk) as (l' & Hl & HP').
  - exists l'. split; [by apply sublist_cons|done].
  - exists (a :: l'). split; [by apply sublist_skip|by constructor].
Qed.

Section malformed.
Context `{Sink J Cfg Body} (capacity : Z) (from_slice : bytes → option (TelemetryEnvelope J)).
Context (fetch : nat → Z → result (list partition_record)).

(** The records of [handled] that are not envelopes. *)
Definition malformed (handled : list partition_record) : list partition_record :=
  filter (λ r, bool_decide (is_Some (parsed from_slice r)) = false) handled.
Definition malformed_counted (s : service J) : Prop :=
  vec_get (lit "malformed") (fm_dropped_total (fw_metrics (sv_fw s))) = Z.of_nat (length (malformed (sv_handled s))).

Lemma step_malformed a s s' : malformed_counted s →
  service_step capacity from_slice fetch a s = Some s' → malformed_counted s'.
Proof.
  destruct s as [next pending batch fetches handled [queue sending [enq drp fwd fld] [fmf fmx fmd fmq] backoff acked]].
  unfold malformed_counted. intros Hm Hs. destruct a; cbn [service_step] in Hs.
  - destruct pending; [|done]. destruct (fetch fetches next); by simplify_eq.
  - destruct pending as [|r pending]; [done|]. injection Hs as <-. cbn [sv_fw sv_handled] in *.
    unfold malformed in *. rewrite filter_app, length_app, Nat2Z.inj_add, <-Hm. unfold handle_record.
    destruct (parse_json from_slice (default [] (pr_value r))) as [env|] eqn:Hp.
    + rewrite (filter_cons_False _ _ _) by (unfold parsed; by rewrite Hp).
      cbn [fw_try_enqueue]. case_bool_decide; cbn; [lia|]. rewrite vec_get_inc, label_malformed. lia.
    + rewrite (filter_cons_True _ _ _) by (unfold parsed; by rewrite Hp).
      cbn. rewrite vec_get_inc, bool_decide_true by done. done.
  - unfold worker_take in Hs. cbn [fw_sending fw_queue] in Hs. destruct sending, queue; try done. injection Hs as <-. exact Hm.
  - cbn [worker_finish] in Hs. destruct sending; [|done]. cbn [mbind option_bind] in Hs.
    destruct (send_with_retry _ _) as [[r b] ?]. destruct r; injection Hs as <-; exact Hm.
Qed.

Lemma run_malformed acts s s' : malformed_counted s →
  service_run capacity from_slice fetch acts s = Some s' → malformed_counted s'.
Proof.
  revert s. induction acts as [|a acts IH]; intros s Hm Hrun; cbn [service_run] in Hrun; [by simplify_eq|].
  apply bind_Some in Hrun as (s1 & Hstep & Hrun). eapply IH; [|done]. by eapply step_malformed.
Qed.

Lemma run_handled acts s s' : service_run capacity from_slice fetch acts s = Some s' →
  length (sv_handled s') = (length (sv_handled s) + handles acts)%nat.
Proof.
  revert s. induction acts as [|a acts IH]; intros s Hrun; cbn [service_run] in Hrun; [simplify_eq; cbn; lia|].
  apply bind_Some in Hrun as (s1 & Hstep & Hrun). rewrite (IH _ Hrun), handles_cons.
  rewrite (step_handled _ _ _ _ _ _ Hstep). lia.
Qed.
End malformed.

Section end_to_end.
Context `{HJ : SerdeJson, HJL : !SerdeJsonLaws} (parse_from_rfc3339_ns : bytes → option (option Z)).
Context (nanos_i64 : ∀ s n, parse_from_rfc3339_ns s = Some (Some n) → - 2 ^ 63 ≤ n < 2 ^ 63).
Context (config : TelemetryStreamConfig).
Abbreviation node := (tc_node_name config).
Abbreviation run_stream :=
  (stream_run (λ b, Ok (behavior_value b)) (λ c, Ok (siem_value c)) message_to_json parse_from_rfc3339_ns (KafkaPublisher config)).
Abbreviation record_of_alert :=
  (record_for (λ b, Ok (behavior_value b)) (λ c, Ok (siem_value c)) message_to_json parse_from_rfc3339_ns (KafkaPublisher config)).

(** An alert of the detection pipeline. *)
Definition pipeline_alert (a : StreamAlert) : Prop :=
  alert_typed a ∧ ∃ tick siem_now e n, raised a (process tick siem_now e n).2.

(** The envelope of an alert: the node it was raised on, its type, rule and fields. *)
Definition carries (a : StreamAlert) (env : TelemetryEnvelope jv) : Prop :=
  te_node_name env = node ∧
  te_alert_type env = match a with Behavior _ => BEHAVIOR_ALERT | Critical _ => CRITICAL_ALERT end ∧
  alert_shown a (te_payload env) ∧ rule_id value_get value_as_str env = Some (alert_rule a).

Lemma record_parses a r : Forall is_byte node → pipeline_alert a → record_of_alert a r →
  ∃ env, parse_json envelope_from_slice r.2 = Ok env ∧ carries a env.
Proof.
  intros Hn (Ha & tick & now & e & n & Hr) (m & Hm & Hk & Hv). destruct r as [key value]. cbn [fst snd] in *.
  destruct (published_record_accepted parse_from_rfc3339_ns nanos_i64 tick now e n node a (mkKafkaAnswer true true)
    (mkPublisher true 0 0) (mkPublisher true (wrapping_add 64 0 1) 0) key value) as (env & Hp & _ & _ & H1 & H2 & H3 & H4 & _);
    [done..| |exists env; split; [done|split_and!; [done..| |done]; rewrite H3; by apply alert_value_shown]].
  unfold publish_step. cbn [pb_connected negb andb]. rewrite Hm, Hv. by rewrite Hk.
Qed.

Lemma none_malformed handled : Forall (λ r, is_Some (parsed envelope_from_slice r)) handled →
  Z.of_nat (length (malformed envelope_from_slice handled)) = 0.
Proof.
  unfold malformed. induction 1 as [|r l Hr _ IH]; [done|]. rewrite filter_cons_False; [done|]. by rewrite bool_decide_true.
Qed.

(** The envelopes of the topic are those of the alerts it was made from, in order. *)
Lemma topic_parsed l records : Forall is_byte node → Forall pipeline_alert l → Forall2 record_of_alert l records →
  ∃ envs, omap (parsed envelope_from_slice) (topic_records records) = envs ∧ Forall2 carries l envs ∧
          Forall (λ r, is_Some (parsed envelope_from_slice r)) (topic_records records).
Proof.
  intros Hn Hl HF. unfold topic_records. generalize 0%nat as k.
  assert (∀ f : nat → nat, ∃ envs,
    omap (parsed envelope_from_slice) (imap (λ i r, mkPartitionRecord (Z.of_nat (f i)) (Some r.2)) records) = envs ∧
    Forall2 carries l envs ∧
    Forall (λ r, is_Some (parsed envelope_from_slice r)) (imap (λ i r, mkPartitionRecord (Z.of_nat (f i)) (Some r.2)) records)) as H.
  2: { intros _. apply (H (λ i, i)). }
  induction HF as [|a r l records Har HF IH]; intros f; [by exists []|]. inversion Hl; subst.
  destruct (record_parses a r) as (env & Hp & Hc); [done..|]. rewrite imap_cons.
  destruct (IH ltac:(done) (λ i, f (S i))) as (envs & He & HF' & Hall).
  assert (Hone : parsed envelope_from_slice (mkPartitionRecord (Z.of_nat (f 0%nat)) (Some r.2)) = Some env).
  { unfold parsed. cbn [pr_value default from_option id]. by rewrite Hp. }
  exists (env :: envs). cbn [omap list_omap]. rewrite Hone. split_and!; [by f_equal|by constructor|].
  constructor; [by rewrite Hone|exact Hall].
Qed.

Context `{Sink jv Cfg Body} (capacity : Z) (fetch : nat → Z → result (list partition_record)).

(** A new service has read nothing. *)
Lemma service_new_at from_slice log (s0 : service jv) : service_new capacity = Some s0 →
  0 ≤ capacity ∧ positioned log s0 ∧ malformed_counted from_slice s0 ∧ length (sv_handled s0) = 0%nat.
Proof.
  unfold service_new, spawn, channel_opens. case_bool_decide; [|done]. intros [= <-].
  split_and!; [lia| |done|done]. constructor; [apply prefix_nil|by exists 0%nat].
Qed.

(** C19: alerts are accounted for from the detection pipeline to the collector. The topic
    holds the records that the broker acknowledged to this agent and no others, at the
    offsets 0, 1, 2 and so on, and a fetch answers with the next records from the offset
    asked for, or fails; the alerts handed over are alerts of the pipeline with fields of
    their types, fewer than a [u64] counts. Then, whatever the order of the event loop's
    hand-overs, the publisher's turns, the consumer's fetches and the worker's sends, and
    whatever the broker answers to the publisher and the collector to the worker: no record
    of the topic is refused as malformed; the alerts the collector has acknowledged are
    alerts of the pipeline, in the order they were raised, each with its node, type and rule
    and with every field of the alert under its own name in the payload; and each alert
    raised is counted exactly once, as dropped by the agent, waiting in its channel, failed
    to publish, waiting in the topic, dropped by the forwarder, waiting there, forwarded or
    failed. *)
Theorem alerts_conserved_end_to_end acts st0 st facts s0 s :
  Forall is_byte node → Forall pipeline_alert (submitted acts) → Z.of_nat (length (submitted acts)) < 2 ^ 64 →
  stream_spawn true config = Some (KafkaPublisher config, st0) → run_stream acts st0 = Some st →
  (∀ i off rs, fetch i off = Ok rs → ∃ n, rs = take n (filter (λ r, off ≤ pr_offset r) (topic_records (as_records st)))) →
  service_new capacity = Some s0 → service_run capacity envelope_from_slice fetch facts s0 = Some s →
  let f := sv_fw s in
  let waiting := Z.of_nat (length (as_records st)) - Z.of_nat (length (sv_handled s)) in
  vec_get (lit "malformed") (fm_dropped_total (fw_metrics f)) = 0 ∧
  (∃ l, l `sublist_of` submitted acts ∧ Forall2 carries l (fw_acked f)) ∧ 0 ≤ waiting ∧
  Z.of_nat (length (submitted acts)) =
    ts_dropped (as_stream st) + Z.of_nat (length (ts_queue (as_stream st))) + Z.of_nat (length (option_list (as_hand st)))
    + pb_failed (as_publisher st) + waiting + fs_dropped (fw_stats f) + Z.of_nat (length (fw_queue f))
    + Z.of_nat (length (option_list (fw_sending f))) + fs_forwarded (fw_stats f) + fs_failed (fw_stats f).
Proof.
  intros Hn Hal Hlen Hspawn Hrun Hfetch Hnew Hsrv f waiting.
  assert (Hch : stream_channel (tc_channel_capacity config) = Some st0).
  { unfold stream_spawn in Hspawn. by apply bind_Some in Hspawn as (x & Hx & [= <-]). }
  apply (channel_streamed (λ b, Ok (behavior_value b)) (λ c, Ok (siem_value c)) message_to_json parse_from_rfc3339_ns
    (KafkaPublisher config)) in Hch as [Hcap Hst0].
  destruct (run_streamed _ _ _ _ _ _ acts [] st0 st Hcap Hlen Hst0 Hrun)
    as [Hsub Henq (dn & Hdn & Hrec) Hpub _ Hnn]. cbn [app] in *.
  assert (Hdnsub : dn `sublist_of` submitted acts) by (etrans; [|exact Hdn]; by apply sublist_inserts_r).
  assert (Hdal : Forall pipeline_alert dn).
  { apply Forall_forall. intros a Ha. rewrite Forall_forall in Hal. apply Hal. eapply elem_of_sublist; eauto. }
  destruct (topic_parsed dn (as_records st) Hn Hdal Hrec) as (envs & Henvs & Hcar & Hsome).
  destruct (service_new_at envelope_from_slice (topic_records (as_records st)) s0 Hnew) as (Hc0 & Hpos & Hmal & H0).
  assert (Hpre : sv_handled s `prefix_of` topic_records (as_records st)).
  { destruct (run_positioned capacity envelope_from_slice fetch _ Hfetch facts s0 s (topic_contiguous _) Hpos Hsrv) as [Hp _].
    etrans; [|exact Hp]. by apply prefix_app_r. }
  pose proof (prefix_length _ _ Hpre) as Hle. rewrite topic_records_length in Hle.
  pose proof (run_handled _ _ _ _ _ _ Hsrv) as Hhl.
  destruct (run_tallied capacity envelope_from_slice fetch facts s0 s (new_tallied _ _ _ Hc0 Hnew)) as [Hr Hd He [Hf Hfa] Ho _ _ _];
    [lia|done|].
  assert (Hm0 : vec_get (lit "malformed") (fm_dropped_total (fw_metrics (sv_fw s))) = 0).
  { rewrite (run_malformed _ _ _ _ _ _ Hmal Hsrv). apply none_malformed. destruct Hpre as [rest Heq].
    rewrite Heq in Hsome. by apply Forall_app in Hsome as [? _]. }
  split_and!; [exact Hm0| | |].
  - destruct (Forall2_sublist carries dn envs (fw_acked f) Hcar) as (l & Hl & HF).
    { trans (omap (parsed envelope_from_slice) (sv_handled s)).
      - etrans; [|exact Ho]. by apply sublist_inserts_r.
      - rewrite <-Henvs. destruct Hpre as [rest ->]. rewrite omap_app. by apply sublist_inserts_r. }
    exists l. split; [by etrans|done].
  - subst waiting. lia.
  - subst waiting f. rewrite Hsub, Henq, Hpub. rewrite Hm0 in Hr. lia.
Qed.
End end_to_end.

(** Any stream [spawn_from_env] starts, with the publisher or with the drain that
    stands in for it, keeps the account of [streamed]; the drain counts as published
    what it discards. *)
Theorem alert_stream_conserves {J} bv sv (mv : TelemetryKafkaMessage J → result bytes) rfc kafka_stream config d st0 acts st :
  stream_spawn_from_env kafka_stream config = Some (d, st0) → stream_run bv sv mv rfc d acts st0 = Some st →
  Z.of_nat (length (submitted acts)) < 2 ^ 64 →
  ∃ capacity, streamed bv sv mv rfc d capacity (submitted acts) st.
Proof.
  intros Hspawn Hrun Hn.
  assert (∃ capacity, stream_channel capacity = Some st0) as [capacity Hch].
  { unfold stream_spawn_from_env, stream_spawn, stream_spawn_noop in Hspawn.
    destruct config as [c|]; [destruct kafka_stream|]; apply bind_Some in Hspawn as (x & Hx & [= _ <-]); eauto. }
  exists capacity. apply (channel_streamed bv sv mv rfc d) in Hch as [Hc Hs].
  by apply (run_streamed bv sv mv rfc d capacity acts [] st0 st).
Qed.

(** ** A sample: two alerts, of which the broker is unreachable for the first *)
Definition demo_stream_config : TelemetryStreamConfig := mkTelemetryStreamConfig [lit "kafka:9092"] DEFAULT_TOPIC (lit "node-b") 8.
Definition demo_stream_start : alert_stream :=
  mkAlertStream (mkTelemetryStream [] 8 true 0 0) None (mkPublisher false 0 0) [].
Definition demo_stream_acts : list stream_action :=
  [Enqueue (Critical demo_siem_alert); Recv; Enqueue (Critical demo_siem_alert); Deal (mkKafkaAnswer false true);
   Recv; Deal (mkKafkaAnswer true true)].
Definition demo_streamed : alert_stream :=
  default demo_stream_start
    (stream_run (λ b, Ok (behavior_value b)) (λ c, Ok (siem_value c)) message_to_json demo_nanos
       (KafkaPublisher demo_stream_config) demo_stream_acts demo_stream_start).
Definition demo_topic (_ : nat) (off : Z) : result (list partition_record) :=
  Ok (filter (λ r, off ≤ pr_offset r) (topic_records (as_records demo_streamed))).
Definition demo_splunk : Sink jv Splunk.ForwarderConfig (HecEventBody jv) := splunk_sink value_get value_as_str.
Definition demo_collected : service jv :=
  let start := mkService 0 [] 0 0 [] (mkForwarder [] None (mkForwarderStats 0 0 0 0) (mkForwardMetrics 0 ∅ ∅ 0) 250 []) in
  default start (service_run (H := demo_splunk) 8 envelope_from_slice demo_topic
                   [Fetch; Handle; Take; Finish (λ _, Response 200)] start).

Lemma whole_fetch log off rs : Ok (filter (λ r, off ≤ pr_offset r) log) = Ok rs →
  ∃ n, rs = take n (filter (λ r, off ≤ pr_offset r) log).
Proof. intros [= <-]. eexists. symmetry. by apply take_ge. Qed.

Lemma demo_collected_one :
  as_records demo_streamed = [demo_record] ∧ pb_failed (as_publisher demo_streamed) = 1 ∧
  fs_forwarded (fw_stats (sv_fw demo_collected)) = 1 ∧ length (fw_acked (sv_fw demo_collected)) = 1%nat.
Proof. vm_compute. done. Qed.

Lemma alerts_conserved_end_to_end_witness :
  let f := sv_fw demo_collected in
  let waiting := Z.of_nat (length (as_records demo_streamed)) - Z.of_nat (length (sv_handled demo_collected)) in
  vec_get (lit "malformed") (fm_dropped_total (fw_metrics f)) = 0 ∧
  (∃ l, l `sublist_of` submitted demo_stream_acts ∧ Forall2 (carries demo_stream_config) l (fw_acked f)) ∧ 0 ≤ waiting ∧
  Z.of_nat (length (submitted demo_stream_acts)) =
    ts_dropped (as_stream demo_streamed) + Z.of_nat (length (ts_queue (as_stream demo_streamed)))
    + Z.of_nat (length (option_list (as_hand demo_streamed))) + pb_failed (as_publisher demo_streamed) + waiting
    + fs_dropped (fw_stats f) + Z.of_nat (length (fw_queue f)) + Z.of_nat (length (option_list (fw_sending f)))
    + fs_forwarded (fw_stats f) + fs_failed (fw_stats f).
Proof.
  apply (alerts_conserved_end_to_end demo_nanos) with (H := demo_splunk) (capacity := 8) (fetch := demo_topic)
    (st0 := demo_stream_start) (facts := [Fetch; Handle; Take; Finish (λ _, Response 200)])
    (s0 := mkService 0 [] 0 0 [] (mkForwarder [] None (mkForwarderStats 0 0 0 0) (mkForwardMetrics 0 ∅ ∅ 0) 250 [])).
  - intros s n [= <-]. lia.
  - apply lit_is_byte.
  - assert (pipeline_alert (Critical demo_siem_alert)) as Ha.
    { split; [apply (bool_decide_eq_true_1 (siem_typed demo_siem_alert)); vm_compute; reflexivity|].
      exists (mkTick 0 (lit "t")), (lit "2024-03-09T16:00:00+00:00"), demo_tmp_telemetry, DataNormalizer_new.
      vm_compute. left. }
    constructor; [exact Ha|constructor; [exact Ha|constructor]].
  - reflexivity.
  - reflexivity.
  - vm_compute. reflexivity.
  - intros i off rs. apply whole_fetch.
  - reflexivity.
  - vm_compute. reflexivity.
Defined.
