(* ===== verification/Endpoints.v ===== *)
(** * Metric registries and HTTP endpoints

    The constructors of the three sets of counters ([AgentMetrics::new],
    [DdMetrics::new], [HecMetrics::new]), the handlers of [/metrics] and [/healthz]
    and the servers that route to them: [observability/metrics.rs],
    [observability/prometheus.rs], [metrics.rs] and [kafka.rs] of the forwarders.
    The prometheus crate is the class [Prometheus]. A collector registered with a
    registry shares its value with the field it was cloned from, so it is modelled
    by how it reads the counters. The getters that make a labelled child as a side
    effect are called by tests only. *)

From S2P Require Import Prelude RustStd Common PathDeny LsmPin Metrics Integrity Forwarder Json SinkBodies.

(** ** The prometheus crate *)
Inductive metric_type : Type := CounterType | GaugeType.
Record Opts : Type := mkOpts { o_name : bytes; o_help : bytes }.
(** One value of a metric and its labels; values as in [Metrics]. *)
Record sample : Type := mkSample { sm_labels : list (bytes * bytes); sm_value : Z }.
Record MetricFamily : Type := mkMetricFamily {
  mf_name : bytes; mf_help : bytes; mf_type : metric_type; mf_metric : list sample
}.
Record collector (M : Type) : Type := mkCollector {
  cl_type : metric_type; cl_opts : Opts; cl_labels : list bytes; cl_read : M → list sample
}.
Arguments mkCollector {M}.
Arguments cl_type {M}.
Arguments cl_opts {M}.
Arguments cl_labels {M}.
Arguments cl_read {M}.

Definition cl_name {M} (c : collector M) : bytes := o_name (cl_opts c).
Definition family {M} (m : M) (c : collector M) : MetricFamily :=
  mkMetricFamily (cl_name c) (o_help (cl_opts c)) (cl_type c) (cl_read c m).

(** The names the crate documents as valid: [[a-zA-Z_:][a-zA-Z0-9_:]*] for a metric,
    without the colon for a label; help texts are not empty, labels are distinct. *)
Definition name_start (colon : bool) (b : Z) : bool :=
  bool_decide (65 ≤ b ≤ 90) || bool_decide (97 ≤ b ≤ 122) || bool_decide (b = 95) || (colon && bool_decide (b = 58)).
Definition valid_name (colon : bool) (s : bytes) : bool :=
  match s with
  | [] => false
  | b :: s => name_start colon b && forallb (λ b, name_start colon b || bool_decide (48 ≤ b ≤ 57)) s
  end.
Definition valid_desc (o : Opts) (labels : list bytes) : bool :=
  valid_name true (o_name o) && negb (is_empty (o_help o)) && forallb (valid_name false) labels && bool_decide (NoDup labels).

(** What the sources use of the crate, and what it documents: a valid description is
    accepted, a collector with a name of its own is registered, [gather] collects the
    registered collectors that have a value, and the text encoder accepts families with
    a name and a value. *)
Class Prometheus (M : Type) : Type := {
  Registry : Type;
  registry_new : Registry;
  desc_check : Opts → list bytes → result ();
  register : collector M → Registry → result Registry;
  registered : Registry → list (collector M);
  gather : Registry → M → list MetricFamily;
  encode : list MetricFamily → result bytes;
  desc_valid o labels : valid_desc o labels = true → desc_check o labels = Ok ();
  registered_new : registered registry_new = [];
  register_fresh c r : cl_name c ∉ map cl_name (registered r) →
    ∃ r', register c r = Ok r' ∧ registered r' = registered r ++ [c];
  gather_families r m : gather r m ≡ₚ map (family m) (filter (λ c, cl_read c m ≠ []) (registered r));
  encode_families fs : Forall (λ f, mf_name f ≠ [] ∧ mf_metric f ≠ []) fs → is_ok (encode fs) = true
}.

Section constructors.
Context `{Prometheus M}.

(** [Counter::with_opts], [Gauge::with_opts], [CounterVec::new] with one label. *)
Definition counter_with_opts (o : Opts) (f : M → Z) : result (collector M) :=
  _ ← desc_check o []; Ok (mkCollector CounterType o [] (λ m, [mkSample [] (f m)])).
Definition gauge_with_opts (o : Opts) (f : M → Z) : result (collector M) :=
  _ ← desc_check o []; Ok (mkCollector GaugeType o [] (λ m, [mkSample [] (f m)])).
Definition vec_samples (label : bytes) (v : gmap bytes Z) : list sample :=
  map (λ x, mkSample [(label, x.1)] x.2) (map_to_list v).
Definition counter_vec (o : Opts) (label : bytes) (f : M → gmap bytes Z) : result (collector M) :=
  _ ← desc_check o [label]; Ok (mkCollector CounterType o [label] (λ m, vec_samples label (f m))).

Lemma counter_ok o f : valid_desc o [] = true →
  counter_with_opts o f = Ok (mkCollector CounterType o [] (λ m, [mkSample [] (f m)])).
Proof. intros Hv. unfold counter_with_opts. by rewrite (desc_valid _ _ Hv). Qed.
Lemma gauge_ok o f : valid_desc o [] = true →
  gauge_with_opts o f = Ok (mkCollector GaugeType o [] (λ m, [mkSample [] (f m)])).
Proof. intros Hv. unfold gauge_with_opts. by rewrite (desc_valid _ _ Hv). Qed.
Lemma vec_ok o l f : valid_desc o [l] = true →
  counter_vec o l f = Ok (mkCollector CounterType o [l] (λ m, vec_samples l (f m))).
Proof. intros Hv. unfold counter_vec. by rewrite (desc_valid _ _ Hv). Qed.

(** The series a scrape shows. *)
Definition exported (fs : list MetricFamily) (name : bytes) (labels : list (bytes * bytes)) (v : Z) : Prop :=
  ∃ f, f ∈ fs ∧ mf_name f = name ∧ mkSample labels v ∈ mf_metric f.

Lemma gather_exported r m name labels v :
  exported (gather r m) name labels v ↔ ∃ c, c ∈ registered r ∧ cl_name c = name ∧ mkSample labels v ∈ cl_read c m.
Proof.
  unfold exported. setoid_rewrite gather_families. split.
  - intros (f & (c & -> & (_ & Hc)%list_elem_of_filter)%list_elem_of_fmap & Hn & Hs). by exists c.
  - intros (c & Hc & Hn & Hs). exists (family m c). split; [|done]. apply list_elem_of_fmap. exists c. split; [done|].
    apply list_elem_of_filter. split; [|done]. intros He. rewrite He in Hs. by apply elem_of_nil in Hs.
Qed.

Lemma gather_encodes r m : Forall (λ c, cl_name c ≠ []) (registered r) → ∃ text, encode (gather r m) = Ok text.
Proof.
  intros Hn. assert (is_ok (encode (gather r m)) = true) as Hok.
  { apply encode_families. rewrite gather_families. apply Forall_fmap, Forall_forall.
    intros c (He & Hc)%list_elem_of_filter. rewrite Forall_forall in Hn. split; [by apply Hn|done]. }
  destruct (encode (gather r m)) as [text|]; [by exists text|done].
Qed.

Lemma vec_samples_in label v labels n :
  mkSample labels n ∈ vec_samples label v ↔ ∃ l, labels = [(label, l)] ∧ v !! l = Some n.
Proof.
  unfold vec_samples. rewrite list_elem_of_fmap. split.
  - intros ([l k] & [= -> ->] & Hin%elem_of_map_to_list). by exists l.
  - intros (l & -> & Hl). exists (l, n). split; [done|]. by apply elem_of_map_to_list.
Qed.
End constructors.

(** ** The agent's counters ([AgentMetrics::new]) *)
Definition EVENTS_PROCESSED : Opts := mkOpts (lit "ebpf_events_processed_total")
  (lit "execve visibility events accepted by the user-space process monitor").
Definition EVENTS_DROPPED : Opts := mkOpts (lit "ebpf_events_dropped_total")
  (lit "execve events dropped by kernel token-bucket rate limiting and user-space MPSC backpressure").
Definition UPTIME_SECONDS : Opts := mkOpts (lit "agent_uptime_seconds")
  (lit "Wall-clock seconds since the agent orchestrator started").
Definition INTEGRITY_FAILURES : Opts := mkOpts (lit "agent_integrity_failure_total")
  (lit "Runtime integrity check failures (Issue #44 Phase 2 / #75); label reason=exe_digest|on_disk_binary|lsm_link|pinned_map").
Definition IDENTITY_INVALIDATIONS : Opts := mkOpts (lit "identity_correlator_invalidation_total")
  (lit "Slice 2b IDENTITY_ALLOW_CGROUPS invalidations; label reason=pod_delete|cgroup_teardown|resync_sweep|pe_allowlist_revoke").
Definition IDENTITY_RESYNCS : Opts := mkOpts (lit "identity_correlator_resync_total")
  (lit "Slice 2b-i forced correlator resyncs; label reason=inotify_overflow|startup|watch_error").
Definition POLICY_SYNC_THROTTLED : Opts := mkOpts (lit "policy_sync_throttled_total")
  (lit "GET /v1/policy-bundle HTTP 429 from PE (Issue #176); throttled with backoff — not signature/temporal rejection").
Definition PIN_ABI_MISMATCH : Opts := mkOpts (lit "agent_pin_abi_mismatch_total")
  (lit "Pinned BPF map ABI mismatches detected before load (Issue #208 / ADR-002); label map").
Definition PIN_ABI_MIGRATION : Opts := mkOpts (lit "agent_pin_abi_migration_total")
  (lit "Pinned BPF map ABI migration outcomes (Issue #208); label result=compatible|migrated|resumed|bootstrap_fallback|process_map_recreated").
Definition REASON : bytes := lit "reason".

Section agent.
Context `{Prometheus AgentMetrics}.

(** The registry and the counters at clock reading [now]. *)
Definition agent_metrics_new (now : Z) : result (Registry * AgentMetrics) :=
  let r := registry_new in
  processed ← with_context "failed to create ebpf_events_processed_total counter" (counter_with_opts EVENTS_PROCESSED events_processed);
  dropped ← with_context "failed to create ebpf_events_dropped_total counter" (counter_with_opts EVENTS_DROPPED events_dropped);
  uptime ← with_context "failed to create agent_uptime_seconds gauge" (gauge_with_opts UPTIME_SECONDS uptime_seconds);
  integrity ← with_context "failed to create agent_integrity_failure_total counter"
    (counter_vec INTEGRITY_FAILURES REASON integrity_failures);
  invalidations ← with_context "failed to create identity_correlator_invalidation_total counter"
    (counter_vec IDENTITY_INVALIDATIONS REASON identity_invalidations);
  resyncs ← with_context "failed to create identity_correlator_resync_total counter"
    (counter_vec IDENTITY_RESYNCS REASON identity_resyncs);
  throttled ← with_context "failed to create policy_sync_throttled_total counter"
    (counter_with_opts POLICY_SYNC_THROTTLED policy_sync_throttled);
  mismatch ← with_context "failed to create agent_pin_abi_mismatch_total counter"
    (counter_vec PIN_ABI_MISMATCH (lit "map") pin_abi_mismatch);
  migration ← with_context "failed to create agent_pin_abi_migration_total counter"
    (counter_vec PIN_ABI_MIGRATION (lit "result") pin_abi_migration);
  r ← with_context "failed to register ebpf_events_processed_total" (register processed r);
  r ← with_context "failed to register ebpf_events_dropped_total" (register dropped r);
  r ← with_context "failed to register agent_uptime_seconds" (register uptime r);
  r ← with_context "failed to register agent_integrity_failure_total" (register integrity r);
  r ← with_context "failed to register identity_correlator_invalidation_total" (register invalidations r);
  r ← with_context "failed to register identity_correlator_resync_total" (register resyncs r);
  r ← with_context "failed to register policy_sync_throttled_total" (register throttled r);
  r ← with_context "failed to register agent_pin_abi_mismatch_total" (register mismatch r);
  r ← with_context "failed to register agent_pin_abi_migration_total" (register migration r);
  Ok (r, metrics_new now).

(** The collectors of a registry that was made. *)
Definition scalar_collector {M} (t : metric_type) (o : Opts) (f : M → Z) : collector M :=
  mkCollector t o [] (λ m, [mkSample [] (f m)]).
Definition vec_collector {M} (o : Opts) (l : bytes) (f : M → gmap bytes Z) : collector M :=
  mkCollector CounterType o [l] (λ m, vec_samples l (f m)).
Definition agent_collectors : list (collector AgentMetrics) :=
  [scalar_collector CounterType EVENTS_PROCESSED events_processed; scalar_collector CounterType EVENTS_DROPPED events_dropped;
   scalar_collector GaugeType UPTIME_SECONDS uptime_seconds; vec_collector INTEGRITY_FAILURES REASON integrity_failures;
   vec_collector IDENTITY_INVALIDATIONS REASON identity_invalidations; vec_collector IDENTITY_RESYNCS REASON identity_resyncs;
   scalar_collector CounterType POLICY_SYNC_THROTTLED policy_sync_throttled; vec_collector PIN_ABI_MISMATCH (lit "map") pin_abi_mismatch;
   vec_collector PIN_ABI_MIGRATION (lit "result") pin_abi_migration].

Ltac make_collectors := rewrite ?counter_ok, ?gauge_ok, ?vec_ok by reflexivity; cbn [with_context mbind result_bind].
(** The next [register]: its collector's name is not among those registered. *)
Ltac register_next Hr :=
  match goal with
  | |- context [register ?c ?r] =>
      let r' := fresh "r" in let Hr' := fresh "Hr" in
      destruct (register_fresh c r) as (r' & -> & Hr');
      [rewrite Hr; apply (bool_decide_eq_true_1 (_ ∉ _)); vm_compute; reflexivity
      |rewrite Hr in Hr'; clear Hr; rename Hr' into Hr; cbn [with_context mbind result_bind app] in *]
  end.

(** Start-up gets its counters: the nine descriptions are valid and their names differ. *)
Lemma agent_metrics_new_ok now :
  ∃ r, agent_metrics_new now = Ok (r, metrics_new now) ∧ registered r = agent_collectors.
Proof.
  unfold agent_metrics_new. make_collectors. pose proof registered_new as Hr.
  do 9 register_next Hr. eexists. split; [reflexivity|exact Hr].
Qed.
End agent.

(** ** The agent's endpoints ([prometheus.rs]) *)

(** A response: status, content type where the handler sets one, body. *)
Record response : Type := mkResponse { rs_status : Z; rs_content_type : option bytes; rs_body : bytes }.
(** [Result<String, StatusCode>] as a response. *)
Definition text_response (r : bytes + Z) : response :=
  match r with inl text => mkResponse 200 None text | inr status => mkResponse status None [] end.
Definition not_found : response := mkResponse 404 None [].

(** The routes of the listener. *)
Inductive endpoint : Type := MetricsEndpoint | HealthzEndpoint.
Definition agent_app : list (bytes * endpoint) := [(lit "/metrics", MetricsEndpoint); (lit "/healthz", HealthzEndpoint)].
Definition route (app : list (bytes * endpoint)) (path : bytes) : option endpoint :=
  (λ p : nat * (bytes * endpoint), p.2.2) <$> list_find (λ p, p.1 = path) app.

Section agent_endpoints.
Context `{Prometheus AgentMetrics}.

(** [metrics_handler]: the uptime is brought up to date before the counters are read. *)
Definition metrics_handler (r : Registry) (now : Z) (m : AgentMetrics) : AgentMetrics * (bytes + Z) :=
  let m := refresh_uptime now m in
  (m, match encode (gather r m) with Ok text => inl text | Err _ => inr 500 end).
Definition healthz_response (v : node_view) (paths : EnforcementPinPaths) (state : option PolicySyncState) : response :=
  mkResponse (healthz_handler v paths state).1 (Some (lit "application/json")) (health_text (evaluate v paths state)).

(** A [GET] of [path] while the node looks like [v] and [state] is what the lock gave. *)
Definition http_get (r : Registry) (app : list (bytes * endpoint)) (path : bytes) (now : Z) (v : node_view)
    (paths : EnforcementPinPaths) (state : option PolicySyncState) (m : AgentMetrics) : AgentMetrics * response :=
  match route app path with
  | Some MetricsEndpoint => let '(m, t) := metrics_handler r now m in (m, text_response t)
  | Some HealthzEndpoint => (m, healthz_response v paths state)
  | None => (m, not_found)
  end.

(** [spawn_metrics_server]: the port and the routes served on it, unless it cannot be
    bound. *)
Definition spawn_metrics_server (bind : Z → result ()) (port_var : option bytes) : result (Z * list (bytes * endpoint)) :=
  let port := metrics_port port_var in
  _ ← with_context "failed to bind Prometheus metrics listener" (bind port);
  Ok (port, agent_app).

(** ** A scrape shows what was counted *)
Inductive metric_op : Type :=
| OpProcessed
| OpUserspaceDrop
| OpDropped (delta : Z)
| OpUptime (now : Z)
| OpIntegrity (reason : bytes)
| OpInvalidation (reason : bytes)
| OpResync (reason : bytes)
| OpThrottled
| OpMismatch (map : bytes)
| OpMigration (result : bytes).

Definition apply_op (m : AgentMetrics) (op : metric_op) : AgentMetrics :=
  match op with
  | OpProcessed => record_event_processed m
  | OpUserspaceDrop => record_userspace_drop m
  | OpDropped delta => inc_dropped_by delta m
  | OpUptime now => refresh_uptime now m
  | OpIntegrity reason => record_integrity_failure reason m
  | OpInvalidation reason => record_identity_invalidation reason m
  | OpResync reason => record_identity_resync reason m
  | OpThrottled => record_policy_sync_throttled m
  | OpMismatch map => record_pin_abi_mismatch map m
  | OpMigration result => record_pin_abi_migration result m
  end.

(** The exported series an operation adds to, and what it adds. *)
Definition op_series (op : metric_op) : option (bytes * list (bytes * bytes) * Z) :=
  match op with
  | OpProcessed => Some (o_name EVENTS_PROCESSED, [], 1)
  | OpDropped delta => Some (o_name EVENTS_DROPPED, [], Z.max 0 delta)
  | OpIntegrity r => Some (o_name INTEGRITY_FAILURES, [(REASON, r)], 1)
  | OpInvalidation r => Some (o_name IDENTITY_INVALIDATIONS, [(REASON, r)], 1)
  | OpResync r => Some (o_name IDENTITY_RESYNCS, [(REASON, r)], 1)
  | OpThrottled => Some (o_name POLICY_SYNC_THROTTLED, [], 1)
  | OpMismatch r => Some (o_name PIN_ABI_MISMATCH, [(lit "map", r)], 1)
  | OpMigration r => Some (o_name PIN_ABI_MIGRATION, [(lit "result", r)], 1)
  | OpUserspaceDrop | OpUptime _ => None
  end.
Definition amount (key : bytes * list (bytes * bytes)) (op : metric_op) : Z :=
  match op_series op with Some (k, d) => if bool_decide (k = key) then d else 0 | None => 0 end.
Definition series_total (key : bytes * list (bytes * bytes)) (ops : list metric_op) : Z :=
  foldr (λ op n, amount key op + n) 0 ops.
(** Whether some operation added to the series. *)
Definition touched (key : bytes * list (bytes * bytes)) (ops : list metric_op) : Prop :=
  ∃ op, op ∈ ops ∧ fst <$> op_series op = Some key.

Lemma series_total_snoc key ops op : series_total key (ops ++ [op]) = series_total key ops + amount key op.
Proof. unfold series_total. induction ops as [|x ops IH]; cbn; [lia|]. rewrite IH. lia. Qed.

Lemma untouched_total key ops : ¬ touched key ops → series_total key ops = 0.
Proof.
  induction ops as [|op ops IH]; intros Hn; [done|]. change (amount key op + series_total key ops = 0). rewrite IH.
  - unfold amount. destruct (op_series op) as [[k d]|] eqn:Hs; [|done]. rewrite bool_decide_false; [done|].
    intros ->. apply Hn. exists op. split; [by left|]. by rewrite Hs.
  - intros (op' & Hin & Hk). apply Hn. exists op'. split; [by right|done].
Qed.

Lemma scalar_total (f : AgentMetrics → Z) o m ops :
  (∀ m op, f (apply_op m op) = f m + amount (o_name o, []) op) →
  f (foldl apply_op m ops) = f m + series_total (o_name o, []) ops.
Proof.
  intros Hf. induction ops as [|op ops IH] using rev_ind; [cbn; lia|].
  rewrite foldl_app, series_total_snoc. cbn [foldl]. rewrite Hf, IH. lia.
Qed.

(** An operation adds one to a label of the vector, or leaves it. *)
Definition vec_field (g : AgentMetrics → gmap bytes Z) (o : Opts) (label : bytes) : Prop :=
  ∀ m op,
    (∃ l, op_series op = Some (o_name o, [(label, l)], 1) ∧ g (apply_op m op) = vec_inc l (g m)) ∨
    (g (apply_op m op) = g m ∧ ∀ l, fst <$> op_series op ≠ Some (o_name o, [(label, l)])).

Lemma vec_total g o label now ops l v :
  vec_field g o label → g (metrics_new now) = ∅ →
  g (foldl apply_op (metrics_new now) ops) !! l = Some v ↔
  touched (o_name o, [(label, l)]) ops ∧ v = series_total (o_name o, [(label, l)]) ops.
Proof.
  intros Hg Hempty. revert v. induction ops as [|op ops IH] using rev_ind; intros v.
  { cbn. rewrite Hempty, lookup_empty. split; [done|]. intros [(op & Hop & _) _]. by apply elem_of_nil in Hop. }
  rewrite foldl_app, series_total_snoc. cbn [foldl]. set (m := foldl apply_op (metrics_new now) ops) in *.
  assert (Ht : touched (o_name o, [(label, l)]) (ops ++ [op]) ↔
               touched (o_name o, [(label, l)]) ops ∨ fst <$> op_series op = Some (o_name o, [(label, l)])).
  { unfold touched. setoid_rewrite elem_of_app. setoid_rewrite list_elem_of_singleton. naive_solver. }
  rewrite Ht. unfold amount. destruct (Hg m op) as [(l' & Hs & ->)|[-> Hn]].
  - rewrite Hs. cbn [fmap option_fmap option_map fst]. unfold vec_inc. destruct (decide (l = l')) as [->|Hne].
    + rewrite lookup_insert_eq, bool_decide_true by done.
      assert (default 0 (g m !! l') = series_total (o_name o, [(label, l')]) ops) as ->; [|naive_solver].
      destruct (g m !! l') as [n|] eqn:Hl; cbn; [by destruct (proj1 (IH n) eq_refl) as [_ ->]|].
      symmetry. apply untouched_total. intros Hto. pose proof (proj2 (IH _) (conj Hto eq_refl)). done.
    + rewrite lookup_insert_ne by done. rewrite IH, bool_decide_false by naive_solver. rewrite Z.add_0_r. naive_solver.
  - rewrite IH. assert (match op_series op with Some (k, d) => if bool_decide (k = (o_name o, [(label, l)])) then d else 0
                         | None => 0 end = 0) as ->; [|rewrite Z.add_0_r; naive_solver].
    specialize (Hn l). destruct (op_series op) as [[k d]|]; [|done]. rewrite bool_decide_false; [done|]. intros ->. by apply Hn.
Qed.

Lemma started_kept m op : started_at (apply_op m op) = started_at m.
Proof. destruct op; try reflexivity. cbn. unfold inc_dropped_by. by case_bool_decide. Qed.
Lemma started_at_run start ops : started_at (foldl apply_op (metrics_new start) ops) = start.
Proof. induction ops as [|op ops IH] using rev_ind; [done|]. rewrite foldl_app. cbn [foldl]. by rewrite started_kept. Qed.

Ltac vec_field_tac :=
  intros m op; destruct op; try (left; eexists; split; reflexivity); right;
  (split; [try reflexivity; cbn; unfold inc_dropped_by; by case_bool_decide
          |intros l Hl; cbn in Hl; try discriminate; injection Hl as Hn; discriminate]).
Lemma integrity_field : vec_field integrity_failures INTEGRITY_FAILURES REASON.
Proof. vec_field_tac. Qed.
Lemma invalidations_field : vec_field identity_invalidations IDENTITY_INVALIDATIONS REASON.
Proof. vec_field_tac. Qed.
Lemma resyncs_field : vec_field identity_resyncs IDENTITY_RESYNCS REASON.
Proof. vec_field_tac. Qed.
Lemma mismatch_field : vec_field pin_abi_mismatch PIN_ABI_MISMATCH (lit "map").
Proof. vec_field_tac. Qed.
Lemma migration_field : vec_field pin_abi_migration PIN_ABI_MIGRATION (lit "result").
Proof. vec_field_tac. Qed.

Ltac scalar_field_tac :=
  intros m op; unfold amount; destruct op; cbn [op_series apply_op];
  rewrite ?bool_decide_true, ?bool_decide_false by (done || (intros Hk; injection Hk as Hk; discriminate)); cbn; try lia;
  unfold inc_dropped_by; case_bool_decide; cbn; lia.
Lemma processed_total_run start ops :
  events_processed (foldl apply_op (metrics_new start) ops) = series_total (o_name EVENTS_PROCESSED, []) ops.
Proof. rewrite (scalar_total _ EVENTS_PROCESSED); [done|]. scalar_field_tac. Qed.
Lemma dropped_total_run start ops :
  events_dropped (foldl apply_op (metrics_new start) ops) = series_total (o_name EVENTS_DROPPED, []) ops.
Proof. rewrite (scalar_total _ EVENTS_DROPPED); [done|]. scalar_field_tac. Qed.
Lemma throttled_total_run start ops :
  policy_sync_throttled (foldl apply_op (metrics_new start) ops) = series_total (o_name POLICY_SYNC_THROTTLED, []) ops.
Proof. rewrite (scalar_total _ POLICY_SYNC_THROTTLED); [done|]. scalar_field_tac. Qed.

(** The counters that are shown before they have counted anything. *)
Definition unlabelled : list (bytes * list (bytes * bytes)) :=
  [(o_name EVENTS_PROCESSED, []); (o_name EVENTS_DROPPED, []); (o_name POLICY_SYNC_THROTTLED, [])].
(** What a scrape at [now] of an agent started at [start] is to show. *)
Definition shown (start now : Z) (ops : list metric_op) (key : bytes * list (bytes * bytes)) (n : Z) : Prop :=
  key = (o_name UPTIME_SECONDS, []) ∧ n = Z.max 0 (now - start) ∨
  (key ∈ unlabelled ∨ touched key ops) ∧ n = series_total key ops.

Ltac shown_scalar i run :=
  eexists; split; [apply (list_elem_of_lookup_2 _ i); reflexivity|]; split; [reflexivity|];
  apply list_elem_of_singleton; cbn [scalar_collector cl_read]; f_equal; symmetry; apply run.
Ltac shown_vec i field :=
  eexists; split; [apply (list_elem_of_lookup_2 _ i); reflexivity|]; split; [reflexivity|];
  apply vec_samples_in; eexists; split; [reflexivity|]; by apply (vec_total _ _ _ _ _ _ _ field eq_refl).
Lemma agent_reads start ops now name labels n :
  (∃ c, c ∈ agent_collectors ∧ cl_name c = name ∧
        mkSample labels n ∈ cl_read c (refresh_uptime now (foldl apply_op (metrics_new start) ops))) ↔
  shown start now ops (name, labels) n.
Proof.
  split.
  - intros (c & Hc & <- & Hs). unfold agent_collectors in Hc. unfold shown.
    repeat (apply elem_of_cons in Hc as [->|Hc]); [..|by apply elem_of_nil in Hc]; cbn [cl_read scalar_collector vec_collector] in Hs.
    all: try (apply vec_samples_in in Hs as (l & -> & Hl); right;
              apply (vec_total _ _ _ _ _ _ _ integrity_field eq_refl) in Hl as [? ->]
              || apply (vec_total _ _ _ _ _ _ _ invalidations_field eq_refl) in Hl as [? ->]
              || apply (vec_total _ _ _ _ _ _ _ resyncs_field eq_refl) in Hl as [? ->]
              || apply (vec_total _ _ _ _ _ _ _ mismatch_field eq_refl) in Hl as [? ->]
              || apply (vec_total _ _ _ _ _ _ _ migration_field eq_refl) in Hl as [? ->]; by split; [right|]).
    all: apply list_elem_of_singleton in Hs; injection Hs as -> ->.
    + right. split; [left; by left|]. apply processed_total_run.
    + right. split; [left; by right; left|]. apply dropped_total_run.
    + left. cbn. by rewrite started_at_run.
    + right. split; [left; by right; right; left|]. apply throttled_total_run.
  - intros [[[= -> ->] ->]|[[Hk|Hk] ->]].
    + exists (scalar_collector GaugeType UPTIME_SECONDS uptime_seconds).
      split; [apply (list_elem_of_lookup_2 _ 2); reflexivity|]. split; [done|].
      apply list_elem_of_singleton. cbn. by rewrite started_at_run.
    + unfold unlabelled in Hk. repeat (apply elem_of_cons in Hk as [[= -> ->]|Hk]); [..|by apply elem_of_nil in Hk];
        [shown_scalar 0%nat processed_total_run|shown_scalar 1%nat dropped_total_run|shown_scalar 6%nat throttled_total_run].
    + pose proof Hk as (op & _ & Hop). destruct op; try discriminate; injection Hop as <- <-;
        [shown_scalar 0%nat processed_total_run|shown_scalar 1%nat dropped_total_run|shown_vec 3%nat integrity_field
        |shown_vec 4%nat invalidations_field|shown_vec 5%nat resyncs_field|shown_scalar 6%nat throttled_total_run
        |shown_vec 7%nat mismatch_field|shown_vec 8%nat migration_field].
Qed.

(** A scrape shows exactly what was counted. The agent's counters can always be made
    and registered; and whatever operations have been counted since, in whatever order,
    a [GET /metrics] on the listener answers 200 with the encoding of families in which
    the series are exactly these: the uptime at the time of the request; the three
    unlabelled counters, also while they are zero; and each labelled counter for the
    labels that have been counted, each with the sum of what was counted. A reason that
    has not occurred has no series. *)
Theorem scrape_exact start ops now bind port_var port app v paths state :
  spawn_metrics_server bind port_var = Ok (port, app) →
  ∃ r fs text, agent_metrics_new start = Ok (r, metrics_new start) ∧
    let '(m, resp) := http_get r app (lit "/metrics") now v paths state (foldl apply_op (metrics_new start) ops) in
    m = refresh_uptime now (foldl apply_op (metrics_new start) ops) ∧
    resp = mkResponse 200 None text ∧ encode fs = Ok text ∧
    ∀ name labels n, exported fs name labels n ↔ shown start now ops (name, labels) n.
Proof.
  intros Hs. unfold spawn_metrics_server in Hs. apply bind_Ok in Hs as ([] & _ & [= _ <-]).
  destruct (agent_metrics_new_ok start) as (r & Hnew & Hr).
  set (m := refresh_uptime now (foldl apply_op (metrics_new start) ops)).
  destruct (gather_encodes r m) as [text Henc].
  { rewrite Hr. repeat (constructor; [done|]). constructor. }
  exists r, (gather r m), text. split; [done|]. unfold http_get, metrics_handler.
  change (route agent_app (lit "/metrics")) with (Some MetricsEndpoint). fold m. rewrite Henc. cbn [text_response].
  split_and!; [done..|]. intros name labels n. rewrite gather_exported, Hr. apply agent_reads.
Qed.
End agent_endpoints.

(** ** An instance: the text format of the crate's documentation *)
Definition type_text (t : metric_type) : bytes := match t with CounterType => lit "counter" | GaugeType => lit "gauge" end.
Definition newline : bytes := [10].
Definition quote : bytes := [34].
Definition sample_text (name : bytes) (s : sample) : bytes :=
  name ++ match sm_labels s with
          | [] => []
          | ls => lit "{" ++ mjoin (map (λ l, l.1 ++ lit "=" ++ quote ++ l.2 ++ quote) ls) ++ lit "}"
          end ++ lit " " ++ to_dec (sm_value s) ++ newline.
Definition family_text (f : MetricFamily) : bytes :=
  lit "# HELP " ++ mf_name f ++ lit " " ++ mf_help f ++ newline ++
  lit "# TYPE " ++ mf_name f ++ lit " " ++ type_text (mf_type f) ++ newline ++ mjoin (map (sample_text (mf_name f)) (mf_metric f)).
Definition family_complete (f : MetricFamily) : bool := negb (is_empty (mf_name f)) && match mf_metric f with [] => false | _ => true end.

#[program] Definition text_prometheus (M : Type) : Prometheus M := {|
  Registry := list (collector M);
  registry_new := [];
  desc_check o ls := if valid_desc o ls then Ok () else Err (EMsg "invalid description");
  register c r := if bool_decide (cl_name c ∈ map cl_name r) then Err (EMsg "already registered") else Ok (r ++ [c]);
  registered r := r;
  gather r m := map (family m) (filter (λ c, cl_read c m ≠ []) r);
  encode fs := if forallb family_complete fs then Ok (mjoin (map family_text fs)) else Err (EMsg "incomplete family")
|}.
Next Obligation. intros M o ls Hv. cbn. by rewrite Hv. Qed.
Next Obligation. done. Qed.
Next Obligation. intros M c r Hn. cbn beta iota. rewrite (bool_decide_false _ Hn). by exists (r ++ [c]). Qed.
Next Obligation. done. Qed.
Next Obligation.
  intros M fs Hfs. cbn. assert (forallb family_complete fs = true) as ->; [|done].
  apply forallb_forall. intros f Hf%list_elem_of_In. rewrite Forall_forall in Hfs. destruct (Hfs f Hf).
  unfold family_complete. destruct (mf_name f), (mf_metric f); done.
Qed.

Definition demo_ops : list metric_op :=
  [OpProcessed; OpIntegrity REASON_LSM_LINK; OpProcessed; OpDropped 7; OpIntegrity REASON_LSM_LINK; OpMismatch (lit "PATH_DENY_LIST")].
Definition demo_node : node_view := mkNodeView (λ _, Err (EMsg "io")) (λ _, true) (λ _, Ok (Ok 1)).
Definition demo_paths : EnforcementPinPaths := enforcement_pin_paths (lit "/sys/fs/bpf/neuromesh").

Lemma scrape_exact_witness :
  ∃ r fs text, agent_metrics_new (H := text_prometheus AgentMetrics) 100 = Ok (r, metrics_new 100) ∧
    let '(m, resp) := http_get (H := text_prometheus AgentMetrics) r agent_app (lit "/metrics") 160 demo_node
                        demo_paths None (foldl apply_op (metrics_new 100) demo_ops) in
    m = refresh_uptime 160 (foldl apply_op (metrics_new 100) demo_ops) ∧
    resp = mkResponse 200 None text ∧ encode (Prometheus := text_prometheus AgentMetrics) fs = Ok text ∧
    ∀ name labels n, exported fs name labels n ↔ shown 100 160 demo_ops (name, labels) n.
Proof. apply (scrape_exact 100 demo_ops 160 (λ _, Ok ()) None 9090). reflexivity. Defined.

(** The labelled series of the sample, and one of a reason that did not occur. *)
Lemma demo_shown :
  shown 100 160 demo_ops (o_name INTEGRITY_FAILURES, [(REASON, REASON_LSM_LINK)]) 2 ∧
  ¬ ∃ n, shown 100 160 demo_ops (o_name INTEGRITY_FAILURES, [(REASON, REASON_PINNED_MAP)]) n.
Proof.
  split.
  - right. split; [right|reflexivity]. exists (OpIntegrity REASON_LSM_LINK). split; [|reflexivity]. right. left.
  - intros (n & [[? _]|[[Hu|(op & Hop & Hs)] _]]); [discriminate| |].
    + repeat (apply elem_of_cons in Hu as [Hu|Hu]; [discriminate|]). by apply elem_of_nil in Hu.
    + repeat (apply elem_of_cons in Hop as [->|Hop]; [discriminate|]). by apply elem_of_nil in Hop.
Qed.

(** ** The forwarders' counters and endpoint *)
Section forwarders.
Context `{Prometheus ForwardMetrics}.

(** The four collectors, registered in the order of both sources. *)
Definition forward_metrics_new (fwd fail drop depth : Opts) : result (Registry * ForwardMetrics) :=
  let r := registry_new in
  forwarded ← counter_with_opts fwd fm_forwarded_total;
  failed ← counter_vec fail REASON fm_failed_total;
  dropped ← counter_vec drop REASON fm_dropped_total;
  queue ← gauge_with_opts depth fm_queue_depth;
  r ← register forwarded r;
  r ← register failed r;
  r ← register dropped r;
  r ← register queue r;
  Ok (r, mkForwardMetrics 0 ∅ ∅ 0).
Definition dd_metrics_new : result (Registry * ForwardMetrics) :=
  forward_metrics_new
    (mkOpts (lit "dd_forwarded_total") (lit "Alerts successfully delivered to Datadog Logs API v2"))
    (mkOpts (lit "dd_forward_failed_total") (lit "Datadog Logs delivery failures; label reason=retryable|non_retryable|network"))
    (mkOpts (lit "dd_forward_dropped_total") (lit "Alerts dropped before Datadog send; label reason=queue_full|malformed"))
    (mkOpts (lit "dd_forward_queue_depth") (lit "Current depth of the bounded Datadog send queue")).
Definition hec_metrics_new : result (Registry * ForwardMetrics) :=
  forward_metrics_new
    (mkOpts (lit "hec_forwarded_total") (lit "Alerts successfully delivered to Splunk HEC"))
    (mkOpts (lit "hec_forward_failed_total") (lit "Splunk HEC delivery failures; label reason=retryable|non_retryable|network"))
    (mkOpts (lit "hec_forward_dropped_total") (lit "Alerts dropped before HEC send; label reason=queue_full|malformed"))
    (mkOpts (lit "hec_forward_queue_depth") (lit "Current depth of the bounded HEC send queue")).

(** [metrics_handler] of [kafka.rs]: a text that is not UTF-8 becomes the empty one. *)
Definition forwarder_metrics_handler (r : Registry) (m : ForwardMetrics) : bytes + Z :=
  match encode (gather r m) with
  | Ok buffer => inl (if utf8_valid buffer then buffer else [])
  | Err _ => inr 500
  end.
(** [spawn_metrics_server] of [kafka.rs] returns when the listener fails: to bind, or
    later in [axum::serve]; [main] runs it in a task of its own and logs the error. *)
Definition forwarder_metrics_server (bind : Z → result ()) (serve : result ()) (port : Z) : result () :=
  _ ← with_context "bind metrics" (bind port);
  with_context "metrics server" serve.
Definition forward_collectors (fwd fail drop depth : Opts) : list (collector ForwardMetrics) :=
  [scalar_collector CounterType fwd fm_forwarded_total; vec_collector fail REASON fm_failed_total;
   vec_collector drop REASON fm_dropped_total; scalar_collector GaugeType depth fm_queue_depth].

Lemma forward_metrics_ok fwd fail drop depth :
  valid_desc fwd [] && valid_desc fail [REASON] && valid_desc drop [REASON] && valid_desc depth [] = true →
  NoDup (map o_name [fwd; fail; drop; depth]) →
  ∃ r, forward_metrics_new fwd fail drop depth = Ok (r, mkForwardMetrics 0 ∅ ∅ 0) ∧
       registered r = forward_collectors fwd fail drop depth.
Proof.
  intros Hv Hn. bool_split. unfold forward_metrics_new. rewrite counter_ok, !vec_ok, gauge_ok by done. cbn [mbind result_bind].
  cbn [map] in Hn. rewrite !NoDup_cons in Hn. pose proof registered_new as Hr.
  do 4 match goal with
  | |- context [register ?c ?r] =>
      let r' := fresh "r" in let Hr' := fresh "Hr" in
      destruct (register_fresh c r) as (r' & -> & Hr');
      [rewrite Hr; cbn; set_solver
      |rewrite Hr in Hr'; clear Hr; rename Hr' into Hr; cbn [mbind result_bind app] in *]
  end.
  eexists. split; [reflexivity|exact Hr].
Qed.

Lemma forward_reads fwd fail drop depth r m name labels n :
  registered r = forward_collectors fwd fail drop depth →
  exported (gather r m) name labels n ↔
  (name = o_name fwd ∧ labels = [] ∧ n = fm_forwarded_total m) ∨
  (∃ l, name = o_name fail ∧ labels = [(REASON, l)] ∧ fm_failed_total m !! l = Some n) ∨
  (∃ l, name = o_name drop ∧ labels = [(REASON, l)] ∧ fm_dropped_total m !! l = Some n) ∨
  (name = o_name depth ∧ labels = [] ∧ n = fm_queue_depth m).
Proof.
  intros Hr. rewrite gather_exported, Hr. unfold forward_collectors. setoid_rewrite elem_of_cons. split.
  - intros (c & [->|[->|[->|[->|Hc]%elem_of_cons]%elem_of_cons]%elem_of_cons] & <- & Hs);
      [..|by apply elem_of_nil in Hc]; cbn [cl_read scalar_collector vec_collector] in Hs.
    1, 4: apply list_elem_of_singleton in Hs; injection Hs as -> ->; naive_solver.
    all: apply vec_samples_in in Hs as (l & -> & Hl); naive_solver.
  - intros [(-> & -> & ->)|[(l & -> & -> & Hl)|[(l & -> & -> & Hl)|(-> & -> & ->)]]].
    + eexists. split; [by left|]. split; [done|]. by apply list_elem_of_singleton.
    + eexists. split; [right; by left|]. split; [done|]. apply vec_samples_in. by exists l.
    + eexists. split; [right; right; by left|]. split; [done|]. apply vec_samples_in. by exists l.
    + eexists. split; [right; right; right; by left|]. split; [done|]. by apply list_elem_of_singleton.
Qed.

(** The scrape of a forwarder beside its run: what its metrics say agrees with the
    account of the records it handled. *)
Definition scrape_accounts {J} (new : result (Registry * ForwardMetrics)) (fwd drop : bytes) (s : service J) : Prop :=
  ∃ r fs text, new = Ok (r, mkForwardMetrics 0 ∅ ∅ 0) ∧ encode fs = Ok text ∧
    (utf8_valid text = true → text_response (forwarder_metrics_handler r (fw_metrics (sv_fw s))) = mkResponse 200 None text) ∧
    (∀ n, exported fs fwd [] n ↔ n = Z.of_nat (length (fw_acked (sv_fw s)))) ∧
    (∀ l n, exported fs drop [(REASON, l)] n ↔ fm_dropped_total (fw_metrics (sv_fw s)) !! l = Some n) ∧
    fs_enqueued (fw_stats (sv_fw s)) + vec_get (lit "malformed") (fm_dropped_total (fw_metrics (sv_fw s)))
      + vec_get (lit "queue_full") (fm_dropped_total (fw_metrics (sv_fw s))) = Z.of_nat (length (sv_handled s)).

Lemma forward_scrape {J} fwd fail drop depth (s : service J) capacity from_slice :
  valid_desc fwd [] && valid_desc fail [REASON] && valid_desc drop [REASON] && valid_desc depth [] = true →
  NoDup (map o_name [fwd; fail; drop; depth]) → tallied capacity from_slice (sv_handled s) (sv_fw s) →
  scrape_accounts (forward_metrics_new fwd fail drop depth) (o_name fwd) (o_name drop) s.
Proof.
  intros Hv Hn Ht. destruct (forward_metrics_ok fwd fail drop depth Hv Hn) as (r & Hnew & Hr).
  destruct (gather_encodes r (fw_metrics (sv_fw s))) as [text Henc].
  { rewrite Hr. bool_split. unfold valid_desc, valid_name in *.
    repeat constructor; unfold cl_name; cbn; intros He; by rewrite He in *. }
  cbn [map] in Hn. rewrite !NoDup_cons in Hn. exists r, (gather r (fw_metrics (sv_fw s))), text. split_and!; try done.
  - intros Hutf. unfold forwarder_metrics_handler. by rewrite Henc, Hutf.
  - intros n. rewrite (forward_reads fwd fail drop depth) by done. destruct (ta_forwarded _ _ _ _ Ht) as [E1 E2].
    rewrite <-E2, E1. set_solver.
  - intros l n. rewrite (forward_reads fwd fail drop depth) by done. set_solver.
  - rewrite (ta_records _ _ _ _ Ht), (ta_dropped _ _ _ _ Ht). lia.
Qed.
End forwarders.

(** What either forwarder's [/metrics] says agrees with what it did: the forwarded
    counter is the number of alerts the collector acknowledged, the dropped counters are
    those of the account, and with the enqueued alerts they add up to the records
    handled. *)
Theorem forwarders_scrape `{Prometheus ForwardMetrics} `{Sink J Cfg Body} capacity from_slice fetch acts (s0 s : service J) :
  service_new capacity = Some s0 → Z.of_nat (handles acts) < 2 ^ 64 →
  service_run capacity from_slice fetch acts s0 = Some s →
  scrape_accounts dd_metrics_new (lit "dd_forwarded_total") (lit "dd_forward_dropped_total") s ∧
  scrape_accounts hec_metrics_new (lit "hec_forwarded_total") (lit "hec_forward_dropped_total") s.
Proof.
  intros Hnew Hn Hrun. assert (0 ≤ capacity ∧ sv_handled s0 = []) as [Hc Hh].
  { unfold service_new, spawn, channel_opens in Hnew. case_bool_decide; [|done]. injection Hnew as <-. split; [lia|done]. }
  assert (tallied capacity from_slice (sv_handled s) (sv_fw s)) as Ht.
  { apply (run_tallied capacity from_slice fetch acts s0 s); [by apply new_tallied| |done]. rewrite Hh. cbn. lia. }
  split; [unfold dd_metrics_new|unfold hec_metrics_new];
    (refine (forward_scrape (mkOpts _ _) (mkOpts _ _) (mkOpts _ _) (mkOpts _ _) s capacity from_slice _ _ Ht);
     [reflexivity|apply (bool_decide_eq_true_1 (NoDup _)); vm_compute; reflexivity]).
Qed.
