(* ===== verification/WasmPolicy.v ===== *)
(** * The deferred Wasm policy engine and the test doubles

    [wasm_policy.rs], which the agent constructs at start-up and holds, and the
    in-memory event sources of [mocks/] that the integration tests feed the
    pipeline with.

    Shown: the engine never denies and never reports a policy as loaded, although
    it keeps one for every file it could read; a source delivers every event once,
    in order, and counts them. *)

From S2P Require Import Prelude RustStd Common SideTable.

(** ** [wasm_policy.rs] *)
Inductive PolicyVerdict : Type := PAllow | PDeny | PAlert.
Inductive PolicyError : Type := NotImplemented | InvalidModule (s : bytes) | LoadFailed (s : bytes).
Record LoadedPolicy : Type := mkLoadedPolicy { lp_name : bytes }.
Record WasmPolicyEngine : Type := mkWasmPolicyEngine { loaded_policies : list LoadedPolicy }.

Definition wasm_new : WasmPolicyEngine := mkWasmPolicyEngine [].

(** [Path::file_name]: the last component, unless it is [..]. *)
Definition policy_file_name (path : bytes) : option bytes :=
  match last (path_key path).2 with
  | Some c => if bool_decide (c = [46; 46]) || bool_decide (c = [46]) then None else Some c
  | None => None
  end.

(** [load_policy_from_path]; [read] is [std::fs::read], whose error has a text. *)
Definition load_policy_from_path (read : bytes → bytes + bytes) (path : bytes) (e : WasmPolicyEngine) :
    WasmPolicyEngine * (unit + PolicyError) :=
  let name := default (lit "unknown.wasm") (n ← policy_file_name path; if utf8_valid n then Some n else None) in
  match read path with
  | inr error =>
      (e, inr (LoadFailed (lit "failed to read " ++ from_utf8_lossy path ++ lit ": " ++ error)))
  | inl _ => (mkWasmPolicyEngine (loaded_policies e ++ [mkLoadedPolicy name]), inr NotImplemented)
  end.

Definition wasm_evaluate (e : WasmPolicyEngine) (event : SecurityTelemetryEvent) : PolicyVerdict := PAllow.
Definition loaded_count (e : WasmPolicyEngine) : Z := Z.of_nat (length (loaded_policies e)).

Definition readable_file (read : bytes → bytes + bytes) (p : bytes) : bool :=
  match read p with inl _ => true | inr _ => false end.

Definition load_all (read : bytes → bytes + bytes) (paths : list bytes) (e : WasmPolicyEngine) :
    WasmPolicyEngine * list (unit + PolicyError) :=
  foldl (λ '(e, rs) p, let '(e, r) := load_policy_from_path read p e in (e, rs ++ [r])) (e, []) paths.

(** Whatever files are offered, no load reports success, yet the engine keeps one
    policy per readable file and allows every event: a module that denies, dropped
    next to the agent, is counted and not enforced. *)
Theorem wasm_never_enforces read paths event :
  let '(e, results) := load_all read paths wasm_new in
  Forall (λ r, ∃ err, r = inr err) results ∧ length results = length paths ∧
  loaded_count e = Z.of_nat (length (filter (λ p, readable_file read p = true) paths)) ∧
  wasm_evaluate e event = PAllow.
Proof.
  unfold load_all, loaded_count.
  assert (∀ e rs, Forall (λ r : unit + PolicyError, ∃ err, r = inr err) rs →
    let '(e', rs') := foldl (λ '(e, rs) p, let '(e, r) := load_policy_from_path read p e in (e, rs ++ [r])) (e, rs) paths in
    Forall (λ r, ∃ err, r = inr err) rs' ∧ length rs' = (length rs + length paths)%nat ∧
    length (loaded_policies e') =
      (length (loaded_policies e) + length (filter (λ p, readable_file read p = true) paths))%nat) as Hgen.
  { induction paths as [|p paths IH]; intros e rs Hrs; [by cbn; rewrite !Nat.add_0_r|].
    cbn [foldl]. rewrite filter_cons. unfold load_policy_from_path at 2.
    destruct (read p) as [b|err] eqn:Hr;
      [rewrite decide_True by (unfold readable_file; by rewrite Hr)|rewrite decide_False by (unfold readable_file; by rewrite Hr)].
    - specialize (IH (mkWasmPolicyEngine (loaded_policies e ++ [mkLoadedPolicy
        (default (lit "unknown.wasm") (n ← policy_file_name p; if utf8_valid n then Some n else None))])) (rs ++ [inr NotImplemented])).
      destruct (foldl _ _ paths) as [e' rs']. destruct IH as (H1 & H2 & H3); [rewrite Forall_app, Forall_singleton; eauto|].
      rewrite H2, H3. cbn. rewrite !length_app. cbn. split_and!; [done|lia|lia].
    - specialize (IH e (rs ++ [inr (LoadFailed (lit "failed to read " ++ from_utf8_lossy p ++ lit ": " ++ err))])).
      destruct (foldl _ _ paths) as [e' rs']. destruct IH as (H1 & H2 & H3); [rewrite Forall_app, Forall_singleton; eauto|].
      rewrite H2, H3, length_app. cbn. split_and!; [done|lia|lia]. }
  specialize (Hgen wasm_new []). destruct (foldl _ _ paths) as [e rs].
  destruct Hgen as (H1 & H2 & H3); [constructor|]. rewrite H3. split_and!; [done|done|done|done].
Qed.

(** ** [mocks/]

    The trait [TelemetrySource] and its two implementations. *)
Class TelemetrySource (S : Type) : Type := {
  source_drain : S → S * list SecurityTelemetryEvent;
  source_stats : S → TelemetryHealthStats
}.

Definition count_events (n : nat) (s : TelemetryHealthStats) : TelemetryHealthStats :=
  mkTelemetryHealthStats (saturating_add 64 (events_processed s) (as_uint 64 (Z.of_nat n))) (lost_events_count s).

(** [mocks/ringbuf.rs]. *)
Record MockRingBuf : Type := mkMockRingBuf {
  mr_pending : list SecurityTelemetryEvent;
  mr_stats : TelemetryHealthStats
}.
Definition from_events (events : list SecurityTelemetryEvent) : MockRingBuf :=
  mkMockRingBuf events (mkTelemetryHealthStats 0 0).
Definition with_stats (stats : TelemetryHealthStats) (r : MockRingBuf) : MockRingBuf :=
  mkMockRingBuf (mr_pending r) stats.
Definition mock_drain (r : MockRingBuf) : MockRingBuf * list SecurityTelemetryEvent :=
  (mkMockRingBuf [] (count_events (length (mr_pending r)) (mr_stats r)), mr_pending r).
Definition pending_count (r : MockRingBuf) : Z := Z.of_nat (length (mr_pending r)).

#[export] Instance mock_source : TelemetrySource MockRingBuf := {
  source_drain := mock_drain;
  source_stats := mr_stats
}.

(** [mocks/telemetry_source.rs]. *)
Record StaticTelemetrySource : Type := mkStaticSource {
  ss_chunks : list (list SecurityTelemetryEvent);
  ss_stats : TelemetryHealthStats
}.
Definition static_new (chunks : list (list SecurityTelemetryEvent)) : StaticTelemetrySource :=
  mkStaticSource chunks (mkTelemetryHealthStats 0 0).
Definition static_drain (s : StaticTelemetrySource) : StaticTelemetrySource * list SecurityTelemetryEvent :=
  match ss_chunks s with
  | [] => (s, [])
  | chunk :: chunks => (mkStaticSource chunks (count_events (length chunk) (ss_stats s)), chunk)
  end.

#[export] Instance static_source : TelemetrySource StaticTelemetrySource := {
  source_drain := static_drain;
  source_stats := ss_stats
}.

(** Polls a source [n] times. *)
Fixpoint poll {S} `{TelemetrySource S} (n : nat) (s : S) : S * list SecurityTelemetryEvent :=
  match n with
  | O => (s, [])
  | Datatypes.S n => let '(s, evs) := source_drain s in let '(s, rest) := poll n s in (s, evs ++ rest)
  end.

(** A source delivers each event once, in order, over any number of polls, and the
    counter is the number delivered while that fits in 64 bits. *)
Theorem static_source_delivers n chunks :
  Z.of_nat (length (concat chunks)) < 2 ^ 64 →
  let '(s, evs) := poll n (static_new chunks) in
  evs = concat (take n chunks) ∧ ss_chunks s = drop n chunks ∧
  events_processed (source_stats s) = Z.of_nat (length evs).
Proof.
  assert (∀ n chunks k lost, 0 ≤ k → k + Z.of_nat (length (concat chunks)) < 2 ^ 64 →
    let '(s, evs) := poll n (mkStaticSource chunks (mkTelemetryHealthStats k lost)) in
    evs = concat (take n chunks) ∧ ss_chunks s = drop n chunks ∧
    events_processed (source_stats s) = k + Z.of_nat (length evs)) as Hgen.
  { clear. induction n as [|n IH]; intros [|c chunks] k lost Hk Hlen; cbn [poll source_drain static_source static_drain ss_chunks].
    - cbn. split_and!; [done|done|lia].
    - cbn. split_and!; [done|done|lia].
    - specialize (IH [] k lost Hk Hlen). destruct (poll n _) as [s evs]. rewrite take_nil, drop_nil in IH.
      destruct IH as (-> & -> & ->). done.
    - cbn [concat] in Hlen. rewrite length_app in Hlen. unfold count_events. cbn [ss_stats events_processed lost_events_count].
      unfold saturating_add, as_uint. rewrite Z.mod_small, Z.min_l by lia.
      specialize (IH chunks (k + Z.of_nat (length c)) lost ltac:(lia) ltac:(lia)).
      destruct (poll n _) as [s evs]. destruct IH as (-> & -> & ->). cbn. rewrite length_app. split_and!; [done|done|lia]. }
  intros Hlen. specialize (Hgen n chunks 0 0 ltac:(lia) Hlen). exact Hgen.
Qed.
