(* ===== verification/Build.v ===== *)
(** * The agent's build script ([apps/agent-ebpf-sensor/build.rs])

    The script compiles the two C programs with clang, strips [.BTF.ext] from the
    one without relocations, and tells the compiler where the enforcement object to
    embed is. A process is run through a parameter that answers with its success;
    environment variables and the file test are arguments; a panic ends the build.

    Shown: the build succeeds exactly when both compilations, one of the four strip
    tools and the file test do, having run those commands in order; and the path
    handed to the compiler is absolute when the directories cargo gives are. *)

From S2P Require Import Prelude RustStd SideTable CgroupPath.

(** ** Paths *)

Definition path_is_absolute (p : bytes) : bool := starts_with p [47].

(** [Path::starts_with]: by components. *)
Definition path_starts_with_components (p prefix : bytes) : bool :=
  let '(abs, cs) := path_key p in
  let '(abs', cs') := path_key prefix in
  bool_decide (abs = abs') && bool_decide (take (length cs') cs = cs').

(** ** Sources *)
Record BpfSource : Type := mkBpfSource {
  bs_source : bytes;
  bs_output : bytes;
  bs_keep_btf_ext : bool
}.
Definition BPF_SOURCES : list BpfSource :=
  [mkBpfSource (lit "src/bpf/sys_exec.bpf.c") (lit "target/bpf/sys_exec.bpf.o") true;
   mkBpfSource (lit "src/bpf/network_filter.bpf.c") (lit "target/bpf/network_filter.bpf.o") false].

(** ** Running commands

    The commands run so far; a failed step is a panic. *)
Abbreviation command := (list bytes).
Abbreviation script := (stm (list command)).

Section build.
(** Whether the process could be started and ended with success. *)
Context (run : command → bool).

Definition command_status (c : command) : script bool := λ log, (log ++ [c], Ok (run c)).

Definition clang_command (include : option bytes) (b : BpfSource) : command :=
  [lit "clang"; lit "-g"; lit "-O2"; lit "-target"; lit "bpf"; lit "-D__TARGET_ARCH_x86"; lit "-I"; lit "src/bpf";
   lit "-c"; bs_source b; lit "-o"; bs_output b] ++
  match include with Some dir => [lit "-I"; dir] | None => [] end.

Definition STRIP_TOOLS : list bytes :=
  [lit "llvm-objcopy"; lit "llvm-objcopy-18"; lit "llvm-objcopy-17"; lit "llvm-objcopy-16"].
Definition strip_command (object tool : bytes) : command := [tool; lit "--remove-section=.BTF.ext"; object].

(** The loop of [strip_btf_ext]: the first tool that works ends it. *)
Fixpoint strip_btf_ext (object : bytes) (tools : list bytes) : script unit :=
  match tools with
  | [] => st_fail (EMsg "llvm-objcopy is required to strip .BTF.ext")
  | tool :: tools =>
      ok ← command_status (strip_command object tool);
      if ok : bool then mret () else strip_btf_ext object tools
  end.

Definition compile_bpf (include : option bytes) (b : BpfSource) : script unit :=
  ok ← command_status (clang_command include b);
  if negb ok then st_fail (EMsg "clang failed to compile")
  else if negb (bs_keep_btf_ext b) then strip_btf_ext (bs_output b) STRIP_TOOLS
  else mret ().

(** [configure_enforcement_bytecode]: the path it resolves, and the test. *)
Definition DEFAULT_BYTECODE : bytes := lit "ebpf/target/bpfel-unknown-none/release/agent-ebpf-sensor-ebpf".

Definition enforcement_path (manifest_dir : bytes) (bytecode workspace : option bytes) : bytes :=
  let path := default (path_join manifest_dir DEFAULT_BYTECODE) bytecode in
  if path_is_absolute path then path
  else if path_starts_with_components path (lit "apps/") then
    match workspace with
    | Some workspace => path_join workspace path
    | None => path_join manifest_dir path
    end
  else path_join manifest_dir path.

Definition configure_enforcement_bytecode (is_file : bytes → bool) (manifest_dir bytecode workspace : option bytes) :
    result bytes :=
  manifest_dir ← ok_or (EMsg "CARGO_MANIFEST_DIR must be set") manifest_dir;
  let abs := enforcement_path manifest_dir bytecode workspace in
  if negb (is_file abs) then Err (EMsg "eBPF enforcement bytecode not found") else Ok abs.

(** [main]: what is embedded, if the orchestrator is built; [out_dir] says whether
    [create_dir_all] succeeds. *)
Definition build_main (out_dir orchestrator : bool) (include : option bytes) (is_file : bytes → bool)
    (manifest_dir bytecode workspace : option bytes) : script (option bytes) :=
  _ ← (if out_dir then mret () else st_fail (EMsg "failed to create target/bpf"));
  _ ← for_each (compile_bpf include) BPF_SOURCES;
  if orchestrator then
    path ← st_of_result (configure_enforcement_bytecode is_file manifest_dir bytecode workspace);
    mret (Some path)
  else mret None.
End build.

(** ** Properties *)
Lemma strip_ok run object tools log :
  is_ok (strip_btf_ext run object tools log).2 = existsb (λ t, run (strip_command object t)) tools.
Proof.
  revert log. induction tools as [|t tools IH]; intros log; [done|]. cbn [strip_btf_ext existsb].
  rewrite stm_bind_run. unfold command_status. cbn beta iota. destruct (run (strip_command object t)); [done|]. apply IH.
Qed.

Definition source_builds (run : command → bool) (include : option bytes) (b : BpfSource) : bool :=
  run (clang_command include b)
  && (bs_keep_btf_ext b || existsb (λ t, run (strip_command (bs_output b) t)) STRIP_TOOLS).

Lemma compile_ok run include b log : is_ok (compile_bpf run include b log).2 = source_builds run include b.
Proof.
  unfold compile_bpf, source_builds. rewrite stm_bind_run. unfold command_status. cbn beta iota.
  destruct (run (clang_command include b)); cbn [negb andb]; [|done].
  destruct (bs_keep_btf_ext b); cbn [negb orb]; [done|apply strip_ok].
Qed.

Lemma compile_all_ok run include bs log :
  is_ok (for_each (compile_bpf run include) bs log).2 = forallb (source_builds run include) bs.
Proof.
  revert log. induction bs as [|b bs IH]; intros log; [done|]. cbn [for_each forallb]. rewrite stm_bind_run, <- (compile_ok run include b log).
  destruct (compile_bpf run include b log) as [log' [u|e]]; cbn [snd is_ok andb]; [apply IH|done].
Qed.

Lemma true_and (P : Prop) : (true = true ∧ P) ↔ P.
Proof. tauto. Qed.

(** The build succeeds exactly when the output directory can be made, clang compiles both programs, one of the tools
    strips the network program, and, for the orchestrator, the enforcement object
    is a file; the path embedded is then the one resolved. *)
Theorem build_succeeds_iff run out_dir orchestrator include is_file manifest_dir bytecode workspace log out :
  (build_main run out_dir orchestrator include is_file manifest_dir bytecode workspace log).2 = Ok out ↔
  out_dir = true ∧
  forallb (λ b, run (clang_command include b)) BPF_SOURCES = true ∧
  existsb (λ t, run (strip_command (lit "target/bpf/network_filter.bpf.o") t)) STRIP_TOOLS = true ∧
  if orchestrator then
    ∃ dir, manifest_dir = Some dir ∧ is_file (enforcement_path dir bytecode workspace) = true ∧
      out = Some (enforcement_path dir bytecode workspace)
  else out = None.
Proof.
  unfold build_main. destruct out_dir; [|split; [done|by intros [? _]]].
  rewrite true_and, stm_bind_run. cbn beta iota delta [mret stm_ret]. rewrite stm_bind_run. pose proof (compile_all_ok run include BPF_SOURCES log) as Hc.
  destruct (for_each _ _ log) as [log' [u|e]]; cbn [snd is_ok] in Hc; unfold BPF_SOURCES, source_builds in *;
    cbn [forallb bs_keep_btf_ext bs_output orb] in *; rewrite !andb_true_r in *.
  - symmetry in Hc. rewrite !andb_true_iff in Hc. destruct Hc as (H1 & H2 & H3). rewrite H1, H2, H3.
    destruct orchestrator; [|cbn; split; [by intros [= <-]|by intros (_ & _ & ->)]].
    rewrite stm_bind_run. unfold st_of_result, configure_enforcement_bytecode.
    destruct manifest_dir as [dir|]; cbn [ok_or mbind result_bind];
      [|split; [done|intros (_ & _ & ? & ? & _); done]].
    destruct (is_file (enforcement_path dir bytecode workspace)) eqn:Hf; cbn [negb].
    + split; [intros [= <-]; split_and!; [done|done|by exists dir]|]. intros (_ & _ & ? & [= <-] & _ & ->). done.
    + split; [done|]. intros (_ & _ & ? & [= <-] & ? & _). congruence.
  - split; [done|]. intros (H1 & H2 & _). rewrite andb_true_iff in H1. destruct H1 as [H1 H1']. by rewrite H1, H1', H2 in Hc.
Qed.

Lemma join_absolute base p : path_is_absolute base = true → path_is_absolute (path_join base p) = true.
Proof.
  unfold path_is_absolute, path_join. intros Hb. destruct (starts_with p [47]) eqn:Hp; [done|].
  destruct base as [|c base]; [done|]. cbn in Hb. destruct (is_empty (c :: base) || ends_with (c :: base) [47]); exact Hb.
Qed.

(** The path handed to the compiler is absolute when the directories are. *)
Theorem enforcement_path_absolute dir bytecode workspace :
  path_is_absolute dir = true → (∀ w, workspace = Some w → path_is_absolute w = true) →
  path_is_absolute (enforcement_path dir bytecode workspace) = true.
Proof.
  intros Hd Hw. unfold enforcement_path. destruct (path_is_absolute (default _ bytecode)) eqn:Hp; [done|].
  destruct (path_starts_with_components _ _); [|by apply join_absolute].
  destruct workspace as [w|]; apply join_absolute; [by apply Hw|done].
Qed.
