(* ===== verification/TestKit.v ===== *)
(** * Running the repository's unit tests on the model

    The definitions are executable, so the [#[test]] functions of the sources can be
    run on them: each is translated into a boolean of the same name, in the files
    [Conf*.v], and evaluated. They are checks that the model is the program, on the
    inputs its authors thought of; the theorems are elsewhere.

    Where a test looks for words in the text of an error, its translation looks for
    them in the text the model gives that error, which leaves out interpolated values.
    Where a test makes a key or a temporary file, its translation uses the toy
    signature scheme below and a file system given as a function. *)

From S2P Require Import Prelude RustStd Json Common Attestation.

Declare Scope test_scope.
Delimit Scope test_scope with test.
Notation "a == b" := (bool_decide (a = b)) (at level 70, no associativity) : test_scope.
Notation "a != b" := (negb (bool_decide (a = b))) (at level 70, no associativity) : test_scope.

(** All tests of a file pass. *)
Definition all_pass (tests : list bool) : bool := forallb id tests.

(** A JSON text, its quotes written as apostrophes. *)
Definition jtext (s : string) : bytes := map (λ b, if b =? 39 then 34 else b) (lit s).

Definition is_err {A} (r : result A) : bool := negb (is_ok r).
(** [err.to_string()], the outermost context. *)
Definition error_text (e : error) : bytes :=
  match e with EMsg s | EContext s _ => lit s | ERateLimited _ _ => lit "policy-bundle rate_limited: not a security rejection" end.
Definition err_contains {A} (word : string) (r : result A) : bool :=
  match r with Err e => contains_sub (error_text e) (lit word) | Ok _ => false end.
Definition ok_and {A} (r : result A) (f : A → bool) : bool := match r with Ok a => f a | Err _ => false end.
Definition some_and {A} (o : option A) (f : A → bool) : bool := match o with Some a => f a | None => false end.
Definition is_some {A} (o : option A) : bool := match o with Some _ => true | None => false end.
Definition is_none {A} (o : option A) : bool := negb (is_some o).

(** ** Base 64 (RFC 4648, with padding) *)
Definition b64_char (n : Z) : Z :=
  if n <? 26 then 65 + n else if n <? 52 then 71 + n else if n <? 62 then n - 4 else if n =? 62 then 43 else 47.
Definition b64_value (c : Z) : option Z :=
  if (65 <=? c) && (c <=? 90) then Some (c - 65)
  else if (97 <=? c) && (c <=? 122) then Some (c - 71)
  else if (48 <=? c) && (c <=? 57) then Some (c + 4)
  else if c =? 43 then Some 62 else if c =? 47 then Some 63 else None.

Fixpoint b64_encode (s : bytes) : bytes :=
  match s with
  | a :: b :: c :: r =>
      b64_char (a / 4) :: b64_char ((a mod 4) * 16 + b / 16) :: b64_char ((b mod 16) * 4 + c / 64) :: b64_char (c mod 64)
      :: b64_encode r
  | [a; b] => [b64_char (a / 4); b64_char ((a mod 4) * 16 + b / 16); b64_char ((b mod 16) * 4); 61]
  | [a] => [b64_char (a / 4); b64_char ((a mod 4) * 16); 61; 61]
  | [] => []
  end.
Fixpoint b64_decode (s : bytes) : option bytes :=
  match s with
  | [] => Some []
  | [a; b; 61; 61] =>
      a ← b64_value a; b ← b64_value b; if b mod 16 =? 0 then Some [a * 4 + b / 16] else None
  | [a; b; c; 61] =>
      a ← b64_value a; b ← b64_value b; c ← b64_value c;
      if c mod 4 =? 0 then Some [a * 4 + b / 16; (b mod 16) * 16 + c / 4] else None
  | a :: b :: c :: d :: r =>
      a ← b64_value a; b ← b64_value b; c ← b64_value c; d ← b64_value d; r ← b64_decode r;
      Some (a * 4 + b / 16 :: (b mod 16) * 16 + c / 4 :: (c mod 4) * 64 + d :: r)
  | _ => None
  end.

(** ** Keys and signatures for the tests

    A key is the text of its PEM file; a signature is a checksum of key and message. *)
Definition toy_hash (s : bytes) : bytes :=
  le_encode 32 (foldl (λ h b, Z.land (h * 257 + b + 1) 1073741823) 7 s).
Definition toy_p256_sign (key message : bytes) : bytes := lit "DER" ++ toy_hash (key ++ [0] ++ message).
Definition toy_ed25519_sign (key message : bytes) : bytes :=
  toy_hash (key ++ [0] ++ message) ++ toy_hash (message ++ [0] ++ key).

#[export] Instance toy_cosign : Cosign := {|
  p256_key := bytes;
  ecdsa_sig := bytes;
  ed25519_key := bytes;
  base64_decode := b64_decode;
  p256_from_pem pem := if starts_with pem (lit "P256 ") then Some pem else None;
  ecdsa_from_der s := if starts_with s (lit "DER") then Some s else None;
  ecdsa_from_slice s := if bool_decide (length s = 64%nat) then Some s else None;
  p256_verify key message sig := bool_decide (sig = toy_p256_sign key message);
  ed25519_from_pem pem := if starts_with pem (lit "ED25519 ") then Some pem else None;
  ed25519_verify_strict key message sig := bool_decide (sig = toy_ed25519_sign key message);
  sha256 := toy_hash
|}.
