(* ===== verification/ConfPolicy.v ===== *)
(** * Unit tests: the shared contract, the deny list and the policy bundle

    The tests of [packages/neuromesh-common/src/lib.rs], [path_deny.rs],
    [lsm_decision.rs], [identity_allow.rs], [policy_sync.rs] and
    [bytecode_attestation.rs], run on the model. *)

From S2P Require Import Prelude RustStd Json Common Bpf PathDeny IdentityAllow Attestation PolicySync Metrics Documents TestKit.
#[local] Open Scope test_scope.

(** ** neuromesh-common/src/lib.rs *)
Definition all_bpf_object_names_fit_and_are_unique_under_truncation : bool :=
  forallb (λ name, (length name <=? BPF_OBJ_NAME_MAX)%nat) ALL_BPF_OBJECT_NAMES &&
  bool_decide (NoDup (map (take BPF_OBJ_NAME_MAX) ALL_BPF_OBJECT_NAMES)).

Definition abi_entry (name : bytes) : option PinnedMapAbi := List.find (λ m, abi_name m == name) PINNED_MAP_ABI.
Definition pinned_map_abi_matches_computed_sizes_and_version : bool :=
  (ENFORCEMENT_PIN_ABI_VERSION == 2) && (PATH_DENY_ENTRY_SIZE == 36%nat) && (PATH_DENY_ENTRY_SIZE_LEGACY == 20%nat) &&
  some_and (abi_entry PATH_DENY_LIST_MAP) (λ list,
    (abi_value_size list == Z.of_nat PATH_DENY_ENTRY_SIZE) && (abi_max_entries list == PATH_DENY_MAX_ENTRIES) &&
    (abi_key_size list == 4) && (abi_map_type list == BPF_MAP_TYPE_ARRAY)) &&
  some_and (abi_entry PATH_DENY_COUNT_MAP) (λ count, (abi_value_size count == 4) && (abi_max_entries count == 1)).

Definition widen_legacy_preserves_len_and_zero_pads : bool :=
  let legacy := mkLegacyPathDenyEntry 5 (copy_into (zeroed PATH_DENY_KEY_BYTES_LEGACY) (lit "/tmp/")) in
  some_and (widen legacy) (λ wide,
    (pd_len wide == 5) && (take 5 (pd_bytes wide) == lit "/tmp/") && forallb (λ b, b == 0) (drop 5 (pd_bytes wide)) &&
    matches wide (lit "/tmp/evil") && negb (matches wide (lit "/var/tmp/x"))).

Definition bootstrap_prefixes_well_under_historical_16_and_new_32 : bool :=
  forallb (λ prefix, (length prefix <? 16)%nat && (length prefix <=? PATH_DENY_KEY_BYTES)%nat && is_some (from_prefix prefix))
    BOOTSTRAP_PATH_DENY_PREFIXES.

Definition p16 : bytes := lit "/var/lib/dockerX".
Definition p32 : bytes := lit "/opt/neuromesh/staging/binXXXXXX".
Definition p33 : bytes := lit "/opt/neuromesh/staging/binXXXXXXX".
Definition from_prefix_accepts_exact_16_and_32_rejects_33 : bool :=
  (length p16 == 16%nat) && is_some (from_prefix p16) && (length p32 == 32%nat) && (PATH_DENY_KEY_BYTES == 32%nat) &&
  is_some (from_prefix p32) && (length p33 == 33%nat) && is_none (from_prefix p33).

Definition schema_v3_size_matches_header_constant : bool :=
  (Z.of_nat (length (exec_event_bytes ExecEvent_default)) == EXEC_EVENT_STRUCT_SIZE) && (EXEC_EVENT_STRUCT_SIZE == 932) &&
  (EXEC_EVENT_SCHEMA_VERSION == 3) && (MAX_ENV_LEN == 256%nat) && (MAX_ENV_SCAN == 16%nat).

Lemma common_tests :
  all_pass [all_bpf_object_names_fit_and_are_unique_under_truncation; pinned_map_abi_matches_computed_sizes_and_version;
    widen_legacy_preserves_len_and_zero_pads; bootstrap_prefixes_well_under_historical_16_and_new_32;
    from_prefix_accepts_exact_16_and_32_rejects_33; schema_v3_size_matches_header_constant] = true.
Proof. vm_compute. reflexivity. Qed.

(** ** path_deny.rs *)
Definition window (path : string) : bytes := take PATH_DENY_KEY_BYTES (copy_into (zeroed PATH_DENY_KEY_BYTES) (take PATH_DENY_KEY_BYTES (lit path))).

Definition bootstrap_entries_match_historical_hardcoded_set : bool :=
  ok_and bootstrap_entries (λ entries,
    match entries with
    | [e0; e1; e2] => matches e0 (lit "/tmp/x") && matches e1 (lit "/dev/shm/x") && matches e2 (lit "/var/tmp/x")
    | _ => false
    end).

Definition equivalence_legacy_vs_map_backed_on_edge_cases : bool :=
  ok_and bootstrap_entries (λ entries,
    forallb (λ case, legacy_hardcoded_is_blacklisted (window case) == map_backed_is_blacklisted (window case) entries)
      ["/tmp/payload"; "/tmp/"; "/tmp"; "/tmp2/x"; "/dev/shm/evil"; "/dev/shm"; "/var/tmp/x"; "/var/tmp"; "/bin/ls";
       "/usr/bin/bash"; ""; "/"; "/tm"; "/var/tmp/aaaaaaaa"]%string).

Definition exact_prefix_longer_path_and_near_miss : bool :=
  ok_and bootstrap_entries (λ entries,
    map_backed_is_blacklisted (window "/tmp/") entries && map_backed_is_blacklisted (window "/tmp/a") entries &&
    negb (map_backed_is_blacklisted (window "/tmp2/") entries) && negb (map_backed_is_blacklisted (window "/TMP/x") entries)).

Definition empty_path_and_bootstrap_prefix_still_match_in_window : bool :=
  ok_and bootstrap_entries (λ entries,
    let path := window "/var/tmp/1234567" in
    negb (map_backed_is_blacklisted (window "") entries) && (length path == PATH_DENY_KEY_BYTES) &&
    legacy_hardcoded_is_blacklisted path && map_backed_is_blacklisted path entries).

Abbreviation entries_json := (entries_from_bundle_json bundle_from_str rfc3339 0).

Definition path_deny_key_bytes_boundaries_accept_16_and_32_reject_over : bool :=
  (length p16 == 16%nat) &&
  some_and (from_prefix p16) (λ e16,
    (pd_len e16 == 16) && matches e16 (lit "/var/lib/dockerX/payload") && negb (matches e16 (lit "/var/lib/dockerY/payload"))) &&
  (length p32 == 32%nat) &&
  some_and (from_prefix p32) (λ e32,
    (pd_len e32 == 32) && matches e32 (lit "/opt/neuromesh/staging/binXXXXXX/run") &&
    negb (matches e32 (lit "/opt/neuromesh/staging/binXXXXXY/run"))) &&
  (length p33 == 33%nat) && is_none (from_prefix p33) &&
  err_contains "longer than"
    (entries_json (jtext "{'schema_version':1,'version':'sha256:over','deny_path_prefixes':['" ++ p33 ++ jtext "']}")).

Definition refuse_empty_bundle_prefixes : bool :=
  err_contains "empty" (entries_json (jtext "{'schema_version':1,'version':'sha256:abc','deny_path_prefixes':[]}")).

Definition three_entries (body : bytes) : bool :=
  ok_and (entries_json body) (λ '(version, entries),
    (version == lit "sha256:dead") && (length entries == 3%nat) && map_backed_is_blacklisted (window "/tmp/x") entries).
Definition parse_valid_bundle : bool :=
  three_entries (jtext "{'schema_version':1,'version':'sha256:dead','deny_path_prefixes':['/tmp/','/dev/shm/','/var/tmp/']}").
Definition parse_valid_bundle_schema_v2 : bool :=
  three_entries (jtext "{'schema_version':2,'version':'sha256:dead','deny_path_prefixes':['/tmp/','/dev/shm/','/var/tmp/'],'identity_allow_exceptions':{'scope_path_prefix':'/tmp/','spiffe_ids':['spiffe://neuromesh.security/ns/default/sa/agent-ebpf-sensor'],'issued_at':'2099-01-01T00:00:00Z','expires_at':'2099-01-01T00:01:30Z'}}").
Definition parse_valid_bundle_schema_v3 : bool :=
  three_entries (jtext "{'schema_version':3,'version':'sha256:dead','not_before':'2099-01-01T00:00:00Z','not_after':'2099-01-01T00:05:00Z','deny_path_prefixes':['/tmp/','/dev/shm/','/var/tmp/'],'identity_allow_exceptions':{'scope_path_prefix':'/tmp/','spiffe_ids':['spiffe://neuromesh.security/ns/default/sa/agent-ebpf-sensor'],'issued_at':'2099-01-01T00:00:00Z','expires_at':'2099-01-01T00:01:30Z'}}").

Definition sync_state_becomes_stale_after_ttl : bool :=
  let now := secs 100000 in
  let state := refresh_stale_flag now (mkPolicySyncState (now - POLICY_STALE_AFTER - secs 1) (lit "bootstrap") false) in
  ps_stale state && negb (ps_stale (mark_success now (lit "sha256:new") state)).

Lemma path_deny_tests :
  all_pass [bootstrap_entries_match_historical_hardcoded_set; equivalence_legacy_vs_map_backed_on_edge_cases;
    exact_prefix_longer_path_and_near_miss; empty_path_and_bootstrap_prefix_still_match_in_window;
    path_deny_key_bytes_boundaries_accept_16_and_32_reject_over; refuse_empty_bundle_prefixes; parse_valid_bundle;
    parse_valid_bundle_schema_v2; parse_valid_bundle_schema_v3; sync_state_becomes_stale_after_ttl] = true.
Proof. vm_compute. reflexivity. Qed.

(** ** lsm_decision.rs *)
Definition bootstrap : list PathDenyEntry := match bootstrap_entries with Ok l => l | Err _ => [] end.

Definition filename_pointer_probe_failure_is_deny : bool :=
  (decision_from_path_capture FilenamePointerUnreadable bootstrap == LSM_DENY) && (lsm_hook_result (inr (-14)) == LSM_DENY).

Definition path_bytes_probe_failure_is_deny_not_zero_prefix_allow : bool :=
  (decision_from_path_capture PathBytesUnreadable bootstrap == LSM_DENY) &&
  (decision_from_path_capture (CaptureOk (zeroed PATH_DENY_KEY_BYTES)) bootstrap != LSM_DENY) &&
  (decision_from_path_capture (CaptureOk (zeroed PATH_DENY_KEY_BYTES)) bootstrap == LSM_ALLOW).

Definition successful_reads_preserve_allow_deny_vs_legacy_and_map : bool :=
  forallb (λ path,
    let prefix := window path in
    let expected := if legacy_hardcoded_is_blacklisted prefix then LSM_DENY else LSM_ALLOW in
    (legacy_hardcoded_is_blacklisted prefix == map_backed_is_blacklisted prefix bootstrap) &&
    (decision_from_path_capture (CaptureOk prefix) bootstrap == expected) && (lsm_hook_result (inl expected) == expected))
    ["/tmp/evil"; "/tmp/"; "/tmp2/x"; "/dev/shm/x"; "/var/tmp/y"; "/usr/bin/ls"; ""; "/home/user"]%string.

Definition try_path_err_never_fail_opens_via_hook_wrapper : bool :=
  (lsm_hook_result (inr (-1)) == LSM_DENY) && (lsm_hook_result (inr 0) == LSM_DENY) &&
  (lsm_hook_result (inl LSM_ALLOW) == LSM_ALLOW) && (lsm_hook_result (inl LSM_DENY) == LSM_DENY).

Lemma lsm_decision_tests :
  all_pass [filename_pointer_probe_failure_is_deny; path_bytes_probe_failure_is_deny_not_zero_prefix_allow;
    successful_reads_preserve_allow_deny_vs_legacy_and_map; try_path_err_never_fail_opens_via_hook_wrapper] = true.
Proof. vm_compute. reflexivity. Qed.

(** ** identity_allow.rs *)
Definition is_fresh (v : IdentitySectionValidity) : bool := match v with Fresh _ => true | Invalid _ => false end.
Definition agent_id : bytes := lit "spiffe://neuromesh.security/ns/default/sa/agent-ebpf-sensor".

Definition scope_path_prefix_not_tmp_is_invalid : bool :=
  match evaluate_identity_section (lit "/var/tmp/") [agent_id] (secs 1000) (secs 1090) (secs 1005) with
  | Invalid reason => contains_sub (lit reason) (lit "scope_path_prefix")
  | Fresh _ => false
  end.
Definition scope_path_prefix_empty_is_invalid : bool :=
  negb (is_fresh (evaluate_identity_section [] [] (secs 1) (secs 100) (secs 10))).
Definition fresh_tmp_scope_accepted : bool :=
  is_fresh (evaluate_identity_section (lit "/tmp/") [agent_id] (secs 1000) (secs 1090) (secs 1005)).
Definition ttl_expiry_invalidates : bool :=
  negb (is_fresh (evaluate_identity_section (lit "/tmp/") [] (secs 1000) (secs 1090) (secs 1090))).

Definition at_time (s : string) : Z := default 0 (rfc3339 (lit s)).
Abbreviation parse_at := (parse_policy_bundle_json_at bundle_from_str rfc3339).

Definition parse_v2_wrong_scope_path_prefix_invalidates_identity_section : bool :=
  ok_and (parse_at (jtext "{
            'schema_version': 2,
            'version': 'sha256:test',
            'deny_path_prefixes': ['/tmp/', '/dev/shm/', '/var/tmp/'],
            'identity_allow_exceptions': {
                'scope_path_prefix': '/dev/shm/',
                'spiffe_ids': ['spiffe://neuromesh.security/ns/default/sa/agent-ebpf-sensor'],
                'issued_at': '2026-07-25T19:00:00Z',
                'expires_at': '2026-07-25T19:01:30Z'
            }
        }") (at_time "2026-07-25T19:00:10Z")) (λ parsed,
    (length (pb_deny_path_prefixes parsed) == 3%nat) &&
    match pb_identity parsed with
    | Invalid reason => contains_sub (lit reason) (lit "scope_path_prefix")
    | Fresh _ => false
    end).

Definition parse_v2_path_form_spiffe_ids_fresh : bool :=
  ok_and (parse_at (jtext "{
            'schema_version': 2,
            'version': 'sha256:abc',
            'deny_path_prefixes': ['/tmp/', '/dev/shm/', '/var/tmp/'],
            'identity_allow_exceptions': {
                'scope_path_prefix': '/tmp/',
                'spiffe_ids': [
                    'spiffe://neuromesh.security/ns/default/sa/agent-ebpf-sensor',
                    'spiffe://neuromesh.security/ns/default/sa/zt-policy-engine'
                ],
                'issued_at': '2026-07-25T19:00:00Z',
                'expires_at': '2026-07-25T19:01:30Z'
            }
        }") (at_time "2026-07-25T19:00:10Z")) (λ parsed,
    match pb_identity parsed with
    | Fresh s =>
        (ias_scope_path_prefix s == lit "/tmp/") && (length (ias_spiffe_ids s) == 2%nat) &&
        some_and (ias_spiffe_ids s !! 0%nat) (λ id, contains_sub id (lit "/ns/default/sa/"))
    | Invalid _ => false
    end).

Definition parse_v2_expired_identity_invalid : bool :=
  ok_and (parse_at (jtext "{
            'schema_version': 2,
            'version': 'sha256:abc',
            'deny_path_prefixes': ['/tmp/'],
            'identity_allow_exceptions': {
                'scope_path_prefix': '/tmp/',
                'spiffe_ids': [],
                'issued_at': '2026-07-25T19:00:00Z',
                'expires_at': '2026-07-25T19:01:30Z'
            }
        }") (at_time "2026-07-25T19:05:00Z")) (λ parsed, negb (is_fresh (pb_identity parsed))).

Definition parse_v3_with_temporal_fields : bool :=
  ok_and (parse_at (jtext "{
            'schema_version': 3,
            'version': 'sha256:abc',
            'not_before': '2026-07-25T19:00:00Z',
            'not_after': '2026-07-25T19:05:00Z',
            'deny_path_prefixes': ['/tmp/', '/dev/shm/', '/var/tmp/'],
            'identity_allow_exceptions': {
                'scope_path_prefix': '/tmp/',
                'spiffe_ids': [
                    'spiffe://neuromesh.security/ns/default/sa/agent-ebpf-sensor'
                ],
                'issued_at': '2026-07-25T19:00:00Z',
                'expires_at': '2026-07-25T19:01:30Z'
            }
        }") (at_time "2026-07-25T19:00:10Z")) (λ parsed,
    (pb_schema_version parsed == 3) && is_some (pb_not_before parsed) && is_some (pb_not_after parsed) &&
    is_fresh (pb_identity parsed)).

Definition parse_manual_cgroup_ids_csv : bool :=
  ok_and (parse_manual_cgroup_ids (lit " 12, 34,56 ")) (λ ids, ids == [12; 34; 56]).

Definition manual_seed_warning_mentions_env_and_lab_only : bool :=
  (IDENTITY_ALLOW_CGROUP_IDS_ENV == lit "NEUROMESH_IDENTITY_ALLOW_CGROUP_IDS") && (IDENTITY_EXCEPTION_TTL == secs 90).

Lemma identity_allow_tests :
  all_pass [scope_path_prefix_not_tmp_is_invalid; scope_path_prefix_empty_is_invalid; fresh_tmp_scope_accepted;
    ttl_expiry_invalidates; parse_v2_wrong_scope_path_prefix_invalidates_identity_section;
    parse_v2_path_form_spiffe_ids_fresh; parse_v2_expired_identity_invalid; parse_v3_with_temporal_fields;
    parse_manual_cgroup_ids_csv; manual_seed_warning_mentions_env_and_lab_only] = true.
Proof. vm_compute. reflexivity. Qed.

(** ** policy_sync.rs *)
Definition parsed_temporal (schema : Z) (not_before not_after : option string) : ParsedPolicyBundle :=
  mkParsedPolicyBundle schema (lit "sha256:test") [lit "/tmp/"] (Invalid "test") (at_time <$> not_before) (at_time <$> not_after).
Definition temporal (schema : Z) (not_before not_after : option string) (now : string) : result unit :=
  verify_bundle_temporal_with_skew (parsed_temporal schema not_before not_after) (at_time now) BUNDLE_CLOCK_SKEW.
Definition noon_window (schema : Z) : string → result unit :=
  temporal schema (Some "2026-08-12T12:00:00Z"%string) (Some "2026-08-12T12:05:00Z"%string).

Definition verify_bundle_temporal_ok_inside_window : bool := is_ok (noon_window 3 "2026-08-12T12:02:00Z").
Definition verify_bundle_temporal_expired : bool := err_contains "bundle_expired" (noon_window 3 "2026-08-12T12:05:06Z").
Definition verify_bundle_temporal_not_yet_valid : bool :=
  err_contains "bundle_not_yet_valid" (noon_window 3 "2026-08-12T11:59:54Z").
Definition verify_bundle_temporal_skew_allows_boundary : bool :=
  is_ok (noon_window 3 "2026-08-12T11:59:55Z") && is_ok (noon_window 3 "2026-08-12T12:05:05Z").
Definition verify_bundle_temporal_missing_fields : bool :=
  err_contains "bundle_temporal_missing" (temporal 3 None None "2026-08-12T12:00:00Z").
Definition verify_bundle_temporal_schema2_rejected : bool :=
  err_contains "bundle_temporal_missing" (noon_window 2 "2026-08-12T12:02:00Z").

Definition load_bundle_token_from_file : bool :=
  ok_and (load_bundle_token (Some (lit "/tmp/t/token")) None
            (λ p, if p == lit "/tmp/t/token" then Some (lit "  secret-from-file" ++ [10]) else None))
    (λ got, got == lit "secret-from-file").
Definition load_bundle_token_missing_fails_closed : bool := is_err (load_bundle_token None None (λ _, None)).

Definition test_key : bytes := lit "ED25519 bundle".
Definition sign_body (body : bytes) : bytes := b64_encode (toy_ed25519_sign test_key body).
Definition load_bundle_public_key_prefers_policy_bundle_path : bool :=
  ok_and (load_bundle_public_key_pem (Some (lit "/tmp/k/bundle.pub")) None
            (λ p, if p == lit "/tmp/k/bundle.pub" then Some test_key else None))
    (λ pem, pem == test_key).

Definition bundle_v3 (hash : string) : bytes :=
  jtext "{'schema_version':3,'version':'sha256:" ++ lit hash ++
  jtext "','not_before':'2099-01-01T00:00:00Z','not_after':'2099-01-01T00:05:00Z','deny_path_prefixes':['/tmp/','/dev/shm/','/var/tmp/'],'identity_allow_exceptions':{'scope_path_prefix':'/tmp/','spiffe_ids':['spiffe://neuromesh.security/ns/default/sa/agent-ebpf-sensor'],'issued_at':'2099-01-01T00:00:00Z','expires_at':'2099-01-01T00:01:30Z'}}".
Definition sample_bundle_v3 : bytes := bundle_v3 "abad1dea".

Definition verify_bundle_signature_round_trip : bool :=
  is_ok (verify_bundle_signature test_key sample_bundle_v3 (Some (sign_body sample_bundle_v3))).
Definition verify_bundle_signature_missing : bool :=
  err_contains "signature_missing" (verify_bundle_signature test_key sample_bundle_v3 None).
Definition verify_bundle_signature_invalid : bool :=
  err_contains "signature_invalid" (verify_bundle_signature test_key sample_bundle_v3 (Some (lit "YWJjZGVm"))).
Definition verify_bundle_signature_tampered_body : bool :=
  err_contains "signature_invalid"
    (verify_bundle_signature test_key (bundle_v3 "deadbeef") (Some (sign_body sample_bundle_v3))).

(** The stub server: one answer, and the bearer token it insists on. *)
Definition stub_base : bytes := lit "http://127.0.0.1:4711".
Definition spawn_stub_with_extra_headers (expect_bearer : option string) (status : Z) (body : bytes)
    (signature_b64 retry_after : option bytes) (url auth : bytes) : option http_response :=
  if (url == lit "http://127.0.0.1:4711/v1/policy-bundle") &&
     match expect_bearer with Some token => auth == lit "Bearer " ++ lit token | None => true end
  then Some (mkHttpResponse status retry_after signature_b64 (Some body)) else None.
Definition spawn_stub (expect_bearer : option string) (status : Z) (body : bytes) (signature_b64 : option bytes) :
    bytes → bytes → option http_response :=
  spawn_stub_with_extra_headers expect_bearer status body signature_b64 None.

Definition fetch_valid_token_returns_body_and_signature : bool :=
  let sig := sign_body sample_bundle_v3 in
  ok_and (fetch_policy_bundle (spawn_stub (Some "good-token"%string) 200 sample_bundle_v3 (Some sig)) stub_base (lit "good-token"))
    (λ fetched,
      contains_sub (fb_body fetched) (lit "deny_path_prefixes") && (fb_signature_b64 fetched == Some sig) &&
      ok_and (entries_json (fb_body fetched)) (λ '(version, entries),
        (version == lit "sha256:abad1dea") && (length entries == 3%nat))).

Definition fetch_missing_token_rejected_no_unauthenticated_retry : bool :=
  let r := fetch_policy_bundle (spawn_stub None 401 (lit "unauthorized") None) stub_base (lit "any-token") in
  err_contains "authentication rejected" r && err_contains "no unauthenticated retry" r.
Definition fetch_invalid_token_rejected : bool :=
  err_contains "authentication rejected"
    (fetch_policy_bundle (spawn_stub (Some "wrong"%string) 401 (lit "unauthorized") None) stub_base (lit "wrong")).

Definition auth_rejection_retains_last_known_good_sync_state : bool :=
  let state := ps_fresh (secs 10) (lit "sha256:last-known-good") in
  err_contains "retaining last-known-good"
    (fetch_policy_bundle (spawn_stub (Some "expired-or-wrong"%string) 401 (lit "unauthorized") None) stub_base
            (lit "expired-or-wrong")) &&
  negb (ps_stale state) && negb (ps_stale (refresh_stale_flag (secs 11) state)).

(** The server would answer; the request is not made. *)
Definition fetch_empty_token_does_not_contact_server : bool :=
  err_contains "empty bearer"
    (fetch_policy_bundle (λ _ _, Some (mkHttpResponse 200 None None (Some sample_bundle_v3))) stub_base []).

Definition fetch_without_signature_header_yields_none : bool :=
  ok_and (fetch_policy_bundle (spawn_stub (Some "good-token"%string) 200 sample_bundle_v3 None) stub_base (lit "good-token"))
    (λ fetched, is_none (fb_signature_b64 fetched)).

Definition parse_retry_after_secs_integer_and_cap : bool :=
  (parse_retry_after_secs (Some (lit "3")) == Some (secs 3)) && (parse_retry_after_secs (Some (lit "9999")) == Some (secs 300)) &&
  is_none (parse_retry_after_secs (Some (lit "Wed, 21 Oct 2015"))) && is_none (parse_retry_after_secs None).

Definition throttled_fetch (token : string) (body : string) (retry : string) : result FetchedBundle :=
  fetch_policy_bundle (spawn_stub_with_extra_headers (Some token) 429 (lit body) None (Some (lit retry))) stub_base (lit token).
Definition fetch_429_is_rate_limited_not_signature_or_temporal : bool :=
  let r := throttled_fetch "good-token" "rate limit exceeded" "2" in
  match r with Err e => some_and (downcast_rate_limited e) (λ '(_, retry_after), retry_after == Some (secs 2)) | Ok _ => false end &&
  err_contains "rate_limited" r && err_contains "not a security rejection" r && negb (err_contains "signature_invalid" r) &&
  negb (err_contains "bundle_expired" r) && negb (err_contains "authentication rejected" r).
Definition sync_once_429_short_circuits_before_signature_verify : bool :=
  let r := throttled_fetch "tok" "throttled" "1" in
  match r with Err e => is_some (downcast_rate_limited e) | Ok _ => false end &&
  negb (err_contains "signature_" r) && negb (err_contains "bundle_expired" r) && negb (err_contains "bundle_not_yet" r).

Lemma policy_sync_tests :
  all_pass [verify_bundle_temporal_ok_inside_window; verify_bundle_temporal_expired; verify_bundle_temporal_not_yet_valid;
    verify_bundle_temporal_skew_allows_boundary; verify_bundle_temporal_missing_fields;
    verify_bundle_temporal_schema2_rejected; load_bundle_token_from_file; load_bundle_token_missing_fails_closed;
    load_bundle_public_key_prefers_policy_bundle_path; verify_bundle_signature_round_trip; verify_bundle_signature_missing;
    verify_bundle_signature_invalid; verify_bundle_signature_tampered_body; fetch_valid_token_returns_body_and_signature;
    fetch_missing_token_rejected_no_unauthenticated_retry; fetch_invalid_token_rejected;
    auth_rejection_retains_last_known_good_sync_state; fetch_empty_token_does_not_contact_server;
    fetch_without_signature_header_yields_none; parse_retry_after_secs_integer_and_cap;
    fetch_429_is_rate_limited_not_signature_or_temporal; sync_once_429_short_circuits_before_signature_verify] = true.
Proof. vm_compute. reflexivity. Qed.

(** ** bytecode_attestation.rs *)
(** The fixture: three artifacts, a signing key and the files of a directory. *)
Record Fixture : Type := mkFixture {
  fx_manifest : bytes;
  fx_signature : bytes;
  fx_public_key : bytes;
  fx_files : gmap bytes bytes;
  fx_artifacts : list EmbeddedArtifact
}.
Definition signing_key : bytes := lit "P256 cosign".
Definition fixture_artifacts : list EmbeddedArtifact :=
  [mkEmbeddedArtifact (lit "sys_exec.bpf.o") (lit "sys-exec-bytecode-v1");
   mkEmbeddedArtifact (lit "network_filter.bpf.o") (lit "network-filter-bytecode-v1");
   mkEmbeddedArtifact (lit "agent-ebpf-sensor-ebpf") (lit "enforcement-elf-bytecode-v1")].
Definition manifest_json (sha : string) (artifacts : list EmbeddedArtifact) : bytes :=
  jtext "{'schema_version':1,'git_sha':'" ++ lit sha ++ jtext "','build_timestamp':'2026-07-17T00:00:00Z','artifacts':[" ++
  join_comma (map (λ a, jtext "{'name':'" ++ ea_name a ++ jtext "','digest':'" ++ sha256_digest (ea_bytes a) ++ jtext "'}") artifacts) ++
  jtext "]}".
Definition sign_p256 (message : bytes) : bytes := b64_encode (toy_p256_sign signing_key message).
Definition fixture_new : Fixture :=
  let manifest := manifest_json "deadbeef" fixture_artifacts in
  mkFixture (lit "/t/bytecode-manifest.json") (lit "/t/bytecode-manifest.sig") (lit "/t/cosign.pub")
    (<[lit "/t/cosign.pub" := signing_key]> (<[lit "/t/bytecode-manifest.json" := manifest]>
      {[lit "/t/bytecode-manifest.sig" := sign_p256 manifest]})) fixture_artifacts.

Definition set_files (files : gmap bytes bytes) (f : Fixture) : Fixture :=
  mkFixture (fx_manifest f) (fx_signature f) (fx_public_key f) files (fx_artifacts f).
Definition with_file (path : bytes) (data : bytes) (f : Fixture) : Fixture := set_files (<[path := data]> (fx_files f)) f.
Definition without_file (path : bytes) (f : Fixture) : Fixture := set_files (delete path (fx_files f)) f.
Definition with_bytes (i : nat) (data : bytes) (f : Fixture) : Fixture :=
  mkFixture (fx_manifest f) (fx_signature f) (fx_public_key f) (fx_files f)
    (alter (λ a, mkEmbeddedArtifact (ea_name a) data) i (fx_artifacts f)).

Definition fs_read (f : Fixture) (path : bytes) : read_outcome :=
  match fx_files f !! path with Some b => ReadOk b | None => ReadNotFound end.
Definition fx_verify (f : Fixture) : option (ares unit) :=
  verify_artifacts manifest_from_json (fs_read f) (fx_manifest f) (fx_signature f) (fx_public_key f) (fx_artifacts f).
(** [verify_startup] with the three variables set. *)
Definition verify_startup_via_env (manifest signature public_key : bytes) (f : Fixture) : option (ares unit) :=
  verify_startup manifest_from_json (fs_read f) (Some manifest) (Some signature) (Some public_key) (fx_artifacts f).

Definition attests (r : option (ares unit)) : bool := match r with Some (AOk _) => true | _ => false end.
Definition refused (p : AttestationError → bool) (r : option (ares unit)) : bool :=
  match r with Some (AErr e) => p e | _ => false end.
Definition signature_invalid (e : AttestationError) : bool := match e with SignatureInvalid _ => true | _ => false end.
Definition manifest_missing (e : AttestationError) : bool := match e with ManifestMissing _ => true | _ => false end.
Definition signature_missing (e : AttestationError) : bool := match e with SignatureMissing _ => true | _ => false end.
Definition key_missing (e : AttestationError) : bool := match e with PublicKeyMissing _ => true | _ => false end.
Definition mismatch_of (name : string) (e : AttestationError) : bool :=
  match e with DigestMismatch n _ _ => n == lit name | _ => false end.

Definition valid_manifest_signature_and_digests_succeeds : bool := attests (fx_verify fixture_new).
Definition missing_manifest_fails_closed : bool :=
  refused manifest_missing (fx_verify (without_file (fx_manifest fixture_new) fixture_new)).
Definition missing_signature_fails_closed : bool :=
  refused signature_missing (fx_verify (without_file (fx_signature fixture_new) fixture_new)).
Definition invalid_signature_bytes_fails_closed : bool :=
  refused signature_invalid (fx_verify (with_file (fx_signature fixture_new) (lit "not-valid-base64-signature!!!") fixture_new)).
Definition tampered_manifest_fails_closed : bool :=
  refused signature_invalid
    (fx_verify (with_file (fx_manifest fixture_new) (manifest_json "cafebabe" fixture_artifacts) fixture_new)).
Definition digest_mismatch_sys_exec_fails_closed : bool :=
  refused (mismatch_of "sys_exec.bpf.o") (fx_verify (with_bytes 0 (lit "tampered-sys-exec") fixture_new)).
Definition digest_mismatch_network_filter_fails_closed : bool :=
  refused (mismatch_of "network_filter.bpf.o") (fx_verify (with_bytes 1 (lit "tampered-network-filter") fixture_new)).
Definition digest_mismatch_enforcement_fails_closed : bool :=
  refused (mismatch_of "agent-ebpf-sensor-ebpf") (fx_verify (with_bytes 2 (lit "tampered-enforcement-elf") fixture_new)).
Definition empty_embedded_bytes_fails_closed : bool :=
  refused (mismatch_of "sys_exec.bpf.o") (fx_verify (with_bytes 0 [] fixture_new)).
Definition missing_public_key_fails_closed : bool :=
  refused key_missing (fx_verify (without_file (fx_public_key fixture_new) fixture_new)).

Definition ed25519_cosign_compatible_signature_verifies : bool :=
  let key := lit "ED25519 cosign" in
  let artifacts := [mkEmbeddedArtifact (lit "sys_exec.bpf.o") (lit "a"); mkEmbeddedArtifact (lit "network_filter.bpf.o") (lit "b");
                    mkEmbeddedArtifact (lit "agent-ebpf-sensor-ebpf") (lit "c")] in
  let json := manifest_json "abc" artifacts in
  attests (fx_verify (mkFixture (lit "/t/m.json") (lit "/t/m.sig") (lit "/t/cosign.pub")
    (<[lit "/t/cosign.pub" := key]> (<[lit "/t/m.json" := json]> {[lit "/t/m.sig" := b64_encode (toy_ed25519_sign key json)]}))
    artifacts)).

(** The variables a bypass might be asked for with are not arguments of [verify_startup]. *)
Definition no_skip_env_bypass_is_consulted : bool :=
  let f := without_file (fx_manifest fixture_new) fixture_new in
  refused manifest_missing (verify_startup_via_env (fx_manifest f) (fx_signature f) (fx_public_key f) f).

Definition startup_with (manifest signature public_key : option bytes) (f : Fixture) : option (ares unit) :=
  verify_startup_via_env (default (fx_manifest f) manifest) (default (fx_signature f) signature)
    (default (fx_public_key f) public_key) f.
Definition verify_startup_succeeds_with_real_path_env_vars : bool := attests (startup_with None None None fixture_new).
Definition verify_startup_manifest_env_nonexistent_fails_closed : bool :=
  refused manifest_missing (startup_with (Some (lit "/t/does-not-exist-manifest.json")) None None fixture_new).
Definition verify_startup_manifest_env_garbage_fails_closed : bool :=
  refused (λ e, signature_invalid e || match e with ManifestParse => true | _ => false end)
    (startup_with (Some (lit "/t/garbage")) None None (with_file (lit "/t/garbage") (lit "{this is not valid json!!!!") fixture_new)).
Definition verify_startup_manifest_env_wrong_valid_file_fails_closed : bool :=
  let wrong := manifest_json "deadbeef" (fx_artifacts (with_bytes 0 (lit "different-sys-exec-bytes") fixture_new)) in
  refused signature_invalid (startup_with (Some (lit "/t/wrong")) None None (with_file (lit "/t/wrong") wrong fixture_new)).
Definition verify_startup_signature_env_nonexistent_fails_closed : bool :=
  refused signature_missing (startup_with None (Some (lit "/t/does-not-exist.sig")) None fixture_new).
Definition verify_startup_signature_env_garbage_fails_closed : bool :=
  refused signature_invalid
    (startup_with None (Some (lit "/t/garbage.sig")) None
       (with_file (lit "/t/garbage.sig") (lit "%%%not-valid-base64-signature%%%") fixture_new)).
Definition verify_startup_signature_env_wrong_valid_file_fails_closed : bool :=
  let other := jtext "{'schema_version':1,'git_sha':'other','build_timestamp':'t','artifacts':[]}" in
  refused signature_invalid
    (startup_with None (Some (lit "/t/wrong.sig")) None (with_file (lit "/t/wrong.sig") (sign_p256 other) fixture_new)).
Definition verify_startup_pubkey_env_nonexistent_fails_closed : bool :=
  refused key_missing (startup_with None None (Some (lit "/t/does-not-exist.pub")) fixture_new).
Definition verify_startup_pubkey_env_garbage_fails_closed : bool :=
  refused (λ e, signature_invalid e || match e with PublicKeyInvalid _ => true | _ => false end)
    (startup_with None None (Some (lit "/t/garbage.pub")) (with_file (lit "/t/garbage.pub") (lit "not-a-real-key") fixture_new)).
Definition verify_startup_pubkey_env_wrong_valid_file_fails_closed : bool :=
  refused signature_invalid
    (startup_with None None (Some (lit "/t/wrong.pub")) (with_file (lit "/t/wrong.pub") (lit "P256 other") fixture_new)).
Definition verify_startup_manifest_env_wrong_digests_signed_fails_closed : bool :=
  let wrong := manifest_json "deadbeef" (fx_artifacts (with_bytes 1 (lit "network-filter-WRONG") fixture_new)) in
  refused (mismatch_of "network_filter.bpf.o")
    (startup_with (Some (lit "/t/wrong")) (Some (lit "/t/wrong.sig")) None
       (with_file (lit "/t/wrong") wrong (with_file (lit "/t/wrong.sig") (sign_p256 wrong) fixture_new))).

Lemma attestation_tests :
  all_pass [valid_manifest_signature_and_digests_succeeds; missing_manifest_fails_closed; missing_signature_fails_closed;
    invalid_signature_bytes_fails_closed; tampered_manifest_fails_closed; digest_mismatch_sys_exec_fails_closed;
    digest_mismatch_network_filter_fails_closed; digest_mismatch_enforcement_fails_closed; empty_embedded_bytes_fails_closed;
    missing_public_key_fails_closed; ed25519_cosign_compatible_signature_verifies; no_skip_env_bypass_is_consulted;
    verify_startup_succeeds_with_real_path_env_vars; verify_startup_manifest_env_nonexistent_fails_closed;
    verify_startup_manifest_env_garbage_fails_closed; verify_startup_manifest_env_wrong_valid_file_fails_closed;
    verify_startup_signature_env_nonexistent_fails_closed; verify_startup_signature_env_garbage_fails_closed;
    verify_startup_signature_env_wrong_valid_file_fails_closed; verify_startup_pubkey_env_nonexistent_fails_closed;
    verify_startup_pubkey_env_garbage_fails_closed; verify_startup_pubkey_env_wrong_valid_file_fails_closed;
    verify_startup_manifest_env_wrong_digests_signed_fails_closed] = true.
Proof. vm_compute. reflexivity. Qed.
