(* ===== verification/ConfCorrelator.v ===== *)
(** * Unit tests: identity correlator

    The tests of [identity_correlator/*.rs] run on the model. The temporary directories
    of the tests are file systems given as functions; a removed directory is one the
    next file system does not have, and the inotify records the kernel would queue for
    it are written out. *)

From S2P Require Import Prelude RustStd Json Common Bpf IdentityAllow SideTable CgroupPath PodWatch TeardownWatch Correlator Documents TestKit.
#[local] Open Scope test_scope.

#[local] Instance InsertOutcome_eq : EqDecision InsertOutcome.
Proof. solve_decision. Defined.
#[local] Instance CgroupPathStyle_eq : EqDecision CgroupPathStyle.
Proof. solve_decision. Defined.
#[local] Instance SideEntry_eq : EqDecision SideEntry.
Proof. solve_decision. Defined.

(** [sort_unstable] on ids without duplicates. *)
Abbreviation sorted := sort_dedup.
Definition inserts (l : list (Z * SideEntry)) : SideTable := foldl (λ t '(c, e), (st_insert c e t).1) st_new l.

(** ** identity_correlator/side_table.rs *)
Definition entry (uid path : bytes) (inode : Z) : SideEntry := mkSideEntry uid [] [] [] path inode.
Definition auto_entry (uid path : bytes) (inode : Z) (spiffe : bytes) : SideEntry :=
  mkSideEntry uid (lit "default") (lit "sa") spiffe path inode.

Definition max_entries_is_16384 : bool := IDENTITY_ALLOW_CGROUPS_MAX_ENTRIES == 16384.

Definition insert_and_remove_by_cgroup : bool :=
  let '(t, o) := st_insert 10 (entry (lit "pod-a") (lit "/cg/a") 10) st_new in
  let '(t', removed) := remove_by_cgroup 10 t in
  (o == Inserted) && some_and (st_entry t 10) (λ e, sd_pod_uid e == lit "pod-a") &&
  some_and removed (λ e, sd_pod_uid e == lit "pod-a") && is_none (st_entry t' 10) && st_is_empty t'.

Definition insert_same_cgroup_id_is_replaced_not_duplicated : bool :=
  let e := auto_entry (lit "pod-a") (lit "/cg/a") 10 (lit "spiffe://neuromesh.security/ns/default/sa/default") in
  let '(t, o) := st_insert 10 e st_new in
  let '(t, o') := st_insert 10 e t in
  let '(t', gone) := remove_by_pod (lit "pod-a") t in
  (o == Inserted) && (o' == Replaced) && (st_len t == 1%nat) && (length gone == 1%nat) && st_is_empty t'.

Definition remove_by_pod_clears_all_cgroups : bool :=
  let t := inserts [(1, entry (lit "uid-1") (lit "/cg/1") 1); (2, entry (lit "uid-1") (lit "/cg/2") 2);
                    (3, entry (lit "uid-2") (lit "/cg/3") 3)] in
  let '(t, gone) := remove_by_pod (lit "uid-1") t in
  (length gone == 2%nat) && is_none (st_entry t 1) && is_none (st_entry t 2) && is_some (st_entry t 3).

Definition pe_revoke_skips_manual_seed_empty_spiffe : bool :=
  let t := inserts [(1, entry (lit "uid-1") (lit "/cg/1") 1);
                    (2, auto_entry (lit "uid-2") (lit "/cg/2") 2 (lit "spiffe://t/ns/n/sa/gone"))] in
  sorted (plan_pe_allowlist_revoke t ∅) == [2].

Definition replace_updates_indexes : bool :=
  let '(t, _) := st_insert 5 (entry (lit "old") (lit "/cg/old") 5) st_new in
  let '(t, o) := st_insert 5 (entry (lit "new") (lit "/cg/new") 5) t in
  let '(t', gone_old) := remove_by_pod (lit "old") t in
  let '(_, gone_new) := remove_by_pod (lit "new") t' in
  (o == Replaced) && is_none (cgroup_id_for_path t (lit "/cg/old")) &&
  (cgroup_id_for_path t (lit "/cg/new") == Some 5) && (length gone_old == 0%nat) && (length gone_new == 1%nat).

Definition clear_drains_all_indexes : bool :=
  let t := inserts [(1, auto_entry (lit "u1") (lit "/cg/1") 1 (lit "spiffe://t/ns/n/sa/a"));
                    (2, entry (lit "u2") (lit "/cg/2") 2)] in
  let '(t, drained) := st_clear t in
  (length drained == 2%nat) && st_is_empty t && is_none (cgroup_id_for_path t (lit "/cg/1")).

Lemma side_table_tests :
  all_pass [max_entries_is_16384; insert_and_remove_by_cgroup; insert_same_cgroup_id_is_replaced_not_duplicated;
    remove_by_pod_clears_all_cgroups; pe_revoke_skips_manual_seed_empty_spiffe; replace_updates_indexes;
    clear_drains_all_indexes] = true.
Proof. vm_compute. reflexivity. Qed.

(** ** identity_correlator/allowlist.rs *)
Definition replace_and_contains : bool :=
  let c := pe_replace [lit "spiffe://neuromesh.security/ns/default/sa/a"; lit "spiffe://neuromesh.security/ns/default/sa/b"] pe_new in
  pe_contains c (lit "spiffe://neuromesh.security/ns/default/sa/a") &&
  negb (pe_contains c (lit "spiffe://neuromesh.security/ns/default/sa/z")) && (pe_len c == 2%nat).

Definition ttl_style_refresh_replaces_set : bool :=
  let c := pe_replace [lit "spiffe://t/ns/n/sa/new"] (pe_replace [lit "spiffe://t/ns/n/sa/old"] pe_new) in
  negb (pe_contains c (lit "spiffe://t/ns/n/sa/old")) && pe_contains c (lit "spiffe://t/ns/n/sa/new").

Definition clear_empties : bool := pe_len (pe_clear (pe_replace [lit "spiffe://t/ns/n/sa/a"] pe_new)) == 0%nat.

Definition snapshot_is_independent_copy : bool :=
  let c := pe_replace [lit "spiffe://t/ns/n/sa/a"] pe_new in
  let snap := pe_snapshot c in
  let c := pe_replace [lit "spiffe://t/ns/n/sa/b"] c in
  bool_decide (lit "spiffe://t/ns/n/sa/a" ∈ snap) && negb (bool_decide (lit "spiffe://t/ns/n/sa/b" ∈ snap)) &&
  pe_contains c (lit "spiffe://t/ns/n/sa/b").

Lemma allowlist_tests :
  all_pass [replace_and_contains; ttl_style_refresh_replaces_set; clear_empties; snapshot_is_independent_copy] = true.
Proof. vm_compute. reflexivity. Qed.

(** ** identity_correlator/invalidate.rs *)
Definition pod_delete_returns_all_ids : bool :=
  let t := inserts [(10, entry (lit "u1") (lit "/a") 10); (11, entry (lit "u1") (lit "/b") 11)] in
  let '(t, ids) := plan_pod_delete (lit "u1") t in
  (sorted ids == [10; 11]) && st_is_empty t.

Definition teardown_removes_one : bool :=
  let '(t, first) := plan_teardown 7 (inserts [(7, entry (lit "u") (lit "/x") 7)]) in
  (first == Some 7) && ((plan_teardown 7 t).2 == None).

Definition metric_labels_stable : bool :=
  (reason_as_metric_label PodDelete == lit "pod_delete") &&
  (reason_as_metric_label PeAllowlistRevoke == lit "pe_allowlist_revoke") &&
  (resync_as_metric_label InotifyOverflow == lit "inotify_overflow").

Lemma invalidate_tests : all_pass [pod_delete_returns_all_ids; teardown_removes_one; metric_labels_stable] = true.
Proof. vm_compute. reflexivity. Qed.

(** ** identity_correlator/path_parse.rs *)
Definition cgroupfs_burstable_with_container : bool :=
  some_and (parse_cgroup_path
    (lit "/sys/fs/cgroup/kubepods/burstable/podc52a7741-f290-4dde-b6e4-34e623dbc69e/81591f675f72")) (λ p,
  (pc_pod_uid p == lit "c52a7741-f290-4dde-b6e4-34e623dbc69e") && (pc_container_id p == Some (lit "81591f675f72")) &&
  (pc_qos p == Some (lit "burstable")) && (pc_style p == Cgroupfs)).

Definition cgroupfs_guaranteed_no_qos_dir : bool :=
  some_and (parse_cgroup_path (lit "/sys/fs/cgroup/kubepods/podaaaaaaaa-bbbb-cccc-dddd-eeeeeeeeeeee/deadbeef")) (λ p,
  (pc_pod_uid p == lit "aaaaaaaa-bbbb-cccc-dddd-eeeeeeeeeeee") && is_none (pc_qos p) && (pc_style p == Cgroupfs)).

Definition systemd_burstable_pod_slice : bool :=
  some_and (parse_cgroup_path
    (lit "/sys/fs/cgroup/kubepods.slice/kubepods-burstable.slice/kubepods-burstable-podc52a7741_f290_4dde_b6e4_34e623dbc69e.slice/cri-containerd-abc123.scope")) (λ p,
  (pc_pod_uid p == lit "c52a7741-f290-4dde-b6e4-34e623dbc69e") && (pc_qos p == Some (lit "burstable")) &&
  (pc_style p == Systemd) && some_and (pc_container_id p) (λ c, contains_sub c (lit "cri-containerd"))).

Definition systemd_guaranteed_pod_slice : bool :=
  some_and (parse_cgroup_path
    (lit "/sys/fs/cgroup/kubepods.slice/kubepods-podaaaaaaaa_bbbb_cccc_dddd_eeeeeeeeeeee.slice/cri-o-xyz.scope")) (λ p,
  (pc_pod_uid p == lit "aaaaaaaa-bbbb-cccc-dddd-eeeeeeeeeeee") && is_none (pc_qos p) && (pc_style p == Systemd)).

Definition non_k8s_path_returns_none : bool :=
  is_none (parse_cgroup_path (lit "/sys/fs/cgroup/neuromesh-slice2a/allow")) &&
  is_none (parse_cgroup_path (lit "/sys/fs/cgroup/system.slice/foo.service")).

Definition normalize_underscores : bool :=
  normalize_pod_uid (lit "c52a7741_f290_4dde_b6e4_34e623dbc69e") == lit "c52a7741-f290-4dde-b6e4-34e623dbc69e".

Lemma path_parse_tests :
  all_pass [cgroupfs_burstable_with_container; cgroupfs_guaranteed_no_qos_dir; systemd_burstable_pod_slice;
    systemd_guaranteed_pod_slice; non_k8s_path_returns_none; normalize_underscores] = true.
Proof. vm_compute. reflexivity. Qed.

(** ** identity_correlator/spiffe.rs *)
Definition path_form_matches_slice_2a : bool :=
  construct_spiffe_id (lit "neuromesh.security") (lit "default") (lit "agent-ebpf-sensor") ==
  lit "spiffe://neuromesh.security/ns/default/sa/agent-ebpf-sensor".

Definition empty_sa_becomes_default : bool :=
  (construct_spiffe_id (lit "neuromesh.security") (lit "kube-system") [] ==
   lit "spiffe://neuromesh.security/ns/kube-system/sa/default") &&
  (construct_spiffe_id (lit "neuromesh.security") (lit "kube-system") (lit "  ") ==
   lit "spiffe://neuromesh.security/ns/kube-system/sa/default").

Definition trust_domain_env_default_and_override : bool :=
  (trust_domain_from_env None == DEFAULT_SPIFFE_TRUST_DOMAIN) &&
  (trust_domain_from_env (Some (lit "  ")) == DEFAULT_SPIFFE_TRUST_DOMAIN) &&
  (trust_domain_from_env (Some (lit "corp.example")) == lit "corp.example").

Lemma spiffe_tests :
  all_pass [path_form_matches_slice_2a; empty_sa_becomes_default; trust_domain_env_default_and_override] = true.
Proof. vm_compute. reflexivity. Qed.

(** ** identity_correlator/container_match.rs *)
Definition strips_containerd_prefix : bool :=
  some_and (strip_runtime_prefix (lit "containerd://abc123def4567890abc123def4567890abc123def4567890abc123def4567890")) (λ raw,
  starts_with raw (lit "abc123") && negb (contains_sub raw (lit "://"))).

Definition strips_crio_and_docker : bool :=
  (strip_runtime_prefix (lit "cri-o://deadbeef") == Some (lit "deadbeef")) &&
  (strip_runtime_prefix (lit "docker://cafe") == Some (lit "cafe")).

Definition empty_container_id_skips : bool :=
  is_none (strip_runtime_prefix []) && is_none (strip_runtime_prefix (lit "   ")) &&
  is_none (strip_runtime_prefix (lit "containerd://")).

Definition long_raw : bytes := lit "81591f675f72aabbccddeeff00112233445566778899aabbccddeeff00112233".
Definition child_match_cgroupfs_exact : bool := child_matches_raw_id long_raw long_raw.

Definition child_match_systemd_scope : bool :=
  let raw := lit "abc123def456" in
  child_matches_raw_id (lit "cri-containerd-" ++ raw ++ lit ".scope") raw &&
  child_matches_raw_id (lit "crio-" ++ raw ++ lit ".scope") raw.

(** A file system made of directories, as [create_dir_all] makes them: the directory of
    each path and of its ancestors. *)
Fixpoint fs_of_dirs (dirs : list (bytes * Z * list (bytes * Z))) : Fs :=
  match dirs with
  | [] => λ _, None
  | (p, ino, kids) :: dirs => λ q,
      if bool_decide (q = p) then Some (FDir (Some ino) Readable (map (λ '(n, i), (n, FDir (Some i) Readable [])) kids))
      else fs_of_dirs dirs q
  end.
Definition last_component (p : bytes) : bytes := List.last (path_components p) [].
Definition test_uid : bytes := lit "aaaaaaaa-bbbb-cccc-dddd-eeeeeeeeeeee".
Definition cgroupfs_tree : Fs :=
  let pod := lit "/tmp/nm/kubepods/pod" ++ test_uid in
  fs_of_dirs [(lit "/tmp/nm", 1, [(lit "kubepods", 2)]); (lit "/tmp/nm/kubepods", 2, [(lit "pod" ++ test_uid, 3)]);
              (pod, 3, [(long_raw, 4)]); (pod ++ [47] ++ long_raw, 4, [])].

Definition find_leaf_on_temp_tree : bool :=
  some_and (find_existing_pod_dir cgroupfs_tree (lit "/tmp/nm") test_uid) (λ pod_dir,
  some_and (find_container_leaf cgroupfs_tree pod_dir long_raw) (λ leaf, last_component leaf == long_raw)).

Definition systemd_candidate_uses_underscores : bool :=
  existsb (λ p, contains_sub p (lit "kubepods-burstable-poda_b_c_d_e.slice"))
    (candidate_pod_dirs (lit "/sys/fs/cgroup") (lit "a-b-c-d-e")).

Lemma container_match_tests :
  all_pass [strips_containerd_prefix; strips_crio_and_docker; empty_container_id_skips; child_match_cgroupfs_exact;
    child_match_systemd_scope; find_leaf_on_temp_tree; systemd_candidate_uses_underscores] = true.
Proof. vm_compute. reflexivity. Qed.

(** ** identity_correlator/cgroup_resolve.rs *)
Definition finds_temp_dir_inode : bool :=
  let dir := lit "/tmp/neuromesh-cgroup-resolve" in
  let leaf := dir ++ lit "/leaf" in
  let fs := fs_of_dirs [(dir, 11, [(lit "leaf", 12)]); (leaf, 12, [])] in
  ok_and (inode_of_path fs leaf) (λ ino, ok_and (path_for_cgroup_id fs dir ino) (λ found, found == leaf)).

Lemma cgroup_resolve_tests : all_pass [finds_temp_dir_inode] = true.
Proof. vm_compute. reflexivity. Qed.

(** ** identity_correlator/mod.rs *)
Definition overflow_reason_label : bool := resync_as_metric_label InotifyOverflow == lit "inotify_overflow".

(** [Path::exists] where none of the paths is there. *)
Definition nowhere (_ : bytes) : bool := false.

Definition simulated_overflow_sweep_removes_missing_paths : bool :=
  let t := inserts [(1, mkSideEntry (lit "p") [] [] [] (lit "/nonexistent/neuromesh-overflow-test-path") 1)] in
  let '(t, ids) := plan_missing_path_sweep nowhere t in
  (ids == [1]) && st_is_empty t.

Definition tracked_entry (uid path : bytes) (id : Z) : Z * SideEntry :=
  (id, mkSideEntry uid (lit "default") (lit "sa") (lit "spiffe://t/ns/default/sa/sa") path id).

Definition overflow_sweep_clears_all_three_tracked_missing_paths : bool :=
  let uid := lit "pod-overflow-uid" in
  let t := inserts [tracked_entry uid (lit "/nonexistent/neuromesh-overflow-burst/ctr-0") 200;
                    tracked_entry uid (lit "/nonexistent/neuromesh-overflow-burst/ctr-1") 201;
                    tracked_entry uid (lit "/nonexistent/neuromesh-overflow-burst/ctr-2") 202] in
  let '(t', ids) := plan_missing_path_sweep nowhere t in
  (st_len t == 3%nat) && (sorted ids == [200; 201; 202]) && st_is_empty t' &&
  (resync_as_metric_label InotifyOverflow == lit "inotify_overflow").

Definition register_manual_seed_ids_fills_side_table_and_queues_watch : bool :=
  let root := lit "/tmp/neuromesh-manual-seed-bridge" in
  let leaf := root ++ lit "/tracked" in
  let fs := fs_of_dirs [(root, 21, [(lit "tracked", 22)]); (leaf, 22, [])] in
  ok_and (inode_of_path fs leaf) (λ cgroup_id,
  let '(state, r) := register_manual_seed_ids fs root [cgroup_id] demo_start in
  ok_and r (λ entries, entries == [mkSideEntry [] [] [] [] leaf cgroup_id]) &&
  some_and (st_entry (co_table state) cgroup_id) (λ got, sd_cgroup_path got == leaf) &&
  match co_cmds state with [Watch p] => p == leaf | _ => false end).

Lemma correlator_mod_tests :
  all_pass [overflow_reason_label; simulated_overflow_sweep_removes_missing_paths;
    overflow_sweep_clears_all_three_tracked_missing_paths;
    register_manual_seed_ids_fills_side_table_and_queues_watch] = true.
Proof. vm_compute. reflexivity. Qed.

(** ** identity_correlator/pod_watch.rs *)
Definition rejects_empty_node_name : bool := is_err (validate_node_name []) && is_err (validate_node_name (lit "   ")).
Definition accepts_normal_node_name : bool := is_ok (validate_node_name (lit "node-1")).
Definition field_selector_encoding_keeps_eq : bool :=
  urlencoding_field_selector (lit "worker-1") == lit "spec.nodeName=worker-1".

Definition parse_pod_view_extracts_fields : bool :=
  some_and (json_from_text (jtext "{
      'metadata': { 'uid': 'uid-1', 'namespace': 'default' },
      'spec': { 'serviceAccountName': 'agent-ebpf-sensor' },
      'status': {
        'containerStatuses': [{ 'name': 'app', 'containerID': 'containerd://abc123',
                                'state': { 'running': { 'startedAt': '2026-01-01T00:00:00Z' } } }],
        'initContainerStatuses': [{ 'name': 'init', 'containerID': 'containerd://init99',
                                    'state': { 'terminated': { 'exitCode': 0 } } }]
      } }")) (λ obj,
  some_and (parse_pod_view obj) (λ v,
  (pv_uid v == lit "uid-1") && (pv_namespace v == lit "default") && (pv_service_account v == lit "agent-ebpf-sensor") &&
  match pv_containers v with
  | [c0; c1] => cs_running c0 && (cs_container_id c0 == Some (lit "containerd://abc123")) && negb (cs_running c1)
  | _ => false
  end)).

Definition ndjson_buf_splits_across_chunks : bool :=
  let '(buf, first) := push_chunk [] (jtext "{'type':'") in
  let '(_, ls) := push_chunk buf (jtext "ADDED'}" ++ [10] ++ jtext "{'type':'DELETED'}" ++ [10]) in
  (first == []) && (ls == [jtext "{'type':'ADDED'}"; jtext "{'type':'DELETED'}"]).

Definition decode_watch_line_added_and_deleted : bool :=
  some_and (decode_watch_line (jtext "{'type':'ADDED','object':{'metadata':{'uid':'u1','namespace':'ns','resourceVersion':'9'},'spec':{'serviceAccountName':'sa'},'status':{'containerStatuses':[]}}}"))
    (λ '(rv, ev), (rv == Some (lit "9")) && match ev with Some (Upsert p) => pv_uid p == lit "u1" | _ => false end) &&
  some_and (decode_watch_line (jtext "{'type':'DELETED','object':{'metadata':{'uid':'u2','resourceVersion':'10'}}}"))
    (λ '(rv, ev), (rv == Some (lit "10")) && match ev with Some (Deleted uid) => uid == lit "u2" | _ => false end).

(** The stream is read as far as its first chunk, then to its end. *)
Definition mid_stream_line_forwarded_before_connection_closes : bool :=
  let first := jtext "{'type':'MODIFIED','object':{'metadata':{'uid':'mid-stream-uid','namespace':'default','resourceVersion':'42'},'spec':{'serviceAccountName':'default'},'status':{'containerStatuses':[{'name':'main','containerID':'containerd://abc','state':{'running':{}}}]}}}" ++ [10] in
  let '(st, _) := consume_watch_byte_stream [Some first] (mkConsume [] (lit "0") [] None) in
  let '(st', r) := consume_watch_byte_stream [] st in
  match cw_sent st with [Upsert p] => pv_uid p == lit "mid-stream-uid" | _ => false end &&
  is_ok r && (cw_rv st' == lit "42").

Lemma pod_watch_tests :
  all_pass [rejects_empty_node_name; accepts_normal_node_name; field_selector_encoding_keeps_eq;
    parse_pod_view_extracts_fields; ndjson_buf_splits_across_chunks; decode_watch_line_added_and_deleted;
    mid_stream_line_forwarded_before_connection_closes] = true.
Proof. vm_compute. reflexivity. Qed.

(** ** identity_correlator/reconcile.rs *)
Definition status (name : string) (container_id : option bytes) (running : bool) : ContainerStatusView :=
  mkContainerStatusView (lit name) container_id running.

Definition eligible_requires_id_or_running : bool :=
  negb (container_eligible (status "a" None false)) &&
  container_eligible (status "a" (Some (lit "containerd://abc")) false) && container_eligible (status "a" None true).

Definition spiffe_entry (uid sa path : string) (inode : Z) : SideEntry :=
  mkSideEntry (lit uid) (lit "default") (lit sa) (lit "spiffe://t/ns/default/sa/" ++ lit sa) (lit path) inode.

Definition revoke_plan_clears_dropped_spiffe_only : bool :=
  let t := inserts [(1, spiffe_entry "u1" "keep" "/a" 1); (2, spiffe_entry "u2" "drop" "/b" 2);
                    (3, entry (lit "u3") (lit "/c") 3)] in
  let ids := plan_revoke_ids t {[lit "spiffe://t/ns/default/sa/keep"]} in
  let '(t, removed) := apply_revoke_plan ids t in
  (ids == [2]) && (length removed == 1%nat) && is_some (st_entry t 1) && is_some (st_entry t 3) && is_none (st_entry t 2).

Definition allowlist_gate_concept : bool :=
  let cache := pe_replace [lit "spiffe://neuromesh.security/ns/default/sa/ok"] pe_new in
  pe_contains cache (construct_spiffe_id (lit "neuromesh.security") (lit "default") (lit "ok")) &&
  negb (pe_contains cache (construct_spiffe_id (lit "neuromesh.security") (lit "default") (lit "nope"))).

Definition resolve_cgroupfs_leaf_and_skip_empty_id : bool :=
  let resolve uid c := resolve_container_cgroup_path cgroupfs_tree (lit "/tmp/nm") uid c in
  let id := lit "containerd://" ++ long_raw in
  some_and (resolve test_uid (status "app" (Some id) true)) (λ found, last_component found == long_raw) &&
  is_none (resolve test_uid (status "init" None false)) && is_none (resolve test_uid (status "app2" (Some []) true)) &&
  is_none (resolve (lit "bbbbbbbb-bbbb-cccc-dddd-eeeeeeeeeeee") (status "app" (Some id) true)).

Definition resolve_systemd_scope_leaf : bool :=
  let raw := lit "abc123def4567890abc123def4567890abc123def4567890abc123def4567890" in
  let slice := lit "kubepods-burstable-pod11111111_2222_3333_4444_555555555555.slice" in
  let qos := lit "/tmp/nm/kubepods.slice/kubepods-burstable.slice" in
  let scope := lit "cri-containerd-" ++ raw ++ lit ".scope" in
  let pod := qos ++ [47] ++ slice in
  let fs := fs_of_dirs [(lit "/tmp/nm", 1, [(lit "kubepods.slice", 2)]);
                        (lit "/tmp/nm/kubepods.slice", 2, [(lit "kubepods-burstable.slice", 3)]);
                        (qos, 3, [(slice, 4)]); (pod, 4, [(scope, 5)]); (pod ++ [47] ++ scope, 5, [])] in
  some_and (resolve_container_cgroup_path fs (lit "/tmp/nm") (lit "11111111-2222-3333-4444-555555555555")
              (status "main" (Some (lit "containerd://" ++ raw)) true)) (λ found, last_component found == scope).

Definition take_pod_purges_when_spiffe_absent : bool :=
  let cache := pe_replace [lit "spiffe://t/ns/default/sa/other"] pe_new in
  let t := inserts [(9, spiffe_entry "pod-x" "victim" "/cg/x" 9)] in
  let '(t, purge) := take_pod_if_not_allowed (lit "pod-x") (lit "spiffe://t/ns/default/sa/victim") cache t in
  some_and purge (λ '(ids, paths), (ids == [9]) && (paths == [lit "/cg/x"])) && st_is_empty t.

Definition take_pod_none_when_allowed : bool :=
  let spiffe := lit "spiffe://t/ns/default/sa/ok" in
  let t := inserts [(1, spiffe_entry "pod-y" "ok" "/cg/y" 1)] in
  let '(t, purge) := take_pod_if_not_allowed (lit "pod-y") spiffe (pe_replace [spiffe] pe_new) t in
  is_none purge && is_some (st_entry t 1).

Definition side_entry_defaults_empty_sa : bool :=
  let e := side_entry_for_container (mkPodView (lit "u") (lit "ns") (lit "  ") []) (lit "spiffe://t/ns/ns/sa/default") (lit "/p") 7 in
  (sd_service_account e == lit "default") && (sd_inode e == 7) && (sd_spiffe_id e == lit "spiffe://t/ns/ns/sa/default").

Lemma reconcile_tests :
  all_pass [eligible_requires_id_or_running; revoke_plan_clears_dropped_spiffe_only; allowlist_gate_concept;
    resolve_cgroupfs_leaf_and_skip_empty_id; resolve_systemd_scope_leaf; take_pod_purges_when_spiffe_absent;
    take_pod_none_when_allowed; side_entry_defaults_empty_sa] = true.
Proof. vm_compute. reflexivity. Qed.

(** ** identity_correlator/teardown_watch.rs *)
(** [remove_dir] of a child of the directory watched as [wd]. *)
Definition rmdir (wd : Z) (name : string) : inotify_event := mkEvent wd (Some (lit name)) true false false.
Definition watcher : TeardownWatcher sim_inotify := tw_new (mkSimInotify 1 ∅).
Definition watched (paths : list PathBuf) : TeardownWatcher sim_inotify * result (list bool) :=
  foldl (λ '(w, acc) p, let '(w, r) := watch_path (λ _, true) p w in (w, added ← r; acc ← acc; Ok (acc ++ [added]))) (watcher, Ok []) paths.
Definition drained (evs : list inotify_event) (w : TeardownWatcher sim_inotify) : TeardownWatcher sim_inotify * TeardownBatch :=
  let '(w, r) := drain_events [RdEvents evs] w in (w, match r with Ok b => b | Err _ => mkTeardownBatch [] true end).
Definition no_watches (w : TeardownWatcher sim_inotify) : bool :=
  bool_decide (tw_by_path w = ∅) && bool_decide (dom (tw_by_parent w) = ∅) && bool_decide (tw_by_wd w = ∅).
(** The text of an absolute path. *)
Definition path_text (p : PathBuf) : bytes := concat (map (λ c, 47 :: c) p.2).

Definition detects_directory_teardown_via_parent_delete : bool :=
  let leaf := path_key (lit "/tmp/nm-inotify/leaf") in
  let '(w, r) := watched [leaf] in
  let '(_, batch) := drained [rmdir 1 "leaf"] w in
  is_ok r && existsb (λ p, p == leaf) (torn_down_paths batch).

Definition unrelated_sibling_delete_does_not_invalidate_tracked_child : bool :=
  let tracked := path_key (lit "/tmp/nm-inotify-sib/tracked-cgroup") in
  let '(w, r) := watched [tracked] in
  let '(w1, after_sibling) := drained [rmdir 1 "unrelated-sibling"] w in
  let '(w2, after_tracked) := drained [rmdir 1 "tracked-cgroup"] w1 in
  ok_and r (λ added, added == [true]) && (torn_down_paths after_sibling == []) && is_some (tw_by_path w1 !! tracked) &&
  (torn_down_paths after_tracked == [tracked]) && is_none (tw_by_path w2 !! tracked).

Definition burst_teardown_three_tracked_children_under_one_parent : bool :=
  let base := path_key (lit "/tmp/nm-inotify-burst") in
  let leaves := [join base (lit "ctr-0"); join base (lit "ctr-1"); join base (lit "ctr-2")] in
  let table := inserts (imap (λ i leaf, tracked_entry (lit "pod-burst-uid") (path_text leaf) (100 + Z.of_nat i)) leaves) in
  let '(w, r) := watched leaves in
  let '(w', batch) := drained [rmdir 1 "ctr-0"; rmdir 1 "ctr-1"; rmdir 1 "ctr-2"] w in
  let '(table', planned) :=
    foldl (λ '(t, acc) p, match cgroup_id_for_path t (path_text p) with
                          | Some id => let '(t, o) := plan_teardown id t in (t, acc && (o == Some id))
                          | None => (t, false)
                          end) (table, true) (torn_down_paths batch) in
  (st_len table == 3%nat) && ok_and r (λ added, added == [true; true; true]) && (size (tw_by_path w) == 3%nat) &&
  (size (tw_by_parent w) == 1%nat) && some_and (tw_by_parent w !! base) (λ pw, size (pw_children pw) == 3%nat) &&
  negb (overflow batch) && (torn_down_paths batch == leaves) && planned && st_is_empty table' && no_watches w'.

Definition parent_watch_retained_until_last_of_three_children_gone : bool :=
  let base := path_key (lit "/tmp/nm-inotify-retain") in
  let '(a, b, c) := (join base (lit "a"), join base (lit "b"), join base (lit "c")) in
  let '(w, r) := watched [a; b; c] in
  let '(w1, first) := drained [rmdir 1 "a"] w in
  let '(w2, rest) := drained [rmdir 1 "b"; rmdir 1 "c"] w1 in
  is_ok r && (torn_down_paths first == [a]) && some_and (tw_by_parent w1 !! base) (λ pw, size (pw_children pw) == 2%nat) &&
  (size (tw_by_path w1) == 2%nat) && (torn_down_paths rest == [b; c]) && no_watches w2.

Definition overflow_path_with_three_tracked_entries_clears_side_table : bool :=
  let base := path_key (lit "/tmp/nm-inotify-ovf3") in
  let leaves := [join base (lit "x"); join base (lit "y"); join base (lit "z")] in
  let table := inserts (imap (λ i leaf, tracked_entry (lit "pod-ovf") (path_text leaf) (300 + Z.of_nat i)) leaves) in
  let '(w, r) := watched leaves in
  let '(table', ids) := plan_missing_path_sweep nowhere table in
  is_ok r && (sorted ids == [300; 301; 302]) && st_is_empty table' && no_watches (clear_all_watches w).

Lemma teardown_watch_tests :
  all_pass [detects_directory_teardown_via_parent_delete; unrelated_sibling_delete_does_not_invalidate_tracked_child;
    burst_teardown_three_tracked_children_under_one_parent; parent_watch_retained_until_last_of_three_children_gone;
    overflow_path_with_three_tracked_entries_clears_side_table] = true.
Proof. vm_compute. reflexivity. Qed.
