(* ===== verification/ConfPin.v ===== *)
(** * Unit tests: pinned maps

    The tests of [pin_abi.rs], [lsm_pin.rs] and [btf_offsets.rs] run on the model. The
    in-memory double of the pin directory the tests use is a directory of the model;
    the 36-byte entries a current map holds are kept next to it, since only the entries
    of the former layout are read back from a pin. A crash after a rename is a failure
    of the next operation. The tests that damage the BTF file of a kernel damage a small
    synthetic one here; the two that resolve the offsets of that file are left out. *)

From S2P Require Import Prelude RustStd Common Bpf PathDeny PinAbi LsmPin BtfOffsets TestKit.
#[local] Open Scope test_scope.

#[local] Instance PinAbiState_eq : EqDecision PinAbiState.
Proof. solve_decision. Defined.
#[local] Instance MigrationResult_eq : EqDecision MigrationResult.
Proof. solve_decision. Defined.
#[local] Instance DenySeedOverride_eq : EqDecision DenySeedOverride.
Proof. solve_decision. Defined.

(** ** pin_abi.rs *)
Record fake : Type := mkFake { fk_world : world; fk_canonical : list PathDenyEntry }.
Definition empty_pins : fake := mkFake (mkWorld ∅ []) [].
Definition fk_fs (f : fake) : gmap ppath node := w_fs (fk_world f).
Definition set_node (p : ppath) (n : node) (f : fake) : fake :=
  mkFake (mkWorld (<[p := n]> (fk_fs f)) (w_faults (fk_world f))) (fk_canonical f).
Definition with_fault_schedule (faults : list bool) (f : fake) : fake :=
  mkFake (mkWorld (fk_fs f) faults) (fk_canonical f).

Definition touch_dir (d : bytes) : fake → fake := set_node (PRoot d) NDir.
(** A file without map attributes cannot be opened as a map. *)
Definition touch_file (p : ppath) : fake → fake :=
  set_node p (NPin (mkPin (mkObservedMapInfo 0 0 0 0) [] [] false)).
Definition set_info (p : ppath) (i : ObservedMapInfo) : fake → fake := set_node p (NPin (mkPin i [] [] true)).

Definition current_list_info : ObservedMapInfo :=
  mkObservedMapInfo BPF_MAP_TYPE_ARRAY 4 (Z.of_nat PATH_DENY_ENTRY_SIZE) PATH_DENY_MAX_ENTRIES.
Definition legacy_list_info : ObservedMapInfo :=
  mkObservedMapInfo BPF_MAP_TYPE_ARRAY 4 (Z.of_nat PATH_DENY_ENTRY_SIZE_LEGACY) PATH_DENY_MAX_ENTRIES.
Definition count_info : ObservedMapInfo := mkObservedMapInfo BPF_MAP_TYPE_ARRAY 4 4 1.
Definition odd_list_info (value_size : Z) : ObservedMapInfo :=
  mkObservedMapInfo BPF_MAP_TYPE_ARRAY 4 value_size PATH_DENY_MAX_ENTRIES.
Definition small_ring_info : ObservedMapInfo := mkObservedMapInfo BPF_MAP_TYPE_RINGBUF 0 0 1.

Definition list_at (d : option bytes) : ppath :=
  match d with Some d => PSub d PATH_DENY_LIST_MAP | None => PRoot PATH_DENY_LIST_MAP end.
Definition count_at (d : option bytes) : ppath :=
  match d with Some d => PSub d PATH_DENY_COUNT_MAP | None => PRoot PATH_DENY_COUNT_MAP end.
Definition dir0 : bytes := lit "legacy_abi_0".
Definition proc_dir : bytes := PROC_ABI_DIR_PREFIX ++ PROCESS_EVENTS_MAP.

Definition legacy_from_prefixes (prefixes : list bytes) : list LegacyPathDenyEntry :=
  map (λ p, mkLegacyPathDenyEntry (Z.of_nat (length p)) (copy_into (zeroed PATH_DENY_KEY_BYTES_LEGACY) p)) prefixes.
Definition set_legacy_list (p : ppath) (legacy : list LegacyPathDenyEntry) : fake → fake :=
  set_node p (NPin (mkPin legacy_list_info legacy [] true)).
Definition set_count (p : ppath) (n : Z) : fake → fake := set_node p (NPin (mkPin count_info [] [n] true)).
(** In the pin root, or in a staging directory. *)
Definition install_legacy_deny (d : option bytes) (legacy : list LegacyPathDenyEntry) (f : fake) : fake :=
  set_count (count_at d) (Z.of_nat (length legacy)) (set_legacy_list (list_at d) legacy f).

Definition encode_legacy_entry (e : LegacyPathDenyEntry) : bytes := le_encode 4 (lpd_len e) ++ lpd_bytes e.
Definition encode_path_deny_entry (e : PathDenyEntry) : bytes := le_encode 4 (pd_len e) ++ pd_bytes e.
Definition legacy_starts_with_oracle (path : bytes) (legacy : LegacyPathDenyEntry) : bool :=
  let len := Z.to_nat (lpd_len legacy) in
  if bool_decide (len = 0%nat) || bool_decide (PATH_DENY_KEY_BYTES_LEGACY < len)%nat || bool_decide (length path < len)%nat
  then false else take len path == take len (lpd_bytes legacy).

(** Running the operations under test. *)
Definition run {A} (m : stm world A) (f : fake) : fake * result A :=
  let '(w, r) := m (fk_world f) in (mkFake w (fk_canonical f), r).
Definition val {A} (m : stm world A) (f : fake) : result A := (run m f).2.
Definition there (p : ppath) (f : fake) : bool := bool_decide (is_Some (fk_fs f !! p)).
Definition info_at (p : ppath) (f : fake) : result ObservedMapInfo := val (io_map_info p) f.
Definition count_of (f : fake) : result Z := val (io_read_deny_count (count_at None)) f.
Definition staged_dirs (f : fake) : list bytes := match val list_legacy_abi_dirs f with Ok l => l | Err _ => [] end.
Definition assessed (f : fake) (want : PinAbiState) : bool := ok_and (val assess_pin_abi f) (λ s, s == want).
Definition contains (r : MigrationResult) (l : list MigrationResult) : bool := bool_decide (r ∈ l).

(** The loader reuses a pin as it is and creates the missing ones; then the verifier
    refuses a layout other than the current one. *)
Definition fake_load (f : fake) : result fake :=
  let f := if there (list_at None) f then f
           else let g := set_info (list_at None) current_list_info f in mkFake (fk_world g) [] in
  let f := if there (count_at None) f then f else set_count (count_at None) 0 f in
  li ← info_at (list_at None) f;
  ci ← info_at (count_at None) f;
  le ← ok_or (EMsg "PINNED_MAP_ABI row") (expected_abi PATH_DENY_LIST_MAP);
  ce ← ok_or (EMsg "PINNED_MAP_ABI row") (expected_abi PATH_DENY_COUNT_MAP);
  if matches_expected li le && matches_expected ci ce then Ok f
  else Err (EMsg "verifier would reject: value_size mismatch").
Definition simulate_load_empty_canonical (f : fake) : fake := match fake_load f with Ok f => f | Err _ => f end.

Definition write_canonical_entries (entries : list PathDenyEntry) (f : fake) : result fake :=
  li ← info_at (list_at None) f;
  le ← ok_or (EMsg "table") (expected_abi PATH_DENY_LIST_MAP);
  if matches_expected li le then
    let g := set_count (count_at None) (Z.of_nat (length entries)) f in Ok (mkFake (fk_world g) entries)
  else Err (EMsg "write_canonical_entries: LIST ABI not current").
Definition apply_seed_like_startup (seed : DenySeedOverride) (f : fake) : result fake :=
  match seed with
  | Bootstrap => entries ← bootstrap_entries_fallback; write_canonical_entries entries f
  | ResumePinned => Ok f
  | MigratedEntries entries _ => write_canonical_entries entries f
  end.
Definition read_canonical_entries (f : fake) : result (list PathDenyEntry) :=
  n ← count_of f;
  if bool_decide (n = 0) then Err (EMsg "canonical PATH_DENY_COUNT[0] == 0")
  else if bool_decide (length (fk_canonical f) < Z.to_nat n)%nat then Err (EMsg "canonical LIST/COUNT mismatch")
  else Ok (take (Z.to_nat n) (fk_canonical f)).
(** Preparation, load, seed, and the entries then in force. *)
Definition seeded (seed : DenySeedOverride) (f : fake) : result (fake * list PathDenyEntry) :=
  f ← fake_load f; f ← apply_seed_like_startup seed f; got ← read_canonical_entries f; Ok (f, got).

Definition widened (legacy : list LegacyPathDenyEntry) : list PathDenyEntry := omap widen legacy.
Definition prepared (f : fake) (k : fake → DenySeedOverride → list MigrationResult → bool) : bool :=
  match run prepare_pin_root_for_load f with (f, Ok (seed, results)) => k f seed results | (_, Err _) => false end.
Definition migrated_and (seed : DenySeedOverride) (k : list PathDenyEntry → bool → bool) : bool :=
  match seed with MigratedEntries entries from_legacy => k entries from_legacy | _ => false end.
Definition has_match (path : string) (entries : list PathDenyEntry) : bool := existsb (λ e, matches e (lit path)) entries.

(** *** Classification *)
Definition classify_cold : bool := assessed empty_pins Cold.
Definition classify_compatible : bool :=
  assessed (set_info (count_at None) count_info (set_info (list_at None) current_list_info empty_pins)) Compatible.
Definition classify_legacy_migratable_incident_208 : bool :=
  assessed (set_info (count_at None) count_info (set_info (list_at None) legacy_list_info empty_pins)) LegacyMigratable.
Definition classify_incompatible_unknown_value_size : bool :=
  assessed (set_info (count_at None) count_info (set_info (list_at None) (odd_list_info 99) empty_pins))
    (Incompatible PATH_DENY_LIST_MAP).
Definition classify_migration_in_progress : bool :=
  assessed (touch_file (count_at (Some dir0)) (touch_file (list_at (Some dir0)) (touch_dir dir0 empty_pins)))
    (MigrationInProgress dir0).

(** *** Preparation *)
Definition one_entry : list LegacyPathDenyEntry := legacy_from_prefixes [lit "/tmp/"].
Definition staging_entry : list LegacyPathDenyEntry := legacy_from_prefixes [lit "/opt/nm/staging/"].
Definition four_entries : list LegacyPathDenyEntry :=
  legacy_from_prefixes [lit "/tmp/"; lit "/dev/shm/"; lit "/var/tmp/"; lit "/opt/nm/staging/"].

Definition prepare_migrates_and_frees_canonical_names : bool :=
  prepared (install_legacy_deny None one_entry empty_pins) (λ f seed results,
  contains Migrated results && negb (there (list_at None) f) && negb (there (count_at None) f) &&
  there (list_at (Some dir0)) f &&
  migrated_and seed (λ entries from_legacy, from_legacy && (length entries == 1%nat) && has_match "/tmp/x" entries)).

Definition prepare_refuses_incompatible : bool :=
  err_contains "incompatible" (val prepare_pin_root_for_load
    (set_info (count_at None) count_info (set_info (list_at None) (odd_list_info 12) empty_pins))).

Definition prepare_migration_in_progress_idempotent : bool :=
  prepared (install_legacy_deny (Some dir0) staging_entry (touch_dir dir0 empty_pins)) (λ f seed results,
  contains ResumedMigration results && migrated_and seed (λ entries _, has_match "/opt/nm/staging/x" entries) &&
  prepared f (λ _ seed2 _, seed == seed2)).

Definition cleanup_removes_legacy_dirs : bool :=
  let f := touch_file (PSub proc_dir PROCESS_EVENTS_MAP) (touch_file (list_at (Some dir0)) (touch_dir proc_dir (touch_dir dir0 empty_pins))) in
  let '(f1, r1) := run cleanup_legacy_abi_dirs f in
  let '(f2, r2) := run cleanup_proc_abi_dirs f1 in
  is_ok r1 && negb (there (PRoot dir0) f1) && there (PRoot proc_dir) f1 && is_ok r2 && negb (there (PRoot proc_dir) f2).

Definition process_only_staging_cold_stays_cold : bool :=
  let f := touch_file (PSub proc_dir PROCESS_EVENTS_MAP) (touch_dir proc_dir empty_pins) in
  assessed f Cold && prepared f (λ _ seed results, (seed == Bootstrap) && negb (contains BootstrapFallback results)).

Definition both_proc_and_deny_staging_still_migrates : bool :=
  let f := install_legacy_deny (Some dir0) one_entry
             (touch_file (PSub proc_dir PROCESS_EVENTS_MAP) (touch_dir proc_dir (touch_dir dir0 empty_pins))) in
  assessed f (MigrationInProgress dir0) &&
  prepared f (λ _ seed results, contains ResumedMigration results &&
    migrated_and seed (λ entries from_legacy, from_legacy && (length entries == 1%nat) && has_match "/tmp/x" entries)).

Definition select_deny_legacy_dir_prefers_numeric_highest_with_list : bool :=
  let '(d2, d10) := (lit "legacy_abi_2", lit "legacy_abi_10") in
  let f := touch_file (count_at (Some d2)) (touch_file (list_at (Some d2)) (touch_dir d10 (touch_dir d2 empty_pins))) in
  let g := touch_file (count_at (Some d10)) (touch_file (list_at (Some d10)) f) in
  ok_and (val list_legacy_abi_dirs f) (λ l, l == [d2; d10]) && ok_and (val select_deny_legacy_dir f) (λ d, d == Some d2) &&
  ok_and (val select_deny_legacy_dir g) (λ d, d == Some d10) && assessed g (MigrationInProgress d10).

Definition recreate_process_maps_uses_proc_abi_prefix : bool :=
  let '(f, r) := run recreate_mismatched_process_maps (set_info (PRoot PROCESS_EVENTS_MAP) small_ring_info empty_pins) in
  ok_and r (λ l, l == [PROCESS_EVENTS_MAP]) && there (PSub proc_dir PROCESS_EVENTS_MAP) f && (staged_dirs f == []) &&
  ok_and (val list_proc_abi_dirs f) (λ l, l == [proc_dir]) && assessed f Cold.

Definition widen_property_matches_legacy_on_random_paths : bool :=
  let legacy := mkLegacyPathDenyEntry 9 (copy_into (zeroed PATH_DENY_KEY_BYTES_LEGACY) (lit "/dev/shm/")) in
  forallb (λ p, legacy_match_equivalent p legacy)
    [lit "/dev/shm/x"; lit "/dev/shm/"; lit "/tmp/x"; lit "/dev/shm"; lit "/dev/shm/../no"].

Lemma pin_abi_classification_tests :
  all_pass [classify_cold; classify_compatible; classify_legacy_migratable_incident_208;
    classify_incompatible_unknown_value_size; classify_migration_in_progress;
    prepare_migrates_and_frees_canonical_names; prepare_refuses_incompatible; prepare_migration_in_progress_idempotent;
    cleanup_removes_legacy_dirs; process_only_staging_cold_stays_cold; both_proc_and_deny_staging_still_migrates;
    select_deny_legacy_dir_prefers_numeric_highest_with_list; recreate_process_maps_uses_proc_abi_prefix;
    widen_property_matches_legacy_on_random_paths] = true.
Proof. vm_compute. reflexivity. Qed.

(** *** Interrupted migrations *)
(** The count staged, the list still under its canonical name. *)
Definition split_pins : fake :=
  set_count (count_at (Some dir0)) 1 (set_legacy_list (list_at None) staging_entry (touch_dir dir0 empty_pins)).
Definition value_size_at (p : ppath) (f : fake) : option Z := match info_at p f with Ok i => Some (om_value_size i) | Err _ => None end.
Definition legacy_at (p : ppath) (f : fake) : list LegacyPathDenyEntry :=
  match fk_fs f !! p with Some (NPin p) => pin_legacy p | _ => [] end.
Definition payload_len (p : ppath) (f : fake) : nat := length (concat (map encode_legacy_entry (legacy_at p f))).
Definition remove_pin (p : ppath) (f : fake) : fake := (run (io_remove_file p) f).1.

Definition crash_between_count_and_list_rename_converges : bool :=
  ok_and (val (resolve_deny_pin_locations dir0) split_pins) (λ locs,
    (loc_list locs == list_at None) && (loc_count locs == count_at (Some dir0))) &&
  assessed split_pins (MigrationInProgress dir0) &&
  prepared split_pins (λ f seed results,
  contains ResumedMigration results && negb (contains BootstrapFallback results) &&
  migrated_and seed (λ entries from_legacy, from_legacy && has_match "/opt/nm/staging/x" entries) &&
  negb (there (list_at None) f) && negb (there (count_at None) f) && there (list_at (Some dir0)) f &&
  there (count_at (Some dir0)) f && (payload_len (list_at (Some dir0)) f == PATH_DENY_ENTRY_SIZE_LEGACY) &&
  (value_size_at (list_at (Some dir0)) f == Some 20) &&
  ok_and (seeded seed f) (λ '(f, got),
    (got == widened staging_entry) && (value_size_at (list_at None) f == Some (Z.of_nat PATH_DENY_ENTRY_SIZE)) &&
    prepared (remove_pin (count_at None) (remove_pin (list_at None) f)) (λ _ seed2 results2,
      contains ResumedMigration results2 && migrated_and seed2 (λ entries _, negb (entries == []))))).

Definition stage_renames_count_before_list : bool :=
  match run stage_legacy_deny_pins (install_legacy_deny None one_entry empty_pins) with
  | (f, Ok dest) =>
      there (list_at (Some dest)) f && there (count_at (Some dest)) f && negb (there (list_at None) f) &&
      negb (there (count_at None) f) && (payload_len (list_at (Some dest)) f == PATH_DENY_ENTRY_SIZE_LEGACY) &&
      ok_and (val (io_read_deny_count (count_at (Some dest))) f) (λ n, n == 1)
  | _ => false
  end.

Definition incident_208_legacy_20b_prepare_seed_byte_exact_36b : bool :=
  let f := install_legacy_deny None four_entries empty_pins in
  let probes := [lit "/tmp/x"; lit "/dev/shm/y"; lit "/var/tmp/z"; lit "/opt/nm/staging/x"; lit "/usr/bin/true"] in
  (value_size_at (list_at None) f == Some 20) &&
  some_and (four_entries !! 3%nat) (λ e, legacy_starts_with_oracle (lit "/opt/nm/staging/x") e &&
                                         negb (legacy_starts_with_oracle (lit "/opt/other/") e)) &&
  forallb (λ e, some_and (widen e) (λ wide,
    forallb (λ path, Bool.eqb (legacy_starts_with_oracle path e) (matches wide path)) probes)) four_entries &&
  prepared f (λ f seed results,
    contains Migrated results && negb (there (list_at None) f) && negb (there (count_at None) f) &&
    ok_and (seeded seed f) (λ '(f, got),
      (got == widened four_entries) && (PATH_DENY_ENTRY_SIZE == 36%nat) &&
      (concat (map encode_path_deny_entry (fk_canonical f)) == concat (map encode_path_deny_entry (widened four_entries))))).

Definition incident_208_prepare_legacy_20b_to_canonical_36b_preserves_entries : bool :=
  let f := install_legacy_deny None four_entries empty_pins in
  (value_size_at (list_at None) f == Some 20) &&
  prepared f (λ f seed results,
    contains Migrated results && negb (there (list_at None) f) && negb (there (count_at None) f) &&
    migrated_and seed (λ migrated from_legacy,
      from_legacy && (migrated == widened four_entries) &&
      forallb (λ e, length (pd_bytes e) == PATH_DENY_KEY_BYTES) migrated && (PATH_DENY_ENTRY_SIZE == 36%nat) &&
      has_match "/opt/nm/staging/x" migrated && negb (migrated == []))).

(** *** A crash after each step *)
Inductive MigrationCrashAfter : Type :=
| CountRename | ListRename | ProcessMapRename | FreshCanonicalEmpty | ListPartiallyWritten | CountWritten
| LinkReplaced | CleanupPartial.

Definition two_entries : list LegacyPathDenyEntry := legacy_from_prefixes [lit "/tmp/"; lit "/opt/nm/staging/"].
Definition operator : PathDenyEntry := default PathDenyEntry_default (widened two_entries !! 1%nat).
Definition crash_start : fake :=
  set_info (PRoot PROCESS_EVENTS_MAP) small_ring_info (install_legacy_deny None two_entries empty_pins).
(** A run of the preparation that fails at the scheduled operation. *)
Definition crashed (faults : list bool) : fake :=
  with_fault_schedule [] (run prepare_pin_root_for_load (with_fault_schedule faults crash_start)).1.
(** The preparation, then the load. *)
Definition loaded (k : DenySeedOverride → fake → option fake) : option fake :=
  match run prepare_pin_root_for_load crash_start with
  | (f, Ok (seed, results)) =>
      if contains Migrated results then
        f ← k seed (simulate_load_empty_canonical f);
        if negb (staged_dirs f == []) then Some f else None
      else None
  | _ => None
  end.
Definition seed_now (seed : DenySeedOverride) (f : fake) : option fake :=
  match apply_seed_like_startup seed f with Ok f => Some f | Err _ => None end.
Definition count_is (n : Z) (f : fake) : option fake := if ok_and (count_of f) (λ m, m == n) then Some f else None.

(** The operations of the preparation are: make the staging directory, move the count,
    move the list, clear the process staging directory (whose failure is ignored), make
    it, move the process map. *)
Definition run_until_crash_after (step : MigrationCrashAfter) : option fake :=
  match step with
  | CountRename => Some (crashed [false; false; true])
  | ListRename => Some (crashed [false; false; false; false; true])
  | ProcessMapRename => Some (crashed [])
  | FreshCanonicalEmpty => loaded (λ _ f, count_is 0 f)
  | ListPartiallyWritten =>
      loaded (λ seed f, match seed with
                        | MigratedEntries entries _ => count_is 0 (mkFake (fk_world f) entries)
                        | _ => None
                        end)
  | CountWritten => loaded (λ seed f, seed_now seed f ≫= count_is 2)
  | LinkReplaced => loaded seed_now
  | CleanupPartial => loaded (λ seed f, f ← seed_now seed f; Some (run cleanup_proc_abi_dirs f).1)
  end.
Definition got_has_operator (f : fake) : bool := ok_and (read_canonical_entries f) (λ got, bool_decide (operator ∈ got)).

Definition assert_seed_converged (f : fake) (seed : DenySeedOverride) (results : list MigrationResult) : bool :=
  negb (contains BootstrapFallback results) &&
  (contains Migrated results || contains ResumedMigration results || contains MCompatible results) &&
  ok_and (seeded seed f) (λ '(f, got), negb (got == []) && bool_decide (operator ∈ got) && negb (staged_dirs f == [])).

Definition converges_after (step : MigrationCrashAfter) : bool :=
  some_and (run_until_crash_after step) (λ f,
  prepared f (λ f seed results,
  match step with
  | FreshCanonicalEmpty | ListPartiallyWritten => contains ResumedMigration results
  | _ => true
  end && assert_seed_converged f seed results)).

Definition crash_after_each_migration_step_converges : bool :=
  forallb converges_after [CountRename; ListRename; ProcessMapRename; FreshCanonicalEmpty; ListPartiallyWritten;
                           CountWritten; LinkReplaced; CleanupPartial] &&
  some_and (run_until_crash_after LinkReplaced) (λ f,
  prepared f (λ f seed _,
  ok_and (seeded seed f) (λ '(f, _),
    let '(f', r) := run cleanup_legacy_abi_dirs f in
    let '(f', r') := run cleanup_proc_abi_dirs f' in
    got_has_operator f && is_ok r && is_ok r' && (staged_dirs f' == []) &&
    ok_and (val list_proc_abi_dirs f') (λ l, l == []) && got_has_operator f'))) &&
  err_contains "incompatible" (val prepare_pin_root_for_load
    (set_info (count_at None) count_info (set_info (list_at None) (odd_list_info 99) empty_pins))).

Definition staged_two : fake := install_legacy_deny (Some dir0) two_entries (touch_dir dir0 empty_pins).
Definition empty_current_abi_canonical_with_staging_is_migration_in_progress : bool :=
  let f := simulate_load_empty_canonical staged_two in
  ok_and (count_of f) (λ n, n == 0) && assessed f (MigrationInProgress dir0).

Definition prepare_empty_canonical_plus_staging_resumes_from_legacy : bool :=
  prepared (simulate_load_empty_canonical staged_two) (λ f seed results,
  contains ResumedMigration results && negb (contains MCompatible results) && negb (contains BootstrapFallback results) &&
  negb (there (list_at None) f) && negb (there (count_at None) f) && there (list_at (Some dir0)) f &&
  migrated_and seed (λ entries from_legacy,
    from_legacy && (length entries == 2%nat) && has_match "/opt/nm/staging/x" entries)).

Definition prepare_empty_canonical_plus_unreadable_staging_bootstrap_fallback : bool :=
  let f := set_count (count_at (Some dir0)) 0 (set_legacy_list (list_at (Some dir0)) [] (touch_dir dir0 empty_pins)) in
  prepared (simulate_load_empty_canonical f) (λ _ seed results,
  contains BootstrapFallback results &&
  migrated_and seed (λ entries from_legacy, negb from_legacy && negb (entries == []))).

Definition count_nonzero_canonical_with_staging_stays_compatible_resume : bool :=
  let f := install_legacy_deny (Some dir0) one_entry (touch_dir dir0 empty_pins) in
  some_and (from_prefix (lit "/opt/nm/staging/")) (λ operator,
  ok_and (f ← fake_load f; write_canonical_entries [operator] f) (λ f,
  assessed f Compatible && prepared f (λ f seed results,
  contains MCompatible results && negb (contains ResumedMigration results) && (seed == ResumePinned) &&
  there (list_at None) f && ok_and (count_of f) (λ n, n == 1)))).

Definition mid_stage_resume_stages_sole_list_then_fake_load_seeds_current_abi : bool :=
  prepared split_pins (λ f seed results,
  contains ResumedMigration results && negb (there (list_at None) f) && there (list_at (Some dir0)) f &&
  (payload_len (list_at (Some dir0)) f == PATH_DENY_ENTRY_SIZE_LEGACY) &&
  ok_and (seeded seed f) (λ '(_, got),
    (got == widened staging_entry) &&
    (map encode_path_deny_entry got == map encode_path_deny_entry (widened staging_entry)))).

(** The completing rename is the second operation of a resumption; the crash is at the
    next one, which clears the process staging directory or frees a name. *)
Definition crash_after_completing_rename_before_seed_still_converges : bool :=
  let '(f, _) := run prepare_pin_root_for_load (with_fault_schedule [false; false; true] split_pins) in
  let f := with_fault_schedule [] f in
  negb (there (list_at None) f) && there (list_at (Some dir0)) f && there (count_at (Some dir0)) f &&
  prepared f (λ f seed results,
  contains ResumedMigration results && ok_and (seeded seed f) (λ '(_, got), got == widened staging_entry)).

Definition count_zero_via_trait_errors_then_bootstrap_fallback : bool :=
  let f := set_count (count_at None) 0 (set_legacy_list (list_at None) [] empty_pins) in
  err_contains "fail-open" (val io_read_legacy_deny_entries f) &&
  prepared f (λ _ seed results, contains BootstrapFallback results &&
    migrated_and seed (λ entries from_legacy, negb from_legacy && negb (entries == []))).

Definition read_deny_count_reads_payload : bool := ok_and (count_of (set_count (count_at None) 7 empty_pins)) (λ n, n == 7).

Lemma pin_abi_migration_tests :
  all_pass [crash_between_count_and_list_rename_converges; stage_renames_count_before_list;
    incident_208_legacy_20b_prepare_seed_byte_exact_36b; incident_208_prepare_legacy_20b_to_canonical_36b_preserves_entries;
    crash_after_each_migration_step_converges; empty_current_abi_canonical_with_staging_is_migration_in_progress;
    prepare_empty_canonical_plus_staging_resumes_from_legacy;
    prepare_empty_canonical_plus_unreadable_staging_bootstrap_fallback;
    count_nonzero_canonical_with_staging_stays_compatible_resume;
    mid_stage_resume_stages_sole_list_then_fake_load_seeds_current_abi;
    crash_after_completing_rename_before_seed_still_converges; count_zero_via_trait_errors_then_bootstrap_fallback;
    read_deny_count_reads_payload] = true.
Proof. vm_compute. reflexivity. Qed.

(** *** The widened matcher on generated prefixes and paths *)
Definition u64 (z : Z) : Z := Z.land z 0xFFFFFFFFFFFFFFFF.
Definition xorshift (seed : Z) : Z :=
  let seed := Z.lxor seed (u64 (Z.shiftl seed 13)) in
  let seed := Z.lxor seed (Z.shiftr seed 7) in
  Z.lxor seed (u64 (Z.shiftl seed 17)).
(** [(next() as u8).wrapping_add(b'a')], [n] times. *)
Fixpoint random_bytes (n : nat) (seed : Z) : bytes * Z :=
  match n with
  | O => ([], seed)
  | S n =>
      let seed := xorshift seed in
      let '(l, last) := random_bytes n seed in (Z.land (seed + 97) 255 :: l, last)
  end.

Definition widen_case (prefix_len path_len : nat) (mutation : Z) (seed : Z) : Z * bool :=
  let '(prefix, seed) := random_bytes prefix_len seed in
  let prefix := match prefix with 0 :: l => 47 :: l | _ => prefix end in
  let legacy := mkLegacyPathDenyEntry (Z.of_nat prefix_len) (copy_into (zeroed PATH_DENY_KEY_BYTES_LEGACY) prefix) in
  let '(path, seed) := random_bytes path_len seed in
  let path :=
    if bool_decide (prefix_len ≤ path_len)%nat then
      if mutation =? 0 then prefix ++ drop prefix_len path
      else if mutation =? 1 then
        take (prefix_len - 1) prefix ++ [Z.lxor (List.last prefix 0) 90] ++ drop prefix_len path
      else path
    else path in
  let legacy_hit := bool_decide (prefix_len ≤ length path)%nat && (take prefix_len path == prefix) in
  let window := take PATH_DENY_KEY_BYTES_LEGACY path in
  let window_hit := bool_decide (prefix_len ≤ length window)%nat && (take prefix_len window == prefix) in
  (seed,
   (bool_decide (PATH_DENY_KEY_BYTES_LEGACY < path_len)%nat || Bool.eqb window_hit legacy_hit) &&
   legacy_match_equivalent path legacy &&
   some_and (widen legacy) (λ wide,
     Bool.eqb (matches wide path) legacy_hit && Bool.eqb (map_backed_is_blacklisted path [wide]) legacy_hit) &&
   forallb (λ boot, negb (boot == prefix) || Bool.eqb (legacy_hardcoded_is_blacklisted path) legacy_hit)
     BOOTSTRAP_PATH_DENY_PREFIXES &&
   Bool.eqb (legacy_starts_with_oracle path legacy) legacy_hit).

Definition property_widen_oracle_all_prefix_and_path_lengths : bool :=
  (foldl (λ st prefix_len, foldl (λ st path_len, foldl (λ '(seed, acc) mutation,
     let '(seed, ok) := widen_case prefix_len path_len mutation seed in (seed, acc && ok)) st [0; 1; 2])
     st (seq 0 41)) (8736800750, true) (seq 1 PATH_DENY_KEY_BYTES_LEGACY)).2.

Lemma pin_abi_widen_tests : all_pass [property_widen_oracle_all_prefix_and_path_lengths] = true.
Proof. vm_compute. reflexivity. Qed.

(** ** lsm_pin.rs *)
#[local] Instance EnforcementPinState_eq : EqDecision EnforcementPinState.
Proof. solve_decision. Defined.
#[local] Instance DenyMapSeedPlan_eq : EqDecision DenyMapSeedPlan.
Proof. solve_decision. Defined.

Definition host_with (f : fake) (link : bool) : host :=
  mkHost (fk_world f) true (if link then Some 1%nat else None) None [] 2.
Definition pinned_maps : fake := touch_file (count_at None) (touch_file (list_at None) empty_pins).

Definition classify_cold_when_nothing_pinned : bool := classify_enforcement_pins (host_with empty_pins false) == PinsCold.
Definition classify_maps_ready_with_and_without_link : bool :=
  (classify_enforcement_pins (host_with pinned_maps false) == MapsReady false) &&
  (classify_enforcement_pins (host_with pinned_maps true) == MapsReady true).
Definition classify_inconsistent_link_without_maps : bool :=
  classify_enforcement_pins (host_with empty_pins true) == InconsistentLinkWithoutMaps.
Definition classify_migration_in_progress_not_inconsistent : bool :=
  classify_enforcement_pins (host_with
    (touch_file (count_at (Some dir0)) (touch_file (list_at (Some dir0)) (touch_dir dir0 empty_pins))) true)
  == PinsMigrationInProgress.

Definition seed_plan_bootstrap_when_not_reused : bool :=
  ok_and (deny_map_seed_plan false 0) (λ p, p == PlanBootstrap) && ok_and (deny_map_seed_plan false 3) (λ p, p == PlanBootstrap).
Definition seed_plan_resume_requires_nonzero_count : bool :=
  err_contains "0 active" (deny_map_seed_plan true 0) && ok_and (deny_map_seed_plan true 3) (λ p, p == PlanResumePinned 3).
Definition pinned_resume_state_is_stale : bool :=
  let now := secs 86400 in
  let state := policy_state_for_pinned_resume now in
  ps_stale state && (ps_last_version state == lit "pinned-resume") &&
  (POLICY_STALE_AFTER <? elapsed now (ps_last_success state)).

Lemma lsm_pin_tests :
  all_pass [classify_cold_when_nothing_pinned; classify_maps_ready_with_and_without_link;
    classify_inconsistent_link_without_maps; classify_migration_in_progress_not_inconsistent;
    seed_plan_bootstrap_when_not_reused; seed_plan_resume_requires_nonzero_count; pinned_resume_state_is_stale] = true.
Proof. vm_compute. reflexivity. Qed.

(** ** btf_offsets.rs *)
#[local] Instance BtfOffsetError_eq : EqDecision BtfOffsetError.
Proof. solve_decision. Defined.

Definition minimal_header : bytes :=
  le_encode 2 BTF_MAGIC ++ [1; 0] ++ le_encode 4 BTF_HEADER_MIN_LEN ++ le_encode 4 0 ++ le_encode 4 0 ++ le_encode 4 0 ++ le_encode 4 0.
Definition patch (at_ : nat) (new blob : bytes) : bytes := take at_ blob ++ new ++ drop (at_ + length new) blob.
Definition patch_header_lengths (type_len str_off str_len : Z) (blob : bytes) : bytes :=
  patch 20 (le_encode 4 str_len) (patch 16 (le_encode 4 str_off) (patch 12 (le_encode 4 type_len) blob)).

(** The type and string sections. *)
Definition append_member (acc : bytes * bytes) (m : string * Z) : bytes * bytes :=
  let '(type_buf, str_buf) := acc in
  (type_buf ++ le_encode 4 (Z.of_nat (length str_buf)) ++ le_encode 4 0 ++ le_encode 4 m.2, str_buf ++ lit m.1 ++ [0]).
Definition append_struct (acc : bytes * bytes) (name : string) (size : Z) (kind_flag : bool) (members : list (string * Z)) :
    bytes * bytes :=
  let '(type_buf, str_buf) := acc in
  let info := Z.lor (Z.lor (Z.shiftl BTF_KIND_STRUCT 24) (Z.of_nat (length members))) (if kind_flag then Z.shiftl 1 31 else 0) in
  foldl append_member
    (type_buf ++ le_encode 4 (Z.of_nat (length str_buf)) ++ le_encode 4 info ++ le_encode 4 size, str_buf ++ lit name ++ [0])
    members.
Definition finish_blob (bufs : bytes * bytes) : bytes :=
  let '(type_buf, str_buf) := bufs in
  patch_header_lengths (Z.of_nat (length type_buf)) (Z.of_nat (length type_buf)) (Z.of_nat (length str_buf))
    (minimal_header ++ type_buf ++ str_buf).
Definition struct_spec : Type := string * Z * bool * list (string * Z).
Definition add_struct (acc : bytes * bytes) (s : struct_spec) : bytes * bytes :=
  let '(name, size, kind_flag, members) := s in append_struct acc name size kind_flag members.
Definition synthetic_btf_single_struct (s : struct_spec) : bytes := finish_blob (add_struct ([], [0]) s).
Definition synthetic_btf_two_structs (first second : struct_spec) : bytes :=
  finish_blob (add_struct (add_struct ([], [0]) first) second).

Definition binprm_spec : struct_spec := ("linux_binprm", 32, false, [("filename", 0)])%string.
Definition fixture_blob : bytes :=
  synthetic_btf_two_structs ("task_struct", 64, false, [("tgid", 32); ("real_parent", 64)])%string binprm_spec.
Definition fails_with (r : outcome ResolvedOffsets) (p : BtfOffsetError → bool) : bool :=
  match r with Fail e => p e | _ => false end.

(** The synthetic file is one the parser accepts. *)
Definition fixture_resolves : bool :=
  match resolve_offsets fixture_blob with
  | Ret r => (bprm_filename_offset r == 0) && (task_real_parent_offset r == 8) && (task_tgid_offset r == 4)
  | _ => false
  end.

Definition too_short (e : BtfOffsetError) : bool := match e with TooShort _ _ _ => true | _ => false end.
Definition rejects_empty_blob : bool := fails_with (resolve_offsets []) too_short.
Definition rejects_truncated_header : bool := fails_with (resolve_offsets (take 10 fixture_blob)) too_short.
Definition rejects_bad_magic : bool := fails_with (resolve_offsets (patch 0 [0; 0] fixture_blob)) (λ e, e == BadMagic 0).
Definition rejects_big_endian_magic : bool :=
  fails_with (resolve_offsets (patch 0 [235; 159] fixture_blob)) (λ e, e == UnsupportedEndianness).
Definition rejects_unsupported_version : bool :=
  fails_with (resolve_offsets (patch 2 [7] fixture_blob)) (λ e, e == UnsupportedVersion 7).
Definition rejects_header_len_smaller_than_minimum : bool :=
  fails_with (resolve_offsets (patch 4 (le_encode 4 4) fixture_blob)) (λ e, e == HeaderTooShort 4 24).
Definition out_of_bounds (section : string) (e : BtfOffsetError) : bool :=
  match e with SectionOutOfBounds s _ _ _ => bool_decide (s = section) | _ => false end.
Definition rejects_type_section_length_past_end_of_blob : bool :=
  fails_with (resolve_offsets (patch 12 (le_encode 4 u32_max) fixture_blob)) (out_of_bounds "type").
Definition rejects_string_section_length_past_end_of_blob : bool :=
  fails_with (resolve_offsets (patch 20 (le_encode 4 u32_max) fixture_blob)) (out_of_bounds "string").
Definition rejects_truncated_type_section_mid_record : bool :=
  match parse_header fixture_blob with
  | Ret header =>
      let type_start := Z.to_nat (hdr_len header + type_off header) in
      fails_with (resolve_offsets (take (type_start + Z.to_nat BTF_TYPE_RECORD_LEN + 2) fixture_blob))
        (λ e, out_of_bounds "type" e || match e with TruncatedTypeRecord _ => true | _ => false end)
  | _ => false
  end.

Definition rejects_struct_present_but_target_member_absent : bool :=
  fails_with (resolve_offsets (synthetic_btf_single_struct ("task_struct", 64, false, [("unrelated_field", 0)])%string))
    (λ e, e == StructNotFound "linux_binprm").
Definition task_with (size : Z) (kind_flag : bool) (members : list (string * Z)) : outcome ResolvedOffsets :=
  resolve_offsets (synthetic_btf_two_structs ("task_struct"%string, size, kind_flag, members) binprm_spec).
Definition rejects_member_absent_when_both_structs_present_but_field_missing : bool :=
  fails_with (task_with 64 false [("unrelated_field"%string, 0)]) (λ e, e == MemberNotFound "task_struct" "real_parent").
Definition rejects_unexpected_bitfield_on_target_member : bool :=
  fails_with (task_with 64 true [("real_parent", Z.lor (Z.shiftl 8 24) 16); ("tgid", 0)]%string)
    (λ e, e == UnexpectedBitfield "task_struct" "real_parent" 8).
Definition rejects_unaligned_bit_offset : bool :=
  fails_with (task_with 64 false [("real_parent", 13); ("tgid", 0)]%string)
    (λ e, e == UnalignedBitOffset "task_struct" "real_parent" 13).
Definition rejects_offset_at_or_past_struct_size : bool :=
  fails_with (task_with 8 false [("real_parent", 64); ("tgid", 0)]%string)
    (λ e, e == OffsetExceedsStructSize "task_struct" "real_parent" 8 8).
Definition rejects_unsupported_kind_while_walking : bool :=
  let blob := minimal_header ++ le_encode 4 0 ++ le_encode 4 (Z.shiftl 31 24) ++ le_encode 4 0 in
  fails_with (resolve_offsets (patch_header_lengths 12 0 0 blob)) (λ e, e == UnsupportedKind 1 31).

Lemma btf_offsets_tests :
  all_pass [fixture_resolves; rejects_empty_blob; rejects_truncated_header; rejects_bad_magic; rejects_big_endian_magic;
    rejects_unsupported_version; rejects_header_len_smaller_than_minimum; rejects_type_section_length_past_end_of_blob;
    rejects_string_section_length_past_end_of_blob; rejects_truncated_type_section_mid_record;
    rejects_struct_present_but_target_member_absent;
    rejects_member_absent_when_both_structs_present_but_field_missing; rejects_unexpected_bitfield_on_target_member;
    rejects_unaligned_bit_offset; rejects_offset_at_or_past_struct_size; rejects_unsupported_kind_while_walking] = true.
Proof. vm_compute. reflexivity. Qed.
