(* ===== verification/ConfOps.v ===== *)
(** * Unit tests: integrity, start-up, ingestion and the forwarders

    The tests of [integrity.rs], [startup_sequence.rs], [observability/healthz.rs],
    [monitoring/ringbuf_async_io.rs], [ingestion/{channel,encoder}.rs] and of the two forwarders,
    run on the model. The tests that search the source files for the order of calls are
    left out, since the order is the one of the definitions; so are those of sockets. *)

From Stdlib Require Import SpecFloat.
From S2P Require Import Prelude RustStd Json Common PathDeny Attestation ExecMapper Detection LsmPin Metrics Integrity Startup Ingestion Protobuf Forwarder Datadog Splunk Documents SinkBodies TestKit.
#[local] Open Scope test_scope.

(** ** integrity.rs *)
(** A node whose files are given by name; no link opens. *)
Definition node_with (files : list (string * string)) : node_view :=
  mkNodeView
    (λ p, match List.find (λ '(n, _), bool_decide (lit n = p)) files with Some (_, c) => Ok (lit c) | None => Err (EMsg "io") end)
    (λ p, existsb (λ '(n, _), bool_decide (lit n = p)) files)
    (λ _, Err (EMsg "open")).
Definition pins_dir : bytes := lit "/tmp/nm".
Definition reason_and (c : option IntegrityFailure) (reason : bytes) (word : string) : bool :=
  some_and c (λ f, (if_reason f == reason) && contains_sub (lit (if_detail f)) (lit word)).

Definition exe_digest_match_and_mismatch : bool :=
  let exe := lit "/tmp/nm/agent.bin" in
  let before := node_with [("/tmp/nm/agent.bin", "neuromesh-agent-v1")]%string in
  let after := node_with [("/tmp/nm/agent.bin", "neuromesh-agent-TAMPERED")]%string in
  ok_and (hash_file before exe) (λ expected,
  is_none (check_exe_digest before exe expected) && reason_and (check_exe_digest after exe expected) REASON_EXE_DIGEST "mismatch").

Definition pinned_map_missing_detected : bool :=
  let paths := enforcement_pin_paths pins_dir in
  some_and (check_pinned_deny_maps (node_with []) paths) (λ f, if_reason f == REASON_PINNED_MAP) &&
  is_none (check_pinned_deny_maps
    (mkNodeView (λ _, Err (EMsg "io")) (λ p, (p == ep_list paths) || (p == ep_count paths)) (λ _, Err (EMsg "open"))) paths).

Definition lsm_link_missing_detected : bool :=
  reason_and (check_lsm_link_pin (node_with []) (ep_link (enforcement_pin_paths pins_dir))) REASON_LSM_LINK "missing".

Definition strip_deleted_suffix_for_linux_proc_exe : bool :=
  (strip_linux_deleted_suffix (lit "/usr/local/bin/agent-ebpf-sensor (deleted)") == lit "/usr/local/bin/agent-ebpf-sensor") &&
  (strip_linux_deleted_suffix (lit "/usr/local/bin/agent-ebpf-sensor") == lit "/usr/local/bin/agent-ebpf-sensor").

Definition config_for (exe on_disk expected : bytes) : IntegrityConfig :=
  mkIntegrityConfig (secs 45) true exe on_disk expected (enforcement_pin_paths pins_dir).
Definition reasons (v : node_view) (cfg : IntegrityConfig) : list bytes := map if_reason (run_integrity_checks v cfg).

Definition on_disk_swap_detected_while_running_inode_unchanged : bool :=
  let '(running, install) := (lit "/tmp/nm/running-inode.bin", lit "/tmp/nm/install-path.bin") in
  let before := node_with [("/tmp/nm/running-inode.bin", "neuromesh-agent-v1"); ("/tmp/nm/install-path.bin", "neuromesh-agent-v1")]%string in
  let after := node_with [("/tmp/nm/running-inode.bin", "neuromesh-agent-v1");
                          ("/tmp/nm/install-path.bin", "neuromesh-agent-TAMPERED-NEXT-RESTART")]%string in
  ok_and (hash_file before running) (λ expected,
  is_none (check_exe_digest before running expected) && is_none (check_on_disk_binary before install expected) &&
  is_none (check_exe_digest after running expected) &&
  some_and (check_on_disk_binary after install expected) (λ f, if_reason f == REASON_ON_DISK_BINARY) &&
  bool_decide (REASON_ON_DISK_BINARY ∈ reasons after (config_for running install expected)) &&
  negb (bool_decide (REASON_EXE_DIGEST ∈ reasons after (config_for running install expected)))).

Definition run_checks_collects_multiple_failures : bool :=
  let '(exe, on_disk) := (lit "/tmp/nm/agent.bin", lit "/tmp/nm/install.bin") in
  let before := node_with [("/tmp/nm/agent.bin", "baseline"); ("/tmp/nm/install.bin", "baseline")]%string in
  let after := node_with [("/tmp/nm/agent.bin", "swapped"); ("/tmp/nm/install.bin", "swapped-disk")]%string in
  ok_and (hash_file before exe) (λ expected,
  forallb (λ r, bool_decide (r ∈ reasons after (config_for exe on_disk expected)))
    [REASON_EXE_DIGEST; REASON_ON_DISK_BINARY; REASON_LSM_LINK; REASON_PINNED_MAP]).

Definition exit_on_failure_env_defaults_true : bool :=
  negb (exit_on_failure_from_env (Some (lit "false"))) && exit_on_failure_from_env None &&
  (interval_from_env None == secs 45) && (interval_from_env (Some (lit "10")) == secs 30) &&
  (interval_from_env (Some (lit "99")) == secs 60).

Definition fresh_metrics : AgentMetrics := metrics_new 0.
Definition handle_failures_increments_metric_and_respects_alert_only : bool :=
  let failures := [mkIntegrityFailure REASON_EXE_DIGEST "test"] in
  let '(m, stop) := handle_integrity_failures false failures fresh_metrics in
  negb stop && (1 <=? integrity_failure_total REASON_EXE_DIGEST m) && (handle_integrity_failures true failures m).2.

Lemma integrity_tests :
  all_pass [exe_digest_match_and_mismatch; pinned_map_missing_detected; lsm_link_missing_detected;
    strip_deleted_suffix_for_linux_proc_exe; on_disk_swap_detected_while_running_inode_unchanged;
    run_checks_collects_multiple_failures; exit_on_failure_env_defaults_true;
    handle_failures_increments_metric_and_respects_alert_only] = true.
Proof. vm_compute. reflexivity. Qed.

(** ** startup_sequence.rs *)
Definition FROZEN_ARMED_BANNER_NO_KAFKA : list bytes :=
  [lit "👁️ Process visibility armed via sys_enter_execve + sys_enter_execveat tracepoints (execveat attach also covers fexecve).";
   lit "🌐 Network visibility armed via tcp_connect kprobe.";
   lit "🔗 Lock-free correlation engine armed (DashMap PID → process name).";
   lit "📨 Correlation Kafka ingestion armed (bounded MPSC → idempotent rdkafka).";
   lit "🛡️ XDR enforcement armed. LSM bprm_check_security active blocking enabled.";
   lit "⚡ Detection brain armed. RuleEngine + DataNormalizer active on ExecEvent v1 streams...";
   lit "📌 eBPF map pinning active under /sys/fs/bpf/neuromesh (PROCESS_EVENTS, RLIMIT_BUCKET)";
   lit "📈 Prometheus /metrics exporter armed (default port 9090, override via NEUROMESH_METRICS_PORT)";
   lit "🩺 Health monitor armed (kernel RLIMIT_DROPS + user-space channel backpressure)";
   lit "📡 Kafka Slow Path disabled (set NEUROMESH_KAFKA_BROKERS to enable)"].

Definition runtime_armed_banner_matches_frozen_pre_refactor_order : bool :=
  runtime_armed_log_lines (lit "/sys/fs/bpf/neuromesh") false == FROZEN_ARMED_BANNER_NO_KAFKA.
Definition kafka_armed_line_is_last_when_brokers_set : bool :=
  let got := runtime_armed_log_lines (lit "/sys/fs/bpf/neuromesh") true in
  (last got == Some LOG_KAFKA_ARMED) && (length got == length FROZEN_ARMED_BANNER_NO_KAFKA).

Definition FROZEN_BOOTSTRAP_LOGS : list bytes :=
  [lit "🚀 [Neuromesh] Initializing Enterprise Agent...";
   lit "🔏 Bytecode attestation verified (signed manifest + embedded digests match)";
   lit "🔎 Resolved kernel-specific struct offsets via BTF: linux_binprm.filename=";
   lit "🛡️ Path-prefix deny list: cold bootstrap (fail-closed defaults)";
   lit "🛡️ Path-prefix deny list: resuming ";
   lit "📌 LSM link pinned at "].
Definition bootstrap_log_constants_match_frozen_pre_refactor : bool :=
  [LOG_INITIALIZING; LOG_ATTESTATION_OK; LOG_BTF_OFFSETS_PREFIX; LOG_DENY_BOOTSTRAP; LOG_DENY_RESUME_PREFIX;
   LOG_LSM_PINNED_PREFIX] == FROZEN_BOOTSTRAP_LOGS.

Lemma startup_sequence_tests :
  all_pass [runtime_armed_banner_matches_frozen_pre_refactor_order; kafka_armed_line_is_last_when_brokers_set;
    bootstrap_log_constants_match_frozen_pre_refactor] = true.
Proof. vm_compute. reflexivity. Qed.

(** ** observability/healthz.rs *)
Definition liveness_fails_when_lsm_pin_missing : bool :=
  let paths := mkEnforcementPinPaths (lit "/nonexistent/PATH_DENY_LIST") (lit "/nonexistent/PATH_DENY_COUNT")
                 (lit "/nonexistent/neuromesh_lsm_exec_guard_link") (lit "/tmp/unused-link-tmp") in
  let report := Integrity.evaluate (node_with []) paths (Some (ps_fresh 0 (lit "bootstrap"))) in
  negb (hr_live report) && negb (hr_lsm_link_pin_ok report) && negb (hr_deny_map_pins_ok report) &&
  negb (bool_decide (length (hr_enforcement_failures report) = 0%nat)).

Definition policy_sync_stale_does_not_fail_liveness_alone : bool :=
  let paths := mkEnforcementPinPaths (lit "/nonexistent/list") (lit "/nonexistent/count") (lit "/nonexistent/link") (lit "/tmp/unused") in
  let report := Integrity.evaluate (node_with []) paths (Some (mkPolicySyncState 0 (lit "sha256:stale") true)) in
  hr_policy_sync_stale report && (hr_policy_sync_version report == lit "sha256:stale") && negb (hr_live report).

Definition json_marks_stale_without_affecting_liveness_flag : bool :=
  let body := health_text (mkHealthReport true true true [] true (lit "sha256:abc")) in
  contains_sub body (jtext "'status':'ok'") && contains_sub body (jtext "'stale':true") &&
  contains_sub body (jtext "'affects_liveness':false").

Lemma healthz_tests :
  all_pass [liveness_fails_when_lsm_pin_missing; policy_sync_stale_does_not_fail_liveness_alone;
    json_marks_stale_without_affecting_liveness_flag] = true.
Proof. vm_compute. reflexivity. Qed.

(** ** monitoring/ringbuf_async_io.rs *)
Definition empty_drain_returns_would_block : bool := is_err (ringbuf_drain_outcome false).
Definition non_empty_drain_returns_ok : bool := is_ok (ringbuf_drain_outcome true).

Lemma ringbuf_async_io_tests : all_pass [empty_drain_returns_would_block; non_empty_drain_returns_ok] = true.
Proof. vm_compute. reflexivity. Qed.

(** ** ingestion/channel.rs *)
Definition channel_config (capacity : Z) : Channel.CorrelationIngestionConfig :=
  Channel.mkCorrelationIngestionConfig (lit "localhost:9092") Channel.DEFAULT_CORRELATION_TOPIC (lit "node-a") capacity.
Definition pressure_threshold_defaults_to_ninety_percent : bool := Channel.pressure_drop_threshold (channel_config 100) == 90.

(** The call passes the check or is a drop still to be counted; its two steps are taken
    one after the other. *)
Definition drops_when_channel_at_pressure_threshold : bool :=
  some_and (Channel.ingestion_new true (channel_config 10)) (λ s,
  let queued := Channel.mkIngestion (Channel.ig_chan s) (Channel.mkStats 0 0 0 0 9) (Channel.ig_passed s) (Channel.ig_dropping s)
                  (Channel.ig_sent s) (Channel.ig_counted s) (Channel.ig_handles s) (Channel.ig_publisher s)
                  (Channel.ig_healthy s) (Channel.ig_delivered s) in
  some_and (Channel.ingestion_run true (channel_config 10) (λ _, None)
              [Channel.Check (mkEnrichedNetworkEvent 1 1000 16843009 443 (lit "curl")); Channel.RecordDropped] queued) (λ s,
  (Channel.st_dropped_events (Channel.ig_stats s) == 1) && (Channel.st_enqueued (Channel.ig_stats s) == 0))).

Lemma channel_tests :
  all_pass [pressure_threshold_defaults_to_ninety_percent; drops_when_channel_at_pressure_threshold] = true.
Proof. vm_compute. reflexivity. Qed.

(** ** ingestion/encoder.rs *)
(** The port is written as the big-endian reading of 443. *)
Definition roundtrip_preserves_correlated_fields : bool :=
  let event := mkEnrichedNetworkEvent 4242 1000 134744072 (le_decode [1; 187]) (lit "/bin/curl") in
  let bytes := encode_enriched_network_event (lit "node-a") (lit "node-a-4242-1") 1 event in
  some_and (prost_decode bytes) (λ decoded,
  (Channel.pe_schema_version decoded == Channel.ENRICHED_NETWORK_EVENT_SCHEMA_VERSION) && (Channel.pe_pid decoded == 4242) &&
  (Channel.pe_process_name decoded == lit "/bin/curl") && (Channel.pe_dest_ip decoded == en_dest_ip event) &&
  (Channel.pe_dest_port decoded == en_dest_port event)).

Lemma encoder_tests : all_pass [roundtrip_preserves_correlated_fields] = true.
Proof. vm_compute. reflexivity. Qed.

(** ** apps/datadog-forwarder/src/config.rs *)
(** An environment given by its variables, and one secret file. *)
Definition env_of (vars : list (bytes * string)) (name : bytes) : option bytes :=
  match List.find (λ '(n, _), bool_decide (n = name)) vars with Some (_, v) => Some (lit v) | None => None end.
Definition one_file (path content : string) (p : bytes) : result bytes :=
  if bool_decide (p = lit path) then Ok (lit content ++ [10]) else Err (EMsg "No such file").
Definition no_file (_ : bytes) : result bytes := Err (EMsg "No such file").

Definition kafka_group_identity_is_distinct_from_splunk_and_ai_detector : bool :=
  (Datadog.KAFKA_GROUP_ID_ENV == lit "NEUROMESH_DATADOG_KAFKA_GROUP_ID") &&
  (Datadog.KAFKA_GROUP_ID_ENV != FORBIDDEN_SHARED_KAFKA_GROUP_ENV) &&
  (Datadog.DEFAULT_KAFKA_GROUP == lit "datadog-forwarder") && (Datadog.DEFAULT_KAFKA_GROUP != lit "splunk-hec-forwarder") &&
  (Datadog.DEFAULT_KAFKA_GROUP != lit "ai-threat-detector").

Definition intake_url_is_site_derived_not_hardcoded_us1_only : bool :=
  ok_and (intake_url_for_site (lit "datadoghq.eu")) (λ u, u == lit "https://http-intake.logs.datadoghq.eu/api/v2/logs") &&
  ok_and (intake_url_for_site (lit "us3.datadoghq.com")) (λ u, u == lit "https://http-intake.logs.us3.datadoghq.com/api/v2/logs") &&
  ok_and (intake_url_for_site (lit "us1")) (λ u, u == lit "https://http-intake.logs.datadoghq.com/api/v2/logs") &&
  is_err (intake_url_for_site (lit "not-a-site")).

Definition missing_api_key_file_yields_inactive_not_panic : bool :=
  let env := env_of [(DATADOG_API_KEY_FILE_ENV, "/tmp/nm-dd-key-missing/missing-key"%string)] in
  is_err (load_api_key_file no_file env) && is_none (Datadog.from_env no_file env).

Definition from_env_none_without_site_or_kafka : bool := is_none (Datadog.from_env no_file (env_of [])).

Definition from_env_ignores_shared_kafka_group_env : bool :=
  let env := env_of [(DATADOG_SITE_ENV, "datadoghq.eu"); (DATADOG_API_KEY_FILE_ENV, "/tmp/nm-dd-key-ok/dd.key");
                     (Datadog.KAFKA_BROKERS_ENV, "localhost:9092"); (FORBIDDEN_SHARED_KAFKA_GROUP_ENV, "ai-threat-detector")]%string in
  some_and (Datadog.from_env (one_file "/tmp/nm-dd-key-ok/dd.key" "test-dd-key") env) (λ cfg,
  (api_key cfg == lit "test-dd-key") && (Datadog.kafka_group_id cfg == Datadog.DEFAULT_KAFKA_GROUP) &&
  (logs_url cfg == lit "https://http-intake.logs.datadoghq.eu/api/v2/logs")).

(** ** apps/datadog-forwarder/src/envelope.rs *)
Definition critical_text : bytes := jtext "{
  'event_id': 'evt-1',
  'timestamp_ns': 1710000000000000000,
  'node_name': 'worker-01',
  'schema_version': 'neuromesh.telemetry.v1',
  'alert_type': 'CRITICAL_ALERT',
  'payload': {
    'rule_id': 'NEUROMESH-EXEC-BLACKLIST-PATH',
    'severity': 'CRITICAL_ALERT',
    'binary_path': '/tmp/evil.bin'
  }
}".
Definition parses_valid_critical_envelope : bool :=
  ok_and (parse_json envelope_from_slice critical_text) (λ env,
  (te_event_id env == lit "evt-1") && (rule_id value_get value_as_str env == Some (lit "NEUROMESH-EXEC-BLACKLIST-PATH"))).

(** ** apps/datadog-forwarder/src/forwarder.rs *)
Definition burst_envelope (id : string) : TelemetryEnvelope jv :=
  mkTelemetryEnvelope (lit id) 1 (lit "n1") ENVELOPE_SCHEMA_VERSION BEHAVIOR_ALERT
    (VObj [(lit "rule_id", VStr (lit "NEUROMESH-EXEC-SPAWN-BURST"))]).
Definition always (status : Z) (_ : nat) : reply := Response status.

(** The worker takes the envelope and makes its requests. *)
Definition enqueue_is_non_blocking_and_forwards_on_success : bool :=
  some_and (spawn 8) (λ f,
  some_and (worker_take (fw_try_enqueue 8 (burst_envelope "e1") f)) (λ f,
  some_and (Datadog.worker_loop value_get value_as_str (always 202) f) (λ f,
  (fs_enqueued (fw_stats f) == 1) && (fs_forwarded (fw_stats f) == 1) && (length (fw_acked f) == 1%nat)))).

Definition three_enqueued : option (forwarder jv) :=
  f ← spawn 1;
  Some (fw_try_enqueue 1 (burst_envelope "e3") (fw_try_enqueue 1 (burst_envelope "e2") (fw_try_enqueue 1 (burst_envelope "e1") f))).
Definition drops_when_queue_full_under_slow_datadog : bool :=
  some_and three_enqueued (λ f, (fs_enqueued (fw_stats f) == 1) && (2 <=? fs_dropped (fw_stats f))).

(** ** apps/datadog-forwarder/src/logs.rs *)
Definition sample_envelope : TelemetryEnvelope jv :=
  mkTelemetryEnvelope (lit "NEUROMESH-EXEC-SPAWN-BURST-4242-110") 1710000000000000000 (lit "node-b") ENVELOPE_SCHEMA_VERSION
    BEHAVIOR_ALERT
    (VObj [(lit "rule_id", VStr (lit "NEUROMESH-EXEC-SPAWN-BURST")); (lit "severity", VStr (lit "BEHAVIOR_ALERT"));
           (lit "spawn_count", json_int 8); (lit "timestamp", VStr (lit "2026-07-12T10:00:01Z"))]).
(** A double that is the given whole number. *)
Definition is_whole (x : spec_float) (n : Z) : bool :=
  match x with S754_finite false m e => (e <=? 0) && (Z.pos m =? n * 2 ^ (- e)) | _ => false end.

Definition maps_envelope_to_datadog_logs_v2_shape : bool :=
  let item := build_datadog_log value_get value_as_str sample_envelope (lit "neuromesh-agent-ebpf-sensor") (lit "neuromesh") in
  (dl_hostname _ item == lit "node-b") && (dl_service _ item == lit "neuromesh-agent-ebpf-sensor") &&
  (dl_ddsource _ item == lit "neuromesh") && contains_sub (dl_message _ item) (lit "BEHAVIOR_ALERT") &&
  contains_sub (dl_message _ item) (lit "NEUROMESH-EXEC-SPAWN-BURST") &&
  (dl_rule_id _ item == Some (lit "NEUROMESH-EXEC-SPAWN-BURST")) &&
  contains_sub (dl_ddtags _ item) (lit "alert_type:BEHAVIOR_ALERT") && is_whole (dl_timestamp _ item) 1710000000 &&
  forallb (λ k, is_some (value_get (datadog_value demo_seconds_text item) (lit k)))
    ["message"; "hostname"; "ddsource"; "payload"]%string.

Lemma datadog_tests :
  all_pass [kafka_group_identity_is_distinct_from_splunk_and_ai_detector; intake_url_is_site_derived_not_hardcoded_us1_only;
    missing_api_key_file_yields_inactive_not_panic; from_env_none_without_site_or_kafka;
    from_env_ignores_shared_kafka_group_env; parses_valid_critical_envelope;
    enqueue_is_non_blocking_and_forwards_on_success; drops_when_queue_full_under_slow_datadog;
    maps_envelope_to_datadog_logs_v2_shape] = true.
Proof. vm_compute. reflexivity. Qed.

(** ** apps/splunk-hec-forwarder/src/config.rs *)
Definition missing_token_file_yields_inactive_not_panic : bool :=
  let env := env_of [(SPLUNK_HEC_TOKEN_FILE_ENV, "/tmp/nm-hec-token-missing/missing-token"%string)] in
  is_err (load_hec_token_file no_file env) && is_none (Splunk.from_env no_file env).
Definition from_env_none_without_url_or_kafka : bool := is_none (Splunk.from_env no_file (env_of [])).
Definition from_env_active_when_url_token_kafka_present : bool :=
  let env := env_of [(SPLUNK_HEC_URL_ENV, "http://127.0.0.1:8088/services/collector/event");
                     (SPLUNK_HEC_TOKEN_FILE_ENV, "/tmp/nm-hec-token-ok/hec.token");
                     (Splunk.KAFKA_BROKERS_ENV, "localhost:9092")]%string in
  some_and (Splunk.from_env (one_file "/tmp/nm-hec-token-ok/hec.token" "test-hec-token") env) (λ cfg,
  (hec_token cfg == lit "test-hec-token") && (Splunk.kafka_topic cfg == Splunk.DEFAULT_KAFKA_TOPIC)).

(** ** apps/splunk-hec-forwarder/src/envelope.rs *)
Definition parses_valid_critical_envelope' : bool := parses_valid_critical_envelope.

(** ** apps/splunk-hec-forwarder/src/forwarder.rs *)
Definition enqueue_is_non_blocking_and_forwards_on_success' : bool :=
  some_and (spawn 8) (λ f,
  some_and (worker_take (fw_try_enqueue 8 (burst_envelope "e1") f)) (λ f,
  some_and (Splunk.worker_loop value_get value_as_str (always 200) f) (λ f,
  (fs_enqueued (fw_stats f) == 1) && (fs_forwarded (fw_stats f) == 1) && (length (fw_acked f) == 1%nat)))).
Definition drops_when_queue_full_under_slow_hec : bool :=
  some_and three_enqueued (λ f, (fs_enqueued (fw_stats f) == 1) && (2 <=? fs_dropped (fw_stats f))).

(** ** apps/splunk-hec-forwarder/src/hec.rs *)
Definition maps_envelope_to_hec_shape : bool :=
  let hec := build_hec_event value_get value_as_str sample_envelope (lit "neuromesh/agent-ebpf-sensor") (lit "neuromesh:alert:v1") None in
  (hb_host _ hec == lit "node-b") && (hb_sourcetype _ hec == lit "neuromesh:alert:v1") && is_whole (hb_time _ hec) 1710000000 &&
  (hp_event_id (hb_event hec) == lit "NEUROMESH-EXEC-SPAWN-BURST-4242-110") &&
  (hp_rule_id _ (hb_event hec) == Some (lit "NEUROMESH-EXEC-SPAWN-BURST")) &&
  (hm_transport (hp_meta _ (hb_event hec)) == lit "kafka->hec") &&
  forallb (λ k, is_some (value_get (hec_value demo_seconds_text hec) (lit k))) ["event"; "time"; "sourcetype"]%string.

Lemma splunk_tests :
  all_pass [missing_token_file_yields_inactive_not_panic; from_env_none_without_url_or_kafka;
    from_env_active_when_url_token_kafka_present; parses_valid_critical_envelope';
    enqueue_is_non_blocking_and_forwards_on_success'; drops_when_queue_full_under_slow_hec;
    maps_envelope_to_hec_shape] = true.
Proof. vm_compute. reflexivity. Qed.
